(* ===== verification/_CoqProject ===== *)
-Q . S2P
Prelude.v
Float64.v
Errors.v
Migrate.v
Json.v
JsonText.v
Config.v
Listener.v
ListenLoop.v
Serialize.v
Codec.v
Database.v
World.v
Status.v
Lifecycle.v
Steps.v
Notifications.v
Streams.v
LiveStream.v
QueueDb.v
Management.v
Evolution.v
Wire.v
Step.v
Context.v
Replay.v
Workflow.v
ReplayChild.v
Program.v
Recovery.v
Conductor.v
ConductorLoop.v
QueueRunner.v
WorkerSlots.v
Admin.v
Runtime.v
Durability.v
QueueDurability.v
Launch.v
Shutdown.v
Client.v
Scheduler.v
System.v
Witnesses.v
SystemWitnesses.v
UnitTests.v
ScenarioTests.v
