(* ===== verification/Prelude.v ===== *)
(** * DBOS Transact for Rust: a verification library

    This library models the durable-execution core of the crate under
    [src/crates/dbos/src] as executable definitions, and proves the properties
    that make it durable.  File names below are relative to that directory.

    ** The program

    A process ([Dbos], runtime/mod.rs) keeps all of its lasting state in a
    Postgres schema: a status row per workflow, a row per operation a workflow
    performed, mailboxes, events and streams (db/).  A workflow body runs in
    the process and performs its operations through a context
    (runtime/context.rs) that checkpoints each of them under a step id; after a
    crash the pending bodies are started again (runtime/recovery.rs) and find
    their recorded results.  Workflows are started directly
    (runtime/workflow.rs) or enqueued and claimed by queue runners
    (runtime/queue.rs), under limits the database and the process enforce
    together, or by cron ticks (runtime/scheduler.rs).  Before anything else a
    process reads its configuration (config.rs) and brings the schema up to
    date (db/migrate.rs); while it runs, an admin server and a conductor manage
    its workflows from outside (runtime/admin.rs, runtime/conductor.rs), and a
    client without a runtime works on the database alone (client.rs).

    ** Files, in dependency order

    - [Prelude]: notations, record updates, automation, machine integers,
      durations and the string functions of the standard library.
    - [Errors] (error.rs): [DbosError], its constructors, accessors and
      predicates, [Result], and equality of errors up to their text.
    - [Migrate] (db/migrate.rs, quoting in db/mod.rs): rendering, the list of
      migrations, and the runner against a [Server] that may lose any round
      trip, with its specification ([Upgrade], [upgrade_step]).
    - [Json]: what the crate uses of serde_json and base64, as classes with
      documented laws ([SerdeJson], [Base64Engine]), and of serde, as the
      classes [Serialize] and [Deserialize].
    - [JsonText]: JSON text (RFC 8259), a writer and a reader, as an instance
      of [SerdeJson] with its laws.
    - [Config] (config.rs): dialect detection, masking, processing.
    - [Listener] (runtime/listener.rs and the waiters of runtime/context.rs):
      the waiter registries as a state machine ([step]).
    - [ListenLoop] (runtime/listener.rs): the loop that feeds them
      ([run_listener_turn]) among notifications and operations ([loop_step]).
    - [Serialize] (serialize.rs): formats, markers, the SuperJSON and legacy
      readers, input and error envelopes.
    - [Codec]: base64 (RFC 4648) as an instance of its class, with the laws,
      and the round trips at concrete data.
    - [Database]: the tables of a schema as finite maps [Db], and the SQL
      operations the statements are written with.
    - [World]: the state of one process, its surroundings [Env] (clocks,
      UUIDs and all other processes), the monad [M] of the [async] functions,
      and transactions.
    - [Status], [Steps], [Notifications], [Streams], [QueueDb], [Management]
      (db/status.rs, steps.rs, notifications.rs, streams.rs, queue.rs,
      management.rs): one definition per database function.
    - [LiveStream] ([read_stream_async] of runtime/mod.rs): the task that
      follows a stream over a channel.
    - [Lifecycle]: the specification of the tables: the life cycle of one
      workflow ([life], [life_step]), well-formed tables ([db_ok]), the steps of
      the database ([db_step]) and what a run of them preserves.
    - [Evolution]: the class [Evolves] of computations that take such steps
      only, and its instances for every operation of db/.
    - [Wire]: JSON objects as requests and responses use them.
    - [Float64]: [f64] and the conversions of [Duration] to and from it.
    - [Step] (runtime/step.rs): retries and their pauses.
    - [Context] (runtime/context.rs): the operations of a workflow body.
    - [Replay]: running a context operation again over its record.
    - [Workflow] (runtime/workflow.rs, registry.rs): starting, enqueueing,
      running a body, child workflows, handles.
    - [ReplayChild], [Program]: the same for children, and workflow bodies as
      sequences of context operations and children, with the theory of running
      them again over their records.
    - [Recovery] (runtime/recovery.rs), [QueueRunner] (runtime/queue.rs) with
      the worker counts over time in [WorkerSlots], [Runtime]
      (runtime/mod.rs).
    - [Conductor] (runtime/conductor.rs), [Admin] (runtime/admin.rs): requests,
      their dispatch and the replies.
    - [ConductorLoop] (runtime/conductor.rs): a connection as the sequence of
      branches its [select!]s complete with, the reconnecting loop, and the
      timing of pings and the read timeout.
    - [Durability], [QueueDurability]: histories of one workflow, started
      directly or enqueued, through any number of interruptions.
    - [Launch] ([launch] of runtime/mod.rs): from a builder and a configuration
      to a running process, over a [Host].
    - [Shutdown] ([shutdown] of runtime/mod.rs): the tasks of a process and
      the order in which they end.
    - [Client] (client.rs), [Scheduler] (runtime/scheduler.rs).
    - [System]: the entry points of all of these together ([entry_point],
      [performs]), and that they keep to the life cycle.
    - [Witnesses], [SystemWitnesses]: every theorem with hypotheses at a
      concrete input.
    - [UnitTests], [ScenarioTests]: the unit tests of the crate, and its
      acceptance tests (../tests) as runs of the model, as boolean definitions
      that evaluate to [true].

    ** How the code is modelled

    An [async fn] that returns [Result<A>] is a computation of type [M A]:
    explicit state passing over [World] with the error channel of [Result].
    Reading a clock or drawing a UUID advances a counter into the streams of
    [Env].  A place where the function is suspended (a sleep, a wait for a
    notification, a pause between polls) is [wait]: the other processes may
    do anything to the database there, as the function [others] of [Env]
    says; theorems that need more state it as a hypothesis ([single_writer],
    [appends_only]).  A transaction runs its body and, on an error or a
    rollback, restores the tables ([transaction]); it is atomic, and a single
    statement is one step.  So the isolation level a transaction asks for
    makes no difference here: a dequeue sees one state of the tables whether
    it runs under REPEATABLE READ (with a global limit) or READ COMMITTED, and
    what two dequeues that overlap in Postgres could do to each other is not
    modelled, apart from the rows one of them holds locked, which are a
    parameter ([RowLocks]).  The order in which Postgres scans a table is a
    parameter too ([PgScan]): any permutation of the rows.

    An SQL statement becomes the corresponding operation on a finite map:
    [INSERT ... ON CONFLICT], [UPDATE ... WHERE] ([update_where]), [SELECT ...
    ORDER BY ... LIMIT] ([select_where], [order_by], [take]), deletes with
    their cascades.  Primary keys, unique indexes and foreign keys are checked
    where the schema checks them, with the error Postgres would report.
    NULL is [None], and comparisons with it follow SQL's three values.

    Integers are [Z] with the wrap-around of the casts the code performs
    ([wrap_i64], [wrap_i32]); failures are values of the error type.  A panic
    is [None] where the code can cause one by itself (the pauses of a step,
    [execute_step_with_retry]), which leaves the body where it is, and for
    a body in general an event of its own ([panic_task]).  What Postgres
    computes on a bigint column overflows with an error in the claim of a
    dequeue ([claimed_deadline]); the count of recovery attempts is not
    checked, as it grows by one per recovery.  Strings are byte
    strings; where Unicode would matter (escapes of [Debug]) the ASCII range
    is modelled.  Floating point is binary64 of the Standard Library's
    [SpecFloat].

    A spawned body is a [task] of the world, run as a whole by [run_task];
    the events of [WorkerSlots] interleave runner turns, ends and panics of
    bodies and everything else in any order, and the executions of [Program]
    ([trace]) interleave the operations of a body with everything else.

    Loops without a bound in the code take fuel, and return [None] (still
    waiting) when it runs out: the poll loop of a handle, the wait of [recv]
    and [get_event], the blocking stream reader, the cron loop.
    [await_workflow_result_spec] and [live_reader_follows_log] say when fuel
    can run out: only while no poll has found the workflow finished, and only
    while the stream is open and its producer active; the replay theorems hold
    for any fuel, and a run cut by fuel is one of the crashes they cover.  The
    migration runner is a bounded loop and needs none.  Loops that only react
    (the listener, the conductor's connection, the queue runner) are driven by
    the list or the run of their inputs instead: what an [await] completes
    with is an input, and a theorem over all inputs covers all schedules.

    Crates are classes with the laws the code relies on: serde_json and base64
    ([Json], with instances in [JsonText] and [Codec]), the file system, sha2
    and hex ([Config], with instances in [SystemWitnesses]), cron and chrono
    ([Scheduler], with instances in [SystemWitnesses]), RFC 3339 parsing
    ([Wire]).  So is the product of a duration and a floating-point literal
    ([QueueRunner]).  Postgres runs the text of the migration scripts: their
    contents and effects are parameters of [Migrate], so its theorems hold for
    any.

    ** What the theorems show

    - The system as a whole ([System]): every entry point refines the life
      cycle of workflows ([system_refines_lifecycle]), so the schema's types
      hold in every reachable state ([reachable_tables_ok]).
    - Durability ([Durability], [QueueDurability]): whatever a workflow has
      been through (starts, runs cut at any operation, crashes, recoveries or
      claims by a queue runner, any number of times), the next recovery or
      claim starts its body once; that body gets over exactly the recorded
      operations without performing them again and goes on where the last run
      stopped; and when it finishes, everyone who asks gets its result
      ([workflow_survives_crashes], [queued_workflow_survives_crashes]).  The
      histories are those of functions that perform the operations of a
      [prog], chosen by the results of the earlier ones only ([performs],
      [same_prog]), one operation at a time with any other activity of the
      process in between ([trace], [aside]); the records, the row and the life of the workflow are left
      to one executor at a time ([single_writer]), and the operations a run
      has completed are recorded.
    - Replay ([Program]): a body that crashed anywhere and is run again
      resumes exactly where it stopped, without performing anything twice, and
      can be stopped again ([crash_recovery_resumes], [replay_deterministic]).
      They rest on one lemma per operation, children included ([Replay],
      [ReplayChild]), put together operation by operation ([replaying]), and on the once-only recording of operations
      ([operation_recorded_once], [child_started_once]).  Awaiting a child's
      result is no recorded operation in the code, and so none of [op].
    - End to end ([Runtime], [Workflow]): a workflow returns what its function
      returns, to every handle ([run_workflow_returns], [handles_agree]);
      starts and enqueues are idempotent; recovery treats each pending
      workflow on its own ([recovery_spec]) and gives up at the dead-letter
      threshold ([dead_letter_threshold]).
    - Queues ([QueueDb], [QueueRunner], [WorkerSlots]): exact claims, column
      by column ([dequeue_claims]), priority order, the rate, worker and global limits, and the worker counts as an
      invariant of all interleavings ([worker_limits_hold]), in which a body
      that panics keeps its slot for good ([panics_starve_queue]).
    - Data ([Notifications], [Streams], [Context], [Management]): exactly-once
      mailboxes, streams as refinements of an abstract log, atomic sends,
      sleeps with a fixed deadline, cancellation, forks and garbage
      collection.
    - Round trips ([Serialize]): values, inputs and errors in both formats,
      and the legacy rows without a format; quoted identifiers ([Migrate]),
      path segments and workflow bodies on the wire ([Conductor]).
    - Migrations ([Migrate]): whatever is lost, a version is recorded exactly
      with its script ([migrations_survive_crashes]), and an undisturbed run
      ends at the current version ([run_migrations_completes]).
    - Outside interfaces: the admin server and the conductor run exactly the
      operation asked for and report its result, as relations that list every
      request with what it reads, does and shows ([handled] and [serves], met
      by the server in [admin_server_spec] and the dispatch in
      [handle_message_replies]); a client's enqueue is the application's
      ([client_enqueue_agrees]); a cron tick runs once
      ([scheduler_once_per_tick]); configuration and masking
      ([process_config_spec], [mask_password_hides]).
    - The tests of the crate pass on the model, with the bodies run in the
      order in which a test waits for them: its unit tests
      ([error_tests_pass], [config_tests_pass], [migrate_tests_pass],
      [serialize_tests_pass]) and its acceptance tests
      ([workflow_scenarios_pass], [management_scenarios_pass],
      [notification_scenarios_pass], [queue_scenarios_pass],
      [recovery_scenarios_pass], [stream_scenarios_pass], [fixtures_decode]).
    - Starting and stopping ([Launch], [Shutdown]): a launch starts a complete
      process or nothing ([launch_all_or_nothing]); a shutdown ends all of it
      or exactly what ends in time ([shutdown_spec], [shutdown_drains]).
    - Retries ([Step]): until the first success or the first pause that is no
      [Duration] ([retry_until_success]), with pauses within their limit
      ([retry_delay_bounds], [default_delays]).
    - Waking ([Listener], [ListenLoop]): receivers miss no notification,
      whatever the connection loses ([listener_wakes_receiver]).
    - Streams over a channel ([LiveStream]): the same values as the blocking
      reader ([read_stream_async_agrees]).
    - The conductor's connection ([ConductorLoop]): requests are served in
      order ([connection_serves_in_order]), reconnection backs off
      ([conductor_backs_off]), and its read timeout never fires
      ([read_timeout_never_fires]).
    - Divergences: some theorems and lemmas state behaviour that differs from
      what the code's comments promise or seem to mean
      ([reader_misses_final_entries], [shared_waiter_starves],
      [sleep_max_returns_at_once], [queues_only_ignores_queue_name],
      [mask_password_leaks], [recv_key_collision], [panics_starve_queue],
      [negative_factor_panics],
      [unknown_status_lists_all], [read_timeout_never_fires],
      [listen_failure_retries_at_once], [stopped_wakes_nobody] for a shutdown
      that drains workflows, and the error branch of
      [launch_settled], which leaves the listener running).

    ** What is not modelled

    All jitter; tracing and telemetry, which are output only; lost connections of
    the database outside the migrations and the listener; binding and serving
    HTTP and the websocket protocol, around the modelled handlers and loops;
    and installing the TLS provider.  What a body does after a shutdown has
    closed the pool under it fails in the code; here it is cut, an interrupted
    run of [Durability].  The retry loop of [Step] waits without regard to the
    length of its pauses: the clocks of [Env] are any.  Of the tests, those that look into the SQL files or at the
    size of a type in memory, talk HTTP or websockets, or need bodies that
    overlap.  The waits of [Context] do not refer to
    [Listener]: a notification only ends a wait early, and a wait may end at
    any state of the database anyway.  Regular expressions are the two masking
    patterns, matched by hand; character classes are ASCII. *)

From Stdlib Require Export Ascii String.
From stdpp Require Export base tactics option list strings gmap sorting pretty.
From Stdlib Require Export ZArith Lia.

(** ** Notations *)

Declare Scope dbos_scope.
Delimit Scope dbos_scope with dbos.

(** A field setter: [Setter f] says how to rewrite the field read by [f]. *)
Class Setter {R T : Type} (f : R → T) := set_field : (T → T) → R → R.
Arguments set_field {R T} f {_} _ _ / : assert.

Notation "r <| f := v |>" := (set_field f (λ _, v) r)
  (at level 1, left associativity, format "r  <| f  :=  v |>") : dbos_scope.
Notation "r <| f ::= g |>" := (set_field f g r)
  (at level 1, left associativity, format "r  <| f  ::=  g |>") : dbos_scope.

(** Computations with errors of any type, [inr] being success. *)
#[export] Instance sum_bind {E} : MBind (sum E) := λ A B f r,
  match r with inl e => inl e | inr a => f a end.

(** ** Automation *)

Create HintDb dbos.
Create Rewrite HintDb dbos.

(** Case analysis on every [match] and [decide] of the goal, closing the
    impossible branches. *)
Ltac split_matches :=
  repeat (case_match || case_decide); simplify_eq/=; try done.

(** The same on a hypothesis, keeping the equations it learns. *)
Ltac split_hyp H :=
  repeat match type of H with
  | context [match ?x with _ => _ end] =>
      let E := fresh "E" in destruct x eqn:E; simplify_eq/=
  end; try done.

(** ** Machine integers *)

Section machine_integers.
Local Open Scope Z_scope.

(** Two's complement reduction to [w] bits: the value of a wrapping Rust
    operation, and of an [as] cast, on a signed [w]-bit integer. *)
Definition wrap (w z : Z) : Z := (z + 2 ^ (w - 1)) `mod` 2 ^ w - 2 ^ (w - 1).

Definition wrap_i64 : Z → Z := wrap 64.
Definition wrap_i32 : Z → Z := wrap 32.

Definition in_i64 (z : Z) : Prop := - 2 ^ 63 ≤ z < 2 ^ 63.
Definition in_u64 (z : Z) : Prop := 0 ≤ z < 2 ^ 64.
Definition in_i32 (z : Z) : Prop := - 2 ^ 31 ≤ z < 2 ^ 31.

#[export] Instance in_i64_dec z : Decision (in_i64 z).
Proof. unfold in_i64. apply _. Defined.
#[export] Instance in_u64_dec z : Decision (in_u64 z).
Proof. unfold in_u64. apply _. Defined.
#[export] Instance in_i32_dec z : Decision (in_i32 z).
Proof. unfold in_i32. apply _. Defined.

Lemma wrap_i64_id z : in_i64 z → wrap_i64 z = z.
Proof.
  unfold in_i64, wrap_i64, wrap. intros ?.
  rewrite Z.mod_small; [lia|]. change (2 ^ (64 - 1)) with (2 ^ 63). lia.
Qed.

Lemma wrap_i32_id z : in_i32 z → wrap_i32 z = z.
Proof.
  unfold in_i32, wrap_i32, wrap. intros ?.
  rewrite Z.mod_small; [lia|]. change (2 ^ (32 - 1)) with (2 ^ 31). lia.
Qed.

Lemma wrap_i64_range z : in_i64 (wrap_i64 z).
Proof.
  unfold in_i64, wrap_i64, wrap.
  pose proof (Z.mod_pos_bound (z + 2 ^ (64 - 1)) (2 ^ 64) ltac:(lia)).
  change (2 ^ (64 - 1)) with (2 ^ 63) in *. lia.
Qed.

Lemma wrap_i32_range z : in_i32 (wrap_i32 z).
Proof.
  unfold in_i32, wrap_i32, wrap.
  pose proof (Z.mod_pos_bound (z + 2 ^ (32 - 1)) (2 ^ 32) ltac:(lia)).
  change (2 ^ (32 - 1)) with (2 ^ 31) in *. lia.
Qed.
End machine_integers.

#[export] Hint Resolve wrap_i64_range wrap_i32_range : dbos.

(** A [std::time::Duration], in nanoseconds. *)
Module Duration.
Local Open Scope Z_scope.
Definition t : Type := Z.
Definition from_secs (s : Z) : t := s * 10 ^ 9.
Definition from_millis (ms : Z) : t := ms * 10 ^ 6.
(** [Duration::as_millis], a [u128]. *)
Definition as_millis (d : t) : Z := d / 10 ^ 6.
(** [Duration::MAX]: [u64::MAX] seconds and 999 999 999 nanoseconds. *)
Definition MAX : t := (2 ^ 64 - 1) * 10 ^ 9 + 999999999.
(** The values a [Duration] can hold. *)
Definition valid (d : t) : Prop := 0 ≤ d ≤ MAX.

Lemma as_millis_from_millis ms : as_millis (from_millis ms) = ms.
Proof. unfold as_millis, from_millis. apply Z.div_mul. lia. Qed.
End Duration.

(** ** Strings *)

Local Open Scope string_scope.

(** [str::contains]. *)
Fixpoint str_contains (needle hay : string) : bool :=
  String.prefix needle hay ||
  match hay with "" => false | String _ rest => str_contains needle rest end.

(** [str::is_empty]. *)
Definition str_is_empty (s : string) : bool :=
  match s with "" => true | _ => false end.

Lemma str_app_cons c (a b : string) : String c a +:+ b = String c (a +:+ b).
Proof. reflexivity. Qed.
Lemma str_app_assoc (a b c : string) : (a +:+ b) +:+ c = a +:+ (b +:+ c).
Proof. induction a as [|x a IH]; [done|]. by rewrite !str_app_cons, IH. Qed.
Lemma str_app_nil (a : string) : a +:+ "" = a.
Proof. induction a as [|x a IH]; [done|]. by rewrite str_app_cons, IH. Qed.

Lemma str_length_app a b : String.length (a +:+ b) = (String.length a + String.length b)%nat.
Proof. induction a as [|c a IH]; [done|]. rewrite str_app_cons. simpl. by rewrite IH. Qed.

(** White space and letters of the ASCII range. *)
Definition is_whitespace (c : ascii) : bool :=
  let n := Ascii.nat_of_ascii c in
  ((9 <=? n) && (n <=? 13) || (n =? 32))%nat.
Definition is_upper (c : ascii) : bool :=
  let n := Ascii.nat_of_ascii c in ((65 <=? n) && (n <=? 90))%nat.
Definition is_lower (c : ascii) : bool :=
  let n := Ascii.nat_of_ascii c in ((97 <=? n) && (n <=? 122))%nat.
Definition is_digit (c : ascii) : bool :=
  let n := Ascii.nat_of_ascii c in ((48 <=? n) && (n <=? 57))%nat.
Definition is_alphabetic (c : ascii) : bool := is_upper c || is_lower c.
Definition is_alphanumeric (c : ascii) : bool := is_alphabetic c || is_digit c.

Definition char_lower (c : ascii) : ascii :=
  if is_upper c then Ascii.ascii_of_nat (Ascii.nat_of_ascii c + 32) else c.

(** [str::to_ascii_lowercase]. *)
Fixpoint str_lower (s : string) : string :=
  match s with "" => "" | String c rest => String (char_lower c) (str_lower rest) end.

(** [s.chars().all(p)]. *)
Fixpoint str_all (p : ascii → bool) (s : string) : bool :=
  match s with "" => true | String c rest => p c && str_all p rest end.

(** [str::trim_start_matches] and [str::trim_end_matches] with a predicate. *)
Fixpoint trim_start_by (p : ascii → bool) (s : string) : string :=
  match s with
  | "" => ""
  | String c rest => if p c then trim_start_by p rest else s
  end.
Fixpoint trim_end_by (p : ascii → bool) (s : string) : string :=
  match s with
  | "" => ""
  | String c rest =>
      match trim_end_by p rest with
      | "" => if p c then "" else String c ""
      | rest' => String c rest'
      end
  end.

(** [str::trim]. *)
Definition str_trim (s : string) : string :=
  trim_end_by is_whitespace (trim_start_by is_whitespace s).

(** The longest prefix of characters in [p], and the rest. *)
Fixpoint span (p : ascii → bool) (s : string) : string * string :=
  match s with
  | "" => ("", "")
  | String c rest =>
      if p c then let '(a, b) := span p rest in (String c a, b) else ("", s)
  end.

(** [Option::filter] by [!s.is_empty()]. *)
Definition non_empty (o : option string) : option string :=
  match o with Some "" => None | _ => o end.

(** [rest] does not start with a character in [p]. *)
Definition stops (p : ascii → bool) (rest : string) : Prop :=
  match rest with "" => True | String c _ => p c = false end.

Lemma str_prefix_cons a b p s :
  String.prefix (String a p) (String b s) = bool_decide (a = b) && String.prefix p s.
Proof.
  unfold String.prefix at 1. fold String.prefix. destruct (Ascii.ascii_dec a b) as [->|Hab].
  - by rewrite bool_decide_eq_true_2.
  - by rewrite bool_decide_eq_false_2.
Qed.

Lemma str_contains_cons p c s :
  str_contains p (String c s) = String.prefix p (String c s) || str_contains p s.
Proof. reflexivity. Qed.

Lemma span_app p a rest : str_all p a = true → stops p rest → span p (a +:+ rest) = (a, rest).
Proof.
  induction a as [|c a IH]; intros Ha Hr.
  - change ("" +:+ rest) with rest. destruct rest as [|c rest]; simpl in *; [done|]. by rewrite Hr.
  - rewrite str_app_cons. simpl in *. apply andb_true_iff in Ha as [-> Ha]. by rewrite IH.
Qed.

Lemma str_all_app p a b : str_all p (a +:+ b) = str_all p a && str_all p b.
Proof.
  induction a as [|c a IH]; [done|]. rewrite str_app_cons. simpl. by rewrite IH, andb_assoc.
Qed.

Lemma str_all_impl (p q : ascii → bool) s :
  (∀ c, p c = true → q c = true) → str_all p s = true → str_all q s = true.
Proof.
  intros Hpq. induction s as [|c s IH]; simpl; [done|].
  intros [Hc Hs]%andb_true_iff. by rewrite (Hpq _ Hc), (IH Hs).
Qed.

(** The double quote character, as a string. *)
Definition dquote : string := String (Ascii.ascii_of_nat 34) "".

(** The [{:?}] rendering of a [str]: quoted, with the escapes of
    [char::escape_debug] on the ASCII range. *)
Section debug_str.
Definition hex_digit (n : nat) : ascii :=
  Ascii.ascii_of_nat (if decide (n < 10) then 48 + n else 87 + n).

Definition debug_char (c : ascii) : string :=
  match Ascii.nat_of_ascii c with
  | 0 => "\0" | 9 => "\t" | 10 => "\n" | 13 => "\r"
  | 34 => String "\" dquote | 92 => "\\"
  | n => if decide (n < 32 \/ n = 127) then
           "\u{" +:+ (if decide (n < 16) then "" else String (hex_digit (n / 16)) "")
           +:+ String (hex_digit (n mod 16)) "}"
         else String c ""
  end.

Fixpoint debug_body (s : string) : string :=
  match s with "" => "" | String c rest => debug_char c +:+ debug_body rest end.

Definition debug_str (s : string) : string := dquote +:+ debug_body s +:+ dquote.
End debug_str.

Section parse_int.
Local Open Scope Z_scope.

Definition digit_value (c : ascii) : option Z :=
  let n := Z.of_nat (Ascii.nat_of_ascii c) in
  if decide (48 ≤ n ≤ 57) then Some (n - 48) else None.

Fixpoint parse_digits (acc : Z) (s : string) : option Z :=
  match s with
  | EmptyString => Some acc
  | String c rest => d ← digit_value c; parse_digits (10 * acc + d) rest
  end.

Definition parse_magnitude (s : string) : option Z :=
  match s with EmptyString => None | _ => parse_digits 0 s end.

(** [str::parse] at an integer type with the bounds [lo] and [hi]: an
    optional sign ([-] at signed types only), then at least one digit. *)
Definition parse_int (lo hi : Z) (s : string) : option Z :=
  z ← match s with
      | String "+" rest => parse_magnitude rest
      | String "-" rest => if decide (lo < 0) then Z.opp <$> parse_magnitude rest else None
      | _ => parse_magnitude s
      end;
  if decide (lo ≤ z ≤ hi) then Some z else None.

Definition parse_i64 : string → option Z := parse_int (- 2 ^ 63) (2 ^ 63 - 1).
Definition parse_u64 : string → option Z := parse_int 0 (2 ^ 64 - 1).
(** [usize], on the 64-bit targets the crate is built for. *)
Definition parse_usize : string → option Z := parse_u64.

Lemma parse_int_bounds lo hi s z : parse_int lo hi s = Some z → lo ≤ z ≤ hi.
Proof.
  unfold parse_int. intros (w & _ & H)%bind_Some. by case_decide; simplify_eq.
Qed.
End parse_int.

(** ** Lists *)

Lemma filter_subseteq_list {A} (P : A → Prop) `{∀ x, Decision (P x)} (l : list A) x :
  x ∈ filter P l → x ∈ l.
Proof. rewrite list_elem_of_filter. naive_solver. Qed.
