(* ===== verification/Float64.v ===== *)
(** * Double-precision numbers

    What the crate uses of [f64] and of the conversions of [Duration]: the
    arithmetic is that of the Standard Library's specification of IEEE 754
    ([SpecFloat]) at binary64. *)
From S2P Require Import Prelude.
From Stdlib Require Import Floats.SpecFloat.

Local Open Scope Z_scope.

Definition f64 : Type := spec_float.

Definition f64_add : f64 → f64 → f64 := SFadd 53 1024.
Definition f64_mul : f64 → f64 → f64 := SFmul 53 1024.
Definition f64_div : f64 → f64 → f64 := SFdiv 53 1024.

(** [n as f64], for an integer. *)
Definition f64_of_Z (n : Z) : f64 := binary_normalize 53 1024 n 0 false.

(** A finite number is a fraction of integers. *)
Definition exact (x : f64) : option (Z * Z) :=
  match x with
  | S754_zero _ => Some (0, 1)
  | S754_finite s m e => Some ((if s then Z.neg m else Z.pos m) * 2 ^ Z.max e 0, 2 ^ Z.max (- e) 0)
  | _ => None
  end.

(** The order of finite numbers is that of their values. *)
Definition f64_lt (x y : f64) : bool :=
  match exact x, exact y with
  | Some (n1, d1), Some (n2, d2) => n1 * d2 <? n2 * d1
  | Some _, None => match y with S754_infinity s => negb s | _ => false end
  | None, Some _ => match x with S754_infinity s => s | _ => false end
  | None, None => match x, y with S754_infinity true, S754_infinity false => true | _, _ => false end
  end.

(** [f64::min]: not a NaN unless both are. *)
Definition f64_min (x y : f64) : f64 :=
  match x, y with
  | S754_nan, _ => y
  | _, S754_nan => x
  | _, _ => if f64_lt y x then y else x
  end.

(** [f64::powi]: by repeated squaring, as compiler-rt does it (the
    documentation leaves the precision of the result open). *)
Fixpoint powi_loop (fuel : nat) (a r : f64) (b : Z) : f64 :=
  match fuel with
  | O => r
  | S fuel =>
      let r := if Z.odd b then f64_mul r a else r in
      if Z.quot b 2 =? 0 then r else powi_loop fuel (f64_mul a a) r (Z.quot b 2)
  end.

Definition powi (a : f64) (b : Z) : f64 :=
  let r := powi_loop 32 a (f64_of_Z 1) b in if b <? 0 then f64_div (f64_of_Z 1) r else r.

(** ** Durations *)

(** [Duration::as_secs_f64]: [secs as f64 + nanos as f64 / 1e9]. *)
Definition as_secs_f64 (d : Duration.t) : f64 :=
  f64_add (f64_of_Z (d / 10 ^ 9)) (f64_div (f64_of_Z (d mod 10 ^ 9)) (f64_of_Z (10 ^ 9))).

(** The integer nearest to [a / b], an even one in the middle. *)
Definition nearest_even (a b : Z) : Z :=
  let q := a / b in
  match 2 * (a mod b) ?= b with
  | Lt => q
  | Gt => q + 1
  | Eq => if Z.even q then q else q + 1
  end.

(** [Duration::try_from_secs_f64]: to the nearest nanosecond; a negative
    number, one too large for [Duration], and one that is not finite are
    refused.  [Duration::from_secs_f64] panics when it refuses. *)
Definition try_from_secs_f64 (x : f64) : option Duration.t :=
  match exact x with
  | Some (n, d) =>
      let nanos := nearest_even (n * 10 ^ 9) d in
      if (0 <=? n) && (nanos <=? Duration.MAX) then Some nanos else None
  | None => None
  end.

(** ** Rounding *)

Lemma nearest_even_spec a b :
  0 < b → let n := nearest_even a b in
  2 * Z.abs (a - n * b) ≤ b ∧ (2 * Z.abs (a - n * b) = b → Z.even n = true).
Proof.
  intros Hb. pose proof (Z.div_mod a b ltac:(lia)) as Hd. pose proof (Z.mod_pos_bound a b Hb) as Hm.
  unfold nearest_even. cbv zeta. destruct (Z.compare_spec (2 * (a mod b)) b) as [He|Hl|Hg].
  - destruct (Z.even (a / b)) eqn:E; [split; [nia|done]|]. split; [nia|]. intros _.
    rewrite Z.even_add, E. done.
  - split; [nia|]. intros Hc. nia.
  - split; [nia|]. intros Hc. nia.
Qed.

(** A smaller number does not round to a larger one. *)
Lemma nearest_even_mono a1 b1 a2 b2 :
  0 < b1 → 0 < b2 → a1 * b2 ≤ a2 * b1 → nearest_even a1 b1 ≤ nearest_even a2 b2.
Proof.
  intros H1 H2 Hle. destruct (nearest_even_spec a1 b1 H1) as [Hb1 He1].
  destruct (nearest_even_spec a2 b2 H2) as [Hb2 He2].
  set (n1 := nearest_even a1 b1) in *. set (n2 := nearest_even a2 b2) in *.
  destruct (Z.le_gt_cases n1 n2) as [|Hgt]; [done|exfalso].
  assert ((2 * n1 - 1) * b1 ≤ 2 * a1) as Hlo by lia.
  assert (2 * a2 ≤ (2 * n2 + 1) * b2) as Hhi by lia.
  assert ((2 * n1 - 1) * (b1 * b2) ≤ (2 * n2 + 1) * (b1 * b2)) as Hmid by nia.
  assert (n1 = n2 + 1) as E by nia. subst n1. rewrite E in *.
  assert (2 * a1 = (2 * n2 + 1) * b1) as E1 by nia.
  assert (2 * a2 = (2 * n2 + 1) * b2) as E2 by nia.
  assert (Z.even (n2 + 1) = true) as P1 by (apply He1; nia).
  assert (Z.even n2 = true) as P2 by (apply He2; nia).
  rewrite Z.even_add, P2 in P1. done.
Qed.


Lemma exact_den x n d : exact x = Some (n, d) → 0 < d.
Proof. destruct x as [|[]| |s m e]; simpl; intros [= <- <-]; lia. Qed.

Lemma nearest_even_nonneg a b : 0 ≤ a → 0 < b → 0 ≤ nearest_even a b.
Proof. intros Ha Hb. apply (nearest_even_mono 0 1 a b); lia. Qed.

(** The conversion gives valid durations, and keeps the order. *)
Lemma try_from_secs_valid x d : try_from_secs_f64 x = Some d → Duration.valid d.
Proof.
  unfold try_from_secs_f64. destruct (exact x) as [[n q]|] eqn:E; [|done].
  apply exact_den in E. destruct (Z.leb_spec 0 n); [|done]. simpl.
  destruct (Z.leb_spec (nearest_even (n * 10 ^ 9) q) Duration.MAX); [|done]. intros [= <-].
  split; [|done]. apply nearest_even_nonneg; lia.
Qed.

Lemma try_from_secs_mono x y d d' :
  f64_lt y x = false → try_from_secs_f64 x = Some d → try_from_secs_f64 y = Some d' → d ≤ d'.
Proof.
  unfold try_from_secs_f64, f64_lt.
  destruct (exact x) as [[n1 q1]|] eqn:E1; [|done]. destruct (exact y) as [[n2 q2]|] eqn:E2; [|done].
  apply exact_den in E1, E2. intros Hlt%Z.ltb_ge.
  destruct (_ && _); [|done]. intros [= <-]. destruct (_ && _); [|done]. intros [= <-].
  apply nearest_even_mono; nia.
Qed.

(** The smaller of two numbers of seconds gives no longer a duration. *)
Lemma try_from_secs_min x y d d' :
  try_from_secs_f64 (f64_min x y) = Some d → try_from_secs_f64 y = Some d' → d ≤ d'.
Proof.
  unfold f64_min. intros Hd Hd'.
  assert (y ≠ S754_nan) as Hy by by intros ->.
  destruct x, y; try done; try (case_match eqn:E; [by simplify_eq|by eapply try_from_secs_mono]); by simplify_eq.
Qed.

(** ** Whole seconds *)

Lemma digits2_pow (m : positive) : 2 ^ (Z.pos (digits2_pos m) - 1) ≤ Z.pos m.
Proof.
  induction m as [m IH|m IH|]; cbn [digits2_pos]; [| |done];
    rewrite Pos2Z.inj_succ; replace (Z.succ _ - 1) with (Z.succ (Z.pos (digits2_pos m) - 1)) by lia;
    rewrite Z.pow_succ_r by lia; lia.
Qed.

Lemma iter_xO m d : Z.pos (Pos.iter xO m d) = Z.pos m * 2 ^ Z.pos d.
Proof.
  induction d as [|d IH] using Pos.peano_ind; [simpl; lia|].
  rewrite Pos.iter_succ, Pos2Z.inj_succ, Z.pow_succ_r by lia.
  change (Z.pos (xO (Pos.iter xO m d))) with (2 * Z.pos (Pos.iter xO m d)). lia.
Qed.

Lemma digits2_iter m d : digits2_pos (Pos.iter xO m d) = (digits2_pos m + d)%positive.
Proof.
  induction d as [|d IH] using Pos.peano_ind; [simpl; lia|]. rewrite Pos.iter_succ. cbn [digits2_pos]. rewrite IH. lia.
Qed.

Lemma round_exact m e :
  Z.pos (digits2_pos m) = 53 → -1074 ≤ e ≤ 971 → binary_round_aux 53 1024 false (Z.pos m) e loc_Exact = S754_finite false m e.
Proof.
  intros Hd He. unfold binary_round_aux.
  assert (∀ e', e' = e → shr_fexp 53 1024 (Z.pos m) e' loc_Exact = (shr_record_of_loc (Z.pos m) loc_Exact, e)) as Hs.
  { intros e' ->. unfold shr_fexp, shr, fexp, emin, Zdigits2. rewrite Hd.
    replace (Z.max (53 + e - 53) (3 - 1024 - 53) - e) with 0 by lia. done. }
  rewrite Hs by done. cbn [shr_record_of_loc shr_m loc_of_shr_record round_nearest_even]. rewrite Hs by done.
  cbn [shr_record_of_loc shr_m]. by rewrite (proj2 (Z.leb_le _ _)) by lia.
Qed.

(** An integer below [2 ^ 53] is a number. *)
Lemma exact_of_Z n : 0 ≤ n < 2 ^ 53 → ∃ a d, exact (f64_of_Z n) = Some (a, d) ∧ 0 < d ∧ a = n * d.
Proof.
  intros [H0 Hlt]. destruct n as [|m|]; [by exists 0, 1; split_and!| |lia].
  unfold f64_of_Z, binary_normalize, binary_round.
  assert (Z.pos (digits2_pos m) ≤ 53) as Hd.
  { pose proof (digits2_pow m). destruct (Z.le_gt_cases (Z.pos (digits2_pos m)) 53) as [|Hgt]; [done|exfalso].
    assert (2 ^ 53 ≤ 2 ^ (Z.pos (digits2_pos m) - 1)) by (apply Z.pow_le_mono_r; lia). lia. }
  unfold shl_align, fexp, emin.
  replace (Z.max (Z.pos (digits2_pos m) + 0 - 53) (3 - 1024 - 53) - 0)
    with (Z.pos (digits2_pos m) - 53) by lia.
  destruct (Z.pos (digits2_pos m) - 53) as [|d|d] eqn:E; [|lia|].
  - rewrite round_exact by lia. exists (Z.pos m), 1. split_and!; [by simpl; rewrite Z.mul_1_r|done|lia].
  - rewrite round_exact by (rewrite ?digits2_iter; lia).
    exists (Z.pos m * 2 ^ Z.pos d), (2 ^ Z.pos d). split_and!; [|lia|done]. cbn [exact].
    rewrite iter_xO. do 2 f_equal; [|f_equal; lia].
    replace (Z.max _ 0) with 0 by lia. lia.
Qed.

Lemma nearest_even_exact a b : 0 < b → nearest_even (a * b) b = a.
Proof. intros Hb. unfold nearest_even. rewrite Z.div_mul, Z_mod_mult by lia. by destruct b. Qed.

(** A whole number of seconds passes through [f64] unchanged. *)
Lemma whole_secs s : 0 ≤ s < 2 ^ 53 → try_from_secs_f64 (as_secs_f64 (Duration.from_secs s)) = Some (Duration.from_secs s).
Proof.
  intros Hs. unfold as_secs_f64, Duration.from_secs. rewrite Z.div_mul, Z_mod_mult by lia.
  assert (f64_add (f64_of_Z s) (f64_div (f64_of_Z 0) (f64_of_Z (10 ^ 9))) = f64_of_Z s) as ->.
  { change (f64_div (f64_of_Z 0) (f64_of_Z (10 ^ 9))) with (S754_zero false).
    destruct (exact_of_Z s Hs) as (a & d & E & Hd & ->).
    destruct (f64_of_Z s) as [[]|[]| |] eqn:Es; simplify_eq/=; [|done..].
    assert (s = 0) as -> by nia. done. }
  destruct (exact_of_Z s Hs) as (a & d & E & Hd & ->). unfold try_from_secs_f64. rewrite E.
  replace (s * d * 10 ^ 9) with (s * 10 ^ 9 * d) by lia. rewrite nearest_even_exact by done.
  rewrite (proj2 (Z.leb_le 0 _)) by nia. rewrite (proj2 (Z.leb_le _ Duration.MAX)); [done|].
  unfold Duration.MAX. lia.
Qed.

(** ** Signs *)

(** Not negative: a NaN, or a number with the positive sign. *)
Definition f64_pos (x : f64) : bool :=
  match x with
  | S754_zero s | S754_infinity s | S754_finite s _ _ => negb s
  | S754_nan => true
  end.

Lemma round_aux_pos m e l : f64_pos (binary_round_aux 53 1024 false m e l) = true.
Proof.
  unfold binary_round_aux. destruct (shr_fexp _ _ _ _ _) as [mrs e1]. destruct (shr_fexp _ _ _ _ _) as [mrs2 e2].
  destruct (shr_m mrs2); [done|by destruct (_ <=? _)|done].
Qed.

Lemma normalize_pos m e : 0 ≤ m → f64_pos (binary_normalize 53 1024 m e false) = true.
Proof.
  intros Hm. destruct m as [|m|m]; [done| |lia]. unfold binary_normalize, binary_round.
  destruct (shl_align _ _ _). apply round_aux_pos.
Qed.

Lemma f64_of_Z_pos n : 0 ≤ n → f64_pos (f64_of_Z n) = true.
Proof. apply normalize_pos. Qed.

Lemma f64_mul_pos x y : f64_pos x = true → f64_pos y = true → f64_pos (f64_mul x y) = true.
Proof.
  unfold f64_mul. destruct x as [[]|[]| |[] m e], y as [[]|[]| |[] m' e']; simpl; try done.
  intros _ _. apply round_aux_pos.
Qed.

Lemma f64_div_pos x y : f64_pos x = true → f64_pos y = true → f64_pos (f64_div x y) = true.
Proof.
  unfold f64_div. destruct x as [[]|[]| |[] m e], y as [[]|[]| |[] m' e']; cbn [f64_pos negb SFdiv xorb]; try done.
  intros _ _. destruct (SFdiv_core_binary _ _ _ _ _ _) as [[q e1] l]. apply round_aux_pos.
Qed.

Lemma f64_add_pos x y : f64_pos x = true → f64_pos y = true → f64_pos (f64_add x y) = true.
Proof.
  unfold f64_add. destruct x as [[]|[]| |[] m e], y as [[]|[]| |[] m' e']; cbn [f64_pos negb SFadd]; try done.
  intros _ _. by apply normalize_pos.
Qed.

Lemma powi_loop_pos fuel a r b :
  f64_pos a = true → f64_pos r = true → f64_pos (powi_loop fuel a r b) = true.
Proof.
  revert a r b. induction fuel as [|fuel IH]; intros a r b Ha Hr; cbn [powi_loop]; [done|].
  assert (f64_pos (if Z.odd b then f64_mul r a else r) = true) as Hr' by (destruct (Z.odd b); auto using f64_mul_pos).
  destruct (_ =? _); [done|]. apply IH; [|done]. by apply f64_mul_pos.
Qed.

Lemma powi_pos a b : f64_pos a = true → f64_pos (powi a b) = true.
Proof.
  intros Ha. unfold powi. assert (f64_pos (powi_loop 32 a (f64_of_Z 1) b) = true) by (by apply powi_loop_pos).
  destruct (b <? 0); [by apply f64_div_pos|done].
Qed.

Lemma as_secs_pos d : 0 ≤ d → f64_pos (as_secs_f64 d) = true.
Proof.
  intros Hd. apply f64_add_pos; [|apply f64_div_pos]; apply f64_of_Z_pos; try done.
  - apply Z.div_pos; lia.
  - by apply Z.mod_pos_bound.
Qed.

Lemma exact_pos x n d : f64_pos x = true → exact x = Some (n, d) → 0 ≤ n.
Proof. destruct x as [[]|[]| |[] m e]; simpl; try done; intros _ [= <- <-]; lia. Qed.

(** The smaller of a number that is not negative and one that is a duration
    is a duration. *)
Lemma try_from_secs_min_pos x y :
  f64_pos x = true → is_Some (try_from_secs_f64 y) → is_Some (try_from_secs_f64 (f64_min x y)).
Proof.
  intros Hx Hy. assert (is_Some (exact y)) as [[n2 d2] E2].
  { unfold try_from_secs_f64 in Hy. destruct (exact y); [eauto|by destruct Hy]. }
  assert (∀ n1 d1, exact x = Some (n1, d1) → is_Some (try_from_secs_f64 (if f64_lt y x then y else x))) as Hfin.
  { intros n1 d1 E1. destruct (f64_lt y x) eqn:Hlt; [done|]. destruct Hy as [d' Hy].
    unfold f64_lt in Hlt. rewrite E1, E2 in Hlt. apply Z.ltb_ge in Hlt.
    unfold try_from_secs_f64 in *. rewrite E1. rewrite E2 in Hy.
    destruct (_ && _) eqn:Hy' in Hy; [|done]. apply andb_true_iff in Hy' as [_ Hmax%Z.leb_le].
    pose proof (exact_pos x n1 d1 Hx E1). apply exact_den in E1, E2.
    rewrite (proj2 (Z.leb_le 0 n1)) by done. rewrite (proj2 (Z.leb_le _ Duration.MAX)); [by eexists|].
    etrans; [|exact Hmax]. apply nearest_even_mono; nia. }
  destruct y as [sy|sy| |sy my ey]; [|done..|]; destruct x as [[]|[]| |[] mx ex]; try done; by eapply Hfin.
Qed.
