(* ===== verification/Errors.v ===== *)
(** * The error taxonomy (error.rs)

    [DbosErrorCode], the boxed context, [DbosError] with its constructors and
    accessors, its [Display], and the SQLSTATE classifiers the database layer
    branches on.  [Result] is the crate-wide result type. *)
From S2P Require Import Prelude.

Local Open Scope string_scope.
Local Open Scope Z_scope.
Local Open Scope dbos_scope.

(** ** Codes *)

Inductive DbosErrorCode :=
  | Unspecified
  | ConflictingId
  | Initialization
  | NonExistentWorkflow
  | ConflictingWorkflow
  | WorkflowCancelled
  | UnexpectedStep
  | AwaitedWorkflowCancelled
  | ConflictingRegistration
  | WorkflowUnexpectedType
  | WorkflowExecution
  | StepExecution
  | DeadLetterQueue
  | MaxStepRetriesExceeded
  | QueueDeduplicated
  | PatchingNotEnabled
  | Timeout
  | NoApplicationVersions.

#[export] Instance DbosErrorCode_eq_dec : EqDecision DbosErrorCode.
Proof. solve_decision. Defined.

Definition as_i32 (c : DbosErrorCode) : Z :=
  match c with
  | Unspecified => 0
  | ConflictingId => 1
  | Initialization => 2
  | NonExistentWorkflow => 3
  | ConflictingWorkflow => 4
  | WorkflowCancelled => 5
  | UnexpectedStep => 6
  | AwaitedWorkflowCancelled => 7
  | ConflictingRegistration => 8
  | WorkflowUnexpectedType => 9
  | WorkflowExecution => 10
  | StepExecution => 11
  | DeadLetterQueue => 12
  | MaxStepRetriesExceeded => 13
  | QueueDeduplicated => 14
  | PatchingNotEnabled => 15
  | Timeout => 16
  | NoApplicationVersions => 17
  end.

#[export] Instance as_i32_inj : Inj (=) (=) as_i32.
Proof. by intros [] []. Qed.

(** ** The error value *)

Record ErrorContext := mkErrorContext {
  ec_workflow_id : option string;
  ec_destination_id : option string;
  ec_step_name : option string;
  ec_queue_name : option string;
  ec_deduplication_id : option string;
  ec_step_id : option Z;
  ec_expected_name : option string;
  ec_recorded_name : option string;
  ec_max_retries : option Z;
}.

(** [ErrorContext::default()]. *)
Definition ErrorContext_default : ErrorContext :=
  mkErrorContext None None None None None None None None None.

#[export] Instance set_ec_workflow_id : Setter ec_workflow_id := λ g c,
  mkErrorContext (g (ec_workflow_id c)) (ec_destination_id c) (ec_step_name c) (ec_queue_name c)
    (ec_deduplication_id c) (ec_step_id c) (ec_expected_name c) (ec_recorded_name c) (ec_max_retries c).
#[global] Arguments set_ec_workflow_id _ _ / : assert.
#[export] Instance set_ec_destination_id : Setter ec_destination_id := λ g c,
  mkErrorContext (ec_workflow_id c) (g (ec_destination_id c)) (ec_step_name c) (ec_queue_name c)
    (ec_deduplication_id c) (ec_step_id c) (ec_expected_name c) (ec_recorded_name c) (ec_max_retries c).
#[global] Arguments set_ec_destination_id _ _ / : assert.
#[export] Instance set_ec_step_name : Setter ec_step_name := λ g c,
  mkErrorContext (ec_workflow_id c) (ec_destination_id c) (g (ec_step_name c)) (ec_queue_name c)
    (ec_deduplication_id c) (ec_step_id c) (ec_expected_name c) (ec_recorded_name c) (ec_max_retries c).
#[global] Arguments set_ec_step_name _ _ / : assert.
#[export] Instance set_ec_queue_name : Setter ec_queue_name := λ g c,
  mkErrorContext (ec_workflow_id c) (ec_destination_id c) (ec_step_name c) (g (ec_queue_name c))
    (ec_deduplication_id c) (ec_step_id c) (ec_expected_name c) (ec_recorded_name c) (ec_max_retries c).
#[global] Arguments set_ec_queue_name _ _ / : assert.
#[export] Instance set_ec_deduplication_id : Setter ec_deduplication_id := λ g c,
  mkErrorContext (ec_workflow_id c) (ec_destination_id c) (ec_step_name c) (ec_queue_name c)
    (g (ec_deduplication_id c)) (ec_step_id c) (ec_expected_name c) (ec_recorded_name c) (ec_max_retries c).
#[global] Arguments set_ec_deduplication_id _ _ / : assert.
#[export] Instance set_ec_step_id : Setter ec_step_id := λ g c,
  mkErrorContext (ec_workflow_id c) (ec_destination_id c) (ec_step_name c) (ec_queue_name c)
    (ec_deduplication_id c) (g (ec_step_id c)) (ec_expected_name c) (ec_recorded_name c) (ec_max_retries c).
#[global] Arguments set_ec_step_id _ _ / : assert.
#[export] Instance set_ec_expected_name : Setter ec_expected_name := λ g c,
  mkErrorContext (ec_workflow_id c) (ec_destination_id c) (ec_step_name c) (ec_queue_name c)
    (ec_deduplication_id c) (ec_step_id c) (g (ec_expected_name c)) (ec_recorded_name c) (ec_max_retries c).
#[global] Arguments set_ec_expected_name _ _ / : assert.
#[export] Instance set_ec_recorded_name : Setter ec_recorded_name := λ g c,
  mkErrorContext (ec_workflow_id c) (ec_destination_id c) (ec_step_name c) (ec_queue_name c)
    (ec_deduplication_id c) (ec_step_id c) (ec_expected_name c) (g (ec_recorded_name c)) (ec_max_retries c).
#[global] Arguments set_ec_recorded_name _ _ / : assert.
#[export] Instance set_ec_max_retries : Setter ec_max_retries := λ g c,
  mkErrorContext (ec_workflow_id c) (ec_destination_id c) (ec_step_name c) (ec_queue_name c)
    (ec_deduplication_id c) (ec_step_id c) (ec_expected_name c) (ec_recorded_name c) (g (ec_max_retries c)).
#[global] Arguments set_ec_max_retries _ _ / : assert.

(** [sqlx::Error], as far as the crate inspects it: a database error with its
    SQLSTATE, or any other failure; the text is its [Display]. *)
Inductive sqlx_error :=
  | SqlxDatabase (code : option string) (text : string)
  | SqlxOther (text : string).

(** [BoxError]: the boxed sources the crate attaches. *)
Inductive BoxError :=
  | BoxSqlx (e : sqlx_error)
  | BoxSerde (text : string)
  | BoxBase64 (text : string).

Record DbosError := mkDbosError {
  code : DbosErrorCode;
  message : string;
  context : option ErrorContext;
  source : option BoxError;
}.

#[export] Instance set_context : Setter context := λ g e,
  mkDbosError (code e) (message e) (g (context e)) (source e).
#[global] Arguments set_context _ _ / : assert.
#[export] Instance set_source : Setter source := λ g e,
  mkDbosError (code e) (message e) (context e) (g (source e)).
#[global] Arguments set_source _ _ / : assert.

(** [DbosError::new]. *)
Definition DbosError_new (c : DbosErrorCode) (msg : string) : DbosError :=
  mkDbosError c msg None None.

(** [e.ctx().field = v]: the context is created on first use. *)
Definition ctx (upd : ErrorContext → ErrorContext) (e : DbosError) : DbosError :=
  e <| context := Some (upd (default ErrorContext_default (context e))) |>.

(** [DbosError::code]. *)
Definition code_i32 (e : DbosError) : Z := as_i32 (code e).

(** [DbosError::is]: code [0] never matches. *)
Definition error_is (e : DbosError) (c : DbosErrorCode) : bool :=
  bool_decide (c ≠ Unspecified) && bool_decide (code e = c).

(** [DbosError::is_code]. *)
Definition is_code (e : DbosError) (c : Z) : bool :=
  bool_decide (c ≠ 0) && bool_decide (code_i32 e = c).

Definition with_source (e : DbosError) (s : BoxError) : DbosError := e <| source := Some s |>.

(** [DbosError::source_sqlx]: the downcast of the source. *)
Definition source_sqlx (e : DbosError) : option sqlx_error :=
  match source e with Some (BoxSqlx s) => Some s | _ => None end.

(** ** SQLSTATE classifiers *)

Definition sqlstate (e : sqlx_error) : option string :=
  match e with SqlxDatabase c _ => c | SqlxOther _ => None end.

Definition is_unique_violation (e : sqlx_error) : bool := bool_decide (sqlstate e = Some "23505").
Definition is_foreign_key_violation (e : sqlx_error) : bool := bool_decide (sqlstate e = Some "23503").
Definition is_contention (e : sqlx_error) : bool :=
  bool_decide (sqlstate e = Some "40001") || bool_decide (sqlstate e = Some "40P01").
Definition is_lock_not_available (e : sqlx_error) : bool := bool_decide (sqlstate e = Some "55P03").

Definition is_db_contention (e : DbosError) : bool :=
  match source_sqlx e with
  | Some s => is_contention s || is_lock_not_available s
  | None => false
  end.

Definition is_db_unique_violation (e : DbosError) : bool :=
  match source_sqlx e with Some s => is_unique_violation s | None => false end.

(** ** Context accessors *)

Definition err_workflow_id (e : DbosError) : option string := context e ≫= ec_workflow_id.
Definition err_destination_id (e : DbosError) : option string := context e ≫= ec_destination_id.
Definition err_step_name (e : DbosError) : option string := context e ≫= ec_step_name.
Definition err_queue_name (e : DbosError) : option string := context e ≫= ec_queue_name.
Definition err_deduplication_id (e : DbosError) : option string := context e ≫= ec_deduplication_id.
Definition err_step_id (e : DbosError) : option Z := context e ≫= ec_step_id.
Definition err_expected_name (e : DbosError) : option string := context e ≫= ec_expected_name.
Definition err_recorded_name (e : DbosError) : option string := context e ≫= ec_recorded_name.
Definition err_max_retries (e : DbosError) : option Z := context e ≫= ec_max_retries.

(** ** Constructors *)

Definition conflicting_id (wid : string) : DbosError :=
  ctx (λ c, c <| ec_workflow_id := Some wid |>)
    (DbosError_new ConflictingId ("Conflicting workflow ID " +:+ wid)).

Definition initialization (msg : string) : DbosError :=
  DbosError_new Initialization ("Error initializing DBOS Transact: " +:+ msg).

Definition non_existent_workflow (wid : string) : DbosError :=
  ctx (λ c, c <| ec_destination_id := Some wid |>)
    (DbosError_new NonExistentWorkflow ("workflow " +:+ wid +:+ " does not exist")).

Definition conflicting_workflow (wid detail : string) : DbosError :=
  let msg := "Conflicting workflow invocation with the same ID (" +:+ wid +:+ ")" in
  let msg := if str_is_empty detail then msg else msg +:+ ": " +:+ detail in
  ctx (λ c, c <| ec_workflow_id := Some wid |>) (DbosError_new ConflictingWorkflow msg).

Definition workflow_cancelled (wid : string) : DbosError :=
  DbosError_new WorkflowCancelled ("Workflow " +:+ wid +:+ " was cancelled").

Definition unexpected_step (wid : string) (step_id : Z) (expected recorded : string) : DbosError :=
  ctx (λ c, c <| ec_workflow_id := Some wid |> <| ec_step_id := Some step_id |>
              <| ec_expected_name := Some expected |> <| ec_recorded_name := Some recorded |>)
    (DbosError_new UnexpectedStep
       ("During execution of workflow " +:+ wid +:+ " step " +:+ pretty step_id +:+ ", function "
        +:+ recorded +:+ " was recorded when " +:+ expected
        +:+ " was expected. Check that your workflow is deterministic.")).

Definition awaited_workflow_cancelled (wid : string) : DbosError :=
  ctx (λ c, c <| ec_workflow_id := Some wid |>)
    (DbosError_new AwaitedWorkflowCancelled ("Awaited workflow " +:+ wid +:+ " was cancelled")).

Definition conflicting_registration (name : string) : DbosError :=
  DbosError_new ConflictingRegistration (name +:+ " is already registered").

Definition workflow_unexpected_result_type (wid expected actual : string) : DbosError :=
  ctx (λ c, c <| ec_workflow_id := Some wid |>)
    (DbosError_new WorkflowUnexpectedType
       ("Workflow " +:+ wid +:+ " returned unexpected result type: expected " +:+ expected
        +:+ ", got " +:+ actual)).

Definition workflow_unexpected_input_type (name expected actual : string) : DbosError :=
  DbosError_new WorkflowUnexpectedType
    ("Workflow " +:+ name +:+ " received unexpected input type: expected " +:+ expected
     +:+ ", got " +:+ actual).

Definition workflow_execution (wid err : string) : DbosError :=
  ctx (λ c, c <| ec_workflow_id := Some wid |>)
    (DbosError_new WorkflowExecution ("Workflow " +:+ wid +:+ " execution error: " +:+ err)).

Definition step_execution (wid step err : string) : DbosError :=
  ctx (λ c, c <| ec_workflow_id := Some wid |> <| ec_step_name := Some step |>)
    (DbosError_new StepExecution
       ("Step " +:+ step +:+ " in workflow " +:+ wid +:+ " execution error: " +:+ err)).

Definition dead_letter_queue (wid : string) (max_retries : Z) : DbosError :=
  ctx (λ c, c <| ec_workflow_id := Some wid |> <| ec_max_retries := Some max_retries |>)
    (DbosError_new DeadLetterQueue
       ("Workflow " +:+ wid +:+ " has been moved to the dead-letter queue after exceeding the maximum of "
        +:+ pretty max_retries +:+ " retries")).

Definition max_step_retries_exceeded (wid step : string) (max_retries : Z) (err : string) : DbosError :=
  ctx (λ c, c <| ec_workflow_id := Some wid |> <| ec_step_name := Some step |>
              <| ec_max_retries := Some max_retries |>)
    (DbosError_new MaxStepRetriesExceeded
       ("Step " +:+ step +:+ " has exceeded its maximum of " +:+ pretty max_retries
        +:+ " retries: " +:+ err)).

Definition awaited_max_step_retries (wid : string) : DbosError :=
  ctx (λ c, c <| ec_workflow_id := Some wid |>)
    (DbosError_new MaxStepRetriesExceeded
       ("Awaited workflow " +:+ wid +:+ " has exceeded the maximum number of step retries")).

Definition queue_deduplicated (wid queue dedup : string) : DbosError :=
  ctx (λ c, c <| ec_workflow_id := Some wid |> <| ec_queue_name := Some queue |>
              <| ec_deduplication_id := Some dedup |>)
    (DbosError_new QueueDeduplicated
       ("Workflow " +:+ wid +:+ " was deduplicated due to an existing workflow in queue " +:+ queue
        +:+ " with deduplication ID " +:+ dedup)).

Definition patching_not_enabled : DbosError :=
  DbosError_new PatchingNotEnabled
    "Patching system is not enabled. Set EnablePatching to true in the DBOS context configuration to use Patch and DeprecatePatch".

Definition no_application_versions : DbosError :=
  DbosError_new NoApplicationVersions "No application versions are registered".

Definition timeout (wid step extra : string) : DbosError :=
  let msg := if str_is_empty step then "Operation timed out" else "Step " +:+ step +:+ " timed out" in
  let msg := if str_is_empty wid then msg else msg +:+ " in workflow " +:+ wid in
  let msg := if str_is_empty extra then msg else msg +:+ ": " +:+ extra in
  let e := DbosError_new Timeout msg in
  let e := if str_is_empty wid then e else ctx (λ c, c <| ec_workflow_id := Some wid |>) e in
  if str_is_empty step then e else ctx (λ c, c <| ec_step_name := Some step |>) e.

Definition other (msg : string) : DbosError := DbosError_new Unspecified msg.

(** ** [Display] and the [From] conversions *)

Definition error_to_string (e : DbosError) : string :=
  match code e with
  | Unspecified => message e
  | c => "DBOS Error " +:+ pretty (as_i32 c) +:+ ": " +:+ message e
  end.

Definition sqlx_text (e : sqlx_error) : string :=
  match e with SqlxDatabase _ t => t | SqlxOther t => t end.

Definition from_sqlx (e : sqlx_error) : DbosError :=
  with_source (DbosError_new Unspecified ("database error: " +:+ sqlx_text e)) (BoxSqlx e).
Definition from_serde (text : string) : DbosError :=
  with_source (DbosError_new Unspecified ("serialization error: " +:+ text)) (BoxSerde text).
Definition from_base64 (text : string) : DbosError :=
  with_source (DbosError_new Unspecified ("base64 decode error: " +:+ text)) (BoxBase64 text).

(** ** [Result] *)

Inductive Result (A : Type) :=
  | Ok (a : A)
  | Err (e : DbosError).
Arguments Ok {_} _.
Arguments Err {_} _.

#[export] Instance Result_ret : MRet Result := λ A a, Ok a.
#[export] Instance Result_bind : MBind Result := λ A B f r,
  match r with Ok a => f a | Err e => Err e end.
#[export] Instance Result_fmap : FMap Result := λ A B f r,
  match r with Ok a => Ok (f a) | Err e => Err e end.

(** [Option::ok_or]. *)
Definition ok_or {A} (o : option A) (e : DbosError) : Result A :=
  match o with Some a => Ok a | None => Err e end.

(** [Result::ok]. *)
Definition result_ok {A} (r : Result A) : option A :=
  match r with Ok a => Some a | Err _ => None end.

(** [Result::or_else]. *)
Definition or_else {A} (r : Result A) (f : DbosError → Result A) : Result A :=
  match r with Ok a => Ok a | Err e => f e end.

Lemma Result_bind_Ok {A B} (f : A → Result B) r b :
  r ≫= f = Ok b ↔ ∃ a, r = Ok a ∧ f a = Ok b.
Proof. destruct r; naive_solver. Qed.

(** ** Errors up to what survives a database round trip

    Only the rendered text of an error is ever stored, so two errors the
    durable layer cannot tell apart are those with the same [Display]. *)

Definition error_equiv : relation DbosError := λ e1 e2, error_to_string e1 = error_to_string e2.

#[export] Instance DbosError_equiv : Equiv DbosError := error_equiv.

#[export] Instance DbosError_equivalence : Equivalence (≡@{DbosError}).
Proof.
  unfold equiv, DbosError_equiv, error_equiv. split; repeat intros ?; congruence.
Qed.

#[export] Instance error_to_string_proper : Proper ((≡) ==> (=)) error_to_string.
Proof. by intros ???. Qed.

#[export] Instance Result_equiv {A} : Equiv (Result A) := λ r1 r2,
  match r1, r2 with
  | Ok a, Ok b => a = b
  | Err e1, Err e2 => e1 ≡ e2
  | _, _ => False
  end.

#[export] Instance Result_equivalence {A} : Equivalence (≡@{Result A}).
Proof.
  split.
  - intros []; unfold equiv; simpl; reflexivity.
  - intros [] [] H; unfold equiv in *; simpl in *; done.
  - intros [] [] [] ??; unfold equiv in *; simpl in *; try done; by etrans.
Qed.

Lemma Result_fmap_equiv {A B} (f : A → B) (r r' : Result A) : r ≡ r' → f <$> r ≡ f <$> r'.
Proof. destruct r, r'; unfold equiv; simpl; try done. by intros ->. Qed.

Lemma other_equiv e : other (error_to_string e) ≡ e.
Proof. done. Qed.

#[export] Hint Resolve other_equiv : dbos.
#[export] Hint Extern 0 (@Ok _ _ ≡ @Ok _ _) => reflexivity : dbos.

(** ** Properties *)

(** [is] and [is_code] agree with the numbering of the codes: an error
    matches a code exactly when it carries it, code [0] never matches (so no
    wrapped infrastructure error matches anything), and the two tests agree
    through [as_i32]. *)
Theorem error_is_spec e c :
  (error_is e c = true ↔ code e = c ∧ c ≠ Unspecified) ∧
  is_code e (as_i32 c) = error_is e c ∧
  (∀ s, source e = Some s → code e = Unspecified → error_is e c = false).
Proof.
  unfold error_is, is_code, code_i32.
  split_and!.
  - rewrite andb_true_iff, !bool_decide_eq_true. naive_solver.
  - f_equal; apply bool_decide_ext.
    + by destruct c.
    + split; [apply (inj as_i32) | by intros ->].
  - intros _ _ ->. apply andb_false_iff.
    rewrite !bool_decide_eq_false. destruct (decide (c = Unspecified)); [left | right]; congruence.
Qed.
