(* ===== verification/Migrate.v ===== *)
(** * Schema migrations (db/migrate.rs, db/mod.rs)

    Identifier quoting, template rendering, the table of migrations and the
    runner.  The SQL files are a parameter, and so is what running a script
    does to the rest of the schema; the schema list and the version table are
    modelled.  Every round trip to the server may fail, so a run can stop
    between any two of them, or inside a script that is not in a
    transaction. *)
From S2P Require Import Prelude Errors.

Local Open Scope string_scope.
Local Open Scope Z_scope.
Local Open Scope list_scope.
Local Open Scope dbos_scope.

(** ** Identifiers (db/mod.rs) *)

(** [str::replace] of the double quote by two of them. *)
Fixpoint double_quotes (s : string) : string :=
  match s with
  | "" => ""
  | String c rest =>
      if decide (c = "034"%char) then String c (String c (double_quotes rest))
      else String c (double_quotes rest)
  end.

Definition sanitize_ident (ident : string) : string :=
  dquote +:+ double_quotes ident +:+ dquote.

Definition schema_prefix (schema : string) : string := sanitize_ident schema +:+ ".".

(** Reading a quoted identifier the way the SQL lexer does: up to a double
    quote that is not doubled.  The identifier and the text after it. *)
Fixpoint read_quoted (s : string) : option (string * string) :=
  match s with
  | "" => None
  | String c rest =>
      if decide (c = "034"%char) then
        match rest with
        | String "034" rest' => '(x, after) ← read_quoted rest'; Some (String "034" x, after)
        | _ => Some ("", rest)
        end
      else '(x, after) ← read_quoted rest; Some (String c x, after)
  end.

Definition read_ident (s : string) : option (string * string) :=
  match s with String "034" rest => read_quoted rest | _ => None end.

(** ** Templates *)

(** [arg] is the closure that produces the next argument, with its captured
    state. *)
Fixpoint render {S : Type} (arg : S → string * S) (state : S) (template : string) : string :=
  match template with
  | "" => ""
  | String c rest =>
      if decide (c = "%"%char) then
        match rest with
        | String "%" rest' => String "%" (render arg state rest')
        | String "s" rest' => let '(a, state') := arg state in a +:+ render arg state' rest'
        | _ => String "%" (render arg state rest)
        end
      else String c (render arg state rest)
  end.

Definition render_uniform (template schema : string) : string :=
  render (λ u : unit, (schema, u)) tt template.

(** The captured state is the flag [used]. *)
Definition render_first_rest (template first rest : string) : string :=
  render (λ used : bool, if used then (rest, used) else (first, true)) false template.

(** ** The table *)

Record Migration := mkMigration {
  mg_version : Z;
  mg_sql : string;
  mg_online : bool;
}.

Definition SCHEMA_VERSION : Z := 40.
Definition MIGRATIONS_TABLE : string := "dbos_migrations".

Section table.
(** The embedded files, by name ([include_str!]). *)
Context (include_str : string → string).

Definition SIMPLE : list (Z * string * bool) := [
  (2, include_str "2_add_queue_partition_key.sql", false);
  (3, include_str "3_add_workflow_status_index.sql", false);
  (4, include_str "4_add_forked_from.sql", false);
  (5, include_str "5_add_step_timestamps.sql", false);
  (6, include_str "6_add_workflow_events_history.sql", false);
  (7, include_str "7_add_owner_xid.sql", false);
  (8, include_str "8_add_parent_workflow_id.sql", false);
  (9, include_str "9_add_workflow_schedules.sql", false);
  (11, include_str "11_add_serialization_columns.sql", false);
  (12, include_str "12_add_notifications_consumed.sql", false);
  (13, include_str "13_add_application_versions.sql", false);
  (14, include_str "14_add_pgsql_client_functions.sql", false);
  (15, include_str "15_add_workflow_schedule_columns.sql", false);
  (16, include_str "16_add_delay_until.sql", false);
  (17, include_str "17_add_workflow_schedule_queue_name.sql", false);
  (18, include_str "18_add_was_forked_from.sql", false);
  (19, include_str "19_add_operation_outputs_completed_at_index.sql", false);
  (20, include_str "20_set_function_search_path.sql", false);
  (21, include_str "21_create_queues_table.sql", false);
  (22, include_str "22_drop_forked_from_index.sql", true);
  (23, include_str "23_create_partial_forked_from_index.sql", true);
  (24, include_str "24_drop_parent_workflow_id_index.sql", true);
  (25, include_str "25_create_partial_parent_workflow_id_index.sql", true);
  (26, include_str "26_drop_executor_id_index.sql", true);
  (27, include_str "27_create_partial_dedup_id_index.sql", true);
  (28, include_str "28_drop_dedup_id_constraint.sql", false);
  (29, include_str "29_create_pending_index.sql", true);
  (30, include_str "30_create_failed_index.sql", true);
  (31, include_str "31_drop_status_index.sql", true);
  (32, include_str "32_create_in_flight_index.sql", true);
  (33, include_str "33_add_rate_limited.sql", false);
  (34, include_str "34_create_rate_limited_index.sql", true);
  (35, include_str "35_drop_queue_status_started_index.sql", true);
  (36, include_str "36_add_completed_at.sql", false);
  (37, include_str "37_create_started_at_index.sql", true);
  (39, include_str "39_create_streams_trigger.sql", false);
  (40, include_str "40_add_attributes.sql", false)
].

(** A row of the table, rendered for the sanitized schema [s]. *)
Definition simple_migration (s : string) (row : Z * string * bool) : Migration :=
  let '(version, template, online) := row in
  {| mg_version := version;
     mg_sql := if online then render_first_rest template "CONCURRENTLY" s
               else render_uniform template s;
     mg_online := online |}.

(** [format!("{}\n{}", a, b)]. *)
Definition two_lines (a b : string) : string := a +:+ String "010" b.

Definition by_version (a b : Migration) : Prop := mg_version a ≤ mg_version b.
#[export] Instance by_version_dec a b : Decision (by_version a b).
Proof. unfold by_version. apply _. Defined.

Definition build_migrations (schema : string) : list Migration :=
  let s := sanitize_ident schema in
  let v1 := two_lines (include_str "1_initial_dbos_schema.sql")
                      (include_str "1_initial_dbos_schema_listen_notify.sql") in
  let v38 := two_lines (include_str "38_update_enqueue_workflow.sql")
                       (include_str "38_set_enqueue_workflow_search_path.sql") in
  merge_sort by_version
    ({| mg_version := 1; mg_sql := render_uniform v1 s; mg_online := false |}
     :: (simple_migration s <$> SIMPLE) ++
     [ {| mg_version := 10;
          mg_sql := render_first_rest (include_str "10_add_notifications_pkey.sql") schema s;
          mg_online := false |};
       {| mg_version := 38; mg_sql := render_uniform v38 s; mg_online := false |} ]).
End table.

(** [sql.trim().is_empty()]. *)
Definition is_blank (s : string) : bool := str_is_empty (str_trim s).

(** ** The server *)

(** How a round trip ends.  [Unacknowledged]: the statement took effect and
    the answer was lost.  [Lost n]: it did not, and the caller sees an error;
    a script that was not in a transaction may have run in part. *)
Inductive fate :=
  | Delivered
  | Lost (progress : nat)
  | Unacknowledged.

(** What a server does with the scripts.  [Catalog] is everything in the
    database but the list of schemas and the version tables.  [run_script]
    gives the result of a script and the catalog it leaves, which a failed
    script outside a transaction does not undo; [torn] is the catalog after a
    script that was cut; [invalid_indexes] lists the indexes of a schema that
    are marked invalid. *)
Class Server (Catalog : Type) := {
  run_script : string → Catalog → Result unit * Catalog;
  torn : nat → string → Catalog → Catalog;
  invalid_indexes : string → Catalog → list string;
  trip_fate : nat → fate;
  connection_error : DbosError;
}.

Section runner.
Context {Catalog : Type} `{Server Catalog} (include_str : string → string).

(** [pg_schemas] maps each schema to its version table, if it has one;
    [pg_trips] counts the round trips made. *)
Record Pg := mkPg {
  pg_schemas : gmap string (option (list Z));
  pg_catalog : Catalog;
  pg_trips : nat;
}.

(** A computation over the server, with the error channel of [Result]. *)
Definition PgM (A : Type) : Type := Pg → Result A * Pg.

#[export] Instance PgM_ret : MRet PgM := λ A a s, (Ok a, s).
#[export] Instance PgM_bind : MBind PgM := λ A B f m s,
  match m s with
  | (Ok a, s') => f a s'
  | (Err e, s') => (Err e, s')
  end.

Definition next_trip (s : Pg) : Pg := mkPg (pg_schemas s) (pg_catalog s) (S (pg_trips s)).

(** One statement. *)
Definition statement {A} (run : Pg → Result A * Pg) : PgM A := λ s,
  match trip_fate (pg_trips s) with
  | Delivered => run (next_trip s)
  | Lost _ => (Err connection_error, next_trip s)
  | Unacknowledged => (Err connection_error, snd (run (next_trip s)))
  end.

(** [sqlx::raw_sql(script).execute]. *)
Definition raw_sql (script : string) : PgM unit := λ s,
  let run s := let '(r, c) := run_script script (pg_catalog s) in
               (r, mkPg (pg_schemas s) c (pg_trips s)) in
  match trip_fate (pg_trips s) with
  | Lost n => (Err connection_error,
               mkPg (pg_schemas s) (torn n script (pg_catalog s)) (S (pg_trips s)))
  | _ => statement run s
  end.

(** [pool.begin], a body, [tx.commit]; an error drops the transaction. *)
Definition rolled_back (before after : Pg) : Pg :=
  mkPg (pg_schemas before) (pg_catalog before) (pg_trips after).

Definition in_tx {A} (body : PgM A) : PgM A := λ s,
  match statement (λ s, (Ok tt, s)) s with
  | (Err e, s1) => (Err e, s1)
  | (Ok _, s1) =>
      match body s1 with
      | (Err e, s2) => (Err e, rolled_back s s2)
      | (Ok a, s2) =>
          match trip_fate (pg_trips s2) with
          | Delivered => (Ok a, next_trip s2)
          | Lost _ => (Err connection_error, rolled_back s (next_trip s2))
          | Unacknowledged => (Err connection_error, next_trip s2)
          end
      end
  end.

Definition pg_error (code text : string) : DbosError := from_sqlx (SqlxDatabase (Some code) text).

(** Statements that name a schema by a quoted identifier act on the schema
    the server reads there. *)
Definition on_schema {A} (quoted : string) (run : string → Pg → Result A * Pg) : PgM A :=
  statement (λ s,
    match read_ident quoted with
    | Some (name, "") => run name s
    | _ => (Err (pg_error "42601" "syntax error"), s)
    end).

(** [information_schema], with the name as a bind parameter. *)
Definition schema_exists (schema : string) : PgM bool :=
  statement (λ s, (Ok (bool_decide (is_Some (pg_schemas s !! schema))), s)).

Definition migrations_table_exists (schema : string) : PgM bool :=
  statement (λ s, (Ok (bool_decide (is_Some (mjoin (pg_schemas s !! schema)))), s)).

(** [CREATE SCHEMA {sanitized}]. *)
Definition create_schema (sanitized : string) : PgM unit :=
  on_schema sanitized (λ name s,
    match pg_schemas s !! name with
    | Some _ => (Err (pg_error "42P06" "schema already exists"), s)
    | None => (Ok tt, mkPg (<[name := None]> (pg_schemas s)) (pg_catalog s) (pg_trips s))
    end).

(** [CREATE TABLE {sanitized}.dbos_migrations (version ... PRIMARY KEY)]. *)
Definition create_migrations_table (sanitized : string) : PgM unit :=
  on_schema sanitized (λ name s,
    match pg_schemas s !! name with
    | None => (Err (pg_error "3F000" "schema does not exist"), s)
    | Some (Some _) => (Err (pg_error "42P07" "relation already exists"), s)
    | Some None =>
        (Ok tt, mkPg (<[name := Some []]> (pg_schemas s)) (pg_catalog s) (pg_trips s))
    end).

(** [SELECT version ... LIMIT 1]. *)
Definition read_version_opt (schema : string) : PgM (option Z) :=
  on_schema (sanitize_ident schema) (λ name s,
    match mjoin (pg_schemas s !! name) with
    | None => (Err (pg_error "42P01" "relation does not exist"), s)
    | Some rows => (Ok (head rows), s)
    end).

Definition read_version (schema : string) : PgM Z :=
  v ← read_version_opt schema; mret (default 0 v).

(** [INSERT] the version, or [UPDATE] every row, under the primary key. *)
Definition write_version (sanitized : string) (version last_applied : Z) : PgM unit :=
  on_schema sanitized (λ name s,
    match mjoin (pg_schemas s !! name) with
    | None => (Err (pg_error "42P01" "relation does not exist"), s)
    | Some rows =>
        let rows' := if decide (last_applied = 0) then rows ++ [version]
                     else (λ _, version) <$> rows in
        if decide (NoDup rows') then
          (Ok tt, mkPg (<[name := Some rows']> (pg_schemas s)) (pg_catalog s) (pg_trips s))
        else (Err (pg_error "23505" "duplicate key value violates unique constraint"), s)
    end).

(** ** The runner *)

Definition should_migrate (schema : string) : PgM bool :=
  found ← schema_exists schema;
  if negb found then mret true else
  found ← migrations_table_exists schema;
  if negb found then mret true else
  v ← read_version schema;
  mret (bool_decide (v < SCHEMA_VERSION)).

Definition drop_index_sql (sanitized name : string) : string :=
  "DROP INDEX CONCURRENTLY IF EXISTS " +:+ sanitized +:+ "." +:+ sanitize_ident name.

Fixpoint drop_indexes (sanitized : string) (names : list string) : PgM unit :=
  match names with
  | [] => mret tt
  | name :: names => _ ← raw_sql (drop_index_sql sanitized name); drop_indexes sanitized names
  end.

Definition cleanup_invalid_indexes (schema sanitized : string) : PgM unit :=
  names ← statement (λ s, (Ok (invalid_indexes schema (pg_catalog s)), s));
  drop_indexes sanitized names.

(** One pending migration; whether the invalid indexes have been dropped. *)
Definition apply_migration (schema sanitized : string) (m : Migration)
    (current_version : Z) (cleaned : bool) : PgM bool :=
  if mg_online m then
    _ ← (if cleaned then mret tt else cleanup_invalid_indexes schema sanitized);
    _ ← raw_sql (mg_sql m);
    _ ← write_version sanitized (mg_version m) current_version;
    mret true
  else
    in_tx (
      _ ← (if is_blank (mg_sql m) then mret tt else raw_sql (mg_sql m));
      _ ← write_version sanitized (mg_version m) current_version;
      mret cleaned).

Fixpoint apply_migrations (schema sanitized : string) (migrations : list Migration)
    (current_version : Z) (cleaned : bool) : PgM unit :=
  match migrations with
  | [] => mret tt
  | m :: rest =>
      if decide (mg_version m ≤ current_version)
      then apply_migrations schema sanitized rest current_version cleaned
      else
        cleaned' ← apply_migration schema sanitized m current_version cleaned;
        apply_migrations schema sanitized rest (mg_version m) cleaned'
  end.

(** Phase A: the schema and the version table exist; the current version. *)
Definition prepare (schema sanitized : string) : PgM Z :=
  in_tx (
    found ← schema_exists schema;
    _ ← (if (found : bool) then mret tt else create_schema sanitized);
    found ← migrations_table_exists schema;
    _ ← (if (found : bool) then mret tt else create_migrations_table sanitized);
    v ← read_version_opt schema;
    mret (default 0 v)).

Definition run_migrations (schema : string) : PgM unit :=
  let sanitized := sanitize_ident schema in
  current_version ← prepare schema sanitized;
  apply_migrations schema sanitized (build_migrations include_str schema) current_version false.
End runner.
Arguments Pg Catalog : clear implicits.

(** ** Identifiers and templates *)

(** What follows a quoted identifier: anything but another double quote. *)
Definition ends_ident (rest : string) : Prop :=
  match rest with String "034" _ => False | _ => True end.

Lemma read_quoted_double s rest :
  ends_ident rest → read_quoted (double_quotes s +:+ String "034" rest) = Some (s, rest).
Proof.
  intros Hrest. induction s as [|c s IH]; simpl.
  - destruct rest as [|[[] [] [] [] [] [] [] []] ?]; done.
  - case_decide as Hc; simpl.
    + subst c. simpl. by rewrite IH.
    + rewrite decide_False by done. by rewrite IH.
Qed.

Lemma read_sanitized s rest :
  ends_ident rest → read_ident (sanitize_ident s +:+ rest) = Some (s, rest).
Proof.
  intros Hrest. unfold sanitize_ident. rewrite !str_app_assoc.
  exact (read_quoted_double s rest Hrest).
Qed.

Lemma read_sanitized_alone s : read_ident (sanitize_ident s) = Some (s, "").
Proof.
  rewrite <-(str_app_nil (sanitize_ident s)). by apply read_sanitized.
Qed.

(** A sanitized identifier is one identifier to the server, and the one
    it was made from, whatever characters the name holds (quotes, dots,
    semicolons, comments); so a schema name never reads as SQL, and the
    prefix of a table name always names that schema. *)
Theorem sanitize_ident_exact s rest :
  read_ident (sanitize_ident s) = Some (s, "") ∧
  read_ident (schema_prefix s +:+ rest) = Some (s, "." +:+ rest) ∧
  ∀ s', sanitize_ident s = sanitize_ident s' → s = s'.
Proof.
  split_and!.
  - apply read_sanitized_alone.
  - unfold schema_prefix. rewrite str_app_assoc. by apply read_sanitized.
  - intros s' E. pose proof (read_sanitized_alone s) as E1. rewrite E, read_sanitized_alone in E1.
    by simplify_eq.
Qed.

(** A template as its author means it: text, and holes for arguments. *)
Inductive piece :=
  | Text (text : string)
  | Hole.

Fixpoint escape (s : string) : string :=
  match s with
  | "" => ""
  | String c rest => if decide (c = "%"%char) then String c (String c (escape rest))
                     else String c (escape rest)
  end.

Fixpoint template_of (ps : list piece) : string :=
  match ps with
  | [] => ""
  | Text s :: ps => escape s +:+ template_of ps
  | Hole :: ps => "%s" +:+ template_of ps
  end.

Fixpoint fill {S : Type} (arg : S → string * S) (state : S) (ps : list piece) : string :=
  match ps with
  | [] => ""
  | Text s :: ps => s +:+ fill arg state ps
  | Hole :: ps => let '(a, state') := arg state in a +:+ fill arg state' ps
  end.

Lemma render_escape {S} (arg : S → string * S) state s rest :
  render arg state (escape s +:+ rest) = s +:+ render arg state rest.
Proof.
  induction s as [|c s IH]; simpl; [done|].
  case_decide as Hc; simpl.
  - subst c. simpl. by rewrite IH.
  - rewrite decide_False by done. by rewrite IH.
Qed.

Lemma render_fill {S} (arg : S → string * S) state ps :
  render arg state (template_of ps) = fill arg state ps.
Proof.
  revert state. induction ps as [|[s|] ps IH]; intros state; simpl; [done| |].
  - by rewrite render_escape, IH.
  - destruct (arg state). by rewrite IH.
Qed.

Lemma fill_used first rest ps :
  fill (λ used : bool, if used then (rest, used) else (first, true)) true ps =
  fill (λ u : unit, (rest, u)) tt ps.
Proof. induction ps as [|[s|] ps IH]; simpl; [done| |]; by rewrite IH. Qed.

(** Rendering a template keeps its text, percent signs included, and
    puts the schema in every hole; with two arguments the first hole gets the
    first and all others the second. *)
Theorem render_template ps first rest schema :
  render_uniform (template_of ps) schema = fill (λ u, (schema, u)) tt ps ∧
  ∀ text after, ps = Text text :: Hole :: after →
    render_first_rest (template_of ps) first rest =
    text +:+ first +:+ fill (λ u, (rest, u)) tt after.
Proof.
  split; [apply render_fill|]. intros text after ->.
  unfold render_first_rest. rewrite render_fill. simpl. by rewrite fill_used.
Qed.

(** ** The table *)

Lemma build_migrations_versions include_str schema :
  mg_version <$> build_migrations include_str schema = seqZ 1 SCHEMA_VERSION.
Proof. vm_compute. reflexivity. Qed.

Lemma build_migrations_online include_str schema :
  mg_version <$> filter mg_online (build_migrations include_str schema) =
  [22; 23; 24; 25; 26; 27; 29; 30; 31; 32; 34; 35; 37].
Proof. vm_compute. reflexivity. Qed.

(** ** The specification of an upgrade

    The recorded version, the catalog, and whether the script of the next
    version, an online one, has run to its end. *)
Section upgrade.
Context {Catalog : Type} `{Server Catalog} (include_str : string → string) (schema : string).

Record Upgrade := mkUpgrade {
  up_version : Z;
  up_catalog : Catalog;
  up_built : bool;
}.

Inductive event :=
  | Applied (version : Z)
  | Built (version : Z)
  | Cut (version : Z)
  | Recorded (version : Z)
  | Dropped (index : string)
  | Stopped.

(** The catalogs a script can leave when it is not in a transaction. *)
Definition may_leave (script : string) (c c' : Catalog) : Prop :=
  c' = snd (run_script script c) ∨ ∃ n, c' = torn n script c.

(** The migration of the version after [v]. *)
Definition next_migration (v : Z) (m : Migration) : Prop :=
  m ∈ build_migrations include_str schema ∧ mg_version m = v + 1.

(** A catalog migration and its record are one step.  An online one is built
    first, perhaps in part and more than once, and recorded when it has been
    built to the end. *)
Inductive upgrade_step : event → Upgrade → Upgrade → Prop :=
  | step_applied m v c c' b :
      next_migration v m → mg_online m = false →
      (if is_blank (mg_sql m) then c' = c else run_script (mg_sql m) c = (Ok tt, c')) →
      upgrade_step (Applied (v + 1)) (mkUpgrade v c b) (mkUpgrade (v + 1) c' false)
  | step_built m v c c' b :
      next_migration v m → mg_online m = true → run_script (mg_sql m) c = (Ok tt, c') →
      upgrade_step (Built (v + 1)) (mkUpgrade v c b) (mkUpgrade v c' true)
  | step_cut m v c c' b :
      next_migration v m → mg_online m = true → may_leave (mg_sql m) c c' →
      upgrade_step (Cut (v + 1)) (mkUpgrade v c b) (mkUpgrade v c' false)
  | step_recorded m v c :
      next_migration v m → mg_online m = true →
      upgrade_step (Recorded (v + 1)) (mkUpgrade v c true) (mkUpgrade (v + 1) c false)
  | step_dropped name v c c' b :
      may_leave (drop_index_sql (sanitize_ident schema) name) c c' →
      upgrade_step (Dropped name) (mkUpgrade v c b) (mkUpgrade v c' false)
  | step_stopped v c b :
      upgrade_step Stopped (mkUpgrade v c b) (mkUpgrade v c false).

Inductive upgrades : list event → Upgrade → Upgrade → Prop :=
  | upgrades_nil u : upgrades [] u u
  | upgrades_cons e t u u1 u2 :
      upgrade_step e u u1 → upgrades t u1 u2 → upgrades (e :: t) u u2.

Lemma upgrades_app t1 t2 u u1 u2 :
  upgrades t1 u u1 → upgrades t2 u1 u2 → upgrades (t1 ++ t2) u u2.
Proof. induction 1; simpl; [done|]. intros. econstructor; eauto. Qed.

Lemma upgrades_one e u u' : upgrade_step e u u' → upgrades [e] u u'.
Proof. intros. econstructor; [done|constructor]. Qed.

(** The versions an upgrade moves the record through. *)
Definition progress (t : list event) : list Z :=
  omap (λ e, match e with Applied v | Recorded v => Some v | _ => None end) t.

Lemma upgrades_progress t u u' :
  upgrades t u u' →
  up_version u ≤ up_version u' ∧
  progress t = seqZ (up_version u + 1) (up_version u' - up_version u).
Proof.
  assert (∀ v v', v + 1 ≤ v' →
    v + 1 :: seqZ (v + 1 + 1) (v' - (v + 1)) = seqZ (v + 1) (v' - v)) as Hcons.
  { intros v v' ?. rewrite (seqZ_cons (v + 1) (v' - v)) by lia.
    f_equal. f_equal; lia. }
  induction 1 as [u|e t u u1 u2 Hs _ [IH1 IH2]]; [by rewrite Z.sub_diag|].
  destruct Hs; simpl in *; rewrite ?IH2; split; try lia; try done; apply Hcons; lia.
Qed.
End upgrade.
Arguments Upgrade Catalog : clear implicits.

(** ** The runner implements it *)

Section refines.
Context {Catalog : Type} `{Server Catalog} (include_str : string → string) (schema : string).
Abbreviation Upgrade := (Upgrade Catalog).
Abbreviation upgrades := (upgrades include_str schema).
Abbreviation sanitized := (sanitize_ident schema).

(** The version a database records for the schema: no schema, no version
    table and an empty table all record version 0. *)
Definition records (tables : gmap string (option (list Z))) (v : Z) : Prop :=
  match mjoin (tables !! schema) with
  | None | Some [] => v = 0
  | Some [v'] => v = v' ∧ 1 ≤ v
  | _ => False
  end.

Definition version_rows (v : Z) : list Z := if decide (v = 0) then [] else [v].

Lemma version_rows_pos v : 1 ≤ v → version_rows v = [v].
Proof. intros. unfold version_rows. by rewrite decide_False by lia. Qed.

Lemma head_version_rows v : default 0 (head (version_rows v)) = v.
Proof. unfold version_rows. by destruct (decide (v = 0)). Qed.

(** The rows after writing [v'] over the recorded [v]. *)
Lemma next_rows v v' :
  (if decide (v = 0) then version_rows v ++ [v'] else (λ _, v') <$> version_rows v) = [v'].
Proof. unfold version_rows. by destruct (decide (v = 0)). Qed.

Definition same_data (s s' : Pg Catalog) : Prop :=
  pg_schemas s' = pg_schemas s ∧ pg_catalog s' = pg_catalog s.

(** A running migration against a state of the specification; [base] is the
    rest of the schema list. *)
Definition tracks (base : gmap string (option (list Z))) (u : Upgrade) (s : Pg Catalog) : Prop :=
  0 ≤ up_version u ∧ up_catalog u = pg_catalog s ∧
  pg_schemas s = <[schema := Some (version_rows (up_version u))]> base.

#[local] Hint Unfold same_data : core.

Lemma tracks_same base u s s' : tracks base u s → same_data s s' → tracks base u s'.
Proof. unfold tracks. intros (?&?&?) [-> ->]. done. Qed.

Lemma tracks_catalog base u s s' b :
  tracks base u s → pg_schemas s' = pg_schemas s →
  tracks base (mkUpgrade (up_version u) (pg_catalog s') b) s'.
Proof. unfold tracks. intros (?&?&?) ->. done. Qed.

Lemma statement_inv {A} (run : Pg Catalog → Result A * Pg Catalog) s r s' :
  statement run s = (r, s') →
  ((∃ e, r = Err e) ∧ same_data s s') ∨
  ∃ r0, run (next_trip s) = (r0, s') ∧ (r = r0 ∨ ∃ e, r = Err e).
Proof.
  unfold statement. case_match; intros E; simplify_eq/=; [by eauto|left; split; [by eauto|done]|].
  right. exists (fst (run (next_trip s))). split; [by destruct (run (next_trip s))|eauto].
Qed.

Lemma statement_Ok {A} (run : Pg Catalog → Result A * Pg Catalog) s a s' :
  statement run s = (Ok a, s') → run (next_trip s) = (Ok a, s').
Proof. intros [[[e [=]] _]|(r0&->&[->|[e [=]]])]%statement_inv. done. Qed.

Lemma on_schema_Ok {A} (run : string → Pg Catalog → Result A * Pg Catalog) s a s' :
  on_schema sanitized run s = (Ok a, s') → run schema (next_trip s) = (Ok a, s').
Proof. intros E%statement_Ok. by rewrite read_sanitized_alone in E. Qed.

Lemma PgM_bind_Ok {A B} (m : PgM A) (f : A → PgM B) (s : Pg Catalog) b s' :
  (m ≫= f) s = (Ok b, s') → ∃ a s1, m s = (Ok a, s1) ∧ f a s1 = (Ok b, s').
Proof. unfold mbind, PgM_bind. destruct (m s) as [[]]; naive_solver. Qed.

Lemma raw_sql_inv script s r s' :
  raw_sql script s = (r, s') →
  pg_schemas s' = pg_schemas s ∧ may_leave script (pg_catalog s) (pg_catalog s') ∧
  ∀ a, r = Ok a → run_script script (pg_catalog s) = (Ok tt, pg_catalog s').
Proof.
  unfold raw_sql, statement, may_leave. destruct (run_script script (pg_catalog s)) as [r0 c] eqn:E.
  case_match; simpl; rewrite ?E; intros ?; simplify_eq/=; split_and!; eauto.
  all: intros []; naive_solver.
Qed.

Lemma in_tx_inv {A} (body : PgM A) s r s' :
  in_tx body s = (r, s') →
  ((∃ e, r = Err e) ∧ same_data s s') ∨
  ∃ s1 a s2, same_data s s1 ∧ body s1 = (Ok a, s2) ∧ same_data s2 s' ∧
    (r = Ok a ∨ ∃ e, r = Err e).
Proof.
  unfold in_tx. destruct (statement _ s) as [r1 s1] eqn:E1.
  assert (same_data s s1).
  { apply statement_inv in E1 as [[_ ?]|(r0&?&_)]; [done|by simplify_eq/=]. }
  destruct r1 as [[]|e]; [|intros ?; simplify_eq; left; eauto].
  destruct (body s1) as [[a|e] s2] eqn:E2; [|intros ?; simplify_eq; left; eauto].
  case_match; intros ?; simplify_eq; [right|left; by eauto|right]; exists s1, a, s2;
    split_and!; eauto.
Qed.

(** Writing the next version over the recorded one. *)
Lemma write_version_inv base u s v r s' :
  tracks base u s → 1 ≤ v →
  write_version sanitized v (up_version u) s = (r, s') →
  tracks base u s' ∧ (∃ e, r = Err e) ∨ tracks base (mkUpgrade v (up_catalog u) false) s'.
Proof.
  intros Ht Hv E. apply statement_inv in E as [[? ?]|(r0&E&Hr)].
  { left. split; [by eapply tracks_same|done]. }
  rewrite read_sanitized_alone in E. destruct Ht as (H0&Hc&Hs). simpl in E.
  rewrite Hs, lookup_insert_eq in E. simpl in E.
  rewrite next_rows in E.
  rewrite decide_True in E by apply NoDup_singleton. simplify_eq/=. right.
  split_and!; simpl; [lia|done|]. rewrite insert_insert_eq.
  by rewrite version_rows_pos.
Qed.

(** What a computation does is an upgrade. *)
Definition implements {A} (base : gmap string (option (list Z))) (u : Upgrade) (m : PgM A)
    (Q : A → Upgrade → Prop) : Prop :=
  ∀ s r s', tracks base u s → m s = (r, s') →
  ∃ t u', upgrades t u u' ∧ tracks base u' s' ∧ (∀ a, r = Ok a → Q a u').

Lemma implements_bind {A B} base u (m : PgM A) (f : A → PgM B) Q R :
  implements base u m Q → (∀ a u', Q a u' → implements base u' (f a) R) →
  implements base u (m ≫= f) R.
Proof.
  intros Hm Hf s r s' Ht E. unfold mbind, PgM_bind in E.
  destruct (m s) as [[a|e] s1] eqn:E1; [|simplify_eq].
  - destruct (Hm _ _ _ Ht E1) as (t1&u1&?&Ht1&HQ).
    destruct (Hf a u1 (HQ a eq_refl) _ _ _ Ht1 E) as (t2&u2&?&?&?).
    exists (t1 ++ t2), u2. eauto using upgrades_app.
  - destruct (Hm _ _ _ Ht E1) as (t1&u1&?&?&?). exists t1, u1. split_and!; [done..|].
    intros b [=].
Qed.

Lemma implements_ret {A} base u (a : A) (Q : A → Upgrade → Prop) :
  Q a u → implements base u (mret a) Q.
Proof. intros HQ s r s' Ht [= <- <-]. exists [], u. split_and!; [constructor|done|naive_solver]. Qed.

Lemma drop_indexes_implements base u names :
  implements base u (drop_indexes sanitized names) (λ _ u', up_version u' = up_version u).
Proof.
  revert u. induction names as [|name names IH]; intros u; simpl; [by apply implements_ret|].
  eapply implements_bind with (Q := λ _ u', up_version u' = up_version u).
  - intros s r s' Ht (Hs&Hl&_)%raw_sql_inv. destruct u as [v c b].
    exists [Dropped name], (mkUpgrade v (pg_catalog s') false).
    pose proof (tracks_catalog _ _ _ _ false Ht Hs) as Ht'.
    destruct Ht as (?&Hc&?). simpl in *. subst c.
    split; [by apply upgrades_one, step_dropped|done].
  - intros [] u' Hu'. rewrite <-Hu'. apply IH.
Qed.

Lemma cleanup_implements base u :
  implements base u (cleanup_invalid_indexes schema sanitized)
    (λ _ u', up_version u' = up_version u).
Proof.
  eapply implements_bind with (Q := λ _ u', u' = u).
  - intros s r s' Ht E. exists [], u. split_and!; [constructor| |done].
    eapply tracks_same; [done|].
    apply statement_inv in E as [[_ ?]|(r0&?&_)]; [done|by simplify_eq/=].
  - intros names ? ->. apply drop_indexes_implements.
Qed.

Lemma apply_migration_implements base u m cleaned :
  next_migration include_str schema (up_version u) m → 0 ≤ up_version u →
  implements base u (apply_migration schema sanitized m (up_version u) cleaned)
    (λ _ u', up_version u' = mg_version m).
Proof.
  intros Hm H0. pose proof Hm as [_ Hv]. unfold apply_migration.
  assert (1 ≤ mg_version m) as Hpos by lia.
  destruct (mg_online m) eqn:Hon.
  - eapply implements_bind with (Q := λ _ u', up_version u' = up_version u).
    { destruct cleaned; [by apply implements_ret|apply cleanup_implements]. }
    intros [] u1 Hu1. rewrite <-Hu1 in *. clear u Hu1.
    eapply implements_bind with (Q := λ _ u', up_version u' = up_version u1 ∧ up_built u' = true).
    { intros s r s' Ht (Hs&Hl&Hok)%raw_sql_inv. destruct u1 as [v c b].
      pose proof (λ b, tracks_catalog _ _ _ _ b Ht Hs) as Ht'.
      destruct Ht as (?&Hc&?). simpl in *. subst c.
      destruct r as [[]|e]; eexists [_], (mkUpgrade v (pg_catalog s') _).
      - split; [eapply upgrades_one, step_built; eauto|done].
      - split; [eapply upgrades_one, step_cut; eauto|done]. }
    intros [] u2 [Hu2 Hb]. rewrite <-Hu2 in *. clear u1 Hu2.
    eapply implements_bind with (Q := λ _ u', up_version u' = mg_version m);
      [|by intros; apply implements_ret].
    intros s r s' Ht E. destruct (write_version_inv _ _ _ _ _ _ Ht Hpos E) as [[? [e ->]]|?].
    + exists [], u2. split_and!; [constructor|done|done].
    + destruct u2 as [v c b]. simpl in *. subst b.
      eexists [_], _. split_and!; [|done|done].
      rewrite Hv. by apply upgrades_one, (step_recorded _ _ m).
  - intros s r s' Ht E.
    apply in_tx_inv in E as [[[e ->] ?]|(s1&a&s2&Hs1&Hbody&Hs2&_)].
    { exists [], u. split_and!; [constructor|eauto using tracks_same|done]. }
    pose proof (tracks_same _ _ _ _ Ht Hs1) as Ht1.
    unfold mbind, PgM_bind in Hbody.
    destruct ((if is_blank (mg_sql m) then mret tt else raw_sql (mg_sql m)) s1) as [[[]|e] s3] eqn:E3;
      [|done].
    destruct (write_version sanitized (mg_version m) (up_version u) s3) as [[[]|e] s4] eqn:E4; [|done].
    injection Hbody as <- <-.
    destruct u as [v c b]. destruct Ht1 as (?&Hc&Hss). simpl in *.
    assert (tracks base (mkUpgrade v (pg_catalog s3) b) s3 ∧
      if is_blank (mg_sql m) then pg_catalog s3 = c
      else run_script (mg_sql m) c = (Ok tt, pg_catalog s3)) as [Ht3 Hrun].
    { subst c. destruct (is_blank (mg_sql m)); [by injection E3 as <-|].
      apply raw_sql_inv in E3 as (Hs3&_&Hok). split; [|eauto].
      split_and!; [done..|simpl; congruence]. }
    destruct (write_version_inv _ _ _ _ _ _ Ht3 Hpos E4) as [[_ [e ?]]|Ht4]; [done|].
    eexists [_], _. split_and!; [|eauto using tracks_same|done]. simpl. rewrite Hv.
    by eapply upgrades_one, step_applied.
Qed.

(** The pending part of the table starts right after the recorded version. *)
Lemma apply_migrations_implements base u ms k n cleaned :
  (∀ m, m ∈ ms → m ∈ build_migrations include_str schema) →
  mg_version <$> ms = seqZ k n → 0 ≤ up_version u → k ≤ up_version u + 1 → 0 ≤ n →
  implements base u (apply_migrations schema sanitized ms (up_version u) cleaned)
    (λ _ u', k + n - 1 ≤ up_version u').
Proof.
  revert u k n cleaned. induction ms as [|m ms IH]; intros u k n cleaned Hin Hseq H0 Hk Hn; simpl.
  - apply implements_ret. simpl in Hseq.
    assert (n = 0) as ->; [|lia]. apply (f_equal length) in Hseq. rewrite length_seqZ in Hseq.
    simpl in Hseq. lia.
  - assert (0 < n) as Hpos.
    { apply (f_equal length) in Hseq. rewrite length_seqZ in Hseq. simpl in Hseq. lia. }
    rewrite seqZ_cons in Hseq by done. simpl in Hseq. injection Hseq as Hv Hseq.
    replace (k + n - 1) with (Z.succ k + Z.pred n - 1) by lia.
    case_decide as Hle.
    + apply IH; [|done|lia..]. intros. apply Hin. by right.
    + eapply implements_bind.
      { apply apply_migration_implements; [|done]. split; [apply Hin; by left|lia]. }
      simpl. intros cleaned' u' Hu'. rewrite <-Hu'.
      apply IH; [|done|lia..]. intros. apply Hin. by right.
Qed.

(** Phase A finds the recorded version, or makes the empty table. *)
Lemma prepare_inv s v r s' :
  records (pg_schemas s) v → prepare schema sanitized s = (r, s') →
  ((∃ e, r = Err e) ∧ same_data s s') ∨
  ((r = Ok v ∨ ∃ e, r = Err e) ∧ 0 ≤ v ∧ pg_catalog s' = pg_catalog s ∧
   pg_schemas s' = <[schema := Some (version_rows v)]> (pg_schemas s)).
Proof.
  intros Hv [?|(s1&a&s2&[Hs1 Hc1]&Hbody&[Hs2 Hc2]&Hr)]%in_tx_inv; [by left|]. right.
  rewrite Hs2, Hc2, <-Hs1, <-Hc1. rewrite <-Hs1 in Hv. clear Hs1 Hc1 Hs2 Hc2.
  apply PgM_bind_Ok in Hbody as (found&w1&E1%statement_Ok&Hbody). simplify_eq/=.
  apply PgM_bind_Ok in Hbody as ([]&w2&E2&Hbody).
  assert (pg_catalog w2 = pg_catalog s1 ∧ ∃ o, pg_schemas w2 = <[schema := o]> (pg_schemas s1) ∧
    mjoin (pg_schemas s1 !! schema) = o) as (Hc2&o&Hs2&Ho).
  { destruct (pg_schemas s1 !! schema) as [o|] eqn:Ho; simpl in E2.
    - injection E2 as <-. split; [done|]. exists o. by rewrite insert_id.
    - apply on_schema_Ok in E2. simpl in E2. rewrite Ho in E2. simplify_eq/=.
      split; [done|]. by exists None. }
  unfold records in Hv. rewrite Ho in Hv.
  apply PgM_bind_Ok in Hbody as (found&w3&E3%statement_Ok&Hbody). simplify_eq/=.
  rewrite Hs2, lookup_insert_eq in Hbody. simpl in Hbody.
  apply PgM_bind_Ok in Hbody as ([]&w4&E4&Hbody).
  assert (0 ≤ v ∧ pg_catalog w4 = pg_catalog s1 ∧
    pg_schemas w4 = <[schema := Some (version_rows v)]> (pg_schemas s1)) as (H0&Hc4&Hs4).
  { destruct (mjoin (pg_schemas s1 !! schema)) as [rows|]; simpl in E4.
    - injection E4 as <-. simpl. rewrite Hs2, Hc2. destruct rows as [|v' [|]]; [subst v|..|done].
      + done.
      + destruct Hv as [-> ?]. split_and!; [lia|done|].
        by rewrite version_rows_pos.
    - apply on_schema_Ok in E4. simpl in E4. rewrite Hs2, lookup_insert_eq in E4. simplify_eq/=.
      rewrite insert_insert_eq. done. }
  apply PgM_bind_Ok in Hbody as (ov&w5&E5%on_schema_Ok&[= <- <-]). simpl in E5.
  rewrite Hs4, lookup_insert_eq in E5. simplify_eq/=.
  by rewrite head_version_rows in Hr.
Qed.

Lemma records_nonneg tables v : records tables v → 0 ≤ v.
Proof. unfold records. destruct (mjoin _) as [[|? []]|]; lia. Qed.

Lemma version_rows_records tables v :
  0 ≤ v → records (<[schema := Some (version_rows v)]> tables) v.
Proof.
  intros ?. unfold records, version_rows. rewrite lookup_insert_eq. simpl.
  case_decide; [done|]. split; [done|lia].
Qed.

Lemma run_migrations_upgrades s r s' v b :
  records (pg_schemas s) v → run_migrations include_str schema s = (r, s') →
  ∃ t u', upgrades t (mkUpgrade v (pg_catalog s) b) u' ∧
    records (pg_schemas s') (up_version u') ∧ up_catalog u' = pg_catalog s' ∧
    delete schema (pg_schemas s') = delete schema (pg_schemas s) ∧
    (r = Ok tt → SCHEMA_VERSION ≤ up_version u').
Proof.
  intros Hv E. unfold run_migrations, mbind, PgM_bind in E.
  destruct (prepare schema sanitized s) as [r1 s1] eqn:E1.
  destruct (prepare_inv _ _ _ _ Hv E1) as [[[e ->] [Hs Hc]]|(Hr&H0&Hc&Hs)].
  { simplify_eq. exists [], (mkUpgrade v (pg_catalog s) b). rewrite Hs, Hc.
    split_and!; [constructor|done..]. }
  destruct Hr as [->|[e ->]].
  - assert (tracks (pg_schemas s) (mkUpgrade v (pg_catalog s) b) s1) as Ht by done.
    destruct (apply_migrations_implements (pg_schemas s) (mkUpgrade v (pg_catalog s) b) (build_migrations include_str schema)
      1 SCHEMA_VERSION false (λ _ H, H) (build_migrations_versions _ _) H0 ltac:(simpl; lia)
      ltac:(done) _ _ _ Ht E) as (t&u'&?&(?&?&Hs')&HQ).
    exists t, u'. rewrite Hs'. split_and!; [done|by apply version_rows_records|done| |].
    + by rewrite delete_insert_eq.
    + intros ->. specialize (HQ tt eq_refl). unfold SCHEMA_VERSION in *. lia.
  - simplify_eq. exists [], (mkUpgrade v (pg_catalog s) b). rewrite Hs.
    split_and!; [constructor|by apply version_rows_records|done|by rewrite delete_insert_eq|done].
Qed.

(** The runner called again and again, however each call ends. *)
Fixpoint attempts (n : nat) (s : Pg Catalog) : Pg Catalog :=
  match n with
  | O => s
  | S n => attempts n (snd (run_migrations include_str schema s))
  end.

(** C8: However often the runner is started, and wherever each run is cut
    off (a lost round trip, a lost acknowledgement, a failing script, a script
    outside a transaction left half done), what it has done so far is an
    upgrade of the specification: the versions are recorded one by one, in
    order and each once, every catalog script took effect exactly once and
    together with its record, every online script ran to its end before its
    version was recorded, the version table holds the version reached, and
    other schemas keep theirs. *)
Theorem migrations_survive_crashes n s v :
  records (pg_schemas s) v →
  let s' := attempts n s in
  ∃ t v' b, upgrades t (mkUpgrade v (pg_catalog s) false) (mkUpgrade v' (pg_catalog s') b) ∧
    progress t = seqZ (v + 1) (v' - v) ∧ v ≤ v' ∧ records (pg_schemas s') v' ∧
    delete schema (pg_schemas s') = delete schema (pg_schemas s).
Proof.
  enough (∀ b, records (pg_schemas s) v → ∃ t u',
    upgrades t (mkUpgrade v (pg_catalog s) b) u' ∧ up_catalog u' = pg_catalog (attempts n s) ∧
    records (pg_schemas (attempts n s)) (up_version u') ∧
    delete schema (pg_schemas (attempts n s)) = delete schema (pg_schemas s)) as Hgen.
  { intros Hv. destruct (Hgen false Hv) as (t&[v' c b]&Hu&Hc&?&?).
    simpl in Hc. subst c. exists t, v', b. pose proof (upgrades_progress _ _ _ _ _ Hu) as [??]. done. }
  revert s v. induction n as [|n IH]; intros s v b Hv; simpl.
  { eexists [], _. split_and!; [constructor|done..]. }
  destruct (run_migrations include_str schema s) as [r s1] eqn:E. simpl.
  destruct (run_migrations_upgrades _ _ _ _ b Hv E) as (t1&[v1 c1 b1]&Hu1&Hv1&Hc1&Hd1&_).
  simpl in *. subst c1. destruct (IH _ _ b1 Hv1) as (t2&u2&Hu2&?&?&Hd2).
  exists (t1 ++ t2), u2. split_and!; [by eapply upgrades_app|done..|congruence].
Qed.
End refines.

(** ** A run that nothing interrupts *)

Section completes.
Context {Catalog : Type} `{Server Catalog} (include_str : string → string) (schema : string).
Abbreviation sanitized := (sanitize_ident schema).

Definition run_one (script : string) (c : Catalog) : Result Catalog :=
  match run_script script c with
  | (Ok _, c') => Ok c'
  | (Err e, _) => Err e
  end.

Fixpoint run_each (scripts : list string) (c : Catalog) : Result Catalog :=
  match scripts with
  | [] => Ok c
  | script :: scripts => match run_one script c with
                         | Ok c' => run_each scripts c'
                         | Err e => Err e
                         end
  end.

(** The scripts a migration stands for at a catalog. *)
Definition migration_scripts (m : Migration) (cleaned : bool) (c : Catalog) : list string :=
  if mg_online m then
    (if cleaned then [] else drop_index_sql sanitized <$> invalid_indexes schema c) ++ [mg_sql m]
  else if is_blank (mg_sql m) then [] else [mg_sql m].

(** The catalog after the migrations above [v]. *)
Fixpoint upgrade_catalog (ms : list Migration) (v : Z) (cleaned : bool) (c : Catalog)
    : Result Catalog :=
  match ms with
  | [] => Ok c
  | m :: ms =>
      if decide (mg_version m ≤ v) then upgrade_catalog ms v cleaned c
      else match run_each (migration_scripts m cleaned c) c with
           | Ok c' => upgrade_catalog ms (mg_version m) (cleaned || mg_online m) c'
           | Err e => Err e
           end
  end.

Context (reliable : ∀ n, trip_fate n = Delivered).

(** [m] ends well and leaves the tables and the catalog given. *)
Definition ends_in {A} (m : PgM A) (a : A) (s : Pg Catalog)
    (tables : gmap string (option (list Z))) (c : Catalog) : Prop :=
  ∃ n, m s = (Ok a, mkPg tables c n).

Lemma ends_in_bind {A B} (m : PgM A) (f : A → PgM B) a b s tables c tables' c' :
  ends_in m a s tables c → (∀ n, ends_in (f a) b (mkPg tables c n) tables' c') →
  ends_in (m ≫= f) b s tables' c'.
Proof.
  intros [n E] Hf. destruct (Hf n) as [n' E']. exists n'.
  unfold mbind, PgM_bind. by rewrite E.
Qed.

Lemma ends_in_ret {A} (a : A) tables c n : ends_in (mret a) a (mkPg tables c n) tables c.
Proof. by exists n. Qed.

Lemma ends_in_over {A} (m : PgM A) a s tables x y c :
  ends_in m a s (<[schema := x]> (<[schema := y]> tables)) c →
  ends_in m a s (<[schema := x]> tables) c.
Proof. by rewrite insert_insert_eq. Qed.

Lemma ends_in_tx {A} (body : PgM A) a tables c n tables' c' :
  (∀ n, ends_in body a (mkPg tables c n) tables' c') →
  ends_in (in_tx body) a (mkPg tables c n) tables' c'.
Proof.
  intros Hb. unfold ends_in, in_tx, statement. rewrite reliable. unfold next_trip. simpl.
  destruct (Hb (S n)) as [n' ->]. rewrite reliable. by eexists.
Qed.

Lemma statement_runs {A} (run : Pg Catalog → Result A * Pg Catalog) s :
  statement run s = run (next_trip s).
Proof. unfold statement. by rewrite reliable. Qed.

Lemma on_schema_runs {A} (run : string → Pg Catalog → Result A * Pg Catalog) s :
  on_schema sanitized run s = run schema (next_trip s).
Proof. unfold on_schema. by rewrite statement_runs, read_sanitized_alone. Qed.

Lemma raw_sql_runs script tables c n c' :
  run_one script c = Ok c' → ends_in (raw_sql script) tt (mkPg tables c n) tables c'.
Proof.
  unfold run_one, ends_in, raw_sql, statement. rewrite reliable. simpl.
  destruct (run_script script c) as [[[]|] ?]; [|done]. intros [= ->]. by eexists.
Qed.

Lemma run_each_app xs ys c :
  run_each (xs ++ ys) c =
  match run_each xs c with Ok c' => run_each ys c' | Err e => Err e end.
Proof. revert c. induction xs as [|x xs IH]; intros c; simpl; [done|]. by destruct run_one. Qed.

Lemma drop_indexes_runs names tables c n c' :
  run_each (drop_index_sql sanitized <$> names) c = Ok c' →
  ends_in (drop_indexes sanitized names) tt (mkPg tables c n) tables c'.
Proof.
  revert c n. induction names as [|name names IH]; intros c n; simpl.
  { intros [= ->]. apply ends_in_ret. }
  destruct run_one as [c1|] eqn:E1; [|done]. intros E.
  eapply ends_in_bind; [by apply raw_sql_runs|]. simpl. auto.
Qed.

Lemma cleanup_runs tables c n c' :
  run_each (drop_index_sql sanitized <$> invalid_indexes schema c) c = Ok c' →
  ends_in (cleanup_invalid_indexes schema sanitized) tt (mkPg tables c n) tables c'.
Proof.
  intros E. eapply ends_in_bind with (a := invalid_indexes schema c) (tables := tables) (c := c).
  - exists (S n). by rewrite statement_runs.
  - intros n'. by apply drop_indexes_runs.
Qed.

Lemma write_version_runs tables v v' c n :
  tables !! schema = Some (Some (version_rows v)) → 1 ≤ v' →
  ends_in (write_version sanitized v' v) tt (mkPg tables c n)
    (<[schema := Some (version_rows v')]> tables) c.
Proof.
  intros Hs Hv. exists (S n). unfold write_version. rewrite on_schema_runs. simpl. rewrite Hs. simpl.
  rewrite next_rows, decide_True by apply NoDup_singleton. by rewrite version_rows_pos.
Qed.

Lemma apply_migration_runs m v cleaned tables c n c' :
  tables !! schema = Some (Some (version_rows v)) → 1 ≤ mg_version m →
  run_each (migration_scripts m cleaned c) c = Ok c' →
  ends_in (apply_migration schema sanitized m v cleaned) (cleaned || mg_online m)
    (mkPg tables c n) (<[schema := Some (version_rows (mg_version m))]> tables) c'.
Proof.
  intros Hs Hv. unfold migration_scripts, apply_migration. destruct (mg_online m).
  - rewrite run_each_app. destruct (run_each _ c) as [c1|] eqn:E1; [|done]. simpl.
    destruct run_one as [c2|] eqn:E2; [|done]. intros [= ->].
    eapply ends_in_bind with (a := tt) (tables := tables) (c := c1).
    { destruct cleaned; [|by apply cleanup_runs]. simpl in E1. simplify_eq. apply ends_in_ret. }
    intros n1. eapply ends_in_bind; [by apply raw_sql_runs|]. intros n2.
    eapply ends_in_bind; [by apply write_version_runs|]. intros n3.
    rewrite orb_true_r. apply ends_in_ret.
  - intros E. apply ends_in_tx. intros n1.
    eapply ends_in_bind with (a := tt) (tables := tables) (c := c').
    { destruct (is_blank (mg_sql m)); simpl in E; [simplify_eq; apply ends_in_ret|].
      destruct run_one as [c1|] eqn:E1; [|done]. simplify_eq. by apply raw_sql_runs. }
    intros n2. eapply ends_in_bind; [by apply write_version_runs|]. intros n3.
    rewrite orb_false_r. apply ends_in_ret.
Qed.

Lemma apply_migrations_runs ms k l v cleaned tables c n c' :
  mg_version <$> ms = seqZ k l → 1 ≤ k → k ≤ v + 1 → 0 ≤ l →
  tables !! schema = Some (Some (version_rows v)) →
  upgrade_catalog ms v cleaned c = Ok c' →
  ends_in (apply_migrations schema sanitized ms v cleaned) tt (mkPg tables c n)
    (<[schema := Some (version_rows (v `max` (k + l - 1)))]> tables) c'.
Proof.
  revert k l v cleaned tables c n. induction ms as [|m ms IH];
    intros k l v cleaned tables c n Hseq Hk Hv Hl Hs; simpl.
  - intros [= ->]. exists n. apply (f_equal length) in Hseq. rewrite length_seqZ in Hseq.
    simpl in Hseq. rewrite Z.max_l by lia. by rewrite insert_id.
  - assert (0 < l) as Hpos.
    { apply (f_equal length) in Hseq. rewrite length_seqZ in Hseq. simpl in Hseq. lia. }
    rewrite seqZ_cons in Hseq by done. simpl in Hseq. injection Hseq as Hm Hseq.
    case_decide as Hle.
    + intros E. replace (k + l - 1) with (Z.succ k + Z.pred l - 1) by lia.
      apply IH; [done|lia..|done|done].
    + destruct (run_each _ c) as [c1|] eqn:E1; [|done]. intros E.
      eapply ends_in_bind; [apply apply_migration_runs; [done|lia|done]|]. intros n1. simpl.
      replace (v `max` (k + l - 1)) with (mg_version m `max` (Z.succ k + Z.pred l - 1)) by lia.
      apply (ends_in_over _ _ _ _ _ (Some (version_rows (mg_version m)))).
      apply IH; [done|lia..|by rewrite lookup_insert_eq|done].
Qed.

Lemma prepare_runs tables v c n :
  records schema tables v →
  ends_in (prepare schema sanitized) v (mkPg tables c n)
    (<[schema := Some (version_rows v)]> tables) c.
Proof.
  intros Hv. apply ends_in_tx. clear n. intros n.
  eapply ends_in_bind with (a := bool_decide (is_Some (tables !! schema))) (tables := tables) (c := c).
  { exists (S n). unfold schema_exists. by rewrite statement_runs. }
  clear n. intros n. set (o := mjoin (tables !! schema)).
  eapply ends_in_bind with (a := tt) (tables := <[schema := o]> tables) (c := c).
  { subst o. destruct (tables !! schema) as [o|] eqn:Ho; simpl.
    - rewrite insert_id by done. apply ends_in_ret.
    - exists (S n). unfold create_schema. rewrite on_schema_runs. simpl. by rewrite Ho. }
  clear n. intros n.
  eapply ends_in_bind with (a := bool_decide (is_Some o)) (tables := <[schema := o]> tables) (c := c).
  { exists (S n). unfold migrations_table_exists. rewrite statement_runs. simpl. by rewrite lookup_insert_eq. }
  clear n. intros n. unfold records in Hv. fold o in Hv.
  eapply ends_in_bind with (a := tt) (tables := <[schema := Some (version_rows v)]> tables) (c := c).
  { destruct o as [rows|]; simpl.
    - destruct rows as [|v' [|]]; [subst v; apply ends_in_ret| |done].
      destruct Hv as [-> ?]. rewrite version_rows_pos by done. apply ends_in_ret.
    - subst v. exists (S n). unfold create_migrations_table. rewrite on_schema_runs. simpl.
      by rewrite lookup_insert_eq, insert_insert_eq. }
  clear n. intros n. exists (S n). unfold mbind, PgM_bind, read_version_opt.
  rewrite on_schema_runs. simpl. rewrite lookup_insert_eq. simpl.
  by rewrite head_version_rows.
Qed.

Lemma run_migrations_runs tables v c n c' :
  records schema tables v →
  upgrade_catalog (build_migrations include_str schema) v false c = Ok c' →
  ends_in (run_migrations include_str schema) tt (mkPg tables c n)
    (<[schema := Some (version_rows (v `max` SCHEMA_VERSION))]> tables) c'.
Proof.
  intros Hv E. pose proof (records_nonneg _ _ _ Hv).
  eapply ends_in_bind; [by apply prepare_runs|]. intros n'.
  apply (ends_in_over _ _ _ _ _ (Some (version_rows v))).
  apply (apply_migrations_runs _ 1 SCHEMA_VERSION); [apply build_migrations_versions|lia|lia|done| |done].
  by rewrite lookup_insert_eq.
Qed.

Lemma upgrade_catalog_done ms v cleaned c :
  (∀ m, m ∈ ms → mg_version m ≤ v) → upgrade_catalog ms v cleaned c = Ok c.
Proof.
  induction ms as [|m ms IH]; intros Hle; simpl; [done|].
  rewrite decide_True by (apply Hle; by left). apply IH. intros. apply Hle. by right.
Qed.

(** C9: When no round trip is lost and the pending scripts succeed, the
    runner finishes; it has run exactly the pending scripts in order (and the
    drops of invalid indexes before the first online one), and the version
    table holds version 40, or the later one it held.  After that
    [should_migrate] answers no, and another run changes nothing. *)
Theorem run_migrations_completes s v c' :
  records schema (pg_schemas s) v →
  upgrade_catalog (build_migrations include_str schema) v false (pg_catalog s) = Ok c' →
  ∃ s', run_migrations include_str schema s = (Ok tt, s') ∧ pg_catalog s' = c' ∧
    pg_schemas s' = <[schema := Some [v `max` SCHEMA_VERSION]]> (pg_schemas s) ∧
    fst (should_migrate schema s') = Ok false ∧
    ∃ s'', run_migrations include_str schema s' = (Ok tt, s'') ∧ same_data s' s''.
Proof.
  intros Hv E. destruct s as [tables c n]. simpl in *.
  destruct (run_migrations_runs _ _ _ n _ Hv E) as [n' E'].
  set (v' := v `max` SCHEMA_VERSION) in *. assert (1 ≤ v' ∧ SCHEMA_VERSION ≤ v') as [H1 H40].
  { unfold v', SCHEMA_VERSION. lia. }
  rewrite version_rows_pos in E' by done. eexists. split_and!; [done..| |].
  - unfold should_migrate, schema_exists, migrations_table_exists, read_version, read_version_opt.
    unfold mbind, PgM_bind. rewrite !statement_runs. simpl. rewrite lookup_insert_eq. simpl.
    rewrite !statement_runs. simpl. rewrite lookup_insert_eq. simpl.
    rewrite on_schema_runs. simpl. rewrite lookup_insert_eq. simpl.
    by rewrite bool_decide_false by lia.
  - destruct (run_migrations_runs (<[schema:=Some [v']]> tables) v' c' n' c') as [n'' E''].
    + unfold records. by rewrite lookup_insert_eq.
    + apply upgrade_catalog_done. intros m Hm.
      assert (mg_version m ∈ seqZ 1 SCHEMA_VERSION) as Hin%elem_of_seqZ; [|lia].
      rewrite <-(build_migrations_versions include_str schema). by apply list_elem_of_fmap_2.
    + eexists. split; [done|]. split; [|done]. simpl.
      rewrite insert_insert_eq, Z.max_l by lia. by rewrite version_rows_pos.
Qed.
End completes.
