(* ===== verification/Json.v ===== *)
(** * JSON values and the serde interfaces

    [Value] is [serde_json::Value] (its default [BTreeMap] build).  The text
    codec of serde_json and the base64 engine are not part of the crate: they
    are the classes [SerdeJson] and [Base64Engine], whose laws [SerdeJsonLaws]
    and [Base64Laws] state the documented behaviour the crate relies on.
    [Serialize] and [Deserialize] are the serde traits. *)
From S2P Require Import Prelude Errors.

Local Open Scope string_scope.
Local Open Scope Z_scope.

(** ** Values *)

Inductive Number :=
  | NInt (z : Z)              (* an [i64] or a [u64] *)
  | NFloat (text : string).   (* an [f64], by its printed form *)

Inductive Value :=
  | VNull
  | VBool (b : bool)
  | VNumber (n : Number)
  | VString (s : string)
  | VArray (l : list Value)
  | VObject (m : list (string * Value)).

Section Value_induction.
Variable P : Value → Prop.
Hypothesis HNull : P VNull.
Hypothesis HBool : ∀ b, P (VBool b).
Hypothesis HNumber : ∀ n, P (VNumber n).
Hypothesis HString : ∀ s, P (VString s).
Hypothesis HArray : ∀ l, Forall P l → P (VArray l).
Hypothesis HObject : ∀ m, Forall (λ kv, P kv.2) m → P (VObject m).

Fixpoint Value_nested_ind (v : Value) : P v :=
  match v with
  | VNull => HNull
  | VBool b => HBool b
  | VNumber n => HNumber n
  | VString s => HString s
  | VArray l => HArray l
      ((fix go l := match l return Forall P l with
        | [] => List.Forall_nil _
        | v :: l => List.Forall_cons _ _ _ (Value_nested_ind v) (go l)
        end) l)
  | VObject m => HObject m
      ((fix go m := match m return Forall (λ kv, P kv.2) m with
        | [] => List.Forall_nil _
        | (k, v) :: m => List.Forall_cons _ (k, v) _ (Value_nested_ind v) (go m)
        end) m)
  end.
End Value_induction.

Definition is_null (v : Value) : bool := match v with VNull => true | _ => false end.
Definition as_str (v : Value) : option string := match v with VString s => Some s | _ => None end.
Definition as_bool (v : Value) : option bool := match v with VBool b => Some b | _ => None end.
Definition as_array (v : Value) : option (list Value) := match v with VArray l => Some l | _ => None end.
Definition as_i64 (v : Value) : option Z :=
  match v with VNumber (NInt z) => if decide (in_i64 z) then Some z else None | _ => None end.

(** ** Objects: the operations of [serde_json::Map] *)

Section object_map.
Context {A : Type}.
Implicit Types (m : list (string * A)) (k : string).

Fixpoint map_get k m : option A :=
  match m with
  | [] => None
  | (k', v) :: m => if decide (k = k') then Some v else map_get k m
  end.

Fixpoint map_insert k (v : A) m : list (string * A) :=
  match m with
  | [] => [(k, v)]
  | (k', v') :: m' =>
      match String.compare k k' with
      | Lt => (k, v) :: m
      | Eq => (k, v) :: m'
      | Gt => (k', v') :: map_insert k v m'
      end
  end.

Fixpoint map_remove k m : list (string * A) :=
  match m with
  | [] => []
  | (k', v) :: m => if decide (k = k') then m else (k', v) :: map_remove k m
  end.

(** [get_mut] followed by an in-place update. *)
Fixpoint map_alter (f : A → A) k m : list (string * A) :=
  match m with
  | [] => []
  | (k', v) :: m => if decide (k = k') then (k', f v) :: m else (k', v) :: map_alter f k m
  end.

(** Insertion of a pair whose key a later pair may overwrite. *)
Fixpoint map_insert_absent k (v : A) m : list (string * A) :=
  match m with
  | [] => [(k, v)]
  | (k', v') :: m' =>
      match String.compare k k' with
      | Lt => (k, v) :: m
      | Eq => m
      | Gt => (k', v') :: map_insert_absent k v m'
      end
  end.

(** Collecting pairs in order: the last pair of a key wins. *)
Fixpoint map_collect m : list (string * A) :=
  match m with [] => [] | (k, v) :: m => map_insert_absent k v (map_collect m) end.

(** Keys strictly increasing, as a [BTreeMap] iterates them. *)
Fixpoint sorted_keys m : bool :=
  match m with
  | [] => true
  | (k, _) :: m =>
      match m with
      | [] => true
      | (k', _) :: _ => bool_decide (String.compare k k' = Lt)
      end && sorted_keys m
  end.

Lemma map_get_insert_eq k v m : map_get k (map_insert k v m) = Some v.
Proof.
  induction m as [|[k' v'] m IH]; simpl; [by rewrite decide_True|].
  destruct (String.compare k k') eqn:E; simpl; rewrite ?decide_True by done; try done.
  rewrite decide_False; [done|]. intros ->.
  pose proof (String.compare_antisym k' k') as H. rewrite E in H. done.
Qed.

Lemma map_get_insert_ne k k' v m : k ≠ k' → map_get k (map_insert k' v m) = map_get k m.
Proof.
  intros Hne. induction m as [|[k0 v0] m IH]; simpl; [by rewrite decide_False|].
  destruct (String.compare k' k0) eqn:E; simpl.
  - apply String.compare_eq_iff in E as ->. by rewrite !decide_False.
  - by rewrite (decide_False (P := k = k')).
  - by rewrite IH.
Qed.

Lemma map_get_alter f k k' m :
  map_get k (map_alter f k' m) = (if decide (k = k') then f else id) <$> map_get k m.
Proof.
  induction m as [|[k0 v0] m IH]; simpl; [done|].
  destruct (decide (k' = k0)) as [->|]; simpl.
  - destruct (decide (k = k0)); [done|]. by destruct (map_get k m).
  - destruct (decide (k = k0)); [|done]. by rewrite decide_False by congruence.
Qed.

Lemma map_insert_absent_sorted k v m :
  sorted_keys m = true → sorted_keys (map_insert_absent k v m) = true.
Proof.
  induction m as [|[k' v'] m IH]; [done|]. intros Hs.
  pose proof Hs as [Hhd Htl]%andb_true_iff. specialize (IH Htl).
  cbn [map_insert_absent]. destruct (String.compare k k') eqn:E; [done|..].
  - cbn [sorted_keys] in *. by rewrite bool_decide_eq_true_2.
  - assert (String.compare k' k = Lt) by (by rewrite String.compare_antisym, E).
    destruct m as [|[k2 v2] m]; cbn [map_insert_absent] in *.
    + cbn. by rewrite bool_decide_eq_true_2.
    + destruct (String.compare k k2); cbn [sorted_keys] in *; rewrite ?IH; try done.
      * by rewrite Hhd.
      * by rewrite bool_decide_eq_true_2.
      * by rewrite Hhd.
Qed.

Lemma map_insert_absent_Forall (P : string * A → Prop) k v m :
  P (k, v) → Forall P m → Forall P (map_insert_absent k v m).
Proof.
  intros HP Hm. induction Hm as [|[k' v'] m ? Hm IH]; simpl; [by repeat constructor|].
  destruct (String.compare k k'); by repeat constructor.
Qed.

Lemma map_collect_wf m : sorted_keys (map_collect m) = true.
Proof. induction m as [|[k v] m IH]; simpl; auto using map_insert_absent_sorted. Qed.

Lemma map_collect_Forall (P : string * A → Prop) m : Forall P m → Forall P (map_collect m).
Proof. induction 1 as [|[k v] m]; simpl; auto using map_insert_absent_Forall. Qed.

Lemma map_collect_sorted m : sorted_keys m = true → map_collect m = m.
Proof.
  induction m as [|[k v] m IH]; simpl; [done|].
  intros [H1 H2]%andb_true_iff. rewrite IH by done.
  destruct m as [|[k' v'] m]; simpl; [done|].
  apply bool_decide_eq_true in H1. by rewrite H1.
Qed.
End object_map.

#[export] Hint Rewrite @map_get_insert_eq : dbos.

(** [Value::get] with a key. *)
Definition value_get (k : string) (v : Value) : option Value :=
  match v with VObject m => map_get k m | _ => None end.

(** A tree as a serializer emits it, or a parser reads it, becomes a [Value]
    by collecting every object into a map. *)
Fixpoint value_of_tree (t : Value) : Value :=
  match t with
  | VArray l => VArray (List.map value_of_tree l)
  | VObject m => VObject (map_collect (List.map (λ kv, (kv.1, value_of_tree kv.2)) m))
  | _ => t
  end.

(** The representation invariant of [Value]: objects are sorted maps. *)
Fixpoint json_wf (v : Value) : bool :=
  match v with
  | VArray l => forallb json_wf l
  | VObject m => sorted_keys m && forallb (λ kv, json_wf kv.2) m
  | _ => true
  end.

(** serde_json parses at most 127 nested arrays and objects. *)
Fixpoint json_depth (v : Value) : nat :=
  match v with
  | VArray l => S (list_max (List.map json_depth l))
  | VObject m => S (list_max (List.map (λ kv, json_depth kv.2) m))
  | _ => 0
  end.

(** Every number is an integer serde_json holds exactly. *)
Fixpoint json_integral (v : Value) : bool :=
  match v with
  | VNumber (NInt z) => bool_decide (- 2 ^ 63 ≤ z < 2 ^ 64)
  | VNumber (NFloat _) => false
  | VArray l => forallb json_integral l
  | VObject m => forallb (λ kv, json_integral kv.2) m
  | _ => true
  end.

(** The trees of depth at most [d] whose numbers are exact; at [127], the
    trees whose text is guaranteed to be read back unchanged. *)
Definition json_safe_at (d : nat) (v : Value) : bool :=
  bool_decide (json_depth v ≤ d)%nat && json_integral v.
Definition json_safe : Value → bool := json_safe_at 127.

Lemma json_safe_at_mono d v : (d ≤ 127)%nat → json_safe_at d v = true → json_safe v = true.
Proof.
  unfold json_safe, json_safe_at. rewrite !andb_true_iff, !bool_decide_eq_true.
  intros ? [??]. split; [lia | done].
Qed.

Lemma sorted_keys_fmap {A B} (f : A → B) (m : list (string * A)) :
  sorted_keys (List.map (λ kv, (kv.1, f kv.2)) m) = sorted_keys m.
Proof.
  induction m as [|[k v] m IH]; simpl; [done|]. rewrite IH. by destruct m as [|[]].
Qed.

Lemma map_pairs_id {A} (f : A → A) (m : list (string * A)) :
  Forall (λ kv, f kv.2 = kv.2) m → List.map (λ kv, (kv.1, f kv.2)) m = m.
Proof. induction 1 as [|[k v] m H _ IH]; simpl in *; congruence. Qed.

Lemma value_of_tree_wf v : json_wf v = true → value_of_tree v = v.
Proof.
  induction v as [ | | | |l IH|m IH] using Value_nested_ind; simpl; try done.
  - intros Hwf. f_equal. induction IH as [|v l IHv _ IHl]; simpl in *; [done|].
    apply andb_true_iff in Hwf as [??]. f_equal; auto.
  - intros [Hs Hwf]%andb_true_iff. rewrite map_pairs_id; [by rewrite map_collect_sorted|].
    clear Hs. induction IH as [|[k v] m IHv _ IHm]; simpl in *; [constructor|].
    apply andb_true_iff in Hwf as [??]. constructor; auto.
Qed.

Lemma forallb_Forall_true {A} (p : A → bool) (l : list A) :
  forallb p l = true ↔ Forall (λ x, p x = true) l.
Proof. rewrite forallb_forall, List.Forall_forall. done. Qed.

Lemma json_wf_of_tree t : json_wf (value_of_tree t) = true.
Proof.
  induction t as [ | | | |l IH|m IH] using Value_nested_ind; simpl; try done.
  - apply forallb_Forall_true. induction IH; simpl; by constructor.
  - rewrite map_collect_wf. simpl. apply forallb_Forall_true, map_collect_Forall.
    induction IH as [|[k v] m Hv _ IHm]; simpl in *; by constructor.
Qed.

Lemma value_of_tree_idemp t : value_of_tree (value_of_tree t) = value_of_tree t.
Proof. apply value_of_tree_wf, json_wf_of_tree. Qed.

#[export] Hint Resolve json_wf_of_tree : dbos.
#[export] Hint Rewrite value_of_tree_idemp : dbos.

(** ** The text codec *)

Class SerdeJson := {
  json_print : Value → string;
  json_parse : string → string + Value;
}.

(** The first characters a JSON text can have. *)
Definition json_start (c : ascii) : bool :=
  bool_decide (Ascii.nat_of_ascii c ∈ [9; 10; 13; 32; 34; 45; 91; 102; 110; 116; 123]%nat)
  || bool_decide (48 ≤ Ascii.nat_of_ascii c ≤ 57)%nat.

Class SerdeJsonLaws `(SerdeJson) : Prop := {
  json_parse_print v : json_safe v = true → json_parse (json_print v) = inr v;
  json_print_null : json_print VNull = "null";
  json_parse_empty : ∀ v, json_parse "" ≠ inr v;
  json_parse_start c s v : json_parse (String c s) = inr v → json_start c = true;
}.

Class Base64Engine := {
  b64_encode : string → string;
  b64_decode : string → string + string;
}.

(** The letters of the standard base64 alphabet, with the padding sign. *)
Definition base64_letter (c : ascii) : bool :=
  let n := Ascii.nat_of_ascii c in
  bool_decide (65 ≤ n ≤ 90)%nat || bool_decide (97 ≤ n ≤ 122)%nat || bool_decide (48 ≤ n ≤ 57)%nat
  || bool_decide (n ∈ [43; 47; 61]%nat).

Fixpoint all_chars (p : ascii → bool) (s : string) : bool :=
  match s with EmptyString => true | String c rest => p c && all_chars p rest end.

(** The first letter of an encoding carries the six high bits of the first
    byte (RFC 4648). *)
Definition base64_sextet (n : nat) : ascii :=
  Ascii.ascii_of_nat
    (if decide (n < 26)%nat then 65 + n else if decide (n < 52)%nat then 71 + n
     else if decide (n < 62)%nat then n - 4 else if decide (n = 62)%nat then 43 else 47)%nat.

Class Base64Laws `(Base64Engine) : Prop := {
  b64_decode_encode s : b64_decode (b64_encode s) = inr s;
  b64_decode_alphabet s t : b64_decode s = inr t → all_chars base64_letter s = true;
  b64_encode_head c s :
    ∃ rest, b64_encode (String c s) = String (base64_sextet (Ascii.nat_of_ascii c / 4)) rest;
}.

(** ** The serde traits *)

(** [Serialize]: the tree a value emits, fields in declaration order; the
    failure is the text of the [serde_json::Error]. *)
Class Serialize (T : Type) := serialize : T → string + Value.

(** [Deserialize]: reading a value off a tree. *)
Class Deserialize (T : Type) := deserialize : Value → string + T.

Definition lift_serde {A} (r : string + A) : Result A :=
  match r with inl e => Err (from_serde e) | inr a => Ok a end.
Definition lift_base64 {A} (r : string + A) : Result A :=
  match r with inl e => Err (from_base64 e) | inr a => Ok a end.

Section serde_functions.
Context `{SerdeJson}.

(** [serde_json::to_value] and [from_value]. *)
Definition to_value `{Serialize T} (x : T) : Result Value :=
  value_of_tree <$> lift_serde (serialize x).
Definition from_value `{Deserialize T} (v : Value) : Result T := lift_serde (deserialize v).

(** [serde_json::to_string] and [from_str]. *)
Definition to_string `{Serialize T} (x : T) : Result string :=
  json_print <$> lift_serde (serialize x).
Definition from_str (T : Type) `{Deserialize T} (s : string) : Result T :=
  lift_serde (json_parse s) ≫= from_value.
End serde_functions.

(** The traits on the types the crate uses. *)
#[export] Instance Value_Serialize : Serialize Value := inr.
#[export] Instance Value_Deserialize : Deserialize Value := λ t, inr (value_of_tree t).

#[export] Instance unit_Serialize : Serialize unit := λ _, inr VNull.
#[export] Instance unit_Deserialize : Deserialize unit := λ t,
  match t with VNull => inr tt | _ => inl "invalid type: expected unit" end.

#[export] Instance string_Serialize : Serialize string := λ s, inr (VString s).
#[export] Instance string_Deserialize : Deserialize string := λ t,
  match t with VString s => inr s | _ => inl "invalid type: expected a string" end.

#[export] Instance bool_Serialize : Serialize bool := λ b, inr (VBool b).
#[export] Instance bool_Deserialize : Deserialize bool := λ t,
  match t with VBool b => inr b | _ => inl "invalid type: expected a boolean" end.

(** [Z] stands for [i64]. *)
#[export] Instance i64_Serialize : Serialize Z := λ z, inr (VNumber (NInt z)).
#[export] Instance i64_Deserialize : Deserialize Z := λ t,
  match t with
  | VNumber (NInt z) => if decide (in_i64 z) then inr z else inl "invalid value: expected i64"
  | _ => inl "invalid type: expected i64"
  end.

(** [i32], whose range is checked when it is read. *)
Record I32 := mkI32 { i32_value : Z }.
#[export] Instance I32_eq_dec : EqDecision I32.
Proof. solve_decision. Defined.
#[export] Instance I32_Serialize : Serialize I32 := λ n, inr (VNumber (NInt (i32_value n))).
#[export] Instance I32_Deserialize : Deserialize I32 := λ t,
  match t with
  | VNumber (NInt z) => if decide (in_i32 z) then inr (mkI32 z) else inl "invalid value: expected i32"
  | _ => inl "invalid type: expected i32"
  end.

#[export] Instance option_Serialize `{Serialize T} : Serialize (option T) := λ o,
  match o with None => inr VNull | Some x => serialize x end.
#[export] Instance option_Deserialize `{Deserialize T} : Deserialize (option T) := λ t,
  match t with
  | VNull => inr None
  | _ => match deserialize t with inr x => inr (Some x) | inl e => inl e end
  end.

Section list_serde.
Context {T : Type}.
Fixpoint serialize_all `{Serialize T} (l : list T) : string + list Value :=
  match l with
  | [] => inr []
  | x :: l =>
      match serialize x, serialize_all l with
      | inr v, inr vs => inr (v :: vs)
      | inl e, _ | _, inl e => inl e
      end
  end.
Fixpoint deserialize_all `{Deserialize T} (l : list Value) : string + list T :=
  match l with
  | [] => inr []
  | v :: l =>
      match deserialize v, deserialize_all l with
      | inr x, inr xs => inr (x :: xs)
      | inl e, _ | _, inl e => inl e
      end
  end.
End list_serde.
#[export] Instance list_Serialize `{Serialize T} : Serialize (list T) := λ l,
  match serialize_all l with inr vs => inr (VArray vs) | inl e => inl e end.
#[export] Instance list_Deserialize `{Deserialize T} : Deserialize (list T) := λ t,
  match t with VArray l => deserialize_all l | _ => inl "invalid type: expected a sequence" end.

(** [x] is a value whose derived serde pair is faithful: it serializes, the
    value of its tree has depth at most [d] and exact numbers, and
    deserializing that value gives [x] back. *)
Definition serde_faithful (d : nat) {T} `{Serialize T, Deserialize T} (x : T) : Prop :=
  ∃ t, serialize x = inr t ∧ json_safe_at d (value_of_tree t) = true ∧
       deserialize (value_of_tree t) = inr x.

Lemma i64_faithful d (z : Z) : in_i64 z → serde_faithful d z.
Proof.
  intros Hz. exists (VNumber (NInt z)). cbn. unfold json_safe_at. cbn.
  unfold deserialize, i64_Deserialize. rewrite decide_True by done.
  unfold in_i64 in Hz. by rewrite !bool_decide_eq_true_2 by lia.
Qed.

Lemma string_faithful d (s : string) : serde_faithful d s.
Proof. exists (VString s). unfold json_safe_at. cbn. by rewrite bool_decide_eq_true_2 by lia. Qed.

Lemma unit_faithful d (u : unit) : serde_faithful d u.
Proof.
  destruct u. exists VNull. unfold json_safe_at. cbn. by rewrite bool_decide_eq_true_2 by lia.
Qed.

Lemma Value_faithful d (v : Value) :
  json_wf v = true → json_safe_at d v = true → serde_faithful d v.
Proof.
  intros Hwf Hs. exists v. unfold deserialize, Value_Deserialize.
  by rewrite !(value_of_tree_wf v).
Qed.

#[export] Hint Resolve i64_faithful string_faithful unit_faithful Value_faithful : dbos.

(** ** Consequences of the codec laws *)

Section codec_facts.
Context `{SerdeJsonLaws}.

Lemma from_str_print `{Deserialize T} t :
  json_safe t = true → from_str T (json_print t) = from_value t.
Proof. intros Hs. unfold from_str. by rewrite json_parse_print. Qed.

Lemma json_print_start v :
  json_safe v = true → ∃ c s, json_print v = String c s ∧ json_start c = true.
Proof.
  intros Hs. pose proof (json_parse_print v Hs) as Hp.
  destruct (json_print v) as [|c s] eqn:E.
  - by apply json_parse_empty in Hp.
  - exists c, s. split; [done|]. by eapply json_parse_start.
Qed.

Lemma json_print_inj v1 v2 :
  json_safe v1 = true → json_safe v2 = true → json_print v1 = json_print v2 → v1 = v2.
Proof.
  intros H1 H2 E. apply json_parse_print in H1, H2. rewrite E in H1. congruence.
Qed.

Lemma json_print_eq_null v : json_safe v = true → json_print v = "null" → v = VNull.
Proof.
  intros Hs E. apply json_print_inj; [done | done |]. by rewrite json_print_null.
Qed.
End codec_facts.
