(* ===== verification/JsonText.v ===== *)
(** * JSON text

    A writer and a reader of JSON text (RFC 8259) in the compact form
    serde_json writes, as an instance of [SerdeJson] with its laws: what is
    written is read back, up to the nesting serde_json reads.  Floating-point
    numbers keep their text. *)
From Stdlib Require Import Decimal DecimalString DecimalFacts DecimalN.
From S2P Require Import Prelude Errors Json.

Local Open Scope string_scope.
Local Open Scope nat_scope.
Local Open Scope list_scope.

(** ** Writing *)

Definition quote : ascii := Ascii.ascii_of_nat 34.
Definition control (c : ascii) : bool := Ascii.nat_of_ascii c <? 32.

(** The short escapes: the letter after the backslash, and what it means. *)
Definition escapes : list (ascii * ascii) :=
  [(quote, quote); ("\", "\"); ("b", Ascii.ascii_of_nat 8); ("f", Ascii.ascii_of_nat 12);
   ("n", Ascii.ascii_of_nat 10); ("r", Ascii.ascii_of_nat 13); ("t", Ascii.ascii_of_nat 9)]%char.

Definition escape_letter (c : ascii) : option ascii :=
  fst <$> List.find (λ e : ascii * ascii, bool_decide (e.2 = c)) escapes.

Definition write_char (c : ascii) : string :=
  match escape_letter c with
  | Some l => String "\" (String l "")
  | None =>
      if control c then
        let n := Ascii.nat_of_ascii c in
        "\u00" +:+ String (hex_digit (n / 16)) (String (hex_digit (n mod 16)) "")
      else String c ""
  end.

Fixpoint write_chars (s : string) : string :=
  match s with "" => String quote "" | String c s => write_char c +:+ write_chars s end.

Definition write_string (s : string) : string := String quote (write_chars s).

Definition write_N (n : N) : string := NilEmpty.string_of_uint (N.to_uint n).
Definition sign_of (z : Z) : string := if decide (z < 0)%Z then "-" else "".
Definition write_int (z : Z) : string := sign_of z +:+ write_N (Z.abs_N z).

Fixpoint write_items (l : list string) : string :=
  match l with
  | [] => ""
  | [s] => s
  | s :: l => s +:+ String "," (write_items l)
  end.

Fixpoint write_value (v : Value) : string :=
  match v with
  | VNull => "null"
  | VBool true => "true"
  | VBool false => "false"
  | VNumber (NInt z) => write_int z
  | VNumber (NFloat text) => text
  | VString s => write_string s
  | VArray l => String "[" (write_items (List.map write_value l) +:+ "]")
  | VObject m =>
      String "{" (write_items (List.map (λ kv, write_string kv.1 +:+ String ":" (write_value kv.2)) m) +:+ "}")
  end.

(** ** Reading *)

Definition json_space (c : ascii) : bool := bool_decide (Ascii.nat_of_ascii c ∈ [9; 10; 13; 32]).
Definition skip_spaces (s : string) : string := snd (span json_space s).

(** The rest after a character, and after a word. *)
Definition eat (c : ascii) (s : string) : option string :=
  match skip_spaces s with
  | String c' rest => if decide (c = c') then Some rest else None
  | "" => None
  end.
Fixpoint eat_word (w s : string) : option string :=
  match w, s with
  | "", _ => Some s
  | String a w, String b s => if decide (a = b) then eat_word w s else None
  | _, "" => None
  end.

Definition hex_value (c : ascii) : option N :=
  let n := Ascii.N_of_ascii c in
  if is_digit c then Some (n - 48)%N
  else if bool_decide (97 <= n <= 102)%N then Some (n - 87)%N
  else if bool_decide (65 <= n <= 70)%N then Some (n - 55)%N
  else None.
Definition hex4 (a b c d : ascii) : option N :=
  a ← hex_value a; b ← hex_value b; c ← hex_value c; d ← hex_value d;
  Some (((a * 16 + b) * 16 + c) * 16 + d)%N.

(** The bytes of a character in UTF-8. *)
Definition utf8 (n : N) : string :=
  let tail k := Ascii.ascii_of_N (128 + n / 2 ^ k mod 64) in
  if (n <? 128)%N then String (Ascii.ascii_of_N n) ""
  else if (n <? 2048)%N then String (Ascii.ascii_of_N (192 + n / 64)) (String (tail 0%N) "")
  else if (n <? 65536)%N then
    String (Ascii.ascii_of_N (224 + n / 4096)) (String (tail 6%N) (String (tail 0%N) ""))
  else
    String (Ascii.ascii_of_N (240 + n / 262144))
      (String (tail 12%N) (String (tail 6%N) (String (tail 0%N) ""))).

Definition high_surrogate (n : N) : bool := ((55296 <=? n) && (n <? 56320))%N.
Definition low_surrogate (n : N) : bool := ((56320 <=? n) && (n <? 57344))%N.

Definition onto {A} (s : string) (r : string + string * A) : string + string * A :=
  '(t, rest) ← r; inr (s +:+ t, rest).

Fixpoint read_chars (s : string) : string + string * string :=
  match s with
  | "" => inl "EOF while parsing a string"
  | String c s =>
      if decide (c = quote) then inr ("", s)
      else if decide (c = "\"%char) then
        match s with
        | "" => inl "EOF while parsing a string"
        | String l s =>
            if decide (l = "u"%char) then
              match s with
              | String a (String b (String c (String d s))) =>
                  match hex4 a b c d with
                  | None => inl "invalid escape"
                  | Some n =>
                      if high_surrogate n then
                        match s with
                        | String x (String y (String a (String b (String c (String d s))))) =>
                            match hex4 a b c d with
                            | Some m =>
                                if bool_decide (x = "\"%char ∧ y = "u"%char) && low_surrogate m
                                then onto (utf8 (65536 + (n - 55296) * 1024 + (m - 56320))) (read_chars s)
                                else inl "lone surrogate"
                            | None => inl "invalid escape"
                            end
                        | _ => inl "EOF while parsing a string"
                        end
                      else if low_surrogate n then inl "lone surrogate"
                      else onto (utf8 n) (read_chars s)
                  end
              | _ => inl "EOF while parsing a string"
              end
            else match List.find (λ e : ascii * ascii, bool_decide (e.1 = l)) escapes with
                 | Some (_, c) => onto (String c "") (read_chars s)
                 | None => inl "invalid escape"
                 end
        end
      else if control c then inl "control character found while parsing a string"
      else onto (String c "") (read_chars s)
  end.

Definition is_exponent (c : ascii) : bool := bool_decide (c ∈ ["e"; "E"]%char).

(** The fraction and the exponent of a number, either of them possibly
    empty. *)
Definition read_fraction (s : string) : string + string * string :=
  match s with
  | String "." s =>
      let '(digits, rest) := span is_digit s in
      if str_is_empty digits then inl "invalid number" else inr (String "." digits, rest)
  | _ => inr ("", s)
  end.
Definition read_exponent (s : string) : string + string * string :=
  match s with
  | String c s' =>
      if is_exponent c then
        let '(sign, s') := match s' with
                           | String "-" s => ("-", s) | String "+" s => ("+", s) | _ => ("", s')
                           end in
        let '(digits, rest) := span is_digit s' in
        if str_is_empty digits then inl "invalid number" else inr (String c sign +:+ digits, rest)
      else inr ("", s)
  | "" => inr ("", s)
  end.

Definition read_sign (s : string) : string * string :=
  match s with String "-" s => ("-", s) | _ => ("", s) end.

Definition read_number (s : string) : string + Value * string :=
  let '(sign, s) := read_sign s in
  let '(digits, rest) := span is_digit s in
  match NilEmpty.uint_of_string digits with
  | Some u =>
      if decide (NilEmpty.string_of_uint (unorm u) = digits) then
        '(fraction, rest) ← read_fraction rest;
        '(exponent, rest) ← read_exponent rest;
        let n := Z.of_N (N.of_uint u) in
        let z := if decide (sign = "-") then (- n)%Z else n in
        let whole := bool_decide (fraction = "" ∧ exponent = "" ∧ (- 2 ^ 63 ≤ z < 2 ^ 64)%Z)
                     && negb (bool_decide (sign = "-" ∧ z = 0%Z)) in
        inr (VNumber (if whole then NInt z else NFloat (sign +:+ digits +:+ fraction +:+ exponent)), rest)
      else inl "invalid number"
  | None => inl "invalid number"
  end.

Definition read_word (s : string) : string + Value * string :=
  match eat_word "null" s, eat_word "true" s, eat_word "false" s with
  | Some rest, _, _ => inr (VNull, rest)
  | _, Some rest, _ => inr (VBool true, rest)
  | _, _, Some rest => inr (VBool false, rest)
  | _, _, _ => inl "expected value"
  end.

Definition number_start (c : ascii) : bool := bool_decide (c = "-"%char) || is_digit c.

(** [d] more levels of nesting may be opened; [n] bounds the calls. *)
Fixpoint read_value (n d : nat) (s : string) : string + Value * string :=
  match n with
  | O => inl "EOF while parsing a value"
  | S n =>
      match skip_spaces s with
      | "" => inl "EOF while parsing a value"
      | String c s =>
          if decide (c = quote) then '(t, rest) ← read_chars s; inr (VString t, rest)
          else if decide (c = "["%char) then
            match d with
            | O => inl "recursion limit exceeded"
            | S d =>
                match eat "]" s with
                | Some rest => inr (VArray [], rest)
                | None => '(l, rest) ← read_items n d s; inr (VArray l, rest)
                end
            end
          else if decide (c = "{"%char) then
            match d with
            | O => inl "recursion limit exceeded"
            | S d =>
                match eat "}" s with
                | Some rest => inr (VObject [], rest)
                | None => '(m, rest) ← read_fields n d s; inr (VObject m, rest)
                end
            end
          else if number_start c then read_number (String c s)
          else read_word (String c s)
      end
  end
with read_items (n d : nat) (s : string) : string + list Value * string :=
  match n with
  | O => inl "EOF while parsing a list"
  | S n =>
      '(v, rest) ← read_value n d s;
      match eat "," rest, eat "]" rest with
      | Some rest, _ => '(l, rest) ← read_items n d rest; inr (v :: l, rest)
      | None, Some rest => inr ([v], rest)
      | None, None => inl "expected `,` or `]`"
      end
  end
with read_fields (n d : nat) (s : string) : string + list (string * Value) * string :=
  match n with
  | O => inl "EOF while parsing an object"
  | S n =>
      match eat quote s with
      | None => inl "key must be a string"
      | Some s =>
          '(k, rest) ← read_chars s;
          match eat ":" rest with
          | None => inl "expected `:`"
          | Some rest =>
              '(v, rest) ← read_value n d rest;
              match eat "," rest, eat "}" rest with
              | Some rest, _ => '(m, rest) ← read_fields n d rest; inr ((k, v) :: m, rest)
              | None, Some rest => inr ([(k, v)], rest)
              | None, None => inl "expected `,` or `}`"
              end
          end
      end
  end.

Definition read_text (s : string) : string + Value :=
  '(v, rest) ← read_value (S (String.length s)) 127 s;
  if str_is_empty (skip_spaces rest) then inr v else inl "trailing characters".

#[export] Instance text_json : SerdeJson := {| json_print := write_value; json_parse := read_text |}.

(** ** What is written is read back *)

(** A text that cannot continue a number. *)
Definition number_char (c : ascii) : bool := is_digit c || is_exponent c || bool_decide (c = "."%char).

Lemma read_write_char c s : read_chars (write_char c +:+ s) = onto (String c "") (read_chars s).
Proof. destruct c as [[] [] [] [] [] [] [] []]; reflexivity. Qed.

Lemma onto_onto {A} (s t : string) (r : string + string * A) : onto s (onto t r) = onto (s +:+ t) r.
Proof. destruct r as [|[u a]]; [done|]. cbn. by rewrite str_app_assoc. Qed.

Lemma read_write_chars s rest : read_chars (write_chars s +:+ rest) = inr (s, rest).
Proof.
  induction s as [|c s IH]; [done|]. cbn [write_chars]. rewrite str_app_assoc, read_write_char, IH. done.
Qed.

Lemma eat_head c s : json_space c = false → eat c (String c s) = Some s.
Proof. intros Hc. unfold eat, skip_spaces. cbn [span]. rewrite Hc. cbn. by rewrite decide_True. Qed.

Lemma eat_other c c' s : json_space c' = false → c ≠ c' → eat c (String c' s) = None.
Proof. intros Hc Hne. unfold eat, skip_spaces. cbn [span]. rewrite Hc. cbn. by rewrite decide_False. Qed.

Lemma write_digits u : str_all is_digit (NilEmpty.string_of_uint u) = true.
Proof. induction u; simpl; auto. Qed.

Lemma read_write_N n rest :
  stops is_digit rest →
  span is_digit (write_N n +:+ rest) = (write_N n, rest) ∧
  NilEmpty.uint_of_string (write_N n) = Some (N.to_uint n) ∧
  NilEmpty.string_of_uint (unorm (N.to_uint n)) = write_N n ∧ N.of_uint (N.to_uint n) = n.
Proof.
  intros Hr. split_and!.
  - apply span_app; [apply write_digits | done].
  - apply NilEmpty.usu.
  - unfold write_N. f_equal. by rewrite <- DecimalN.Unsigned.to_of, DecimalN.Unsigned.of_to.
  - apply DecimalN.Unsigned.of_to.
Qed.

Lemma stops_impl (p q : ascii → bool) rest :
  (∀ c, p c = true → q c = true) → stops q rest → stops p rest.
Proof.
  intros Hpq. destruct rest as [|c rest]; [done|]. simpl. intros Hq.
  destruct (p c) eqn:E; [|done]. by rewrite (Hpq _ E) in Hq.
Qed.

Lemma write_N_head n : ∃ c t, write_N n = String c t ∧ is_digit c = true.
Proof.
  pose proof (write_digits (N.to_uint n)) as Hd. fold (write_N n) in Hd.
  destruct (write_N n) as [|c t] eqn:E.
  - exfalso. assert (N.to_uint n = Nil) as Hnil.
    { destruct (read_write_N n "" I) as (_ & H & _). rewrite E in H. by injection H. }
    pose proof (DecimalN.Unsigned.to_of (N.to_uint n)) as H.
    rewrite DecimalN.Unsigned.of_to, Hnil in H. done.
  - simpl in Hd. apply andb_true_iff in Hd as [Hd _]. eauto.
Qed.

Lemma read_no_fraction rest : stops number_char rest → read_fraction rest = inr ("", rest).
Proof.
  destruct rest as [|c rest]; [done|]. unfold stops, number_char, read_fraction.
  rewrite !orb_false_iff, bool_decide_eq_false. intros [_ Hc].
  by destruct c as [[] [] [] [] [] [] [] []].
Qed.

Lemma read_no_exponent rest : stops number_char rest → read_exponent rest = inr ("", rest).
Proof.
  destruct rest as [|c rest]; [done|]. unfold stops, number_char, read_exponent.
  rewrite !orb_false_iff. by intros [[_ ->] _].
Qed.

Lemma read_write_sign z rest :
  read_sign (sign_of z +:+ write_N (Z.abs_N z) +:+ rest) = (sign_of z, write_N (Z.abs_N z) +:+ rest).
Proof.
  unfold sign_of. case_decide; [done|]. destruct (write_N_head (Z.abs_N z)) as (c & t & -> & Hc).
  cbn. by destruct c as [[] [] [] [] [] [] [] []].
Qed.

Lemma sign_of_abs z :
  (if decide (sign_of z = "-") then - Z.of_N (Z.abs_N z) else Z.of_N (Z.abs_N z))%Z = z.
Proof. rewrite N2Z.inj_abs_N. unfold sign_of. repeat case_decide; try done; lia. Qed.

Lemma read_write_int z rest :
  (- 2 ^ 63 ≤ z < 2 ^ 64)%Z → stops number_char rest →
  read_number (write_int z +:+ rest) = inr (VNumber (NInt z), rest).
Proof.
  intros Hz Hr.
  destruct (read_write_N (Z.abs_N z) rest) as (Hspan & Hu & Hn & Hof).
  { eapply stops_impl; [|exact Hr]. intros c Hc. unfold number_char. by rewrite Hc. }
  unfold read_number, write_int. rewrite str_app_assoc, read_write_sign, Hspan, Hu, decide_True by done.
  rewrite read_no_fraction by done. cbn [mbind sum_bind].
  rewrite read_no_exponent by done. cbn [mbind sum_bind].
  rewrite Hof, sign_of_abs, (bool_decide_eq_true_2 (_ ∧ _ ∧ _)) by done.
  rewrite bool_decide_eq_false_2; [done|]. by intros [Hs ->].
Qed.

(** ** Values *)

(** The head of a written value. *)
Lemma write_value_head v :
  json_integral v = true →
  ∃ c t, write_value v = String c t ∧ json_space c = false ∧ c ≠ "]"%char.
Proof.
  destruct v as [|[]|[z|]|s|l|m]; intros Hi; try done; try (by eexists _, _).
  cbn. unfold write_int, sign_of. case_decide; [by eexists _, _|].
  destruct (write_N_head (Z.abs_N z)) as (c & t & -> & Hc). exists c, t. split; [done|].
  by destruct c as [[] [] [] [] [] [] [] []].
Qed.

Definition reads_back (v : Value) : Prop :=
  json_integral v = true → ∀ n d rest,
  String.length (write_value v) ≤ n → json_depth v ≤ d → stops number_char rest →
  read_value n d (write_value v +:+ rest) = inr (v, rest).

Lemma read_write_items l :
  l ≠ [] → Forall reads_back l → forallb json_integral l = true → ∀ n d rest,
  S (String.length (write_items (List.map write_value l))) ≤ n →
  list_max (List.map json_depth l) ≤ d →
  read_items n d (write_items (List.map write_value l) +:+ String "]" rest) = inr (l, rest).
Proof.
  induction 2 as [|v l Hv Hl IH]; [done|]. cbn [forallb List.map list_max fold_right].
  intros [Hi Hil]%andb_true_iff [|n] d rest Hn Hd; [lia|].
  assert (json_depth v ≤ d) by (cbn in Hd; lia).
  cbn [read_items]. destruct l as [|v' l].
  - cbn [List.map write_items] in *. rewrite Hv; [|done|lia|done|done]. done.
  - change (write_items (write_value v :: List.map write_value (v' :: l)))
      with (write_value v +:+ String "," (write_items (List.map write_value (v' :: l)))) in *.
    rewrite str_length_app in Hn. cbn [String.length] in Hn.
    rewrite str_app_assoc, str_app_cons, Hv; [|done|lia|done|done].
    cbn [mbind sum_bind]. rewrite eat_head by done.
    rewrite IH; [done|done|done|lia|]. cbn in Hd |- *. lia.
Qed.

Definition write_field (kv : string * Value) : string := write_string kv.1 +:+ String ":" (write_value kv.2).

Lemma read_write_fields m :
  m ≠ [] → Forall (λ kv, reads_back kv.2) m → forallb (λ kv, json_integral kv.2) m = true → ∀ n d rest,
  S (String.length (write_items (List.map write_field m))) ≤ n →
  list_max (List.map (λ kv, json_depth kv.2) m) ≤ d →
  read_fields n d (write_items (List.map write_field m) +:+ String "}" rest) = inr (m, rest).
Proof.
  assert (∀ kv rest, write_field kv +:+ rest
          = String quote (write_chars kv.1 +:+ String ":" (write_value kv.2 +:+ rest))) as Hw.
  { intros kv rest. unfold write_field, write_string. by rewrite !str_app_assoc, !str_app_cons. }
  assert (∀ kv, String.length (write_value kv.2) + 2 ≤ String.length (write_field kv)) as Hlen.
  { intros kv. unfold write_field, write_string. rewrite str_length_app. cbn [String.length].
    destruct kv as [[] ?]; cbn; lia. }
  induction 2 as [|[k v] m Hv Hl IH]; [done|]. cbn [forallb List.map list_max fold_right snd].
  intros [Hi Hil]%andb_true_iff [|n] d rest Hn Hd; [lia|]. cbn [snd] in *.
  assert (json_depth v ≤ d) by (cbn in Hd; lia). specialize (Hlen (k, v)). cbn [snd] in Hlen.
  cbn [read_fields]. destruct m as [|kv' m].
  - cbn [List.map write_items] in *. rewrite Hw, eat_head by done. cbn [fst snd].
    rewrite read_write_chars. cbn [mbind sum_bind]. rewrite eat_head by done.
    rewrite Hv; [|done|lia|done|done]. done.
  - change (write_items (write_field (k, v) :: List.map write_field (kv' :: m)))
      with (write_field (k, v) +:+ String "," (write_items (List.map write_field (kv' :: m)))) in *.
    rewrite str_length_app in Hn. cbn [String.length] in Hn.
    rewrite str_app_assoc, str_app_cons, Hw, eat_head by done. cbn [fst snd].
    rewrite read_write_chars. cbn [mbind sum_bind]. rewrite eat_head by done.
    rewrite Hv; [|done|lia|done|done].
    cbn [mbind sum_bind]. rewrite eat_head by done.
    rewrite IH; [done|done|done|lia|]. cbn in Hd |- *. lia.
Qed.

Lemma read_write_value v : reads_back v.
Proof.
  induction v as [|[]|[z|]|s|l IH|m IH] using Value_nested_ind;
    intros Hi n d rest Hn Hd Hr;
    (destruct n as [|n]; [by destruct (write_value_head _ Hi) as (? & ? & E & _); rewrite E in Hn; inversion Hn|]);
    try done.
  - cbn [write_value] in *. cbn in Hi. apply bool_decide_eq_true in Hi.
    pose proof (read_write_int z rest Hi Hr) as H. cbn [read_value].
    assert (∃ c t, write_int z +:+ rest = String c t ∧ number_start c = true) as (c & t & E & Hc).
    { unfold write_int, sign_of. case_decide; [by eexists _, _|].
      destruct (write_N_head (Z.abs_N z)) as (c & t & -> & Hc). exists c, (t +:+ rest). split; [done|].
      unfold number_start. by rewrite Hc, orb_true_r. }
    rewrite E in *. clear -H Hc. unfold skip_spaces.
    destruct c as [[] [] [] [] [] [] [] []]; done || exact H.
  - cbn [write_value read_value] in *. unfold write_string. rewrite str_app_cons.
    change (skip_spaces (String quote ?s)) with (String quote s). cbv iota. rewrite decide_True by done.
    by rewrite read_write_chars.
  - cbn [write_value] in *. cbn [json_depth] in Hd. destruct d as [|d]; [lia|].
    rewrite str_app_cons, str_app_assoc. change ("]" +:+ rest) with (String "]" rest). cbn [read_value].
    change (skip_spaces (String "[" ?s)) with (String "[" s). cbv iota.
    rewrite decide_False by done. rewrite decide_True by done.
    destruct (decide (l = [])) as [->|Hne]; [reflexivity|].
    assert (eat "]" (write_items (List.map write_value l) +:+ String "]" rest) = None) as ->.
    { destruct l as [|v l]; [done|]. cbn in Hi. apply andb_true_iff in Hi as [Hi _].
      destruct (write_value_head v Hi) as (c & t & E & Hs & Hc).
      destruct l; cbn [List.map write_items]; rewrite E; apply eat_other; congruence. }
    cbn [String.length] in Hn. rewrite str_length_app in Hn. cbn [String.length] in Hn.
    rewrite read_write_items; [done|done|done|done|lia|lia].
  - cbn [write_value] in *. cbn [json_depth] in Hd. destruct d as [|d]; [lia|].
    change (λ kv : string * Value, write_string kv.1 +:+ String ":" (write_value kv.2)) with write_field in *.
    rewrite str_app_cons, str_app_assoc. change ("}" +:+ rest) with (String "}" rest). cbn [read_value].
    change (skip_spaces (String "{" ?s)) with (String "{" s). cbv iota.
    rewrite !decide_False by done. rewrite decide_True by done.
    destruct (decide (m = [])) as [->|Hne]; [reflexivity|].
    assert (eat "}" (write_items (List.map write_field m) +:+ String "}" rest) = None) as ->.
    { destruct m as [|kv [|kv' m]]; [done|..]; by apply eat_other. }
    cbn [String.length] in Hn. rewrite str_length_app in Hn. cbn [String.length] in Hn.
    rewrite read_write_fields; [done|done|done|done|lia|lia].
Qed.

#[export] Instance text_json_laws : SerdeJsonLaws text_json.
Proof.
  split; [|done|done|].
  - intros v [Hd Hi]%andb_true_iff. apply bool_decide_eq_true in Hd.
    change (read_text (write_value v) = inr v). unfold read_text.
    pose proof (read_write_value v Hi (S (String.length (write_value v))) 127 "") as H.
    rewrite str_app_nil in H. rewrite H; [done|lia|done|done].
  - intros c s v. change (read_text (String c s) = inr v → json_start c = true). unfold read_text. cbn [read_value].
    destruct (json_start c) eqn:Hc; [done|]. intros H. exfalso.
    assert (skip_spaces (String c s) = String c s) as E
      by (by destruct c as [[] [] [] [] [] [] [] []]).
    rewrite E in H. revert H. clear E.
    destruct c as [[] [] [] [] [] [] [] []]; done.
Qed.
