(* ===== verification/Config.v ===== *)
(** * Configuration (config.rs)

    Defaults, environment overrides, validation, dialect detection and
    password masking, and the version computed from the executable.  The file
    system, the hash function and the process's environment are parameters;
    letters and white space are those of the ASCII range. *)
From S2P Require Import Prelude Errors Json.

Local Open Scope string_scope.
Local Open Scope Z_scope.
Local Open Scope list_scope.
Local Open Scope dbos_scope.

(** ** Constants *)

Definition DEFAULT_SYSTEM_DB_SCHEMA : string := "dbos".
Definition DEFAULT_ADMIN_SERVER_PORT : Z := 3001.
Definition DEFAULT_EXECUTOR_ID : string := "local".
Definition DEFAULT_SCHEDULER_POLLING_INTERVAL : Duration.t := Duration.from_secs 30.
Definition PATCHING_ENABLED_VERSION : string := "PATCHING_ENABLED".

Definition ENV_APP_VERSION : string := "DBOS__APPVERSION".
Definition ENV_VMID : string := "DBOS__VMID".
Definition ENV_APP_ID : string := "DBOS__APPID".

(** ** Dialects *)

Inductive Dialect :=
  | Postgres
  | Cockroach
  | Sqlite.

#[export] Instance Dialect_eq_dec : EqDecision Dialect.
Proof. solve_decision. Defined.

Definition dialect_str (d : Dialect) : string :=
  match d with
  | Postgres => "postgres"
  | Cockroach => "cockroach"
  | Sqlite => "sqlite"
  end.

Definition PG_KV_PREFIXES : list string :=
  ["user="; "host="; "hostaddr="; "port="; "dbname="; "database="; "password="; "sslmode=";
   "application_name="; "options="].

(** A character a scheme may have after its first letter. *)
Definition scheme_char (c : ascii) : bool :=
  is_alphanumeric c || bool_decide (c = "+"%char) || bool_decide (c = "-"%char)
  || bool_decide (c = "."%char).

Definition not_colon (c : ascii) : bool := bool_decide (c ≠ ":"%char).

Definition extract_scheme (s : string) : option string :=
  match span not_colon s with
  | (_, "") => None
  | (scheme, _) =>
      match scheme with
      | "" => None
      | String first chars =>
          if negb (is_alphabetic first) then None
          else if negb (str_all scheme_char chars) then None
          else Some (str_lower scheme)
      end
  end.

Definition looks_like_kv (raw_url : string) : bool :=
  let lower_trim := str_lower (str_trim raw_url) in
  existsb (λ p, String.prefix p lower_trim) PG_KV_PREFIXES.

Definition unsupported_scheme (other : string) : string :=
  "unsupported database scheme " +:+ dquote +:+ other +:+ dquote
  +:+ " (want sqlite: or postgres:)".

(** The arms of the match on the scheme. *)
Definition scheme_dialect (scheme : string) : sum Dialect string :=
  if decide (scheme ∈ ["sqlite"; "sqlite3"]) then inl Sqlite
  else if decide (scheme ∈ ["postgres"; "postgresql"]) then inl Postgres
  else inr (unsupported_scheme scheme).

Definition detect_dialect (raw_url : string) : sum Dialect string :=
  if str_is_empty raw_url then inr "database URL is empty"
  else if looks_like_kv raw_url then inl Postgres
  else
    match extract_scheme raw_url with
    | Some scheme => scheme_dialect scheme
    | None => inr ("database URL has no scheme: " +:+ dquote +:+ raw_url +:+ dquote)
    end.

(** ** Password masking *)

(** [Regex::replace_all]: [m] matches at the start of its argument, and gives
    the replacement and the number of characters matched; [skip] characters
    are still part of the last match. *)
Fixpoint replace_all (m : string → option (string * nat)) (skip : nat) (s : string) : string :=
  match s with
  | "" => ""
  | String c rest =>
      match skip with
      | S k => replace_all m k rest
      | O =>
          match m s with
          | Some (r, S n) => r +:+ replace_all m n rest
          | _ => String c (replace_all m 0 rest)
          end
      end
  end.

(** [strip_prefix], comparing letters without their case when [fold] is set. *)
Fixpoint strip_prefix (fold : bool) (p s : string) : option string :=
  match p, s with
  | "", _ => Some s
  | String a p', String b s' =>
      if decide (a = if fold then char_lower b else b) then strip_prefix fold p' s' else None
  | _, "" => None
  end.

Definition user_char (c : ascii) : bool :=
  bool_decide (c ∉ ["/"; "?"; "#"; "@"; ":"]%char).
Definition password_char (c : ascii) : bool :=
  bool_decide (c ∉ ["/"; "?"; "#"; "@"]%char).

(** The expression [(://[^/?#@:]+:)[^/?#@]*@] replaced by [${1}***@].  The runs are
    maximal and what follows each is outside its class, so there is nothing
    to backtrack to. *)
Definition url_match (s : string) : option (string * nat) :=
  rest ← strip_prefix false "://" s;
  match span user_char rest with
  | ("", _) => None
  | (user, String ":" rest) =>
      match span password_char rest with
      | (password, String "@" _) =>
          Some ("://" +:+ user +:+ ":***@",
                (3 + String.length user + 1 + String.length password + 1)%nat)
      | _ => None
      end
  | _ => None
  end.

(** The expression [password\s*=\s*\S+], without case, replaced by [password=***]. *)
Definition kv_match (s : string) : option (string * nat) :=
  rest ← strip_prefix true "password" s;
  match span is_whitespace rest with
  | (spaces, String "=" rest) =>
      let '(spaces', rest) := span is_whitespace rest in
      match span (negb ∘ is_whitespace) rest with
      | ("", _) => None
      | (value, _) =>
          Some ("password=***",
                (8 + String.length spaces + 1 + String.length spaces' + String.length value)%nat)
      end
  | _ => None
  end.

Definition mask_password (conn : string) : string :=
  if str_contains "://" conn then replace_all url_match 0 conn
  else replace_all kv_match 0 conn.

(** ** The environment *)

Class EnvSource (E : Type) := env_get : E → string → option string.

(** The process's own variables, as [std::env::var] reads them, and the
    in-memory map of the tests; an empty value counts as unset. *)
Record SystemEnv := mkSystemEnv { std_env_var : string → option string }.
Record MapEnv := mkMapEnv { env_map : gmap string string }.

#[export] Instance SystemEnv_source : EnvSource SystemEnv :=
  λ env key, non_empty (std_env_var env key).
#[export] Instance MapEnv_source : EnvSource MapEnv :=
  λ env key, non_empty (env_map env !! key).

(** ** The version of the executable *)

(** What the code asks of the operating system about files, errors being
    their texts: [std::env::current_exe], [std::fs::canonicalize],
    [std::fs::metadata] and the bytes [File::open] and [std::io::copy] give. *)
Class HostFiles := {
  current_exe : string + string;
  canonicalize : string → string + string;
  metadata_is_file : string → string + bool;
  file_bytes : string → string + list Byte.byte;
}.

(** The sha2 and hex crates. *)
Class Sha256 := {
  sha256_digest : list Byte.byte → list Byte.byte;
  hex_encode : list Byte.byte → string;
}.

(** A digest has 32 bytes, and hex text two digits a byte that can be read
    back. *)
Class Sha256Laws (H : Sha256) : Prop := {
  sha256_length bytes : length (sha256_digest bytes) = 32%nat;
  hex_length bytes : String.length (hex_encode bytes) = (2 * length bytes)%nat;
  hex_inj bytes bytes' : hex_encode bytes = hex_encode bytes' → bytes = bytes';
}.

Section binary_hash.
Context `{HostFiles, Sha256}.

Definition try_binary_hash : string + string :=
  path ← current_exe;
  exe ← canonicalize path;
  is_file ← metadata_is_file exe;
  if (is_file : bool) then
    contents ← file_bytes exe;
    inr (hex_encode (sha256_digest contents))
  else inl "executable is not a regular file".

(** The failure is logged only. *)
Definition compute_application_version : string :=
  match try_binary_hash with inr h => h | inl _ => "" end.
End binary_hash.

(** ** Processing *)

Section config.
(** [sqlx::PgPool]. *)
Context {Pool : Type}.

Record Config := mkConfig {
  c_app_name : string;
  c_database_url : option string;
  c_system_db_pool : option Pool;
  c_database_schema : option string;
  c_admin_server : bool;
  c_admin_server_port : option Z;
  c_application_version : option string;
  c_executor_id : option string;
  c_enable_patching : bool;
  c_scheduler_polling_interval : option Duration.t;
  c_conductor_url : option string;
  c_conductor_api_key : option string;
  c_conductor_executor_metadata : option (list (string * Value));
}.

Definition Config_new (app_name database_url : string) : Config :=
  {| c_app_name := app_name;
     c_database_url := Some database_url;
     c_system_db_pool := None;
     c_database_schema := None;
     c_admin_server := false;
     c_admin_server_port := None;
     c_application_version := None;
     c_executor_id := None;
     c_enable_patching := false;
     c_scheduler_polling_interval := None;
     c_conductor_url := None;
     c_conductor_api_key := None;
     c_conductor_executor_metadata := None |}.

Record ProcessedConfig := mkProcessed {
  pc_app_name : string;
  pc_database_url : option string;
  pc_system_db_pool : option Pool;
  pc_database_schema : string;
  pc_admin_server : bool;
  pc_admin_server_port : Z;
  pc_application_version : string;
  pc_executor_id : string;
  pc_application_id : string;
  pc_enable_patching : bool;
  pc_scheduler_polling_interval : Duration.t;
  pc_dialect : Dialect;
  pc_conductor_url : option string;
  pc_conductor_api_key : option string;
  pc_conductor_executor_metadata : option (list (string * Value));
}.

Context `{HostFiles, Sha256}.

Definition has_url (cfg : Config) : bool :=
  match c_database_url cfg with Some u => negb (str_is_empty u) | None => false end.

Definition resolve_application_version {E} `{EnvSource E} (cfg : Config) (env : E) : string :=
  let app_version := non_empty (c_application_version cfg) in
  let app_version := match app_version with
                     | None => if c_enable_patching cfg then Some PATCHING_ENABLED_VERSION else None
                     | _ => app_version
                     end in
  let app_version := match env_get env ENV_APP_VERSION with
                     | Some v => Some v
                     | None => app_version
                     end in
  match non_empty app_version with
  | Some v => v
  | None => compute_application_version
  end.

Definition resolve_executor_id {E} `{EnvSource E} (cfg : Config) (env : E) : string :=
  let executor := non_empty (c_executor_id cfg) in
  let executor := match env_get env ENV_VMID with Some v => Some v | None => executor end in
  default DEFAULT_EXECUTOR_ID (non_empty executor).

Definition non_zero (o : option Z) : option Z :=
  match o with Some 0 => None | _ => o end.

Definition process_config_with_env {E} `{EnvSource E} (cfg : Config) (env : E)
    : Result ProcessedConfig :=
  if negb (has_url cfg) && bool_decide (c_system_db_pool cfg = None) then
    Err (initialization "one of databaseURL, systemDBPool, or sqliteSystemDB must be provided")
  else if str_is_empty (c_app_name cfg) then
    Err (initialization "missing required config field: appName")
  else
    dialect ← (match c_system_db_pool cfg with
               | Some _ => Ok Postgres
               | None => match detect_dialect (default "" (c_database_url cfg)) with
                         | inl d => Ok d
                         | inr text => Err (initialization text)
                         end
               end);
    Ok {| pc_app_name := c_app_name cfg;
          pc_database_url := c_database_url cfg;
          pc_system_db_pool := c_system_db_pool cfg;
          pc_database_schema := default DEFAULT_SYSTEM_DB_SCHEMA (non_empty (c_database_schema cfg));
          pc_admin_server := c_admin_server cfg;
          pc_admin_server_port := default DEFAULT_ADMIN_SERVER_PORT (non_zero (c_admin_server_port cfg));
          pc_application_version := resolve_application_version cfg env;
          pc_executor_id := resolve_executor_id cfg env;
          pc_application_id := default "" (env_get env ENV_APP_ID);
          pc_enable_patching := c_enable_patching cfg;
          pc_scheduler_polling_interval :=
            default DEFAULT_SCHEDULER_POLLING_INTERVAL (non_zero (c_scheduler_polling_interval cfg));
          pc_dialect := dialect;
          pc_conductor_url := c_conductor_url cfg;
          pc_conductor_api_key := c_conductor_api_key cfg;
          pc_conductor_executor_metadata := c_conductor_executor_metadata cfg |}.

Definition process_config (os : SystemEnv) (cfg : Config) : Result ProcessedConfig :=
  process_config_with_env cfg os.
End config.
Arguments Config Pool : clear implicits.
Arguments ProcessedConfig Pool : clear implicits.

(** ** Dialect of a URL *)

Definition valid_scheme (scheme : string) : Prop :=
  match scheme with
  | "" => False
  | String first chars => is_alphabetic first = true ∧ str_all scheme_char chars = true
  end.

Definition all_ascii : list ascii := Ascii.ascii_of_nat <$> seq 0 256.

(** A property of all characters holds when it holds of each of the 256. *)
Lemma forall_ascii (p : ascii → bool) : forallb p all_ascii = true → ∀ c, p c = true.
Proof.
  intros H c. rewrite forallb_forall in H. apply H, list_elem_of_In.
  apply list_elem_of_fmap. exists (Ascii.nat_of_ascii c). rewrite Ascii.ascii_nat_embedding.
  split; [done|]. apply elem_of_seq. pose proof (Ascii.nat_ascii_bounded c). lia.
Qed.

Lemma alphabetic_scheme_char c : is_alphabetic c = true → scheme_char c = true.
Proof. unfold scheme_char, is_alphanumeric. by intros ->. Qed.

(** Characters of a scheme, lowered, are neither the equals sign nor an
    underscore, and are not white space or a colon. *)
Lemma scheme_char_not c :
  scheme_char c = true →
  is_whitespace c = false ∧ not_colon c = true ∧
  char_lower c ≠ "="%char ∧ char_lower c ≠ "_"%char.
Proof.
  set (p := λ c, negb (scheme_char c) ||
    (negb (is_whitespace c) && not_colon c && bool_decide (char_lower c ≠ "="%char)
     && bool_decide (char_lower c ≠ "_"%char))).
  assert (p c = true) as H by (apply forall_ascii; vm_compute; reflexivity). unfold p in H.
  simpl in H. intros Hc. rewrite Hc in H. simpl in H.
  rewrite !andb_true_iff, negb_true_iff, !bool_decide_eq_true in H. naive_solver.
Qed.

Lemma valid_scheme_chars scheme : valid_scheme scheme → str_all scheme_char scheme = true.
Proof.
  destruct scheme as [|c s]; simpl; [done|]. intros [Hc ->].
  by rewrite alphabetic_scheme_char.
Qed.

Lemma str_lower_app a b : str_lower (a +:+ b) = str_lower a +:+ str_lower b.
Proof.
  induction a as [|c a IH]; [done|]. rewrite str_app_cons. simpl. by rewrite IH.
Qed.

(** A prefix that ends with an equals sign and has no colon is not one of a
    lowered URL. *)
Lemma kv_prefix_no_scheme p scheme rest :
  str_all scheme_char scheme = true →
  str_contains "=" p = true → str_all not_colon p = true →
  String.prefix p (str_lower scheme +:+ String ":" rest) = false.
Proof.
  intros Hs. revert p. induction scheme as [|c s IH]; intros [|d p] Heq Hp; [done| |done|].
  all: simpl in Hp; apply andb_true_iff in Hp as [Hd%bool_decide_eq_true Hp].
  - change (str_lower "" +:+ String ":" rest) with (String ":" rest).
    by rewrite str_prefix_cons, bool_decide_eq_false_2.
  - simpl in Hs. apply andb_true_iff in Hs as [Hc%scheme_char_not Hs].
    destruct Hc as (_&_&Hc&_). simpl (str_lower _). rewrite str_app_cons, str_prefix_cons.
    destruct (decide (d = char_lower c)) as [->|Hn]; [|by rewrite bool_decide_eq_false_2].
    rewrite bool_decide_eq_true_2 by done. apply IH; [done| |done].
    rewrite str_contains_cons, str_prefix_cons, bool_decide_eq_false_2 in Heq by done. done.
Qed.

(** A prefix of the trimmed string is one of the string without its leading
    white space. *)
Lemma prefix_str_lower_trim_end p s :
  String.prefix p (str_lower (trim_end_by is_whitespace s)) = true →
  String.prefix p (str_lower s) = true.
Proof.
  revert p. induction s as [|c s IH]; intros [|d p]; try done.
  simpl (trim_end_by _ _).
  destruct (trim_end_by is_whitespace s) as [|c' s'] eqn:E.
  - destruct (is_whitespace c); [done|]. simpl (str_lower _). rewrite !str_prefix_cons.
    intros [-> Hpre]%andb_true_iff. destruct p; [by destruct (str_lower s)|done].
  - change (str_lower (String c (String c' s')))
      with (String (char_lower c) (str_lower (String c' s'))).
    simpl (str_lower (String c s)). rewrite !str_prefix_cons.
    intros [-> Hpre]%andb_true_iff. by apply IH.
Qed.

Lemma trim_start_stops p s : stops p s → trim_start_by p s = s.
Proof. destruct s as [|c s]; simpl; [done|]. by intros ->. Qed.

(** A string that starts with a URL scheme gets the dialect of that
    scheme, whatever its case and whatever follows the colon; it is never
    taken for a key=value connection string. *)
Theorem detect_dialect_url scheme rest :
  valid_scheme scheme →
  detect_dialect (scheme +:+ ":" +:+ rest) = scheme_dialect (str_lower scheme).
Proof.
  intros Hv. pose proof (valid_scheme_chars _ Hv) as Hall.
  change (":" +:+ rest) with (String ":" rest).
  assert (extract_scheme (scheme +:+ String ":" rest) = Some (str_lower scheme)) as He.
  { unfold extract_scheme. rewrite span_app; [|eapply str_all_impl; [|done]|done].
    2: { intros c Hc. by apply scheme_char_not. }
    destruct scheme as [|c s]; [done|]. destruct Hv as [-> ->]. done. }
  assert (looks_like_kv (scheme +:+ String ":" rest) = false) as Hk.
  { unfold looks_like_kv. apply not_true_iff_false. intros (p&Hin&Hp)%existsb_exists.
    unfold str_trim in Hp. rewrite trim_start_stops in Hp.
    - apply prefix_str_lower_trim_end in Hp. rewrite str_lower_app in Hp.
      change (str_lower (String ":" rest)) with (String ":" (str_lower rest)) in Hp.
      rewrite kv_prefix_no_scheme in Hp; [done|done|..];
        repeat (destruct Hin as [<-|Hin]; [done|]); done.
    - destruct scheme as [|c s]; [done|]. rewrite str_app_cons. simpl.
      simpl in Hall. apply andb_true_iff in Hall as [Hc _].
      by apply scheme_char_not in Hc as (?&_). }
  unfold detect_dialect. rewrite Hk, He.
  destruct scheme as [|c s]; [done|]. by rewrite str_app_cons.
Qed.

(** ** Precedence *)

(** What process_config relies on: an unset variable is never the empty
    string. *)
Class EnvSourceLaws E `{EnvSource E} : Prop :=
  env_get_non_empty (env : E) key : env_get env key ≠ Some "".

Lemma non_empty_not o : non_empty o ≠ Some "".
Proof. by destruct o as [[]|]. Qed.

#[export] Instance SystemEnv_laws : EnvSourceLaws SystemEnv.
Proof. intros env key. apply non_empty_not. Qed.
#[export] Instance MapEnv_laws : EnvSourceLaws MapEnv.
Proof. intros env key. apply non_empty_not. Qed.

(** The first source that holds a value that is not empty. *)
Fixpoint first_non_empty (sources : list (option string)) (otherwise : string) : string :=
  match sources with
  | [] => otherwise
  | source :: sources =>
      match non_empty source with
      | Some v => v
      | None => first_non_empty sources otherwise
      end
  end.

Lemma non_empty_idem o : non_empty (non_empty o) = non_empty o.
Proof. by destruct o as [[]|]. Qed.

Lemma non_empty_Some o v : non_empty o = Some v → v ≠ "".
Proof. destruct o as [[]|]; naive_solver. Qed.

Section process_config.
Context {Pool E : Type} `{HE : EnvSource E, !EnvSourceLaws E, HF : HostFiles, HS : Sha256, !Sha256Laws HS}.
Implicit Types (cfg : Config Pool) (env : E).

Lemma env_get_cases env key :
  env_get env key = None ∨ ∃ v, env_get env key = Some v ∧ v ≠ "".
Proof.
  destruct (env_get env key) as [v|] eqn:Hv; [right|by left].
  exists v. split; [done|]. intros ->. by apply (env_get_non_empty env key).
Qed.

Lemma executor_precedence cfg env :
  resolve_executor_id cfg env =
  first_non_empty [env_get env ENV_VMID; c_executor_id cfg] DEFAULT_EXECUTOR_ID.
Proof.
  unfold resolve_executor_id. simpl.
  destruct (env_get_cases env ENV_VMID) as [->|(v&->&Hv)]; simpl.
  - rewrite non_empty_idem. by destruct (non_empty _).
  - by destruct v.
Qed.

Lemma application_version_precedence cfg env :
  resolve_application_version cfg env =
  first_non_empty [env_get env ENV_APP_VERSION; c_application_version cfg;
    if c_enable_patching cfg then Some PATCHING_ENABLED_VERSION else None] compute_application_version.
Proof.
  unfold resolve_application_version. simpl.
  destruct (env_get_cases env ENV_APP_VERSION) as [->|(v&->&Hv)]; simpl.
  - destruct (non_empty (c_application_version cfg)) as [v|] eqn:Hv.
    + apply non_empty_Some in Hv. by destruct v.
    + by destruct (c_enable_patching cfg).
  - by destruct v.
Qed.

Lemma default_non_empty o d : d ≠ "" → default d (non_empty o) ≠ "".
Proof. by destruct o as [[]|]. Qed.
Lemma default_non_zero o d : d ≠ 0 → default d (non_zero o) ≠ 0.
Proof. by destruct o as [[]|]. Qed.

(** The hash is that of the executable's bytes, wherever it lies. *)
Lemma try_binary_hash_ok h :
  try_binary_hash = inr h ↔ ∃ path exe bytes, current_exe = inr path ∧ canonicalize path = inr exe ∧
    metadata_is_file exe = inr true ∧ file_bytes exe = inr bytes ∧ h = hex_encode (sha256_digest bytes).
Proof.
  unfold try_binary_hash, mbind, sum_bind. split.
  - destruct current_exe as [e|path]; [done|].
    destruct (canonicalize path) as [e|exe] eqn:Hc; [done|].
    destruct (metadata_is_file exe) as [e|[]] eqn:Hm; [done| |done].
    destruct (file_bytes exe) as [e|bytes] eqn:Hb; [done|]. intros [= <-].
    exists path, exe, bytes. by split_and!.
  - intros (path & exe & bytes & Hp & Hc & Hm & Hb & ->). by rewrite Hp, Hc, Hm, Hb.
Qed.

(** There is no version exactly when it cannot be computed. *)
Lemma computed_version_empty : compute_application_version = "" ↔ ∃ e, try_binary_hash = inl e.
Proof.
  unfold compute_application_version. destruct try_binary_hash as [e|h] eqn:Hh; [naive_solver|].
  split; [|by intros [e [=]]]. intros ->. apply try_binary_hash_ok in Hh as (_ & _ & bytes & _ & _ & _ & _ & Hh).
  pose proof (hex_length (sha256_digest bytes)) as Hl. rewrite <- Hh, sha256_length in Hl. done.
Qed.

Lemma first_non_empty_empty l d : first_non_empty l d = "" ↔ (∀ o, o ∈ l → non_empty o = None) ∧ d = "".
Proof.
  induction l as [|o l IH]; simpl.
  { split; [|by intros [_ ->]]. intros ->. split; [|done]. by intros o ?%not_elem_of_nil. }
  destruct (non_empty o) as [v|] eqn:Ho.
  - split; [by intros ->; apply non_empty_Some in Ho|]. intros [Hall _].
    rewrite Hall in Ho by left. done.
  - rewrite IH. split; intros [Hall ->]; (split; [|done]).
    + intros o' [->|Hin]%elem_of_cons; auto.
    + intros o' Hin. apply Hall. by right.
Qed.

Lemma unversioned cfg env :
  resolve_application_version cfg env = "" →
  env_get env ENV_APP_VERSION = None ∧ c_enable_patching cfg = false ∧ ∃ e, try_binary_hash = inl e.
Proof.
  rewrite application_version_precedence, first_non_empty_empty, computed_version_empty.
  intros [Hall He]. split_and!; [| |done].
  - destruct (env_get_cases env ENV_APP_VERSION) as [|(v & Hv & Hne)]; [done|].
    rewrite Hv in Hall. assert (non_empty (Some v) = None) as Hno by (apply Hall; left). by destruct v.
  - destruct (c_enable_patching cfg); [|done].
    assert (non_empty (Some PATCHING_ENABLED_VERSION) = None) as [=].
    apply Hall. right; right; left.
Qed.

(** The database a configuration points at, as the validation sees it. *)
Definition config_dialect cfg : sum Dialect string :=
  match c_system_db_pool cfg with
  | Some _ => inl Postgres
  | None => detect_dialect (default "" (c_database_url cfg))
  end.

Definition no_source cfg : Prop := has_url cfg = false ∧ c_system_db_pool cfg = None.
#[export] Instance no_source_dec cfg : Decision (no_source cfg).
Proof. unfold no_source. apply _. Defined.

(** C24: Processing a configuration fails exactly when there is neither a pool
    nor a connection string, the application name is empty, or the dialect of
    the connection string is unknown, with the first of these as its error;
    otherwise the identity follows the order environment, explicit value,
    default (the patching sentinel and then the executable's hash for the
    version), and no default is ever empty or zero, but for the version of
    an executable that cannot be read. *)
Theorem process_config_spec cfg env :
  (∀ e, process_config_with_env cfg env = Err e ↔
     no_source cfg ∧ e = initialization
       "one of databaseURL, systemDBPool, or sqliteSystemDB must be provided" ∨
     ¬ no_source cfg ∧ c_app_name cfg = "" ∧
       e = initialization "missing required config field: appName" ∨
     ¬ no_source cfg ∧ c_app_name cfg ≠ "" ∧
       ∃ text, config_dialect cfg = inr text ∧ e = initialization text) ∧
  ∀ pc, process_config_with_env cfg env = Ok pc →
    inl (pc_dialect pc) = config_dialect cfg ∧ pc_app_name pc = c_app_name cfg ∧
    pc_app_name pc ≠ "" ∧
    pc_executor_id pc = first_non_empty [env_get env ENV_VMID; c_executor_id cfg] DEFAULT_EXECUTOR_ID ∧
    pc_application_version pc = first_non_empty [env_get env ENV_APP_VERSION;
      c_application_version cfg;
      if c_enable_patching cfg then Some PATCHING_ENABLED_VERSION else None] compute_application_version ∧
    pc_database_schema pc = first_non_empty [c_database_schema cfg] DEFAULT_SYSTEM_DB_SCHEMA ∧
    pc_executor_id pc ≠ "" ∧ pc_database_schema pc ≠ "" ∧ pc_admin_server_port pc ≠ 0 ∧
    pc_scheduler_polling_interval pc ≠ 0 ∧
    (pc_application_version pc = "" →
     env_get env ENV_APP_VERSION = None ∧ c_enable_patching cfg = false ∧ ∃ e, try_binary_hash = inl e).
Proof.
  assert (∀ s, str_is_empty s = bool_decide (s = "")) as Hemp by by intros [].
  assert (negb (has_url cfg) && bool_decide (c_system_db_pool cfg = None) =
    bool_decide (no_source cfg)) as Hsrc.
  { apply eq_bool_prop_intro. rewrite bool_decide_spec. unfold no_source.
    rewrite andb_True, negb_True, bool_decide_spec. by destruct (has_url cfg); simpl; naive_solver. }
  split.
  - intros e. unfold process_config_with_env. rewrite Hsrc, Hemp. unfold config_dialect. clear Hsrc Hemp.
    case_bool_decide; [split; [intros ?; simplify_eq/=; by left | intros [[_ ->]|[[]|[]]]; done]|].
    case_bool_decide; [split; [intros ?; simplify_eq/=; right; left | intros [[]|[(_&_&->)|(_&[]&_)]]]; done|].
    split.
    + intros Herr. right; right. split_and!; [done..|].
      destruct (c_system_db_pool cfg); [done|]. destruct (detect_dialect _); simplify_eq/=; eauto.
    + intros [[]|[(_&?&_)|(_&_&text&Hd&->)]]; [done..|].
      destruct (c_system_db_pool cfg); [done|]. by destruct (detect_dialect _); simplify_eq/=.
  - intros pc. unfold process_config_with_env. rewrite Hsrc, Hemp. clear Hsrc Hemp.
    case_bool_decide; [done|]. case_bool_decide as Hname; [done|].
    assert (∀ d, d ≠ "" → first_non_empty [c_database_schema cfg] d = default d (non_empty (c_database_schema cfg)))
      as Hschema by (intros; simpl; by destruct (non_empty _)).
    unfold config_dialect.
    assert (∀ d, resolve_executor_id cfg env = d → d ≠ "") as Hexe.
    { intros d <-. unfold resolve_executor_id. by apply default_non_empty. }
    destruct (c_system_db_pool cfg); [|destruct (detect_dialect _); [|done]];
      intros [= <-]; simpl; split_and!; eauto using executor_precedence,
        application_version_precedence, unversioned; try (by rewrite Hschema);
      try (by apply default_non_empty); by apply default_non_zero.
Qed.
End process_config.

(** ** Masking *)

(** [m] matches nowhere in [pre], when [rest] comes after it. *)
Fixpoint unmatched (m : string → option (string * nat)) (pre rest : string) : bool :=
  match pre with
  | "" => true
  | String _ pre' => bool_decide (m (pre +:+ rest) = None) && unmatched m pre' rest
  end.

Lemma replace_all_skip m a rest : replace_all m (String.length a) (a +:+ rest) = replace_all m 0 rest.
Proof. induction a as [|c a IH]; [done|]. by rewrite str_app_cons. Qed.

Lemma replace_all_unmatched m pre rest :
  unmatched m pre rest = true → replace_all m 0 (pre +:+ rest) = pre +:+ replace_all m 0 rest.
Proof.
  induction pre as [|c pre IH]; [done|]. simpl (unmatched _ _ _).
  intros [Hm%bool_decide_eq_true Hu]%andb_true_iff. rewrite !str_app_cons in *.
  simpl. rewrite Hm. by rewrite IH.
Qed.

Lemma replace_all_match m s a rest r :
  a ≠ "" → s = a +:+ rest → m (a +:+ rest) = Some (r, String.length a) →
  replace_all m 0 s = r +:+ replace_all m 0 rest.
Proof.
  intros Ha -> Hm. destruct a as [|c a]; [done|]. rewrite str_app_cons in *.
  cbn [replace_all]. rewrite Hm. simpl. by rewrite replace_all_skip.
Qed.

Lemma str_contains_app n pre rest : str_contains n (pre +:+ n +:+ rest) = true.
Proof.
  assert (String.prefix n (n +:+ rest) = true) as Hp.
  { induction n as [|c n IH]; [by destruct rest|].
    by rewrite str_app_cons, str_prefix_cons, bool_decide_eq_true_2. }
  induction pre as [|c pre IH].
  - change ("" +:+ n +:+ rest) with (n +:+ rest).
    revert Hp. generalize (n +:+ rest). intros s Hp.
    destruct s; [unfold str_contains; by rewrite Hp|]. by rewrite str_contains_cons, Hp.
  - by rewrite str_app_cons, str_contains_cons, IH, orb_true_r.
Qed.

Lemma strip_prefix_false p s : strip_prefix false p (p +:+ s) = Some s.
Proof.
  induction p as [|c p IH]; [by destruct s|]. rewrite str_app_cons. simpl.
  by rewrite decide_True.
Qed.

Lemma url_match_app user password rest :
  user ≠ "" → str_all user_char user = true → str_all password_char password = true →
  let matched := "://" +:+ user +:+ ":" +:+ password +:+ "@" in
  url_match (matched +:+ rest) = Some ("://" +:+ user +:+ ":***@", String.length matched).
Proof.
  intros Hne Hu Hp matched. unfold url_match, matched. rewrite !str_app_assoc.
  rewrite strip_prefix_false. simpl (mbind _ _).
  change (":" +:+ password +:+ "@" +:+ rest) with (String ":" (password +:+ String "@" rest)).
  rewrite span_app by done.
  destruct user as [|c user]; [done|].
  rewrite span_app by done. f_equal. f_equal.
  rewrite !str_length_app. simpl. lia.
Qed.

(** The letters of [word] in any case. *)
Definition spells (word s : string) : Prop := str_lower s = word.

Lemma strip_prefix_fold word s rest :
  spells word s → strip_prefix true word (s +:+ rest) = Some rest.
Proof.
  unfold spells. intros <-. induction s as [|c s IH]; [by destruct rest|].
  rewrite str_app_cons. simpl. by rewrite decide_True.
Qed.

Lemma kv_match_app word spaces spaces' value rest :
  spells "password" word → str_all is_whitespace spaces = true →
  str_all is_whitespace spaces' = true → value ≠ "" →
  str_all (negb ∘ is_whitespace) value = true → stops (negb ∘ is_whitespace) rest →
  let matched := word +:+ spaces +:+ "=" +:+ spaces' +:+ value in
  kv_match (matched +:+ rest) = Some ("password=***", String.length matched).
Proof.
  intros Hw Hs Hs' Hne Hv Hr matched. unfold kv_match, matched. rewrite !str_app_assoc.
  rewrite strip_prefix_fold by done. simpl (mbind _ _).
  change ("=" +:+ spaces' +:+ value +:+ rest) with (String "=" (spaces' +:+ value +:+ rest)).
  rewrite span_app by done.
  assert (stops is_whitespace (value +:+ rest)) as Hst.
  { destruct value as [|c value]; [done|]. simpl in Hv.
    apply andb_true_iff in Hv as [?%negb_true_iff _]. done. }
  rewrite span_app by done. rewrite span_app by done.
  destruct value as [|c value]; [done|]. f_equal. f_equal.
  assert (String.length word = 8%nat) as Hl.
  { assert (∀ s, String.length (str_lower s) = String.length s) as Hl.
    { intros s. induction s as [|d s IH]; simpl; [done|]. by rewrite IH. }
    rewrite <-Hl. by rewrite Hw. }
  rewrite !str_length_app, Hl. simpl. lia.
Qed.

(** A password is masked as a whole: in a URL when it has none of the
    characters that end it, in a key=value string up to the next white space;
    so the masked string does not depend on it. *)
Theorem mask_password_hides pre rest :
  (∀ user password, user ≠ "" →
     str_all user_char user = true → str_all password_char password = true →
     unmatched url_match pre ("://" +:+ user +:+ ":" +:+ password +:+ "@" +:+ rest) = true →
     mask_password (pre +:+ "://" +:+ user +:+ ":" +:+ password +:+ "@" +:+ rest) =
     pre +:+ "://" +:+ user +:+ ":***@" +:+ replace_all url_match 0 rest) ∧
  (∀ word spaces spaces' value,
     let conn := pre +:+ word +:+ spaces +:+ "=" +:+ spaces' +:+ value +:+ rest in
     str_contains "://" conn = false → spells "password" word →
     str_all is_whitespace spaces = true → str_all is_whitespace spaces' = true →
     value ≠ "" → str_all (negb ∘ is_whitespace) value = true →
     stops (negb ∘ is_whitespace) rest →
     unmatched kv_match pre (word +:+ spaces +:+ "=" +:+ spaces' +:+ value +:+ rest) = true →
     mask_password conn = pre +:+ "password=***" +:+ replace_all kv_match 0 rest).
Proof.
  split.
  - intros user password Hne Hu Hp Hpre. unfold mask_password.
    change ("://" +:+ user +:+ ":" +:+ password +:+ "@" +:+ rest)
      with ("://" +:+ (user +:+ ":" +:+ password +:+ "@" +:+ rest)).
    rewrite str_contains_app, replace_all_unmatched by done. f_equal.
    etransitivity; [eapply replace_all_match; [..|by apply url_match_app]|].
    + done.
    + by rewrite !str_app_assoc.
    + by rewrite !str_app_assoc.
  - intros word spaces spaces' value conn Hurl Hw Hs Hs' Hne Hv Hr Hpre.
    unfold mask_password. rewrite Hurl. unfold conn. rewrite replace_all_unmatched by done.
    f_equal. eapply replace_all_match; [..|by apply (kv_match_app word spaces spaces' value rest)].
    + destruct word as [|c word]; [done|]. by rewrite str_app_cons.
    + by rewrite !str_app_assoc.
Qed.

(** What the masking misses: a quoted value is cut at its first space, and a
    URL password at its first at sign. *)
Lemma mask_password_leaks :
  mask_password "host=h password='my secret' user=u" = "host=h password=*** secret' user=u" ∧
  mask_password "postgres://u:p@ss@h/d" = "postgres://u:***@ss@h/d".
Proof. split; vm_compute; reflexivity. Qed.
