(* ===== verification/Listener.v ===== *)
(** * The notification listener (runtime/listener.rs)

    The registries of waiters, their guards, and what a NOTIFY, a poll tick or
    a reconnection wakes.  The waits of [World] end whenever a waiter is woken
    or its time is up; this file is about which notifications reach whom. *)
From S2P Require Import Prelude.

Local Open Scope string_scope.
Local Open Scope list_scope.
Local Open Scope dbos_scope.

(** ** State *)

(** The three registries, and the Postgres channels that feed them. *)
Inductive Channel :=
  | notifications_waiters
  | events_waiters
  | streams_waiters.

#[export] Instance Channel_eq_dec : EqDecision Channel.
Proof. solve_decision. Defined.
#[export] Instance Channel_countable : Countable Channel.
Proof.
  refine (inj_countable' (λ c, match c with
    | notifications_waiters => 0 | events_waiters => 1 | streams_waiters => 2 end)
    (λ n, match n with
    | 0 => notifications_waiters | 1 => events_waiters | _ => streams_waiters end) _)%nat.
  by intros [].
Defined.

Definition NOTIFICATIONS_CHANNEL : string := "dbos_notifications_channel".
Definition WORKFLOW_EVENTS_CHANNEL : string := "dbos_workflow_events_channel".
Definition STREAMS_CHANNEL : string := "dbos_streams_channel".

(** The match on [notification.channel()]. *)
Definition registry_of (channel : string) : option Channel :=
  if decide (channel = NOTIFICATIONS_CHANNEL) then Some notifications_waiters
  else if decide (channel = WORKFLOW_EVENTS_CHANNEL) then Some events_waiters
  else if decide (channel = STREAMS_CHANNEL) then Some streams_waiters
  else None.

(** One task inside [recv], [get_event] or a stream read: its key, the
    [Notify] it holds, and its current [notified()] future, if it has one, as
    whether that future has been completed. *)
Record Waiter := mkWaiter {
  wt_channel : Channel;
  wt_key : string;
  wt_notify : nat;
  wt_future : option bool;
}.

(** [ls_registry] is the [WaiterRegistry] of each channel; [Notify] objects
    are numbered. *)
Record Listener := mkListener {
  ls_registry : gmap (Channel * string) nat;
  ls_waiters : gmap nat Waiter;
  ls_next : nat;
}.

Definition no_listener : Listener := mkListener ∅ ∅ 0.

(** ** Operations *)

(** [recv] takes a vacant entry, and [WaiterGuard::new] keeps its key;
    [None] is the conflict error. *)
Definition enter_vacant (w : nat) (ch : Channel) (key : string) (s : Listener) : option Listener :=
  match ls_registry s !! (ch, key) with
  | Some _ => None
  | None => Some (mkListener (<[(ch, key) := ls_next s]> (ls_registry s))
                    (<[w := mkWaiter ch key (ls_next s) None]> (ls_waiters s)) (S (ls_next s)))
  end.

(** [get_event] and the stream readers share an entry
    ([entry(payload).or_insert_with(..).clone()]). *)
Definition enter_shared (w : nat) (ch : Channel) (key : string) (s : Listener) : Listener :=
  match ls_registry s !! (ch, key) with
  | Some n => mkListener (ls_registry s) (<[w := mkWaiter ch key n None]> (ls_waiters s)) (ls_next s)
  | None => mkListener (<[(ch, key) := ls_next s]> (ls_registry s))
              (<[w := mkWaiter ch key (ls_next s) None]> (ls_waiters s)) (S (ls_next s))
  end.

(** [notify.notified()]: a new future, at the top of each turn of the loop. *)
Definition with_future (f : option bool) (wt : Waiter) : Waiter :=
  mkWaiter (wt_channel wt) (wt_key wt) (wt_notify wt) f.

Definition notified (w : nat) (s : Listener) : Listener :=
  mkListener (ls_registry s) (alter (with_future (Some false)) w (ls_waiters s)) (ls_next s).

(** [Notify::notify_waiters]: completes every future already created. *)
Definition notify_waiters (n : nat) (wt : Waiter) : Waiter :=
  if decide (wt_notify wt = n ∧ wt_future wt ≠ None) then with_future (Some true) wt else wt.

Definition wake (ns : list nat) (s : Listener) : Listener :=
  mkListener (ls_registry s) ((λ wt, foldr notify_waiters wt ns) <$> ls_waiters s) (ls_next s).

Definition wake_all (s : Listener) : Listener := wake (map_to_list (ls_registry s)).*2 s.

(** One received notification. *)
Definition on_notification (channel payload : string) (s : Listener) : Listener :=
  match registry_of channel with
  | None => s
  | Some ch =>
      match ls_registry s !! (ch, payload) with
      | Some n => wake [n] s
      | None => s
      end
  end.

(** [WaiterGuard::drop], when the operation ends on any path. *)
Definition drop_guard (w : nat) (s : Listener) : Listener :=
  match ls_waiters s !! w with
  | None => s
  | Some wt => mkListener (delete (wt_channel wt, wt_key wt) (ls_registry s))
                 (delete w (ls_waiters s)) (ls_next s)
  end.

(** ** Steps *)

(** Waiters of the notification registry enter exclusively, those of the
    other two share; every operation is of a new waiter. *)
Inductive step : Listener → Listener → Prop :=
  | recv_enters w key s s' :
      ls_waiters s !! w = None → enter_vacant w notifications_waiters key s = Some s' → step s s'
  | reader_enters w ch key s :
      ls_waiters s !! w = None → ch ≠ notifications_waiters → step s (enter_shared w ch key s)
  | waiter_turns w s : step s (notified w s)
  | notification channel payload s : step s (on_notification channel payload s)
  | poll_tick s : step s (wake_all s)
  | operation_ends w s : step s (drop_guard w s).

(** ** Who is woken *)

Definition registered (s : Listener) (wt : Waiter) : Prop :=
  ls_registry s !! (wt_channel wt, wt_key wt) = Some (wt_notify wt).

Definition wt_entry (wt : Waiter) : Channel * string := (wt_channel wt, wt_key wt).

(** The [Notify] objects held are among those created; an entry is held by a
    waiter under its key, and by none under another key; receivers are
    registered, and alone on their key. *)
Record listener_ok (s : Listener) : Prop := {
  ok_created w wt : ls_waiters s !! w = Some wt → wt_notify wt < ls_next s;
  ok_held ck n : ls_registry s !! ck = Some n → n < ls_next s ∧
    ∃ w wt, ls_waiters s !! w = Some wt ∧ wt_entry wt = ck ∧ wt_notify wt = n;
  ok_entry w wt ck :
    ls_waiters s !! w = Some wt → ls_registry s !! ck = Some (wt_notify wt) → ck = wt_entry wt;
  ok_receiver w wt :
    ls_waiters s !! w = Some wt → wt_channel wt = notifications_waiters → registered s wt;
  ok_alone w wt w' wt' :
    ls_waiters s !! w = Some wt → wt_channel wt = notifications_waiters →
    ls_waiters s !! w' = Some wt' → wt_entry wt' = wt_entry wt → w' = w;
}.

(** A step that leaves the registry alone and only touches futures. *)
Definition same_waiters (s s' : Listener) : Prop :=
  ls_registry s' = ls_registry s ∧ ls_next s' = ls_next s ∧
  ∀ w, with_future None <$> ls_waiters s' !! w = with_future None <$> ls_waiters s !! w.

Lemma same_waiters_lookup s s' w wt' :
  same_waiters s s' → ls_waiters s' !! w = Some wt' →
  ∃ wt, ls_waiters s !! w = Some wt ∧ wt_entry wt = wt_entry wt' ∧ wt_notify wt = wt_notify wt' ∧
        wt_channel wt = wt_channel wt'.
Proof.
  intros (_&_&Hw) H'. specialize (Hw w). rewrite H' in Hw. simpl in Hw. symmetry in Hw.
  apply fmap_Some in Hw as ([ch k n f]&->&Heq). destruct wt' as [ch' k' n' f'].
  exists (mkWaiter ch k n f). unfold with_future in Heq. by simplify_eq/=.
Qed.

Lemma same_waiters_ok s s' : same_waiters s s' → listener_ok s → listener_ok s'.
Proof.
  intros Hs Hok. pose proof Hs as (Hr&Hn&Hw).
  pose proof (λ w wt', same_waiters_lookup s s' w wt' Hs) as Hlook.
  split.
  - intros w wt' (wt&H&_&<-&_)%Hlook. rewrite Hn. eauto using ok_created.
  - intros ck n. rewrite Hr, Hn. intros (?&w&wt&H&<-&<-)%ok_held; [|done]. split; [done|].
    specialize (Hw w). rewrite H in Hw. simpl in Hw. apply fmap_Some in Hw as (wt'&H'&Heq).
    exists w, wt'. split; [done|]. destruct wt, wt'. unfold with_future in Heq. by simplify_eq/=.
  - intros w wt' ck (wt&H&<-&Hn'&_)%Hlook. rewrite Hr, <-Hn'. eauto using ok_entry.
  - intros w wt' (wt&H&Hk&Hn'&Hc)%Hlook. rewrite <-Hc. intros Hch.
    pose proof (ok_receiver _ Hok _ _ H Hch) as Hreg. unfold registered, wt_entry in *.
    by rewrite Hr, <-Hn', <-Hk.
  - intros w wt1' w2 wt2' (wt1&H1&Hk1&_&Hc1)%Hlook Hch (wt2&H2&Hk2&_&_)%Hlook.
    rewrite <-Hk1, <-Hk2. rewrite <-Hc1 in Hch. eauto using ok_alone.
Qed.

Lemma foldr_notify_same ns wt : with_future None (foldr notify_waiters wt ns) = with_future None wt.
Proof.
  induction ns as [|n ns IH]; simpl; [done|]. rewrite <-IH. unfold notify_waiters.
  by destruct (decide _).
Qed.

Lemma wake_same ns s : same_waiters s (wake ns s).
Proof.
  split_and!; [done..|]. intros w. simpl. rewrite lookup_fmap.
  destruct (ls_waiters s !! w); simpl; [|done]. by rewrite foldr_notify_same.
Qed.

Lemma notified_same w s : same_waiters s (notified w s).
Proof.
  split_and!; [done..|]. intros w'. simpl. destruct (decide (w = w')) as [->|].
  - rewrite lookup_alter_eq. by destruct (ls_waiters s !! w').
  - by rewrite lookup_alter_ne.
Qed.

Lemma on_notification_same ch payload s : same_waiters s (on_notification ch payload s).
Proof.
  unfold on_notification. destruct (registry_of ch); [|by split_and!].
  case_match; [apply wake_same|by split_and!].
Qed.

(** Entering with a [Notify] of one's own. *)
Lemma enter_fresh_ok w ch key s :
  listener_ok s → ls_waiters s !! w = None → ls_registry s !! (ch, key) = None →
  listener_ok (mkListener (<[(ch, key) := ls_next s]> (ls_registry s))
                 (<[w := mkWaiter ch key (ls_next s) None]> (ls_waiters s)) (S (ls_next s))).
Proof.
  intros Hok Hw Hk. split; simpl.
  - intros w' wt' [[<- <-]|[_ H]]%lookup_insert_Some; simpl; [lia|].
    apply ok_created in H; [lia|done].
  - intros ck n [[<- <-]|[_ H]]%lookup_insert_Some.
    + split; [lia|]. exists w. eexists. by rewrite lookup_insert_eq.
    + apply ok_held in H as (?&w'&wt'&H&?&?); [|done]. split; [lia|]. exists w', wt'.
      split; [|done]. rewrite lookup_insert_ne; [done|congruence].
  - intros w' wt' ck [[<- <-]|[_ H]]%lookup_insert_Some; simpl.
    + intros [[<- _]|[_ H]]%lookup_insert_Some; [done|].
      apply ok_held in H as [? _]; [lia|done].
    + intros [[_ Hn]|[_ Hr]]%lookup_insert_Some; [|eauto using ok_entry].
      apply ok_created in H; [lia|done].
  - intros w' wt' [[<- <-]|[_ H]]%lookup_insert_Some Hch; unfold registered; simpl.
    + by rewrite lookup_insert_eq.
    + pose proof (ok_receiver _ Hok _ _ H Hch) as Hreg. rewrite lookup_insert_ne; [done|].
      intros Heq. unfold registered in Hreg. rewrite <-Heq, Hk in Hreg. done.
  - intros w1 wt1 w2 wt2 [[<- <-]|[_ H1]]%lookup_insert_Some Hch
      [[<- <-]|[_ H2]]%lookup_insert_Some Hkey; simpl in *; [done|..].
    + assert (wt_channel wt2 = notifications_waiters) as Hch2.
      { unfold wt_entry in Hkey. simpl in Hkey. congruence. }
      pose proof (ok_receiver _ Hok _ _ H2 Hch2) as Hreg.
      unfold registered, wt_entry in *. simpl in *. congruence.
    + pose proof (ok_receiver _ Hok _ _ H1 Hch) as Hreg.
      unfold registered, wt_entry in *. simpl in *. congruence.
    + eauto using ok_alone.
Qed.

Lemma enter_shared_ok w ch key s :
  listener_ok s → ls_waiters s !! w = None → ch ≠ notifications_waiters →
  listener_ok (enter_shared w ch key s).
Proof.
  intros Hok Hw Hch. unfold enter_shared.
  destruct (ls_registry s !! (ch, key)) as [n|] eqn:Hn; [|by apply enter_fresh_ok].
  destruct (ok_held _ Hok _ _ Hn) as (Hlt&w0&wt0&H0&Hk0&Hn0). split; simpl.
  - intros w' wt' [[<- <-]|[_ H]]%lookup_insert_Some; [done|eauto using ok_created].
  - intros ck m (?&w'&wt'&H&?&?)%ok_held; [|done]. split; [done|]. exists w', wt'.
    split; [|done]. rewrite lookup_insert_ne; [done|congruence].
  - intros w' wt' ck [[<- <-]|[_ H]]%lookup_insert_Some; simpl; [|eauto using ok_entry].
    rewrite <-Hn0. intros Hr. rewrite (ok_entry _ Hok _ _ _ H0 Hr). by rewrite Hk0.
  - intros w' wt' [[<- <-]|[_ H]]%lookup_insert_Some Hc; [done|exact (ok_receiver _ Hok _ _ H Hc)].
  - intros w1 wt1 w2 wt2 [[<- <-]|[_ H1]]%lookup_insert_Some Hc1
      [[<- <-]|[_ H2]]%lookup_insert_Some Hkey; simpl in *; [done|done| |eauto using ok_alone].
    unfold wt_entry in Hkey. simpl in Hkey. congruence.
Qed.

Lemma drop_guard_ok w s : listener_ok s → listener_ok (drop_guard w s).
Proof.
  intros Hok. unfold drop_guard. destruct (ls_waiters s !! w) as [wt|] eqn:Hw; [|done].
  change (wt_channel wt, wt_key wt) with (wt_entry wt). split; simpl.
  - intros w' wt' [_ H]%lookup_delete_Some. eauto using ok_created.
  - intros ck n [Hne (?&w'&wt'&H&Hk&?)%ok_held]%lookup_delete_Some; [|done].
    split; [done|]. exists w', wt'. split; [|done]. rewrite lookup_delete_ne; [done|congruence].
  - intros w' wt' ck [_ H]%lookup_delete_Some [_ Hr]%lookup_delete_Some. eauto using ok_entry.
  - intros w' wt' [Hne H]%lookup_delete_Some Hch. unfold registered. simpl.
    rewrite lookup_delete_ne; [exact (ok_receiver _ Hok _ _ H Hch)|].
    intros Heq. apply Hne. by eapply (ok_alone s Hok w' wt' w wt).
  - intros w1 wt1 w2 wt2 [_ H1]%lookup_delete_Some ? [_ H2]%lookup_delete_Some ?.
    eauto using ok_alone.
Qed.

Lemma step_ok s s' : step s s' → listener_ok s → listener_ok s'.
Proof.
  intros Hs Hok. destruct Hs as [w key s s' Hw He|w ch key s Hw Hch|w s|ch payload s|s|w s].
  - unfold enter_vacant in He. destruct (ls_registry s !! _) eqn:Hk; [done|]. simplify_eq.
    by apply enter_fresh_ok.
  - by apply enter_shared_ok.
  - by eapply same_waiters_ok, Hok; apply notified_same.
  - by eapply same_waiters_ok, Hok; apply on_notification_same.
  - by eapply same_waiters_ok, Hok; apply wake_same.
  - by apply drop_guard_ok.
Qed.

Lemma steps_ok s s' : rtc step s s' → listener_ok s → listener_ok s'.
Proof. induction 1; eauto using step_ok. Qed.

Lemma reachable_ok s : rtc step no_listener s → listener_ok s.
Proof. intros Hr. eapply steps_ok; [done|]. by split; set_solver. Qed.

(** ** What a notification reaches *)

Lemma foldr_notify_keeps ns wt : wt_notify (foldr notify_waiters wt ns) = wt_notify wt.
Proof. pose proof (foldr_notify_same ns wt) as H. unfold with_future in H. congruence. Qed.

Lemma foldr_notify_future ns wt :
  wt_future wt ≠ None → wt_future (foldr notify_waiters wt ns) ≠ None.
Proof.
  intros Hf. induction ns as [|n ns IH]; simpl; [done|]. unfold notify_waiters at 1.
  by destruct (decide _).
Qed.

Lemma foldr_notify_woken ns wt :
  wt_notify wt ∈ ns → wt_future wt ≠ None →
  wt_future (foldr notify_waiters wt ns) = Some true.
Proof.
  intros Hin Hf. induction ns as [|n ns IH]; [by apply not_elem_of_nil in Hin|]. simpl.
  unfold notify_waiters at 1. case_decide as Hd; [done|].
  apply elem_of_cons in Hin as [Heq|Hin]; [|by apply IH].
  destruct Hd. split; [by rewrite foldr_notify_keeps|by apply foldr_notify_future].
Qed.

(** A registered waiter misses nothing. *)
Lemma registered_woken s w wt :
  ls_waiters s !! w = Some wt → registered s wt → wt_future wt ≠ None →
  wt_future <$> ls_waiters (wake_all s) !! w = Some (Some true) ∧
  ∀ channel, registry_of channel = Some (wt_channel wt) →
    wt_future <$> ls_waiters (on_notification channel (wt_key wt) s) !! w = Some (Some true).
Proof.
  intros Hw Hr Hf. split.
  - unfold wake_all, wake. simpl. rewrite lookup_fmap, Hw. simpl.
    rewrite foldr_notify_woken; [done| |done].
    apply list_elem_of_fmap. exists (wt_channel wt, wt_key wt, wt_notify wt).
    split; [done|]. by apply elem_of_map_to_list.
  - intros channel Hc. unfold on_notification. rewrite Hc. unfold registered in Hr. rewrite Hr.
    unfold wake. cbn [ls_waiters]. rewrite lookup_fmap, Hw. simpl fmap.
    change (notify_waiters (wt_notify wt) wt) with (foldr notify_waiters wt [wt_notify wt]).
    rewrite foldr_notify_woken; [done|set_solver|done].
Qed.

(** ** Shared waiters *)

(** No entry holds [n] any more, nor will one. *)
Definition orphan (n : nat) (s : Listener) : Prop :=
  n < ls_next s ∧ ∀ ck, ls_registry s !! ck ≠ Some n.

Lemma foldr_notify_other ns wt : wt_notify wt ∉ ns → foldr notify_waiters wt ns = wt.
Proof.
  induction ns as [|n ns IH]; simpl; [done|]. rewrite not_elem_of_cons. intros [Hn Hns].
  rewrite IH by done. unfold notify_waiters. rewrite decide_False; [done|naive_solver].
Qed.

(** While [w] is the same operation, holding an orphan, no step completes its
    future. *)
Definition asleep (w n : nat) (s : Listener) : Prop :=
  orphan n s ∧ ∀ wt, ls_waiters s !! w = Some wt → wt_notify wt = n → wt_future wt ≠ Some true.

Lemma asleep_wake w n ns s : n ∉ ns → asleep w n s → asleep w n (wake ns s).
Proof.
  intros Hn [Ho Ha]. split; [done|]. intros wt' H' Hnot. simpl in H'.
  rewrite lookup_fmap in H'. apply fmap_Some in H' as (wt&H&->).
  rewrite foldr_notify_keeps in Hnot.
  rewrite foldr_notify_other; [by apply Ha|congruence].
Qed.

Lemma asleep_step w n s s' : step s s' → asleep w n s → asleep w n s'.
Proof.
  intros Hs [[Hlt Ho] Ha].
  destruct Hs as [v key s s' Hv He|v ch key s Hv Hch|v s|ch payload s|s|v s].
  - unfold enter_vacant in He. destruct (ls_registry s !! _) eqn:Hk; [done|]. simplify_eq.
    split; [split; simpl; [lia|]|].
    + intros ck H; simpl in H; apply lookup_insert_Some in H as [[_ ?]|[_ H]]; [lia|by eapply Ho].
    + intros wt H; simpl in H; apply lookup_insert_Some in H as [[_ <-]|[_ H]]; [done|auto].
  - unfold enter_shared. destruct (ls_registry s !! _) as [m|] eqn:Hk.
    + split; [done|]. intros wt H; simpl in H; apply lookup_insert_Some in H as [[_ <-]|[_ H]]; [done|auto].
    + split; [split; simpl; [lia|]|].
      * intros ck H; simpl in H; apply lookup_insert_Some in H as [[_ ?]|[_ H]]; [lia|by eapply Ho].
      * intros wt H; simpl in H; apply lookup_insert_Some in H as [[_ <-]|[_ H]]; [done|auto].
  - split; [done|]. intros wt'. simpl. destruct (decide (v = w)) as [->|].
    + rewrite lookup_alter_eq. by intros (wt&_&->)%fmap_Some.
    + rewrite lookup_alter_ne by done. apply Ha.
  - unfold on_notification. destruct (registry_of ch); [|done].
    destruct (ls_registry s !! _) as [m|] eqn:Hm; [|done].
    apply asleep_wake; [|done]. intros ->%list_elem_of_singleton. by eapply Ho.
  - apply asleep_wake; [|done]. intros ([ck m]&->&Hin)%list_elem_of_fmap.
    apply elem_of_map_to_list in Hin. by eapply Ho.
  - unfold drop_guard. destruct (ls_waiters s !! v) as [wt0|] eqn:Hv; [|done].
    split; [split; [done|]|].
    + intros ck H. simpl in H. apply lookup_delete_Some in H as [_ H]. by eapply Ho.
    + intros wt H. simpl in H. apply lookup_delete_Some in H as [_ H]. auto.
Qed.

(** C29: Two waiters of one event or stream share an entry, and the guard of
    the first to end removes it.  From then on nothing wakes the other, no
    notification of its key, no poll tick and no reconnection, however long
    it waits: it is left to its own timeout. *)
Theorem shared_waiter_starves s s' w v wt wt' :
  rtc step no_listener s →
  ls_waiters s !! w = Some wt → ls_waiters s !! v = Some wt' → v ≠ w →
  wt_channel wt ≠ notifications_waiters → wt_entry wt' = wt_entry wt → wt_future wt ≠ Some true →
  rtc step (drop_guard v s) s' →
  ∀ wt2, ls_waiters s' !! w = Some wt2 → wt_notify wt2 = wt_notify wt → wt_future wt2 ≠ Some true.
Proof.
  intros Hok%reachable_ok Hw Hv Hne Hch Hkey Hf Hr.
  assert (asleep w (wt_notify wt) (drop_guard v s)) as Ha.
  { unfold drop_guard. rewrite Hv. change (wt_channel wt', wt_key wt') with (wt_entry wt').
    split; [split; simpl|].
    - eauto using ok_created.
    - intros ck [Hd H]%lookup_delete_Some. apply Hd. rewrite Hkey. symmetry. eauto using ok_entry.
    - intros wt2 H. simpl in H. apply lookup_delete_Some in H as [_ H]. by simplify_eq. }
  assert (asleep w (wt_notify wt) s') as [_ ?]; [|done].
  clear Hok Hw Hv. induction Hr; eauto using asleep_step.
Qed.
