(* ===== verification/ListenLoop.v ===== *)
(** * The listener's loop (runtime/listener.rs)

    [run_listener]: connecting, subscribing, forwarding notifications and poll
    ticks to the waiters of [Listener], reconnecting, and stopping. *)
From S2P Require Import Prelude Listener.

Local Open Scope string_scope.
Local Open Scope list_scope.
Local Open Scope dbos_scope.

(** ** State *)

(** [Connecting]: the top of the outer loop; [Retrying]: asleep after a failed
    connection; [Listening]: the inner loop. *)
Inductive Phase :=
  | Connecting
  | Retrying
  | Listening
  | Stopped.

(** What an [await] of the loop ends with.  [Driver_reconnects]: the driver's
    [recv] replaces a lost connection itself, as its documentation says, and
    what was sent in between never arrives. *)
Inductive Input :=
  | Token_cancelled
  | Connect_failed
  | Listen_failed
  | Subscribed
  | Slept
  | Poll_tick
  | Received
  | Recv_failed
  | Driver_reconnects.

(** [lp_queue]: the notifications sent to the connection and not received
    yet; [lp_missed]: the driver has reconnected since the last [wake_all]. *)
Record Loop := mkLoop {
  lp_phase : Phase;
  lp_queue : list (string * string);
  lp_missed : bool;
  lp_waiters : Listener;
}.

Definition started : Loop := mkLoop Connecting [] false no_listener.

(** ** Operations *)

(** One turn of [run_listener]; [None] where the input cannot occur. *)
Definition run_listener_turn (input : Input) (l : Loop) : option Loop :=
  let goto phase := Some (mkLoop phase [] false (lp_waiters l)) in
  match lp_phase l, input with
  | (Connecting | Retrying | Listening), Token_cancelled => goto Stopped
  | Connecting, Connect_failed => goto Retrying
  | Connecting, Listen_failed => goto Connecting
  | Connecting, Subscribed => Some (mkLoop Listening [] false (wake_all (lp_waiters l)))
  | Retrying, Slept => goto Connecting
  | Listening, Poll_tick => Some (mkLoop Listening (lp_queue l) false (wake_all (lp_waiters l)))
  | Listening, Received =>
      match lp_queue l with
      | [] => None
      | (channel, payload) :: queue =>
          Some (mkLoop Listening queue (lp_missed l) (on_notification channel payload (lp_waiters l)))
      end
  | Listening, Recv_failed => goto Connecting
  | Listening, Driver_reconnects => Some (mkLoop Listening [] true (lp_waiters l))
  | _, _ => None
  end.

(** A [NOTIFY] of any process: it reaches a connection that is subscribed. *)
Definition notify (channel payload : string) (l : Loop) : Loop :=
  match lp_phase l with
  | Listening => mkLoop Listening (lp_queue l ++ [(channel, payload)]) (lp_missed l) (lp_waiters l)
  | _ => l
  end.

(** What the operation [w] of a workflow does with its waiter. *)
Inductive operation (w : nat) : Listener → Listener → Prop :=
  | op_recv key s s' :
      ls_waiters s !! w = None → enter_vacant w notifications_waiters key s = Some s' →
      operation w s s'
  | op_shared ch key s :
      ls_waiters s !! w = None → ch ≠ notifications_waiters →
      operation w s (enter_shared w ch key s)
  | op_turn s : operation w s (notified w s)
  | op_end s : operation w s (drop_guard w s).

(** Steps of the whole, labelled with the operation that makes them. *)
Inductive loop_step : option nat → Loop → Loop → Prop :=
  | Turn input l l' : run_listener_turn input l = Some l' → loop_step None l l'
  | Notifies channel payload l : loop_step None l (notify channel payload l)
  | Operates w ph q m s s' :
      operation w s s' → loop_step (Some w) (mkLoop ph q m s) (mkLoop ph q m s').

Definition any_step (l l' : Loop) : Prop := ∃ by_, loop_step by_ l l'.

(** Steps of anything but the operation [w], which is asleep. *)
Definition others_step (w : nat) (l l' : Loop) : Prop := ∃ by_, by_ ≠ Some w ∧ loop_step by_ l l'.

(** ** The waiters of the loop are those of [Listener] *)

Lemma operation_step w s s' : operation w s s' → step s s'.
Proof. intros []; eauto using step. Qed.

Lemma turn_steps input l l' :
  run_listener_turn input l = Some l' → rtc step (lp_waiters l) (lp_waiters l').
Proof.
  destruct l as [[] q m s], input; unfold run_listener_turn; simpl; intros H; simplify_eq/=; try done;
    try (apply rtc_once; constructor).
  destruct q as [|[ch k] q]; simplify_eq/=. apply rtc_once. constructor.
Qed.

Lemma notify_waiters_same channel payload l : lp_waiters (notify channel payload l) = lp_waiters l.
Proof. by destruct l as [[]]. Qed.

Lemma loop_step_steps b l l' : loop_step b l l' → rtc step (lp_waiters l) (lp_waiters l').
Proof.
  intros [input l1 l2 Ht|ch k l1|w ph q m s s' Ho]; simpl.
  - by eapply turn_steps.
  - by rewrite notify_waiters_same.
  - by eapply rtc_once, operation_step.
Qed.

Lemma loop_ok l : rtc any_step started l → rtc step no_listener (lp_waiters l).
Proof.
  change no_listener with (lp_waiters started).
  induction 1 as [|l1 l2 l3 [b Hs] _ IH]; [done|]. etrans; [by eapply loop_step_steps|done].
Qed.

(** ** A receiver that sleeps *)

Definition receiver (w : nat) (key : string) (woken : option bool → Prop) (s : Listener) : Prop :=
  ∃ wt, ls_waiters s !! w = Some wt ∧ wt_channel wt = notifications_waiters ∧ wt_key wt = key ∧
    woken (wt_future wt).

Definition asleep_or_woken (f : option bool) : Prop := f ≠ None.
Definition awake (f : option bool) : Prop := f = Some true.

(** The notification of [key] has woken the receiver, or still will: it is in
    the queue, or a [wake_all] is due. *)
Definition owed (w : nat) (key : string) (l : Loop) : Prop :=
  listener_ok (lp_waiters l) ∧ receiver w key asleep_or_woken (lp_waiters l) ∧
  (receiver w key awake (lp_waiters l) ∨ lp_phase l ≠ Listening ∨ lp_missed l = true ∨
   (NOTIFICATIONS_CHANNEL, key) ∈ lp_queue l).

Lemma awake_receiver w key s : receiver w key awake s → receiver w key asleep_or_woken s.
Proof. intros (wt&?&?&?&Ha). exists wt. split_and!; [done..|]. unfold awake in Ha. by rewrite Ha. Qed.

Lemma foldr_notify_awake ns wt : awake (wt_future wt) → awake (wt_future (foldr notify_waiters wt ns)).
Proof.
  unfold awake. intros Ha. induction ns as [|n ns IH]; simpl; [done|]. unfold notify_waiters at 1.
  by destruct (decide _).
Qed.

Lemma foldr_notify_entry ns wt :
  wt_channel (foldr notify_waiters wt ns) = wt_channel wt ∧ wt_key (foldr notify_waiters wt ns) = wt_key wt.
Proof. pose proof (foldr_notify_same ns wt) as H. unfold with_future in H. by simplify_eq. Qed.

(** Waking others neither puts a receiver back to sleep nor takes its future. *)
Lemma wake_receiver ns w key s (P : option bool → Prop) :
  (P = asleep_or_woken ∨ P = awake) → receiver w key P s → receiver w key P (wake ns s).
Proof.
  intros HP (wt&Hw&Hc&Hk&Hf). exists (foldr notify_waiters wt ns).
  pose proof (foldr_notify_entry ns wt) as [-> ->]. split_and!; [|done..|].
  - simpl. by rewrite lookup_fmap, Hw.
  - destruct HP as [->| ->]; [by apply foldr_notify_future|by apply foldr_notify_awake].
Qed.

Lemma on_notification_receiver ch k w key s (P : option bool → Prop) :
  (P = asleep_or_woken ∨ P = awake) → receiver w key P s → receiver w key P (on_notification ch k s).
Proof.
  intros HP Hr. unfold on_notification. destruct (registry_of ch); [|done].
  case_match; [by apply wake_receiver|done].
Qed.

(** A receiver with a future is woken by all that concerns it. *)
Lemma receiver_woken w key s :
  listener_ok s → receiver w key asleep_or_woken s →
  receiver w key awake (wake_all s) ∧ receiver w key awake (on_notification NOTIFICATIONS_CHANNEL key s).
Proof.
  intros Hok (wt&Hw&Hc&<-&Hf).
  destruct (registered_woken s w wt Hw) as [Hall Hone]; [eauto using ok_receiver|done|].
  specialize (Hone NOTIFICATIONS_CHANNEL). rewrite Hc in Hone. specialize (Hone eq_refl).
  assert (∀ s', same_waiters s s' → wt_future <$> ls_waiters s' !! w = Some (Some true) →
    receiver w (wt_key wt) awake s') as Haux.
  { intros s' Hs (wt'&Hw'&Hf')%fmap_Some.
    destruct (same_waiters_lookup s s' w wt' Hs Hw') as (wt0&Hw0&He&_&Hc').
    rewrite Hw in Hw0. injection Hw0 as <-. unfold wt_entry in He.
    exists wt'. split_and!; [done|congruence|congruence|done]. }
  split; apply Haux; auto using on_notification_same, wake_same. apply wake_same.
Qed.

(** Other operations leave the waiter alone. *)
Lemma operation_receiver v w key s s' P :
  v ≠ w → operation v s s' → receiver w key P s → receiver w key P s'.
Proof.
  intros Hv Ho (wt&Hw&?). exists wt. split; [|done]. destruct Ho as [k s s' _ He|ch k s _ _|s|s].
  - unfold enter_vacant in He. destruct (ls_registry s !! _); simplify_eq/=. by rewrite lookup_insert_ne.
  - unfold enter_shared. destruct (ls_registry s !! _); simpl; by rewrite lookup_insert_ne.
  - simpl. by rewrite lookup_alter_ne.
  - unfold drop_guard. destruct (ls_waiters s !! v); [|done]. simpl. by rewrite lookup_delete_ne.
Qed.

Lemma owed_woken w key l :
  listener_ok (lp_waiters l) → receiver w key awake (lp_waiters l) → owed w key l.
Proof. intros ??. split_and!; [done|by apply awake_receiver|by left]. Qed.

Lemma owed_turn input w key l l' :
  run_listener_turn input l = Some l' → owed w key l → owed w key l'.
Proof.
  intros Ht (Hok & Hr & Ho).
  assert (listener_ok (lp_waiters l')) as Hok'.
  { apply turn_steps in Ht. by eapply steps_ok. }
  pose proof (receiver_woken w key _ Hok Hr) as [Hall Hone].
  destruct l as [ph q m s]. unfold run_listener_turn in Ht. simpl in *.
  destruct ph, input; simplify_eq/=; try (by split_and!; [| |right; left]); try (by apply owed_woken).
  - destruct q as [|[ch k] q]; simplify_eq/=.
    split_and!; [done|apply on_notification_receiver; auto|]. simpl.
    destruct Ho as [Ha|[?|[?|Hin]]]; [left; apply on_notification_receiver; auto|done|by auto|].
    apply elem_of_cons in Hin as [[= <- <-]|Hin]; [by left|by auto].
  - split_and!; [done..|]. by right; right; left.
Qed.

Lemma owed_step w key l l' : others_step w l l' → owed w key l → owed w key l'.
Proof.
  intros (b & Hb & Hs) Ho. destruct Hs as [input l l' Ht|ch k l|v ph q m s s' Hop].
  - by eapply owed_turn.
  - destruct l as [[] q m s]; [done..| |done]. destruct Ho as (Hok & Hr & Ho). simpl in *.
    split_and!; [done..|]. simpl. set_solver.
  - destruct Ho as (Hok & Hr & Ho). assert (v ≠ w) as Hv by congruence.
    split_and!; simpl in *; [by eapply step_ok; [eapply operation_step|]|by eapply operation_receiver|].
    destruct Ho as [?|?]; [left; by eapply operation_receiver|by right].
Qed.

Lemma owed_run w key l l' : rtc (others_step w) l l' → owed w key l → owed w key l'.
Proof. induction 1; eauto using owed_step. Qed.

(** C25: no notification is lost on a receiver.  In any reachable state let a
    message arrive for a receiver that has created its future.  However
    notifications, failed connections, silent reconnections of the driver and
    the other operations interleave from then on, the receiver has been woken
    whenever the loop is listening, has received everything sent to it, and
    has polled since the driver last reconnected; and the next subscription
    or poll tick wakes it in any case. *)
Theorem listener_wakes_receiver l l' w key :
  rtc any_step started l → receiver w key asleep_or_woken (lp_waiters l) →
  rtc (others_step w) (notify NOTIFICATIONS_CHANNEL key l) l' →
  (lp_phase l' = Listening → lp_queue l' = [] → lp_missed l' = false →
   receiver w key awake (lp_waiters l')) ∧
  (∀ input l2, input = Subscribed ∨ input = Poll_tick → run_listener_turn input l' = Some l2 →
   receiver w key awake (lp_waiters l2)).
Proof.
  intros Hl%loop_ok%reachable_ok Hr Hrun.
  assert (owed w key (notify NOTIFICATIONS_CHANNEL key l)) as Ho.
  { split_and!; rewrite ?notify_waiters_same; [done..|].
    destruct l as [[] q m s]; simpl; [by right; left..| |by right; left].
    do 3 right. set_solver. }
  apply (owed_run _ _ _ _ Hrun) in Ho as (Hok & Hr' & Ho). split.
  - intros Hp Hq Hm. destruct Ho as [?|[?|[?|Hin]]]; [done|done|congruence|]. rewrite Hq in Hin.
    by apply not_elem_of_nil in Hin.
  - pose proof (receiver_woken w key _ Hok Hr') as [Hall _].
    intros input l2 Hi Ht. unfold run_listener_turn in Ht.
    destruct l' as [[] q m s], Hi as [->| ->]; by simplify_eq/=.
Qed.

(** A failed [LISTEN] goes back to connecting without the pause a failed
    connection gets. *)
Lemma listen_failure_retries_at_once l :
  lp_phase l = Connecting →
  lp_phase <$> run_listener_turn Listen_failed l = Some Connecting ∧
  lp_phase <$> run_listener_turn Connect_failed l = Some Retrying.
Proof. by destruct l as [[] ? ? ?]. Qed.

(** Once the loop has stopped, no notification and no operation of another
    workflow wakes a receiver: only its own timeout ends its wait. *)
Lemma stopped_wakes_nobody l l' w key :
  lp_phase l = Stopped → receiver w key (λ f, f = Some false) (lp_waiters l) →
  rtc (others_step w) l l' →
  lp_phase l' = Stopped ∧ receiver w key (λ f, f = Some false) (lp_waiters l').
Proof.
  intros Hp Hr. induction 1 as [|l1 l2 l3 (b & Hb & Hs) _ IH]; [done|].
  apply IH; destruct Hs as [input l l' Ht|ch k l|v ph q m s s' Hop].
  - by destruct l as [[] q m s], input.
  - by destruct l as [[] q m s].
  - done.
  - by destruct l as [[] q m s], input.
  - by rewrite notify_waiters_same.
  - simpl in *. eapply operation_receiver; [|done..]. congruence.
Qed.
