(* ===== verification/Serialize.v ===== *)
(** * Payload serialization (serialize.rs)

    The two formats the crate writes, the dispatch on the recorded format name
    when it reads, the [js_superjson] and legacy [DBOSJSON] readers, the
    portable input envelope and the portable error envelope. *)
From S2P Require Import Prelude Errors Json.

Local Open Scope string_scope.
Local Open Scope Z_scope.

Definition NIL_MARKER : string := "__DBOS_NIL".
Definition PORTABLE_NAME : string := "portable_json".
Definition DBOS_JSON_NAME : string := "DBOS_JSON".
Definition SUPERJSON_NAME : string := "js_superjson".
Definition PY_PICKLE_NAME : string := "py_pickle".

(** ** Formats *)

Inductive Format := Portable | DbosJson.

#[export] Instance Format_eq_dec : EqDecision Format.
Proof. solve_decision. Defined.

Definition format_name (f : Format) : string :=
  match f with Portable => PORTABLE_NAME | DbosJson => DBOS_JSON_NAME end.

Definition from_name (name : option string) : Format :=
  if decide (name = Some DBOS_JSON_NAME) then DbosJson else Portable.

(** ** The error envelope *)

Record PortableWorkflowError := mkPortableWorkflowError {
  pe_name : string;
  pe_message : string;
  pe_code : option Value;
  pe_data : option Value;
}.

(** [Display] of a portable error. *)
Definition pe_to_string (e : PortableWorkflowError) : string := pe_message e.

Inductive DecodedError :=
  | Plain (s : string)
  | PortableError (e : PortableWorkflowError).

(** A field a derived [Deserialize] reads: absent, present once, or twice,
    which is an error. *)
Fixpoint struct_field (k : string) (m : list (string * Value)) : string + option Value :=
  match m with
  | [] => inr None
  | (k', v) :: m =>
      match struct_field k m with
      | inl e => inl e
      | inr None => inr (if decide (k = k') then Some v else None)
      | inr (Some w) => if decide (k = k') then inl ("duplicate field `" +:+ k +:+ "`") else inr (Some w)
      end
  end.

(** A required field, and a field with [#[serde(default)]]. *)
Definition required {T} `{Deserialize T} (k : string) (f : string + option Value) : string + T :=
  match f with
  | inl e => inl e
  | inr None => inl ("missing field `" +:+ k +:+ "`")
  | inr (Some v) => deserialize v
  end.
Definition defaulted {T} `{Deserialize T} (d : T) (f : string + option Value) : string + T :=
  match f with
  | inl e => inl e
  | inr None => inr d
  | inr (Some v) => deserialize v
  end.

(** [#[derive(Serialize)]], with [skip_serializing_if = "Option::is_none"]. *)
#[export] Instance PortableWorkflowError_Serialize : Serialize PortableWorkflowError := λ e,
  inr (VObject (("name", VString (pe_name e)) :: ("message", VString (pe_message e)) ::
    match pe_code e with Some c => [("code", c)] | None => [] end ++
    match pe_data e with Some d => [("data", d)] | None => [] end)).

(** [#[derive(Deserialize)]]: from an object by field name (others are
    ignored), or from an array by position. *)
#[export] Instance PortableWorkflowError_Deserialize : Deserialize PortableWorkflowError := λ t,
  let fields (n m c d : string + option Value) :=
    name ← required "name" n; msg ← required "message" m;
    cod ← defaulted None c; dat ← defaulted None d;
    inr (mkPortableWorkflowError name msg cod dat) in
  match t with
  | VObject m => fields (struct_field "name" m) (struct_field "message" m)
                        (struct_field "code" m) (struct_field "data" m)
  | VArray l => if decide (length l ≤ 4)%nat
                then fields (inr (l !! 0%nat)) (inr (l !! 1%nat)) (inr (l !! 2%nat)) (inr (l !! 3%nat))
                else inl "invalid length"
  | _ => inl "invalid type: expected struct PortableWorkflowError"
  end.

(** ** The workflow-input envelope *)

Record PortableArgs := mkPortableArgs {
  positional_args : list Value;
  named_args : list (string * Value);
}.

#[export] Instance PortableArgs_Serialize : Serialize PortableArgs := λ a,
  inr (VObject [("positionalArgs", VArray (positional_args a)); ("namedArgs", VObject (named_args a))]).

(** [serde_json::Map] reads an object. *)
Definition deserialize_map (t : Value) : string + list (string * Value) :=
  match value_of_tree t with VObject m => inr m | _ => inl "invalid type: expected a map" end.

#[export] Instance PortableArgs_Deserialize : Deserialize PortableArgs := λ t,
  let fields (p n : string + option Value) :=
    pos ← defaulted (T := list Value) [] p;
    named ← match n with inl e => inl e | inr None => inr [] | inr (Some v) => deserialize_map v end;
    inr (mkPortableArgs pos named) in
  match t with
  | VObject m => fields (struct_field "positionalArgs" m) (struct_field "namedArgs" m)
  | VArray l => if decide (length l ≤ 2)%nat then fields (inr (l !! 0%nat)) (inr (l !! 1%nat))
                else inl "invalid length"
  | _ => inl "invalid type: expected struct PortableArgs"
  end.

(** ** js_superjson *)

Definition SUPERJSON_MARKER : string :=
  dquote +:+ "__dbos_serializer" +:+ dquote +:+ ":" +:+ dquote +:+ "superjson" +:+ dquote.

Section serialize.
Context `{SerdeJson, Base64Engine}.

(** The pairs of a JS [Map]; [None] when an element is not a pair. *)
Fixpoint map_of_pairs (obj : list (string * Value)) (pairs : list Value) : option (list (string * Value)) :=
  match pairs with
  | [] => Some obj
  | VArray [k; v] :: pairs =>
      let key := match k with VString s => s | other => json_print other end in
      map_of_pairs (map_insert key v obj) pairs
  | _ => None
  end.

(** [str::parse::<i64>], then [str::parse::<u64>]. *)
Definition parse_bigint (s : string) : option Z :=
  match parse_i64 s with Some n => Some n | None => parse_u64 s end.

Definition apply_superjson_tag (json : Value) (tag : string) : Value :=
  if decide (tag = "bigint") then
    match json with
    | VString s => match parse_bigint s with Some n => VNumber (NInt n) | None => json end
    | _ => json
    end
  else if decide (tag = "map") then
    match json with
    | VArray pairs => match map_of_pairs [] pairs with Some obj => VObject obj | None => json end
    | _ => json
    end
  else json.

(** [navigate_mut] followed by an update of the node it reaches. *)
Definition navigate_mut (f : Value → Value) (json : Value) (key : string) : Value :=
  match json with
  | VObject m => VObject (map_alter f key m)
  | VArray arr =>
      match parse_usize key with Some i => VArray (alter f (Z.to_nat i) arr) | None => json end
  | _ => json
  end.

Fixpoint apply_superjson_meta (json annotation : Value) {struct annotation} : Value :=
  match annotation with
  | VString tag => apply_superjson_tag json tag
  | VArray (VString tag :: rest) =>
      let json := match rest with sub :: _ => apply_superjson_meta json sub | [] => json end in
      apply_superjson_tag json tag
  | VObject children =>
      (fix go (json : Value) (children : list (string * Value)) : Value :=
         match children with
         | [] => json
         | (key, child) :: children =>
             go (navigate_mut (λ node, apply_superjson_meta node child) json key) children
         end) json children
  | _ => json
  end.

Fixpoint apply_legacy_revival (value : Value) : Value :=
  match value with
  | VObject m =>
      let children := VObject (List.map (λ kv, (kv.1, apply_legacy_revival kv.2)) m) in
      match map_get "dbos_type" m with
      | Some (VString t) =>
          if decide (t = "dbos_Date") then
            match map_get "dbos_data" m with Some data => data | None => children end
          else if decide (t = "dbos_BigInt") then
            match map_get "dbos_data" m with
            | Some (VString s) =>
                match parse_bigint s with Some n => VNumber (NInt n) | None => children end
            | _ => children
            end
          else children
      | _ => children
      end
  | VArray arr => VArray (List.map apply_legacy_revival arr)
  | _ => value
  end.

Definition decode_superjson (data : string) : Result Value :=
  if str_contains SUPERJSON_MARKER data then
    outer ← from_str Value data;
    match outer with
    | VObject obj =>
        let json := default VNull (map_get "json" obj) in
        match map_get "meta" (map_remove "json" obj) ≫= value_get "values" with
        | Some values => Ok (apply_superjson_meta json values)
        | None => Ok json
        end
    | _ => Err (other "invalid js_superjson payload: not an object")
    end
  else
    v ← from_str Value data; Ok (apply_legacy_revival v).

(** ** Single values *)

Definition encode_json_value (v : Value) (fmt : Format) : string :=
  match fmt with
  | Portable => if is_null v then "null" else json_print v
  | DbosJson => if is_null v then NIL_MARKER else b64_encode (json_print v)
  end.

Definition encode_value `{Serialize T} (value : T) (fmt : Format) : Result string :=
  v ← to_value value; Ok (encode_json_value v fmt).

Definition decode_base64_json (s : string) : Result Value :=
  bytes ← lift_base64 (b64_decode s); from_str Value bytes.

Definition decode_to_json (data format : option string) : Result Value :=
  match format with
  | Some f =>
      if decide (f = PORTABLE_NAME) then
        match data with
        | None => Ok VNull
        | Some s => if decide (s = "null") then Ok VNull else from_str Value s
        end
      else if decide (f = DBOS_JSON_NAME ∨ f = "") then
        match data with
        | None => Ok VNull
        | Some s => if decide (s = NIL_MARKER) then Ok VNull else decode_base64_json s
        end
      else if decide (f = SUPERJSON_NAME) then
        match data with None => Ok VNull | Some s => decode_superjson s end
      else if decide (f = PY_PICKLE_NAME) then
        Err (other "py_pickle is not portable; re-serialize such rows to portable_json on the Python side")
      else Err (other ("unknown serialization format " +:+ debug_str f))
  | None =>
      match data with
      | None => Ok VNull
      | Some s =>
          if decide (s = "null") then Ok VNull
          else if decide (s = NIL_MARKER) then Ok VNull
          else or_else (decode_superjson s) (λ _, decode_base64_json s)
      end
  end.

Definition decode_value (T : Type) `{Deserialize T} (data format : option string) : Result T :=
  json ← decode_to_json data format; from_value json.

(** ** Workflow inputs *)

Definition encode_input `{Serialize T} (value : T) (fmt : Format) : Result string :=
  match fmt with
  | Portable => v ← to_value value; to_string (mkPortableArgs [v] [])
  | DbosJson => encode_value value fmt
  end.

Definition decode_input (T : Type) `{Deserialize T} (data format : option string) : Result T :=
  if decide (format = Some PORTABLE_NAME) then
    value ← match data with
            | None => Ok VNull
            | Some s =>
                if decide (s = "null") then Ok VNull
                else envelope ← from_str PortableArgs s;
                     Ok (default VNull (head (positional_args envelope)))
            end;
    from_value value
  else if decide (format = Some SUPERJSON_NAME) then
    value ← match data with
            | None => Ok VNull
            | Some s =>
                v ← decode_superjson s;
                match v with
                | VArray arr => Ok (default VNull (head arr))
                | other => Ok other
                end
            end;
    from_value value
  else decode_value T data format.

(** ** Errors *)

Definition serialize_workflow_error (msg : string) (portable : option PortableWorkflowError)
    (fmt : Format) : string :=
  if decide (fmt ≠ Portable) then msg
  else
    let payload :=
      match portable with
      | Some pe => pe
      | None => mkPortableWorkflowError "Portable Error" msg None None
      end in
    match to_string payload with Ok s => s | Err _ => msg end.

Definition deserialize_workflow_error (err_str format : option string) : option DecodedError :=
  s ← err_str;
  if str_is_empty s then None
  else if decide (format ≠ Some PORTABLE_NAME) then Some (Plain s)
  else match from_str PortableWorkflowError s with
       | Ok pe => Some (PortableError pe)
       | Err _ => Some (Plain s)
       end.
End serialize.

(** ** Lemmas *)

Lemma from_name_format_name f : from_name (Some (format_name f)) = f.
Proof. by destruct f. Qed.

#[export] Hint Rewrite from_name_format_name : dbos.

Lemma str_contains_head p c needle hay :
  all_chars p hay = true → str_contains (String c needle) hay = true → p c = true.
Proof.
  induction hay as [|d hay IH]; [done|].
  cbn. intros [Hd Hp]%andb_true_iff [H|H]%orb_true_iff; [|by apply IH].
  by destruct (ascii_dec c d) as [->|].
Qed.

Lemma base64_not_json c :
  json_start c = true → json_start (base64_sextet (Ascii.nat_of_ascii c / 4)) = false.
Proof. destruct c as [[] [] [] [] [] [] [] []]; vm_compute; congruence. Qed.

Section base64_text.
Context `{HJ : SerdeJson, !SerdeJsonLaws HJ, HB : Base64Engine, !Base64Laws HB}.

Lemma b64_encode_letters s : all_chars base64_letter (b64_encode s) = true.
Proof. eapply b64_decode_alphabet, b64_decode_encode. Qed.

Lemma b64_encode_not_nil s : b64_encode s ≠ NIL_MARKER.
Proof. intros E. pose proof (b64_encode_letters s) as H. rewrite E in H. done. Qed.

Lemma b64_encode_not_superjson s : str_contains SUPERJSON_MARKER (b64_encode s) = false.
Proof.
  destruct (str_contains _ _) eqn:E; [|done].
  apply (str_contains_head base64_letter) in E; [done | apply b64_encode_letters].
Qed.

(** Text that encodes a JSON document is not itself a JSON document. *)
Lemma b64_encode_not_parsed v w :
  json_safe v = true → json_parse (b64_encode (json_print v)) ≠ inr w.
Proof.
  intros (c & s & -> & Hc)%json_print_start Hp.
  destruct (b64_encode_head c s) as [rest E]. rewrite E in Hp.
  apply json_parse_start in Hp. by rewrite base64_not_json in Hp.
Qed.
End base64_text.

(** The values legacy revival leaves alone: no object has a [dbos_type] key. *)
Fixpoint revival_free (v : Value) : bool :=
  match v with
  | VArray l => forallb revival_free l
  | VObject m => bool_decide (map_get "dbos_type" m = None) && forallb (λ kv, revival_free kv.2) m
  | _ => true
  end.

Lemma revival_free_id v : revival_free v = true → apply_legacy_revival v = v.
Proof.
  induction v as [ | | | |l IH|m IH] using Value_nested_ind; simpl; try done.
  - rewrite forallb_Forall_true. intros Hl. f_equal.
    induction IH; decompose_Forall_hyps; f_equal; auto.
  - rewrite andb_true_iff, bool_decide_eq_true, forallb_Forall_true. intros [-> Hm].
    f_equal. apply map_pairs_id. induction IH; decompose_Forall_hyps; constructor; auto.
Qed.

Section roundtrips.
Context `{HJ : SerdeJson, !SerdeJsonLaws HJ, HB : Base64Engine, !Base64Laws HB}.

Lemma from_str_Value_print v :
  json_wf v = true → json_safe v = true → from_str Value (json_print v) = Ok v.
Proof.
  intros. rewrite from_str_print by done. unfold from_value, deserialize, Value_Deserialize.
  by rewrite value_of_tree_wf.
Qed.

Lemma json_value_roundtrip v fmt :
  json_wf v = true → json_safe v = true →
  decode_to_json (Some (encode_json_value v fmt)) (Some (format_name fmt)) = Ok v.
Proof.
  intros Hwf Hs. destruct fmt; unfold decode_to_json, encode_json_value; simpl.
  - destruct (is_null v) eqn:En; [by destruct v|]. rewrite decide_False.
    + by apply from_str_Value_print.
    + intros ->%json_print_eq_null; done.
  - destruct (is_null v) eqn:En; [by destruct v|].
    rewrite decide_False by apply b64_encode_not_nil.
    unfold decode_base64_json. rewrite b64_decode_encode. by apply from_str_Value_print.
Qed.

Lemma to_value_faithful d {T} `{Serialize T, Deserialize T} (x : T) :
  serde_faithful d x →
  ∃ v, to_value x = Ok v ∧ json_wf v = true ∧ json_safe_at d v = true ∧ from_value v = Ok x.
Proof.
  intros (t & Ht & Hs & Hd). exists (value_of_tree t). unfold to_value, from_value.
  rewrite Ht, Hd. auto with dbos.
Qed.

(** A value of a faithful type is stored, and read back as it was. *)
Definition stored_as {T} `{Deserialize T} (x : T) (fmt : Format) (enc : string) : Prop :=
  decode_value T (Some enc) (Some (format_name fmt)) = Ok x.

Lemma encode_stored {T} `{Serialize T, Deserialize T} (x : T) fmt :
  serde_faithful 127 x → ∃ enc, encode_value x fmt = Ok enc ∧ stored_as x fmt enc.
Proof.
  intros (v & Hv & Hwf & Hs & Hx)%to_value_faithful.
  exists (encode_json_value v fmt). unfold encode_value, stored_as, decode_value.
  rewrite Hv, json_value_roundtrip by done. done.
Qed.

(** C40: in both formats the crate writes, decoding under the recorded format
    name gives back the encoded value: [None] and unit survive through the
    [null] and [__DBOS_NIL] markers, and no other value is mistaken for a
    marker. *)
Theorem value_roundtrip {T} `{Serialize T, Deserialize T} (x : T) fmt :
  serde_faithful 127 x →
  ∃ enc, encode_value x fmt = Ok enc ∧
         decode_value T (Some enc) (Some (format_name fmt)) = Ok x.
Proof. apply encode_stored. Qed.

(** A row with no recorded format whose text was written as base64 JSON
    is still read back exactly: such text is never taken for the [null]
    literal, a SuperJSON envelope or a plain JSON document. *)
Theorem null_format_reads_dbos_json {T} `{Serialize T, Deserialize T} (x : T) :
  serde_faithful 127 x →
  ∃ enc, encode_value x DbosJson = Ok enc ∧ decode_value T (Some enc) None = Ok x.
Proof.
  intros (v & Hv & Hwf & Hs & Hx)%to_value_faithful.
  exists (encode_json_value v DbosJson). unfold encode_value, decode_value. rewrite Hv.
  split; [done|]. unfold decode_to_json, encode_json_value.
  destruct (is_null v) eqn:En; [by destruct v|].
  pose proof (b64_encode_not_parsed v) as Hnp. destruct (decide (_ = "null")) as [E|].
  { rewrite E, <- json_print_null, json_parse_print in Hnp by done. by edestruct Hnp. }
  rewrite decide_False by apply b64_encode_not_nil.
  unfold decode_superjson, decode_base64_json. rewrite b64_encode_not_superjson, b64_decode_encode.
  unfold from_str at 1. destruct (json_parse (b64_encode _)) as [e|w] eqn:E; simpl.
  - by rewrite from_str_Value_print.
  - by edestruct Hnp.
Qed.

(** A row with no recorded format whose text is plain JSON is read as
    that JSON, not as base64, as long as it carries no legacy type wrapper
    and no SuperJSON marker. *)
Theorem null_format_reads_plain_json v :
  json_wf v = true → json_safe v = true → revival_free v = true →
  str_contains SUPERJSON_MARKER (json_print v) = false →
  decode_to_json (Some (encode_json_value v Portable)) None = Ok v.
Proof.
  intros Hwf Hs Hr Hm. unfold decode_to_json, encode_json_value.
  destruct (is_null v) eqn:En; [by destruct v|].
  rewrite decide_False by (intros ->%json_print_eq_null; done).
  destruct (decide (json_print v = NIL_MARKER)) as [E|].
  { apply json_print_start in Hs as (c & s & E' & Hc). rewrite E' in E. unfold NIL_MARKER in E. by simplify_eq. }
  unfold decode_superjson. rewrite Hm, from_str_Value_print by done. simpl.
  by rewrite revival_free_id.
Qed.

Lemma json_safe_envelope v :
  json_safe_at 125 v = true →
  json_safe (VObject [("positionalArgs", VArray [v]); ("namedArgs", VObject [])]) = true.
Proof.
  unfold json_safe, json_safe_at. rewrite !andb_true_iff, !bool_decide_eq_true. cbn.
  intros [? ->]. split; [lia | done].
Qed.

Lemma input_stored {T} `{Serialize T, Deserialize T} (x : T) fmt :
  serde_faithful 125 x →
  ∃ enc, encode_input x fmt = Ok enc ∧
         decode_input T (Some enc) (Some (format_name fmt)) = Ok x.
Proof.
  intros Hx. destruct fmt.
  - destruct (to_value_faithful _ _ Hx) as (v & Hv & Hwf & Hs & Hd).
    unfold encode_input. rewrite Hv. eexists. split; [done|].
    unfold decode_input. simpl. rewrite decide_False.
    + rewrite from_str_print by by apply json_safe_envelope.
      unfold from_value, deserialize, PortableArgs_Deserialize. simpl.
      rewrite (value_of_tree_wf v) by done. done.
    + intros E%json_print_eq_null; [done|]. by apply json_safe_envelope.
  - destruct Hx as (t & Ht & Hs & Hd). apply encode_stored. exists t. split_and!; try done.
    unfold json_safe_at in *. rewrite andb_true_iff, bool_decide_eq_true in *. intuition lia.
Qed.

(** A workflow input is read back as it was given, in both formats: the
    portable envelope is unwrapped to its first positional argument. *)
Theorem input_roundtrip {T} `{Serialize T, Deserialize T} (x : T) fmt :
  serde_faithful 125 x →
  ∃ enc, encode_input x fmt = Ok enc ∧
         decode_input T (Some enc) (Some (format_name fmt)) = Ok x.
Proof. apply input_stored. Qed.

Lemma json_safe_error_envelope msg :
  json_safe (VObject [("name", VString "Portable Error"); ("message", VString msg)]) = true.
Proof. done. Qed.

Lemma plain_error_text msg :
  serialize_workflow_error msg None Portable =
  json_print (VObject [("name", VString "Portable Error"); ("message", VString msg)]).
Proof. done. Qed.

Lemma stored_error_portable msg :
  deserialize_workflow_error (Some (serialize_workflow_error msg None Portable)) (Some PORTABLE_NAME) =
  Some (PortableError (mkPortableWorkflowError "Portable Error" msg None None)).
Proof.
  rewrite plain_error_text. unfold deserialize_workflow_error. simpl.
  destruct (json_print_start _ (json_safe_error_envelope msg)) as (c & s & E & Hc).
  rewrite E. simpl. rewrite <- E, from_str_print by done. done.
Qed.

(** A stored workflow error is read back with its message.  A portable
    row wraps a plain message as ["Portable Error"] (even the empty one); a
    native row stores the bare message, which is read back unless it is
    empty, when no error is read at all. *)
Theorem workflow_error_roundtrip msg fmt :
  deserialize_workflow_error (Some (serialize_workflow_error msg None fmt)) (Some (format_name fmt)) =
  match fmt with
  | Portable => Some (PortableError (mkPortableWorkflowError "Portable Error" msg None None))
  | DbosJson => if str_is_empty msg then None else Some (Plain msg)
  end.
Proof.
  destruct fmt; [apply stored_error_portable|].
  unfold deserialize_workflow_error, serialize_workflow_error. simpl. by destruct msg.
Qed.
End roundtrips.

#[export] Hint Resolve b64_encode_not_nil : dbos.
