(* ===== verification/Codec.v ===== *)
(** * Codecs

    Base64 in the standard alphabet with padding (RFC 4648), as an instance of
    [Base64Engine] with its laws; and the round trips of [Serialize] at
    concrete data, over it and the JSON text of [JsonText]. *)
From S2P Require Import Prelude Errors Json JsonText Serialize.

Local Open Scope string_scope.
Local Open Scope nat_scope.

(** ** Equality of values *)

Fixpoint value_to_tree (v : Value) : gen_tree (Z + string) :=
  match v with
  | VNull => GenNode 0 []
  | VBool b => GenNode (if b then 1 else 2) []
  | VNumber (NInt z) => GenNode 3 [GenLeaf (inl z)]
  | VNumber (NFloat s) => GenNode 4 [GenLeaf (inr s)]
  | VString s => GenNode 5 [GenLeaf (inr s)]
  | VArray l => GenNode 6 (List.map value_to_tree l)
  | VObject m => GenNode 7 (List.map (λ kv, GenNode 8 [GenLeaf (inr kv.1); value_to_tree kv.2]) m)
  end.

Fixpoint tree_to_value (t : gen_tree (Z + string)) : Value :=
  match t with
  | GenNode 1 [] => VBool true
  | GenNode 2 [] => VBool false
  | GenNode 3 [GenLeaf (inl z)] => VNumber (NInt z)
  | GenNode 4 [GenLeaf (inr s)] => VNumber (NFloat s)
  | GenNode 5 [GenLeaf (inr s)] => VString s
  | GenNode 6 l => VArray (List.map tree_to_value l)
  | GenNode 7 l => VObject (List.map (λ t,
      match t with GenNode 8 [GenLeaf (inr k); t] => (k, tree_to_value t) | _ => ("", VNull) end) l)
  | _ => VNull
  end.

Lemma tree_to_value_to_tree v : tree_to_value (value_to_tree v) = v.
Proof.
  induction v as [ |[]|[]| |l IH|m IH] using Value_nested_ind; simpl; try done; f_equal.
  - induction IH; simpl; congruence.
  - induction IH as [|[k v] m]; simpl in *; congruence.
Qed.

#[export] Instance value_to_tree_inj : Inj (=) (=) value_to_tree.
Proof. intros x y E. by rewrite <- (tree_to_value_to_tree x), E, tree_to_value_to_tree. Qed.

#[export] Instance Value_eq_dec : EqDecision Value.
Proof.
  refine (λ x y, cast_if (decide (value_to_tree x = value_to_tree y))); [by apply (inj _)|by intros ->].
Defined.

(** ** Base64 *)

Definition sextet_value (c : ascii) : option nat :=
  let n := Ascii.nat_of_ascii c in
  if is_upper c then Some (n - 65)
  else if is_lower c then Some (n - 71)
  else if is_digit c then Some (n + 4)
  else if decide (n = 43) then Some 62
  else if decide (n = 47) then Some 63
  else None.

Definition pad : ascii := "="%char.

Fixpoint base64_encode (s : string) : string :=
  match s with
  | "" => ""
  | String a s =>
      let a := Ascii.nat_of_ascii a in
      String (base64_sextet (a / 4))
        match s with
        | "" => String (base64_sextet (a mod 4 * 16)) (String pad (String pad ""))
        | String b s =>
            let b := Ascii.nat_of_ascii b in
            String (base64_sextet (a mod 4 * 16 + b / 16))
              match s with
              | "" => String (base64_sextet (b mod 16 * 4)) (String pad "")
              | String c s =>
                  let c := Ascii.nat_of_ascii c in
                  String (base64_sextet (b mod 16 * 4 + c / 64))
                    (String (base64_sextet (c mod 64)) (base64_encode s))
              end
        end
  end.

(** The last group may be padded, its unused bits being zero. *)
Fixpoint base64_decode (s : string) : option string :=
  match s with
  | "" => Some ""
  | String w (String x (String y (String z s))) =>
      w ← sextet_value w; x ← sextet_value x;
      let a := Ascii.ascii_of_nat (w * 4 + x / 16) in
      if decide (y = pad) then
        if decide (z = pad ∧ s = "" ∧ x mod 16 = 0) then Some (String a "") else None
      else
        y ← sextet_value y;
        let b := Ascii.ascii_of_nat (x mod 16 * 16 + y / 4) in
        if decide (z = pad) then
          if decide (s = "" ∧ y mod 4 = 0) then Some (String a (String b "")) else None
        else
          z ← sextet_value z;
          rest ← base64_decode s;
          Some (String a (String b (String (Ascii.ascii_of_nat (y mod 4 * 64 + z)) rest)))
  | _ => None
  end.

#[export] Instance rfc_base64 : Base64Engine := {|
  b64_encode := base64_encode;
  b64_decode s := match base64_decode s with Some t => inr t | None => inl "Invalid base64" end |}.

Lemma sextet_value_sextet n : n < 64 → sextet_value (base64_sextet n) = Some n ∧ base64_sextet n ≠ pad.
Proof. intros Hn. do 64 (destruct n as [|n]; [by vm_compute|]). lia. Qed.

Lemma byte_bound c : Ascii.nat_of_ascii c < 256.
Proof. apply Ascii.nat_ascii_bounded. Qed.

(** The six-bit groups of bytes, and the bytes back. *)
Lemma regroup a b c :
  a < 256 → b < 256 → c < 256 →
  (a / 4 < 64 ∧ a mod 4 * 16 < 64 ∧ a mod 4 * 16 + b / 16 < 64 ∧ b mod 16 * 4 < 64 ∧
   b mod 16 * 4 + c / 64 < 64 ∧ c mod 64 < 64) ∧
  (a / 4 * 4 + a mod 4 * 16 / 16 = a ∧ a / 4 * 4 + (a mod 4 * 16 + b / 16) / 16 = a) ∧
  (((a mod 4 * 16 + b / 16) mod 16) * 16 + b mod 16 * 4 / 4 = b ∧
   ((a mod 4 * 16 + b / 16) mod 16) * 16 + (b mod 16 * 4 + c / 64) / 4 = b) ∧
  (b mod 16 * 4 + c / 64) mod 4 * 64 + c mod 64 = c ∧
  a mod 4 * 16 mod 16 = 0 ∧ b mod 16 * 4 mod 4 = 0.
Proof.
  intros.
  assert (a mod 4 < 4 ∧ b mod 16 < 16 ∧ c mod 64 < 64 ∧ a / 4 < 64 ∧ b / 16 < 16 ∧ c / 64 < 4)
    as (?&?&?&?&?&?).
  { split_and!; try (by apply Nat.mod_upper_bound); apply Nat.Div0.div_lt_upper_bound; lia. }
  rewrite !Nat.div_add_l, !Nat.div_mul, !(Nat.add_comm (_ * 16) (_ / 16)),
    !(Nat.add_comm (_ * 4) (_ / 64)), !Nat.Div0.mod_add, !Nat.Div0.mod_mul,
    !(Nat.div_small (b / 16)), !(Nat.div_small (c / 64)),
    !(Nat.mod_small (b / 16)), !(Nat.mod_small (c / 64)) by lia.
  pose proof (Nat.div_mod_eq a 4). pose proof (Nat.div_mod_eq b 16). pose proof (Nat.div_mod_eq c 64).
  split_and!; lia.
Qed.

Lemma base64_roundtrip s : base64_decode (base64_encode s) = Some s.
Proof.
  revert s. fix IH 1. intros [|a [|b [|c s]]]; [done|..];
    cbn [base64_encode base64_decode].
  - destruct (regroup (Ascii.nat_of_ascii a) 0 0) as ((H1 & H2 & _) & (E1 & _) & _ & _ & Z & _);
      [apply byte_bound|lia|lia|].
    rewrite (proj1 (sextet_value_sextet _ H1)); cbn [mbind option_bind].
    rewrite (proj1 (sextet_value_sextet _ H2)); cbn [mbind option_bind].
    rewrite decide_True by done. rewrite decide_True by done. by rewrite E1, Ascii.ascii_nat_embedding.
  - destruct (regroup (Ascii.nat_of_ascii a) (Ascii.nat_of_ascii b) 0)
      as ((H1 & _ & H3 & H4 & _) & (_ & E1) & (E2 & _) & _ & _ & Z); [apply byte_bound..|lia|].
    rewrite (proj1 (sextet_value_sextet _ H1)); cbn [mbind option_bind].
    rewrite (proj1 (sextet_value_sextet _ H3)); cbn [mbind option_bind].
    rewrite decide_False by apply (sextet_value_sextet _ H4).
    rewrite (proj1 (sextet_value_sextet _ H4)); cbn [mbind option_bind].
    rewrite decide_True by done. rewrite decide_True by done. by rewrite E1, E2, !Ascii.ascii_nat_embedding.
  - destruct (regroup (Ascii.nat_of_ascii a) (Ascii.nat_of_ascii b) (Ascii.nat_of_ascii c))
      as ((H1 & _ & H3 & _ & H5 & H6) & (_ & E1) & (_ & E2) & E3 & _); [apply byte_bound..|].
    rewrite (proj1 (sextet_value_sextet _ H1)); cbn [mbind option_bind].
    rewrite (proj1 (sextet_value_sextet _ H3)); cbn [mbind option_bind].
    rewrite decide_False by apply (sextet_value_sextet _ H5).
    rewrite (proj1 (sextet_value_sextet _ H5)); cbn [mbind option_bind].
    rewrite decide_False by apply (sextet_value_sextet _ H6).
    rewrite (proj1 (sextet_value_sextet _ H6)); cbn [mbind option_bind].
    rewrite IH. cbn [mbind option_bind]. by rewrite E1, E2, E3, !Ascii.ascii_nat_embedding.
Qed.

Lemma sextet_letter c n : sextet_value c = Some n → base64_letter c = true.
Proof. destruct c as [[] [] [] [] [] [] [] []]; vm_compute; congruence. Qed.

Lemma base64_alphabet s t : base64_decode s = Some t → all_chars base64_letter s = true.
Proof.
  revert s t. fix IH 1. intros [|w [|x [|y [|z s]]]] t; try done. cbn [base64_decode all_chars].
  intros (w' & Hw & (x' & Hx & H)%bind_Some)%bind_Some.
  rewrite (sextet_letter _ _ Hw), (sextet_letter _ _ Hx). cbn [andb].
  case_decide as Hy; [case_decide as Hz; [|done]; by destruct Hz as (-> & -> & _); rewrite Hy|].
  apply bind_Some in H as (y' & Hy' & H). rewrite (sextet_letter _ _ Hy'). cbn [andb].
  case_decide as Hz; [case_decide as Hs; [|done]; by destruct Hs as (-> & _); rewrite Hz|].
  apply bind_Some in H as (z' & Hz' & (rest & Hr & _)%bind_Some).
  by rewrite (sextet_letter _ _ Hz'), (IH _ _ Hr).
Qed.

#[export] Instance rfc_base64_laws : Base64Laws rfc_base64.
Proof.
  split.
  - intros s. unfold b64_decode, b64_encode, rfc_base64. by rewrite base64_roundtrip.
  - intros s t. unfold b64_decode, rfc_base64. destruct (base64_decode s) eqn:E; [|done].
    intros _. by eapply base64_alphabet.
  - intros c s. by eexists.
Qed.

(** ** The round trips at concrete data *)

Lemma value_roundtrip_witness :
  serde_faithful 127 (42 : Z) ∧
  (∃ enc, encode_value (42 : Z) DbosJson = Ok enc ∧
          decode_value Z (Some enc) (Some (format_name DbosJson)) = Ok (42 : Z)).
Proof.
  assert (serde_faithful 127 (42 : Z)) by (apply i64_faithful; vm_compute; split; congruence).
  split; [done|]. by apply (value_roundtrip (42 : Z) DbosJson).
Defined.

Lemma null_format_reads_dbos_json_witness :
  serde_faithful 127 "hello" ∧
  (∃ enc, encode_value "hello" DbosJson = Ok enc ∧ decode_value string (Some enc) None = Ok "hello").
Proof.
  split; [apply string_faithful|]. apply (null_format_reads_dbos_json "hello"), string_faithful.
Defined.

Lemma null_format_reads_plain_json_witness :
  decode_to_json (Some (encode_json_value (VObject [("k", VNumber (NInt 99))]) Portable)) None
  = Ok (VObject [("k", VNumber (NInt 99))]).
Proof. apply null_format_reads_plain_json; vm_compute; reflexivity. Defined.

Lemma input_roundtrip_witness :
  serde_faithful 125 (7 : Z) ∧
  (∃ enc, encode_input (7 : Z) Portable = Ok enc ∧
          decode_input Z (Some enc) (Some (format_name Portable)) = Ok (7 : Z)).
Proof.
  assert (serde_faithful 125 (7 : Z)) by (apply i64_faithful; vm_compute; split; congruence).
  split; [done|]. by apply (input_roundtrip (7 : Z) Portable).
Defined.

Lemma workflow_error_roundtrip_witness :
  deserialize_workflow_error (Some (serialize_workflow_error "boom" None Portable))
    (Some (format_name Portable))
  = Some (PortableError (mkPortableWorkflowError "Portable Error" "boom" None None)).
Proof. apply (workflow_error_roundtrip "boom" Portable). Defined.
