(* ===== verification/Database.v ===== *)
(** * The system database: tables

    The rows of the tables the migrations create, the tables of one schema as
    finite maps from their primary keys, and the SQL operations the statements
    of db/*.rs are written with.  Columns are the ones the crate reads or
    writes; a nullable column is an [option]. *)
From S2P Require Import Prelude.

Local Open Scope string_scope.
Local Open Scope Z_scope.
Local Open Scope dbos_scope.

(** ** [workflow_status], by [workflow_uuid] *)

Record wf_row := mkWf {
  wf_status : string;
  wf_name : string;
  wf_authenticated_user : option string;
  wf_assumed_role : option string;
  wf_authenticated_roles : option string;
  wf_output : option string;
  wf_error : option string;
  wf_executor_id : option string;
  wf_created_at : Z;
  wf_updated_at : Z;
  wf_application_version : option string;
  wf_application_id : option string;
  wf_class_name : option string;
  wf_config_name : option string;
  wf_recovery_attempts : Z;
  wf_queue_name : option string;
  wf_workflow_timeout_ms : option Z;
  wf_workflow_deadline_epoch_ms : option Z;
  wf_inputs : option string;
  wf_started_at_epoch_ms : option Z;
  wf_deduplication_id : option string;
  wf_priority : Z;
  wf_queue_partition_key : option string;
  wf_forked_from : option string;
  wf_owner_xid : option string;
  wf_parent_workflow_id : option string;
  wf_serialization : option string;
  wf_delay_until_epoch_ms : option Z;
  wf_was_forked_from : bool;
  wf_rate_limited : bool;
  wf_completed_at : option Z;
}.

#[export] Instance set_wf_status : Setter wf_status := λ g r,
  mkWf (g (wf_status r)) (wf_name r) (wf_authenticated_user r) (wf_assumed_role r)
    (wf_authenticated_roles r) (wf_output r) (wf_error r) (wf_executor_id r) (wf_created_at r)
    (wf_updated_at r) (wf_application_version r) (wf_application_id r) (wf_class_name r)
    (wf_config_name r) (wf_recovery_attempts r) (wf_queue_name r) (wf_workflow_timeout_ms r)
    (wf_workflow_deadline_epoch_ms r) (wf_inputs r) (wf_started_at_epoch_ms r)
    (wf_deduplication_id r) (wf_priority r) (wf_queue_partition_key r) (wf_forked_from r)
    (wf_owner_xid r) (wf_parent_workflow_id r) (wf_serialization r)
    (wf_delay_until_epoch_ms r) (wf_was_forked_from r) (wf_rate_limited r) (wf_completed_at r).
#[global] Arguments set_wf_status _ _ / : assert.
#[export] Instance set_wf_output : Setter wf_output := λ g r,
  mkWf (wf_status r) (wf_name r) (wf_authenticated_user r) (wf_assumed_role r)
    (wf_authenticated_roles r) (g (wf_output r)) (wf_error r) (wf_executor_id r)
    (wf_created_at r) (wf_updated_at r) (wf_application_version r) (wf_application_id r)
    (wf_class_name r) (wf_config_name r) (wf_recovery_attempts r) (wf_queue_name r)
    (wf_workflow_timeout_ms r) (wf_workflow_deadline_epoch_ms r) (wf_inputs r)
    (wf_started_at_epoch_ms r) (wf_deduplication_id r) (wf_priority r)
    (wf_queue_partition_key r) (wf_forked_from r) (wf_owner_xid r) (wf_parent_workflow_id r)
    (wf_serialization r) (wf_delay_until_epoch_ms r) (wf_was_forked_from r)
    (wf_rate_limited r) (wf_completed_at r).
#[global] Arguments set_wf_output _ _ / : assert.
#[export] Instance set_wf_error : Setter wf_error := λ g r,
  mkWf (wf_status r) (wf_name r) (wf_authenticated_user r) (wf_assumed_role r)
    (wf_authenticated_roles r) (wf_output r) (g (wf_error r)) (wf_executor_id r)
    (wf_created_at r) (wf_updated_at r) (wf_application_version r) (wf_application_id r)
    (wf_class_name r) (wf_config_name r) (wf_recovery_attempts r) (wf_queue_name r)
    (wf_workflow_timeout_ms r) (wf_workflow_deadline_epoch_ms r) (wf_inputs r)
    (wf_started_at_epoch_ms r) (wf_deduplication_id r) (wf_priority r)
    (wf_queue_partition_key r) (wf_forked_from r) (wf_owner_xid r) (wf_parent_workflow_id r)
    (wf_serialization r) (wf_delay_until_epoch_ms r) (wf_was_forked_from r)
    (wf_rate_limited r) (wf_completed_at r).
#[global] Arguments set_wf_error _ _ / : assert.
#[export] Instance set_wf_executor_id : Setter wf_executor_id := λ g r,
  mkWf (wf_status r) (wf_name r) (wf_authenticated_user r) (wf_assumed_role r)
    (wf_authenticated_roles r) (wf_output r) (wf_error r) (g (wf_executor_id r))
    (wf_created_at r) (wf_updated_at r) (wf_application_version r) (wf_application_id r)
    (wf_class_name r) (wf_config_name r) (wf_recovery_attempts r) (wf_queue_name r)
    (wf_workflow_timeout_ms r) (wf_workflow_deadline_epoch_ms r) (wf_inputs r)
    (wf_started_at_epoch_ms r) (wf_deduplication_id r) (wf_priority r)
    (wf_queue_partition_key r) (wf_forked_from r) (wf_owner_xid r) (wf_parent_workflow_id r)
    (wf_serialization r) (wf_delay_until_epoch_ms r) (wf_was_forked_from r)
    (wf_rate_limited r) (wf_completed_at r).
#[global] Arguments set_wf_executor_id _ _ / : assert.
#[export] Instance set_wf_updated_at : Setter wf_updated_at := λ g r,
  mkWf (wf_status r) (wf_name r) (wf_authenticated_user r) (wf_assumed_role r)
    (wf_authenticated_roles r) (wf_output r) (wf_error r) (wf_executor_id r) (wf_created_at r)
    (g (wf_updated_at r)) (wf_application_version r) (wf_application_id r) (wf_class_name r)
    (wf_config_name r) (wf_recovery_attempts r) (wf_queue_name r) (wf_workflow_timeout_ms r)
    (wf_workflow_deadline_epoch_ms r) (wf_inputs r) (wf_started_at_epoch_ms r)
    (wf_deduplication_id r) (wf_priority r) (wf_queue_partition_key r) (wf_forked_from r)
    (wf_owner_xid r) (wf_parent_workflow_id r) (wf_serialization r)
    (wf_delay_until_epoch_ms r) (wf_was_forked_from r) (wf_rate_limited r) (wf_completed_at r).
#[global] Arguments set_wf_updated_at _ _ / : assert.
#[export] Instance set_wf_application_version : Setter wf_application_version := λ g r,
  mkWf (wf_status r) (wf_name r) (wf_authenticated_user r) (wf_assumed_role r)
    (wf_authenticated_roles r) (wf_output r) (wf_error r) (wf_executor_id r) (wf_created_at r)
    (wf_updated_at r) (g (wf_application_version r)) (wf_application_id r) (wf_class_name r)
    (wf_config_name r) (wf_recovery_attempts r) (wf_queue_name r) (wf_workflow_timeout_ms r)
    (wf_workflow_deadline_epoch_ms r) (wf_inputs r) (wf_started_at_epoch_ms r)
    (wf_deduplication_id r) (wf_priority r) (wf_queue_partition_key r) (wf_forked_from r)
    (wf_owner_xid r) (wf_parent_workflow_id r) (wf_serialization r)
    (wf_delay_until_epoch_ms r) (wf_was_forked_from r) (wf_rate_limited r) (wf_completed_at r).
#[global] Arguments set_wf_application_version _ _ / : assert.
#[export] Instance set_wf_application_id : Setter wf_application_id := λ g r,
  mkWf (wf_status r) (wf_name r) (wf_authenticated_user r) (wf_assumed_role r)
    (wf_authenticated_roles r) (wf_output r) (wf_error r) (wf_executor_id r)
    (wf_created_at r) (wf_updated_at r) (wf_application_version r) (g (wf_application_id r))
    (wf_class_name r) (wf_config_name r) (wf_recovery_attempts r) (wf_queue_name r)
    (wf_workflow_timeout_ms r) (wf_workflow_deadline_epoch_ms r) (wf_inputs r)
    (wf_started_at_epoch_ms r) (wf_deduplication_id r) (wf_priority r)
    (wf_queue_partition_key r) (wf_forked_from r) (wf_owner_xid r) (wf_parent_workflow_id r)
    (wf_serialization r) (wf_delay_until_epoch_ms r) (wf_was_forked_from r)
    (wf_rate_limited r) (wf_completed_at r).
#[global] Arguments set_wf_application_id _ _ / : assert.
#[export] Instance set_wf_class_name : Setter wf_class_name := λ g r,
  mkWf (wf_status r) (wf_name r) (wf_authenticated_user r) (wf_assumed_role r)
    (wf_authenticated_roles r) (wf_output r) (wf_error r) (wf_executor_id r)
    (wf_created_at r) (wf_updated_at r) (wf_application_version r) (wf_application_id r)
    (g (wf_class_name r)) (wf_config_name r) (wf_recovery_attempts r) (wf_queue_name r)
    (wf_workflow_timeout_ms r) (wf_workflow_deadline_epoch_ms r) (wf_inputs r)
    (wf_started_at_epoch_ms r) (wf_deduplication_id r) (wf_priority r)
    (wf_queue_partition_key r) (wf_forked_from r) (wf_owner_xid r) (wf_parent_workflow_id r)
    (wf_serialization r) (wf_delay_until_epoch_ms r) (wf_was_forked_from r)
    (wf_rate_limited r) (wf_completed_at r).
#[global] Arguments set_wf_class_name _ _ / : assert.
#[export] Instance set_wf_config_name : Setter wf_config_name := λ g r,
  mkWf (wf_status r) (wf_name r) (wf_authenticated_user r) (wf_assumed_role r)
    (wf_authenticated_roles r) (wf_output r) (wf_error r) (wf_executor_id r)
    (wf_created_at r) (wf_updated_at r) (wf_application_version r) (wf_application_id r)
    (wf_class_name r) (g (wf_config_name r)) (wf_recovery_attempts r) (wf_queue_name r)
    (wf_workflow_timeout_ms r) (wf_workflow_deadline_epoch_ms r) (wf_inputs r)
    (wf_started_at_epoch_ms r) (wf_deduplication_id r) (wf_priority r)
    (wf_queue_partition_key r) (wf_forked_from r) (wf_owner_xid r) (wf_parent_workflow_id r)
    (wf_serialization r) (wf_delay_until_epoch_ms r) (wf_was_forked_from r)
    (wf_rate_limited r) (wf_completed_at r).
#[global] Arguments set_wf_config_name _ _ / : assert.
#[export] Instance set_wf_recovery_attempts : Setter wf_recovery_attempts := λ g r,
  mkWf (wf_status r) (wf_name r) (wf_authenticated_user r) (wf_assumed_role r)
    (wf_authenticated_roles r) (wf_output r) (wf_error r) (wf_executor_id r) (wf_created_at r)
    (wf_updated_at r) (wf_application_version r) (wf_application_id r) (wf_class_name r)
    (wf_config_name r) (g (wf_recovery_attempts r)) (wf_queue_name r)
    (wf_workflow_timeout_ms r) (wf_workflow_deadline_epoch_ms r) (wf_inputs r)
    (wf_started_at_epoch_ms r) (wf_deduplication_id r) (wf_priority r)
    (wf_queue_partition_key r) (wf_forked_from r) (wf_owner_xid r) (wf_parent_workflow_id r)
    (wf_serialization r) (wf_delay_until_epoch_ms r) (wf_was_forked_from r)
    (wf_rate_limited r) (wf_completed_at r).
#[global] Arguments set_wf_recovery_attempts _ _ / : assert.
#[export] Instance set_wf_queue_name : Setter wf_queue_name := λ g r,
  mkWf (wf_status r) (wf_name r) (wf_authenticated_user r) (wf_assumed_role r)
    (wf_authenticated_roles r) (wf_output r) (wf_error r) (wf_executor_id r) (wf_created_at r)
    (wf_updated_at r) (wf_application_version r) (wf_application_id r) (wf_class_name r)
    (wf_config_name r) (wf_recovery_attempts r) (g (wf_queue_name r))
    (wf_workflow_timeout_ms r) (wf_workflow_deadline_epoch_ms r) (wf_inputs r)
    (wf_started_at_epoch_ms r) (wf_deduplication_id r) (wf_priority r)
    (wf_queue_partition_key r) (wf_forked_from r) (wf_owner_xid r) (wf_parent_workflow_id r)
    (wf_serialization r) (wf_delay_until_epoch_ms r) (wf_was_forked_from r)
    (wf_rate_limited r) (wf_completed_at r).
#[global] Arguments set_wf_queue_name _ _ / : assert.
#[export] Instance set_wf_workflow_deadline_epoch_ms : Setter wf_workflow_deadline_epoch_ms := λ g r,
  mkWf (wf_status r) (wf_name r) (wf_authenticated_user r) (wf_assumed_role r)
    (wf_authenticated_roles r) (wf_output r) (wf_error r) (wf_executor_id r) (wf_created_at r)
    (wf_updated_at r) (wf_application_version r) (wf_application_id r) (wf_class_name r)
    (wf_config_name r) (wf_recovery_attempts r) (wf_queue_name r) (wf_workflow_timeout_ms r)
    (g (wf_workflow_deadline_epoch_ms r)) (wf_inputs r) (wf_started_at_epoch_ms r)
    (wf_deduplication_id r) (wf_priority r) (wf_queue_partition_key r) (wf_forked_from r)
    (wf_owner_xid r) (wf_parent_workflow_id r) (wf_serialization r)
    (wf_delay_until_epoch_ms r) (wf_was_forked_from r) (wf_rate_limited r) (wf_completed_at r).
#[global] Arguments set_wf_workflow_deadline_epoch_ms _ _ / : assert.
#[export] Instance set_wf_started_at_epoch_ms : Setter wf_started_at_epoch_ms := λ g r,
  mkWf (wf_status r) (wf_name r) (wf_authenticated_user r) (wf_assumed_role r)
    (wf_authenticated_roles r) (wf_output r) (wf_error r) (wf_executor_id r) (wf_created_at r)
    (wf_updated_at r) (wf_application_version r) (wf_application_id r) (wf_class_name r)
    (wf_config_name r) (wf_recovery_attempts r) (wf_queue_name r) (wf_workflow_timeout_ms r)
    (wf_workflow_deadline_epoch_ms r) (wf_inputs r) (g (wf_started_at_epoch_ms r))
    (wf_deduplication_id r) (wf_priority r) (wf_queue_partition_key r) (wf_forked_from r)
    (wf_owner_xid r) (wf_parent_workflow_id r) (wf_serialization r)
    (wf_delay_until_epoch_ms r) (wf_was_forked_from r) (wf_rate_limited r) (wf_completed_at r).
#[global] Arguments set_wf_started_at_epoch_ms _ _ / : assert.
#[export] Instance set_wf_deduplication_id : Setter wf_deduplication_id := λ g r,
  mkWf (wf_status r) (wf_name r) (wf_authenticated_user r) (wf_assumed_role r)
    (wf_authenticated_roles r) (wf_output r) (wf_error r) (wf_executor_id r) (wf_created_at r)
    (wf_updated_at r) (wf_application_version r) (wf_application_id r) (wf_class_name r)
    (wf_config_name r) (wf_recovery_attempts r) (wf_queue_name r) (wf_workflow_timeout_ms r)
    (wf_workflow_deadline_epoch_ms r) (wf_inputs r) (wf_started_at_epoch_ms r)
    (g (wf_deduplication_id r)) (wf_priority r) (wf_queue_partition_key r) (wf_forked_from r)
    (wf_owner_xid r) (wf_parent_workflow_id r) (wf_serialization r)
    (wf_delay_until_epoch_ms r) (wf_was_forked_from r) (wf_rate_limited r) (wf_completed_at r).
#[global] Arguments set_wf_deduplication_id _ _ / : assert.
#[export] Instance set_wf_was_forked_from : Setter wf_was_forked_from := λ g r,
  mkWf (wf_status r) (wf_name r) (wf_authenticated_user r) (wf_assumed_role r)
    (wf_authenticated_roles r) (wf_output r) (wf_error r) (wf_executor_id r) (wf_created_at r)
    (wf_updated_at r) (wf_application_version r) (wf_application_id r) (wf_class_name r)
    (wf_config_name r) (wf_recovery_attempts r) (wf_queue_name r) (wf_workflow_timeout_ms r)
    (wf_workflow_deadline_epoch_ms r) (wf_inputs r) (wf_started_at_epoch_ms r)
    (wf_deduplication_id r) (wf_priority r) (wf_queue_partition_key r) (wf_forked_from r)
    (wf_owner_xid r) (wf_parent_workflow_id r) (wf_serialization r)
    (wf_delay_until_epoch_ms r) (g (wf_was_forked_from r)) (wf_rate_limited r)
    (wf_completed_at r).
#[global] Arguments set_wf_was_forked_from _ _ / : assert.
#[export] Instance set_wf_rate_limited : Setter wf_rate_limited := λ g r,
  mkWf (wf_status r) (wf_name r) (wf_authenticated_user r) (wf_assumed_role r)
    (wf_authenticated_roles r) (wf_output r) (wf_error r) (wf_executor_id r) (wf_created_at r)
    (wf_updated_at r) (wf_application_version r) (wf_application_id r) (wf_class_name r)
    (wf_config_name r) (wf_recovery_attempts r) (wf_queue_name r) (wf_workflow_timeout_ms r)
    (wf_workflow_deadline_epoch_ms r) (wf_inputs r) (wf_started_at_epoch_ms r)
    (wf_deduplication_id r) (wf_priority r) (wf_queue_partition_key r) (wf_forked_from r)
    (wf_owner_xid r) (wf_parent_workflow_id r) (wf_serialization r)
    (wf_delay_until_epoch_ms r) (wf_was_forked_from r) (g (wf_rate_limited r))
    (wf_completed_at r).
#[global] Arguments set_wf_rate_limited _ _ / : assert.
#[export] Instance set_wf_completed_at : Setter wf_completed_at := λ g r,
  mkWf (wf_status r) (wf_name r) (wf_authenticated_user r) (wf_assumed_role r)
    (wf_authenticated_roles r) (wf_output r) (wf_error r) (wf_executor_id r) (wf_created_at r)
    (wf_updated_at r) (wf_application_version r) (wf_application_id r) (wf_class_name r)
    (wf_config_name r) (wf_recovery_attempts r) (wf_queue_name r) (wf_workflow_timeout_ms r)
    (wf_workflow_deadline_epoch_ms r) (wf_inputs r) (wf_started_at_epoch_ms r)
    (wf_deduplication_id r) (wf_priority r) (wf_queue_partition_key r) (wf_forked_from r)
    (wf_owner_xid r) (wf_parent_workflow_id r) (wf_serialization r)
    (wf_delay_until_epoch_ms r) (wf_was_forked_from r) (wf_rate_limited r)
    (g (wf_completed_at r)).
#[global] Arguments set_wf_completed_at _ _ / : assert.

(** ** [operation_outputs], by [(workflow_uuid, function_id)] *)

Record op_row := mkOp {
  op_function_name : string;
  op_output : option string;
  op_error : option string;
  op_child_workflow_id : option string;
  op_started_at_epoch_ms : option Z;
  op_completed_at_epoch_ms : option Z;
  op_serialization : option string;
}.


(** ** [notifications], by [message_uuid] *)

Record nt_row := mkNt {
  nt_destination_uuid : string;
  nt_topic : string;
  nt_message : string;
  nt_created_at_epoch_ms : Z;
  nt_serialization : option string;
  nt_consumed : bool;
}.

#[export] Instance set_nt_consumed : Setter nt_consumed := λ g r,
  mkNt (nt_destination_uuid r) (nt_topic r) (nt_message r) (nt_created_at_epoch_ms r)
    (nt_serialization r) (g (nt_consumed r)).
#[global] Arguments set_nt_consumed _ _ / : assert.

(** ** [workflow_events] and [workflow_events_history] *)

Record ev_row := mkEv {
  ev_value : string;
  ev_serialization : option string;
}.


(** ** [streams], by [(workflow_uuid, key, offset)] *)

Record st_row := mkSt {
  st_value : string;
  st_function_id : Z;
  st_serialization : option string;
}.


(** ** The tables of a schema *)

Record Db := mkDb {
  workflow_status : gmap string wf_row;
  operation_outputs : gmap (string * Z) op_row;
  notifications : gmap string nt_row;
  workflow_events : gmap (string * string) ev_row;
  workflow_events_history : gmap (string * Z * string) ev_row;
  streams : gmap (string * string * Z) st_row;
}.

#[export] Instance set_workflow_status : Setter workflow_status := λ g r,
  mkDb (g (workflow_status r)) (operation_outputs r) (notifications r) (workflow_events r)
    (workflow_events_history r) (streams r).
#[global] Arguments set_workflow_status _ _ / : assert.
#[export] Instance set_operation_outputs : Setter operation_outputs := λ g r,
  mkDb (workflow_status r) (g (operation_outputs r)) (notifications r) (workflow_events r)
    (workflow_events_history r) (streams r).
#[global] Arguments set_operation_outputs _ _ / : assert.
#[export] Instance set_notifications : Setter notifications := λ g r,
  mkDb (workflow_status r) (operation_outputs r) (g (notifications r)) (workflow_events r)
    (workflow_events_history r) (streams r).
#[global] Arguments set_notifications _ _ / : assert.
#[export] Instance set_workflow_events : Setter workflow_events := λ g r,
  mkDb (workflow_status r) (operation_outputs r) (notifications r) (g (workflow_events r))
    (workflow_events_history r) (streams r).
#[global] Arguments set_workflow_events _ _ / : assert.
#[export] Instance set_workflow_events_history : Setter workflow_events_history := λ g r,
  mkDb (workflow_status r) (operation_outputs r) (notifications r) (workflow_events r)
    (g (workflow_events_history r)) (streams r).
#[global] Arguments set_workflow_events_history _ _ / : assert.
#[export] Instance set_streams : Setter streams := λ g r,
  mkDb (workflow_status r) (operation_outputs r) (notifications r) (workflow_events r)
    (workflow_events_history r) (g (streams r)).
#[global] Arguments set_streams _ _ / : assert.

Definition empty_db : Db := mkDb ∅ ∅ ∅ ∅ ∅ ∅.

(** ** Statements *)

(** [UPDATE t SET ... WHERE p], on a table keyed by [K]. *)
Definition update_where {K V} `{Countable K} (p : K → V → bool) (f : V → V) (t : gmap K V) : gmap K V :=
  map_imap (λ k r, Some (if p k r then f r else r)) t.

(** [rows_affected()] of such a statement. *)
Definition count_where {K V} `{Countable K} (p : K → V → bool) (t : gmap K V) : nat :=
  length (filter (λ kv, p kv.1 kv.2 = true) (map_to_list t)).

(** [SELECT ... WHERE p], by primary key. *)
Definition select_key {K V} `{Countable K} (p : V → bool) (k : K) (t : gmap K V) : option V :=
  r ← t !! k; if p r then Some r else None.

(** [c = x] and [c = ANY(xs)], false on NULL; [x NOT IN xs]. *)
Definition sql_eq (c : option string) (x : string) : bool := bool_decide (c = Some x).
Definition sql_any (c : option string) (xs : list string) : bool :=
  match c with Some x => bool_decide (x ∈ xs) | None => false end.
Definition sql_in (x : string) (xs : list string) : bool := bool_decide (x ∈ xs).

(** The order in which Postgres returns the rows of a table when a statement
    leaves it open: any enumeration of the table. *)
Class PgScan := scan : ∀ {V : Type}, gmap string V → list (string * V).
Class PgScanLaws (S : PgScan) : Prop :=
  scan_perm : ∀ {V} (t : gmap string V), scan t ≡ₚ map_to_list t.

(** One such enumeration. *)
Definition key_order_scan : PgScan := λ V t, map_to_list t.
Lemma key_order_scan_laws : PgScanLaws key_order_scan.
Proof. by intros V t. Qed.

(** [SELECT ... WHERE p]: the matching rows, in scan order. *)
Definition select_where `{PgScan} {V} (p : string → V → bool) (t : gmap string V) : list (string * V) :=
  filter (λ kv, p kv.1 kv.2 = true) (scan t).

(** [ORDER BY k1 ASC, k2 ASC, ...]: rows with equal keys keep an arbitrary
    order, that of the scan below. *)
Fixpoint key_le {A} (keys : list (A → Z)) (a b : A) : Prop :=
  match keys with
  | [] => True
  | k :: keys => k a < k b ∨ k a = k b ∧ key_le keys a b
  end.

#[export] Instance key_le_dec {A} (keys : list (A → Z)) a b : Decision (key_le keys a b).
Proof. induction keys; simpl; apply _. Defined.

Definition order_by {A} (keys : list (A → Z)) (l : list A) : list A := merge_sort (key_le keys) l.

(** The foreign keys of the tables cascade on delete. *)
Definition delete_cascade (gone : string → bool) (d : Db) : Db :=
  let keep (id : string) := gone id = false in
  mkDb (filter (λ kv, keep kv.1) (workflow_status d))
       (filter (λ kv, keep kv.1.1) (operation_outputs d))
       (filter (λ kv, keep (nt_destination_uuid kv.2)) (notifications d))
       (filter (λ kv, keep kv.1.1) (workflow_events d))
       (filter (λ kv, keep kv.1.1.1) (workflow_events_history d))
       (filter (λ kv, keep kv.1.1.1) (streams d)).

(** ** Lemmas *)

Section statements.
Context {K V : Type} `{Countable K}.
Implicit Types (t : gmap K V) (p : K → V → bool).

Lemma lookup_update_where p f t k :
  update_where p f t !! k = (λ r, if p k r then f r else r) <$> t !! k.
Proof. unfold update_where. rewrite map_lookup_imap. by destruct (t !! k). Qed.

Lemma lookup_update_where_None p f t k : update_where p f t !! k = None ↔ t !! k = None.
Proof. rewrite lookup_update_where. by destruct (t !! k). Qed.

Lemma update_where_id p f t :
  (∀ k r, t !! k = Some r → p k r = true → f r = r) → update_where p f t = t.
Proof.
  intros Hid. apply map_eq. intros k. rewrite lookup_update_where.
  destruct (t !! k) as [r|] eqn:E; simpl; [|done]. destruct (p k r) eqn:Ep; [|done].
  by rewrite (Hid k r).
Qed.

Lemma count_where_pos p t : (0 < count_where p t)%nat ↔ ∃ k r, t !! k = Some r ∧ p k r = true.
Proof.
  unfold count_where. split.
  - destruct (filter _ _) as [|[k r] l] eqn:E; simpl; [lia|]. intros _. exists k, r.
    assert ((k, r) ∈ filter (λ kv, p kv.1 kv.2 = true) (map_to_list t)) as Hk
      by (rewrite E; constructor).
    apply list_elem_of_filter in Hk as [? ?%elem_of_map_to_list]. done.
  - intros (k & r & Hk & Hp).
    assert ((k, r) ∈ filter (λ kv, p kv.1 kv.2 = true) (map_to_list t)) as Hf
      by (apply list_elem_of_filter; by rewrite elem_of_map_to_list).
    destruct (filter _ _); simpl; [by apply not_elem_of_nil in Hf | lia].
Qed.
End statements.

Lemma count_where_size {K V} `{Countable K} (p : K → V → bool) (t : gmap K V) :
  count_where p t = size (filter (λ kv, p kv.1 kv.2 = true) t).
Proof.
  unfold count_where. rewrite <- length_map_to_list. apply Permutation_length.
  apply NoDup_Permutation; [apply NoDup_filter, NoDup_map_to_list | apply NoDup_map_to_list|].
  intros [k v]. rewrite list_elem_of_filter, !elem_of_map_to_list, map_lookup_filter_Some. naive_solver.
Qed.

Lemma count_where_mono {K V} `{Countable K} (p q : K → V → bool) (t : gmap K V) :
  (∀ k v, p k v = true → q k v = true) → (count_where p t ≤ count_where q t)%nat.
Proof.
  intros Hpq. rewrite !count_where_size. apply map_subseteq_size, map_subseteq_spec.
  intros k v. rewrite !map_lookup_filter_Some. naive_solver.
Qed.

Lemma filter_id {A} (P : A → Prop) `{∀ x, Decision (P x)} (l : list A) : Forall P l → filter P l = l.
Proof. induction 1; rewrite ?filter_cons, ?decide_True by done; [done|]. by f_equal. Qed.

Section selections.
Context `{HS : PgScan, !PgScanLaws HS} {V : Type}.
Implicit Types (t : gmap string V) (p : string → V → bool).

Lemma elem_of_select_where p t k r :
  (k, r) ∈ select_where p t ↔ t !! k = Some r ∧ p k r = true.
Proof.
  unfold select_where. rewrite list_elem_of_filter, scan_perm, elem_of_map_to_list. naive_solver.
Qed.

Lemma scan_keys_nodup t : NoDup (scan t).*1.
Proof. rewrite scan_perm. apply NoDup_fst_map_to_list. Qed.

Lemma select_where_nodup p t : NoDup (select_where p t).*1.
Proof.
  unfold select_where. pose proof (scan_keys_nodup t) as Hnd. revert Hnd.
  induction (scan t) as [|[k r] l IH]; [constructor|]. rewrite fmap_cons, NoDup_cons.
  intros [Hk Hl]. rewrite filter_cons. case_decide; [|auto].
  rewrite fmap_cons, NoDup_cons. split; [|auto].
  intros (kv & E & [_ Hkv]%list_elem_of_filter)%list_elem_of_fmap.
  apply Hk. simpl in *. subst k. by apply list_elem_of_fmap_2.
Qed.

Lemma length_select_where p t : length (select_where p t) = count_where p t.
Proof.
  unfold select_where, count_where. apply Permutation_length. by rewrite scan_perm.
Qed.
End selections.

#[export] Hint Rewrite @lookup_update_where : dbos.

Section ordering.
Context {A : Type}.
Implicit Types (keys : list (A → Z)) (l : list A).

#[export] Instance key_le_total keys : Total (key_le keys).
Proof.
  intros a b. induction keys as [|k keys IH]; simpl; [by left|].
  destruct (Z.lt_trichotomy (k a) (k b)) as [?|[E|?]]; [by left; left| |by right; left].
  destruct IH; [left | right]; right; auto.
Qed.

#[export] Instance key_le_trans keys : Transitive (key_le keys).
Proof.
  intros a b c. induction keys as [|k keys IH]; simpl; [done|].
  intros [?|[? ?]] [?|[? ?]]; [left; lia..|right; split; [lia | auto]].
Qed.

Lemma order_by_perm keys l : order_by keys l ≡ₚ l.
Proof. apply merge_sort_Permutation. Qed.

Lemma order_by_sorted keys l : StronglySorted (key_le keys) (order_by keys l).
Proof. by apply StronglySorted_merge_sort; apply _. Qed.

(** The head of an ordered result is one of the rows, and a minimum. *)
Lemma order_by_head keys l :
  match head (order_by keys l) with
  | Some a => a ∈ l ∧ ∀ b, b ∈ l → key_le keys a b
  | None => l = []
  end.
Proof.
  pose proof (order_by_perm keys l) as Hp. pose proof (order_by_sorted keys l) as Hs.
  destruct (order_by keys l) as [|a rest]; simpl.
  - by apply Permutation_nil in Hp.
  - split; [rewrite <- Hp; constructor|]. intros b Hb. rewrite <- Hp in Hb.
    apply StronglySorted_inv in Hs as [_ Hall]. apply elem_of_cons in Hb as [->|Hb].
    + destruct (total (key_le keys) a a); done.
    + by eapply Forall_forall in Hall.
Qed.
End ordering.

Section sorted_lists.
Context {A : Type} (R : relation A).
Implicit Types (P : A → Prop) (l : list A).

Lemma StronglySorted_filter P `{∀ x, Decision (P x)} l :
  StronglySorted R l → StronglySorted R (filter P l).
Proof.
  induction 1 as [|x l Hl IH Hx]; [constructor|]. rewrite filter_cons. case_decide; [|done].
  constructor; [done|]. apply Forall_forall. intros y [_ Hy]%list_elem_of_filter.
  by eapply Forall_forall in Hx.
Qed.

(** What [LIMIT n] leaves out comes after what it keeps. *)
Lemma take_before l n x y :
  StronglySorted R l → x ∈ take n l → y ∈ l → y ∉ take n l → R x y.
Proof.
  intros Hs Hx Hy Hny. rewrite <- (take_drop n l) in Hs, Hy.
  apply elem_of_app in Hy as [?|Hy]; [done|]. by eapply StronglySorted_app_1_elem_of.
Qed.
End sorted_lists.

Lemma filter_fst {A B} (P : A → Prop) `{∀ x, Decision (P x)} (l : list (A * B)) :
  filter P l.*1 = (filter (λ kv, P kv.1) l).*1.
Proof.
  induction l as [|[a b] l IH]; [done|]. rewrite fmap_cons, !filter_cons. simpl.
  case_decide; [rewrite fmap_cons; by f_equal/= | done].
Qed.

(** ** Copying rows under new keys *)

(** [INSERT INTO t SELECT ... FROM t]: the rows of the keys [f] maps, under
    their images. *)
Definition copy_rows {K K' V} `{Countable K, Countable K'} (f : K → option K') (t : gmap K V) : gmap K' V :=
  list_to_map (omap (λ kv, (λ k, (k, kv.2)) <$> f kv.1) (map_to_list t)).

Lemma lookup_copy_rows {K K' V} `{Countable K, Countable K'} (f : K → option K') (t : gmap K V) k' v :
  (∀ k1 k2 k v1 v2, t !! k1 = Some v1 → t !! k2 = Some v2 → f k1 = Some k → f k2 = Some k → k1 = k2) →
  copy_rows f t !! k' = Some v ↔ ∃ k, f k = Some k' ∧ t !! k = Some v.
Proof.
  intros Hinj.
  assert (∀ x, (k', x) ∈ omap (λ kv, (λ k, (k, kv.2)) <$> f kv.1) (map_to_list t) ↔
               ∃ k, f k = Some k' ∧ t !! k = Some x) as Hin.
  { intros x. rewrite list_elem_of_omap. split.
    - intros ([k y] & Hk%elem_of_map_to_list & (k0 & Hf & ?)%fmap_Some). simplify_eq/=. eauto.
    - intros (k & Hf & Hk). exists (k, x). simpl. by rewrite elem_of_map_to_list, Hf. }
  rewrite <- Hin. unfold copy_rows. split; [apply elem_of_list_to_map_2|].
  intros Hv. apply elem_of_list_to_map_1'; [|done]. intros y Hy.
  apply Hin in Hv as (k1 & Hf1 & Ht1). apply Hin in Hy as (k2 & Hf2 & Ht2).
  assert (k1 = k2) as -> by eauto. by simplify_eq.
Qed.

Lemma copy_rows_source {K K' V} `{Countable K, Countable K'} (f : K → option K') (t : gmap K V) k' v :
  copy_rows f t !! k' = Some v → ∃ k, f k = Some k' ∧ t !! k = Some v.
Proof.
  intros ([k x] & Hk%elem_of_map_to_list & (k0 & Hf & ?)%fmap_Some)%elem_of_list_to_map_2%list_elem_of_omap.
  simplify_eq/=. eauto.
Qed.

Lemma copy_rows_image {K K' V} `{Countable K, Countable K'} (f : K → option K') (t : gmap K V) k' v :
  copy_rows f t !! k' = Some v → ∃ k, f k = Some k'.
Proof. intros (k & Hk & _)%copy_rows_source. eauto. Qed.

(** ** Referential integrity *)

(** Every row refers to an existing workflow. *)
Record refs_ok (d : Db) : Prop := {
  refs_operations id fid o : operation_outputs d !! (id, fid) = Some o → is_Some (workflow_status d !! id);
  refs_notifications u n :
    notifications d !! u = Some n → is_Some (workflow_status d !! nt_destination_uuid n);
  refs_events id key e : workflow_events d !! (id, key) = Some e → is_Some (workflow_status d !! id);
  refs_history id fid key e :
    workflow_events_history d !! (id, fid, key) = Some e → is_Some (workflow_status d !! id);
  refs_streams id key o r : streams d !! (id, key, o) = Some r → is_Some (workflow_status d !! id);
}.

(** An id without a workflow has no rows at all. *)
Lemma refs_absent d id :
  refs_ok d → workflow_status d !! id = None →
  (∀ fid, operation_outputs d !! (id, fid) = None) ∧
  (∀ fid key, workflow_events_history d !! (id, fid, key) = None) ∧
  (∀ key, workflow_events d !! (id, key) = None) ∧ (∀ key o, streams d !! (id, key, o) = None).
Proof.
  intros [H1 _ H3 H4 H5] Hn. split_and!; intros; apply eq_None_not_Some; intros [x Hx].
  all: by first [apply H1 in Hx | apply H3 in Hx | apply H4 in Hx | apply H5 in Hx];
    rewrite Hn in Hx; destruct Hx.
Qed.

Lemma delete_cascade_refs gone d : refs_ok d → refs_ok (delete_cascade gone d).
Proof.
  intros [H1 H2 H3 H4 H5]. unfold delete_cascade. split; simpl.
  all: intros *; intros [Hk Hg]%map_lookup_filter_Some; simpl in Hg.
  all: match goal with |- is_Some (filter _ _ !! ?i) =>
         assert (is_Some (workflow_status d !! i)) as [x Hx] by eauto; exists x end.
  all: by apply map_lookup_filter_Some.
Qed.
