(* ===== verification/World.v ===== *)
(** * The world a running executor sees

    One process of the system: the shared database, the clock and UUID sources
    it reads, and the in-process state of [DbosInner] that the modelled code
    changes.  [M] is the monad of its [async] functions: state passing with
    the error channel of [Result]. *)
From S2P Require Import Prelude Errors Serialize Database.

Local Open Scope string_scope.
Local Open Scope Z_scope.
Local Open Scope dbos_scope.

(** ** Surroundings *)

(** What the process reads from outside: the [n]-th reading of the wall clock
    (epoch milliseconds) and of the monotonic clock (milliseconds), the [n]-th
    UUIDv4, and what every other process has done to the database by the end
    of the [n]-th wait. *)
Class Env := {
  clock : nat → Z;
  instant : nat → Z;
  new_v4 : nat → string;
  others : nat → Db → Db;
}.

Class EnvLaws (E : Env) : Prop := {
  clock_range n : 0 ≤ clock n < 2 ^ 62;
  clock_mono n m : (n ≤ m)%nat → clock n ≤ clock m;
  instant_mono n m : (n ≤ m)%nat → instant n ≤ instant m;
  new_v4_inj n m : new_v4 n = new_v4 m → n = m;
}.

(** ** In-process state *)

(** The authenticated identity of a workflow, inherited by its children. *)
Record AuthIdentity := mkAuth {
  au_user : option string;
  au_role : option string;
  au_roles : list string;
}.

Definition AuthIdentity_default : AuthIdentity := mkAuth None None [].

(** A body spawned on [workflow_tasks] and not run yet: a workflow started
    directly, whose outcome goes to a one-shot channel, or one claimed from a
    queue, which holds a worker slot. *)
Inductive task_origin :=
  | Started (channel : nat)
  | Dequeued (worker : string * string).

Record task := mkTask {
  t_workflow_id : string;
  t_name : string;
  t_input : option string;
  t_format : Format;
  t_state : nat;
  t_auth : AuthIdentity;
  t_origin : task_origin;
}.

(** [w_counters] holds the step counter of each [WorkflowState]; [w_channels]
    the results sent on one-shot channels, and [w_taken] the channels whose
    receiver has been taken; [w_notification_waiters] the keys of
    [notifications_waiters]; [w_worker_counts] the [WorkerCounts]. *)
Record World := mkWorld {
  w_db : Db;
  w_reads : nat;
  w_uuids : nat;
  w_waits : nat;
  w_counters : gmap nat Z;
  w_tasks : list task;
  w_channels : gmap nat (Result string);
  w_taken : gset nat;
  w_notification_waiters : gset string;
  w_worker_counts : gmap (string * string) Z;
}.

#[export] Instance set_w_db : Setter w_db := λ g r,
  mkWorld (g (w_db r)) (w_reads r) (w_uuids r) (w_waits r) (w_counters r) (w_tasks r) (w_channels r)
    (w_taken r) (w_notification_waiters r) (w_worker_counts r).
#[global] Arguments set_w_db _ _ / : assert.
#[export] Instance set_w_reads : Setter w_reads := λ g r,
  mkWorld (w_db r) (g (w_reads r)) (w_uuids r) (w_waits r) (w_counters r) (w_tasks r) (w_channels r)
    (w_taken r) (w_notification_waiters r) (w_worker_counts r).
#[global] Arguments set_w_reads _ _ / : assert.
#[export] Instance set_w_uuids : Setter w_uuids := λ g r,
  mkWorld (w_db r) (w_reads r) (g (w_uuids r)) (w_waits r) (w_counters r) (w_tasks r) (w_channels r)
    (w_taken r) (w_notification_waiters r) (w_worker_counts r).
#[global] Arguments set_w_uuids _ _ / : assert.
#[export] Instance set_w_waits : Setter w_waits := λ g r,
  mkWorld (w_db r) (w_reads r) (w_uuids r) (g (w_waits r)) (w_counters r) (w_tasks r) (w_channels r)
    (w_taken r) (w_notification_waiters r) (w_worker_counts r).
#[global] Arguments set_w_waits _ _ / : assert.
#[export] Instance set_w_counters : Setter w_counters := λ g r,
  mkWorld (w_db r) (w_reads r) (w_uuids r) (w_waits r) (g (w_counters r)) (w_tasks r) (w_channels r)
    (w_taken r) (w_notification_waiters r) (w_worker_counts r).
#[global] Arguments set_w_counters _ _ / : assert.
#[export] Instance set_w_tasks : Setter w_tasks := λ g r,
  mkWorld (w_db r) (w_reads r) (w_uuids r) (w_waits r) (w_counters r) (g (w_tasks r)) (w_channels r)
    (w_taken r) (w_notification_waiters r) (w_worker_counts r).
#[global] Arguments set_w_tasks _ _ / : assert.
#[export] Instance set_w_channels : Setter w_channels := λ g r,
  mkWorld (w_db r) (w_reads r) (w_uuids r) (w_waits r) (w_counters r) (w_tasks r) (g (w_channels r))
    (w_taken r) (w_notification_waiters r) (w_worker_counts r).
#[global] Arguments set_w_channels _ _ / : assert.
#[export] Instance set_w_taken : Setter w_taken := λ g r,
  mkWorld (w_db r) (w_reads r) (w_uuids r) (w_waits r) (w_counters r) (w_tasks r) (w_channels r)
    (g (w_taken r)) (w_notification_waiters r) (w_worker_counts r).
#[global] Arguments set_w_taken _ _ / : assert.
#[export] Instance set_w_notification_waiters : Setter w_notification_waiters := λ g r,
  mkWorld (w_db r) (w_reads r) (w_uuids r) (w_waits r) (w_counters r) (w_tasks r) (w_channels r)
    (w_taken r) (g (w_notification_waiters r)) (w_worker_counts r).
#[global] Arguments set_w_notification_waiters _ _ / : assert.
#[export] Instance set_w_worker_counts : Setter w_worker_counts := λ g r,
  mkWorld (w_db r) (w_reads r) (w_uuids r) (w_waits r) (w_counters r) (w_tasks r) (w_channels r)
    (w_taken r) (w_notification_waiters r) (g (w_worker_counts r)).
#[global] Arguments set_w_worker_counts _ _ / : assert.


Definition initial_world (d : Db) : World := mkWorld d 0 0 0 ∅ [] ∅ ∅ ∅ ∅.

(** ** The monad *)

Definition M (A : Type) : Type := World → Result A * World.

#[export] Instance M_ret : MRet M := λ A a w, (Ok a, w).
#[export] Instance M_bind : MBind M := λ A B f m w,
  match m w with
  | (Ok a, w') => f a w'
  | (Err e, w') => (Err e, w')
  end.

#[export] Instance M_fmap : FMap M := λ A B f m, a ← m; mret (f a).

Definition raise {A} (e : DbosError) : M A := λ w, (Err e, w).

(** [r?] on a value that is already a [Result]. *)
Definition lift {A} (r : Result A) : M A := λ w, (r, w).

(** Running a computation for its [Result]. *)
Definition attempt {A} (m : M A) : M (Result A) := λ w, let '(r, w') := m w in (Ok r, w').

Definition gets {A} (f : World → A) : M A := λ w, (Ok (f w), w).
Definition modify (f : World → World) : M unit := λ w, (Ok tt, f w).
Definition gets_db {A} (f : Db → A) : M A := gets (f ∘ w_db).
Definition modify_db (f : Db → Db) : M unit := modify (λ w, w <| w_db ::= f |>).

(** A computation run for its state change and result, ignoring errors
    ([let _ = ...]). *)
Definition ignore {A} (m : M A) : M unit := _ ← attempt m; mret tt.

Lemma fmap_lift {A B} (f : A → B) (r : Result A) w : (f <$> lift r) w = (f <$> r, w).
Proof. by destruct r. Qed.

Section clocks.
Context `{Env}.

(** [now_epoch_ms]. *)
Definition now_epoch_ms : M Z := λ w, (Ok (clock (w_reads w)), w <| w_reads ::= S |>).

(** [tokio::time::Instant::now], in milliseconds. *)
Definition instant_now : M Z := λ w, (Ok (instant (w_reads w)), w <| w_reads ::= S |>).

(** [uuid::Uuid::new_v4]. *)
Definition uuid_v4 : M string := λ w, (Ok (new_v4 (w_uuids w)), w <| w_uuids ::= S |>).

(** Being suspended: time passes and the other processes run. *)
Definition wait : M unit := λ w, (Ok tt, w <| w_db ::= others (w_waits w) |> <| w_waits ::= S |>).
End clocks.

(** ** Transactions *)

(** How the body of a transaction ends: [commit] or [rollback], and then the
    function's result.  An error inside the body drops the transaction. *)
Inductive tx_end (A : Type) :=
  | Commit (r : Result A)
  | Rollback (r : Result A).
Arguments Commit {_} _.
Arguments Rollback {_} _.

Definition transaction {A} (body : M (tx_end A)) : M A := λ w,
  match body w with
  | (Ok (Commit r), w') => (r, w')
  | (Ok (Rollback r), w') => (r, w' <| w_db := w_db w |>)
  | (Err e, w') => (Err e, w' <| w_db := w_db w |>)
  end.

Definition commit {A} (a : A) : M (tx_end A) := mret (Commit (Ok a)).

(** ** Laws *)

Section monad_laws.
Context {A B C : Type}.
Implicit Types (m : M A) (f : A → M B) (g : B → M C).

Lemma M_ret_bind a f w : (mret a ≫= f) w = f a w.
Proof. done. Qed.
Lemma M_bind_ret m w : (m ≫= mret) w = m w.
Proof. unfold mbind, M_bind. by destruct (m w) as [[] ?]. Qed.
Lemma M_bind_assoc m f g w : ((m ≫= f) ≫= g) w = (m ≫= (λ a, f a ≫= g)) w.
Proof. unfold mbind, M_bind. by destruct (m w) as [[] ?]. Qed.

(** Running a sequence one computation at a time. *)
Lemma M_bind_run m f w :
  (m ≫= f) w = match m w with (Ok a, w1) => f a w1 | (Err e, w1) => (Err e, w1) end.
Proof. done. Qed.
Lemma run_bind m f w a w1 res : m w = (Ok a, w1) → f a w1 = res → (m ≫= f) w = res.
Proof. unfold mbind, M_bind. by intros ->. Qed.
Lemma run_bind_err m f w e w1 : m w = (Err e, w1) → (m ≫= f) w = (Err e, w1).
Proof. unfold mbind, M_bind. by intros ->. Qed.

Lemma M_bind_attempt m (h : Result A → M B) w res w2 :
  (attempt m ≫= h) w = (res, w2) ↔ ∃ r w1, m w = (r, w1) ∧ h r w1 = (res, w2).
Proof. unfold mbind, M_bind, attempt. destruct (m w) as [r w1]. naive_solver. Qed.

Lemma M_bind_Ok m f w b w' :
  (m ≫= f) w = (Ok b, w') ↔ ∃ a w1, m w = (Ok a, w1) ∧ f a w1 = (Ok b, w').
Proof.
  unfold mbind, M_bind. destruct (m w) as [[a|e] w1]; naive_solver.
Qed.
Lemma M_bind_Err m f w e w' :
  (m ≫= f) w = (Err e, w') ↔
  m w = (Err e, w') ∨ ∃ a w1, m w = (Ok a, w1) ∧ f a w1 = (Err e, w').
Proof.
  unfold mbind, M_bind. destruct (m w) as [[a|e'] w1]; naive_solver.
Qed.

(** An error inside a transaction leaves the database as it was. *)
Lemma transaction_Err (body : M (tx_end A)) w e w' :
  body w = (Err e, w') → transaction body w = (Err e, w' <| w_db := w_db w |>).
Proof. intros E. unfold transaction. by rewrite E. Qed.
End monad_laws.

(** ** Computations that leave the process alone *)

(** [m] may change the database and read the clocks, but it neither spawns
    nor ends bodies, and touches no channel, step counter or worker slot. *)
Definition in_process (w : World) :=
  (w_tasks w, w_channels w, w_taken w, w_worker_counts w, w_counters w).

Class DbOnly {A} (m : M A) : Prop := db_only w : in_process (snd (m w)) = in_process w.

Section db_only.
Context {A B : Type}.

#[export] Instance db_only_ret (a : A) : DbOnly (mret a).
Proof. done. Qed.
#[export] Instance db_only_raise e : DbOnly (raise (A := A) e).
Proof. done. Qed.
#[export] Instance db_only_lift (r : Result A) : DbOnly (lift r).
Proof. done. Qed.
#[export] Instance db_only_gets (f : World → A) : DbOnly (gets f).
Proof. done. Qed.
#[export] Instance db_only_modify_db f : DbOnly (modify_db f).
Proof. done. Qed.
#[export] Instance db_only_bind (m : M A) (f : A → M B) :
  DbOnly m → (∀ a, DbOnly (f a)) → DbOnly (m ≫= f).
Proof.
  intros Hm Hf w. unfold mbind, M_bind. specialize (Hm w).
  destruct (m w) as [[a|e] w1]; simpl in *; [|done]. by rewrite Hf.
Qed.
#[export] Instance db_only_attempt (m : M A) : DbOnly m → DbOnly (attempt m).
Proof. intros Hm w. unfold attempt. specialize (Hm w). by destruct (m w). Qed.
#[export] Instance db_only_transaction (m : M (tx_end A)) : DbOnly m → DbOnly (transaction m).
Proof.
  intros Hm w. unfold transaction. specialize (Hm w). by destruct (m w) as [[[]|] ?].
Qed.
End db_only.

#[export] Instance db_only_now `{Env} : DbOnly now_epoch_ms.
Proof. done. Qed.
#[export] Instance db_only_uuid `{Env} : DbOnly uuid_v4.
Proof. done. Qed.

(** Running a monadic computation on a known world: unfold the monad and
    simplify, keeping the record updates folded away. *)
Ltac run_M :=
  unfold ignore, commit, gets_db, modify_db, mbind, M_bind, mret, M_ret, raise, lift, gets, modify, attempt,
    compose, now_epoch_ms, instant_now, uuid_v4 in *;
  simpl in *.
