(* ===== verification/Status.v ===== *)
(** * [workflow_status] operations (db/status.rs)

    Inserting a status row with its idempotency and dead-letter rules,
    recording an outcome, polling for a result, and the recovery listing. *)
From S2P Require Import Prelude Errors Serialize Database World.

Local Open Scope string_scope.
Local Open Scope Z_scope.
Local Open Scope dbos_scope.

(** ** Statuses *)

Inductive WorkflowStatusType :=
  | Pending | Enqueued | Delayed | Success | Error | Cancelled | MaxRecoveryAttemptsExceeded.

#[export] Instance WorkflowStatusType_eq_dec : EqDecision WorkflowStatusType.
Proof. solve_decision. Defined.

Definition status_str (s : WorkflowStatusType) : string :=
  match s with
  | Pending => "PENDING"
  | Enqueued => "ENQUEUED"
  | Delayed => "DELAYED"
  | Success => "SUCCESS"
  | Error => "ERROR"
  | Cancelled => "CANCELLED"
  | MaxRecoveryAttemptsExceeded => "MAX_RECOVERY_ATTEMPTS_EXCEEDED"
  end.

Definition status_from_str (s : string) : option WorkflowStatusType :=
  if decide (s = "PENDING") then Some Pending
  else if decide (s = "ENQUEUED") then Some Enqueued
  else if decide (s = "DELAYED") then Some Delayed
  else if decide (s = "SUCCESS") then Some Success
  else if decide (s = "ERROR") then Some Error
  else if decide (s = "CANCELLED") then Some Cancelled
  else if decide (s = "MAX_RECOVERY_ATTEMPTS_EXCEEDED") then Some MaxRecoveryAttemptsExceeded
  else None.

Definition is_terminal (s : WorkflowStatusType) : bool :=
  match s with Success | Error | Cancelled | MaxRecoveryAttemptsExceeded => true | _ => false end.

Lemma status_from_str_str s : status_from_str (status_str s) = Some s.
Proof. by destruct s. Qed.

#[export] Instance status_str_inj : Inj (=) (=) status_str.
Proof. intros s t E. apply (f_equal status_from_str) in E. rewrite !status_from_str_str in E. by simplify_eq. Qed.

Lemma status_from_str_Some x s : status_from_str x = Some s ↔ x = status_str s.
Proof.
  split; [|intros ->; apply status_from_str_str]. unfold status_from_str.
  repeat case_decide; intros; by simplify_eq.
Qed.

#[export] Hint Rewrite status_from_str_str : dbos.

(** ** Inserting a row *)

Record InsertWorkflowInput := mkInsert {
  in_workflow_id : string;
  in_status : string;
  in_name : string;
  in_queue_name : option string;
  in_authenticated_user : option string;
  in_assumed_role : option string;
  in_authenticated_roles : option string;
  in_executor_id : string;
  in_application_version : option string;
  in_application_id : option string;
  in_created_at : Z;
  in_updated_at : Z;
  in_recovery_attempts : Z;
  in_workflow_timeout_ms : option Z;
  in_workflow_deadline_epoch_ms : option Z;
  in_inputs : option string;
  in_deduplication_id : option string;
  in_priority : Z;
  in_queue_partition_key : option string;
  in_owner_xid : string;
  in_parent_workflow_id : option string;
  in_class_name : option string;
  in_config_name : option string;
  in_serialization : option string;
  in_delay_until_epoch_ms : option Z;
  in_increment : Z;
}.

Record InsertResult := mkInsertResult {
  ir_recovery_attempts : Z;
  ir_status : string;
  ir_name : string;
  ir_queue_name : option string;
  ir_owner_xid : option string;
  ir_dlq_triggered : bool;
}.

(** The row [INSERT ... VALUES] creates; the other columns have their
    defaults. *)
Definition inserted_row (i : InsertWorkflowInput) : wf_row := {|
  wf_status := in_status i;
  wf_name := in_name i;
  wf_authenticated_user := in_authenticated_user i;
  wf_assumed_role := in_assumed_role i;
  wf_authenticated_roles := in_authenticated_roles i;
  wf_output := None;
  wf_error := None;
  wf_executor_id := Some (in_executor_id i);
  wf_created_at := in_created_at i;
  wf_updated_at := in_updated_at i;
  wf_application_version := in_application_version i;
  wf_application_id := in_application_id i;
  wf_class_name := in_class_name i;
  wf_config_name := in_config_name i;
  wf_recovery_attempts := in_recovery_attempts i;
  wf_queue_name := in_queue_name i;
  wf_workflow_timeout_ms := in_workflow_timeout_ms i;
  wf_workflow_deadline_epoch_ms := in_workflow_deadline_epoch_ms i;
  wf_inputs := in_inputs i;
  wf_started_at_epoch_ms := None;
  wf_deduplication_id := in_deduplication_id i;
  wf_priority := in_priority i;
  wf_queue_partition_key := in_queue_partition_key i;
  wf_forked_from := None;
  wf_owner_xid := Some (in_owner_xid i);
  wf_parent_workflow_id := in_parent_workflow_id i;
  wf_serialization := in_serialization i;
  wf_delay_until_epoch_ms := in_delay_until_epoch_ms i;
  wf_was_forked_from := false;
  wf_rate_limited := false;
  wf_completed_at := None;
|}.

Definition queued_statuses : list string := [status_str Enqueued; status_str Delayed].

(** [ON CONFLICT (workflow_uuid) DO UPDATE SET ...]. *)
Definition on_conflict_row (i : InsertWorkflowInput) (r : wf_row) : wf_row :=
  r <| wf_recovery_attempts :=
         if sql_in (in_status i) queued_statuses then wf_recovery_attempts r
         else wf_recovery_attempts r + in_increment i |>
    <| wf_updated_at := in_updated_at i |>
    <| wf_executor_id :=
         if sql_in (in_status i) queued_statuses then wf_executor_id r else Some (in_executor_id i) |>.

(** The partial unique index [uq_workflow_status_dedup_id] on
    [(queue_name, deduplication_id)]; NULL queue names are distinct. *)
Definition dedup_clash (t : gmap string wf_row) (queue dedup : option string) : bool :=
  match queue, dedup with
  | Some q, Some d => bool_decide (map_Exists (λ _ r,
      wf_queue_name r = Some q ∧ wf_deduplication_id r = Some d) t)
  | _, _ => false
  end.

Definition unique_violation (constraint : string) : DbosError :=
  from_sqlx (SqlxDatabase (Some "23505")
    ("duplicate key value violates unique constraint " +:+ debug_str constraint)).
Definition foreign_key_violation (constraint : string) : DbosError :=
  from_sqlx (SqlxDatabase (Some "23503")
    ("insert or update violates foreign key constraint " +:+ debug_str constraint)).

(** The upsert and its [RETURNING]. *)
Definition upsert_workflow_status (i : InsertWorkflowInput) : M wf_row :=
  t ← gets_db workflow_status;
  match t !! in_workflow_id i with
  | Some r =>
      let r' := on_conflict_row i r in
      modify_db (λ d, d <| workflow_status ::= <[in_workflow_id i := r']> |>);; mret r'
  | None =>
      if dedup_clash t (in_queue_name i) (in_deduplication_id i)
      then raise (unique_violation "uq_workflow_status_dedup_id")
      else modify_db (λ d, d <| workflow_status ::= <[in_workflow_id i := inserted_row i]> |>);;
           mret (inserted_row i)
  end.

(** The dead-letter [UPDATE]. *)
Definition dead_letter_row (r : wf_row) : wf_row :=
  if decide (wf_status r = status_str Pending) then
    r <| wf_status := status_str MaxRecoveryAttemptsExceeded |> <| wf_deduplication_id := None |>
      <| wf_started_at_epoch_ms := None |> <| wf_queue_name := None |>
  else r.

(** The dead-letter condition. *)
Definition exceeds_attempts (status : string) (attempts max_retries : Z) : bool :=
  bool_decide (status ≠ status_str Success) && bool_decide (status ≠ status_str Error)
  && bool_decide (max_retries > 0) && bool_decide (attempts > wrap_i64 (max_retries + 1)).

Definition insert_workflow_status (i : InsertWorkflowInput) (max_retries : Z) : M InsertResult :=
  row ← upsert_workflow_status i;
  if negb (str_is_empty (in_name i)) && bool_decide (wf_name row ≠ in_name i) then
    raise (conflicting_workflow (in_workflow_id i)
      ("it already exists with a different name (" +:+ wf_name row +:+ ")"))
  else
    match in_queue_name i, wf_queue_name row with
    | Some want, Some have =>
        if decide (want ≠ have) then
          raise (conflicting_workflow (in_workflow_id i)
            ("it already exists in a different queue (" +:+ have +:+ ")"))
        else mret tt
    | _, _ => mret tt
    end;;
    let dlq := exceeds_attempts (wf_status row) (wf_recovery_attempts row) max_retries in
    (if dlq then
       modify_db (λ d, d <| workflow_status ::= alter dead_letter_row (in_workflow_id i) |>)
     else mret tt);;
    mret (mkInsertResult (wf_recovery_attempts row) (wf_status row) (wf_name row)
            (wf_queue_name row) (wf_owner_xid row) dlq).

(** ** Recording an outcome *)

Definition outcome_row (status : WorkflowStatusType) (output error : option string) (now : Z)
    (r : wf_row) : wf_row :=
  if bool_decide (wf_status r = status_str Cancelled)
     && sql_in (status_str status) [status_str Success; status_str Error] then r
  else
    r <| wf_status := status_str status |> <| wf_output := output |> <| wf_error := error |>
      <| wf_updated_at := now |> <| wf_completed_at := Some now |> <| wf_deduplication_id := None |>.

Section status.
Context `{Env}.

Definition update_workflow_outcome (workflow_id : string) (status : WorkflowStatusType)
    (output error : option string) : M unit :=
  now ← now_epoch_ms;
  modify_db (λ d, d <| workflow_status ::= alter (outcome_row status output error now) workflow_id |>).

(** ** Polling for a result *)

Inductive AwaitOutcome :=
  | AwaitSuccess (output serialization : option string)
  | AwaitError (error serialization : option string)
  | AwaitCancelled
  | AwaitDeadLetter (recovery_attempts : Z).

(** What one poll of the row decides; [None] is to keep waiting. *)
Definition await_outcome (row : option wf_row) : option AwaitOutcome :=
  r ← row;
  match status_from_str (wf_status r) with
  | Some Success => Some (AwaitSuccess (wf_output r) (wf_serialization r))
  | Some Error => Some (AwaitError (wf_error r) (wf_serialization r))
  | Some Cancelled => Some AwaitCancelled
  | Some MaxRecoveryAttemptsExceeded => Some (AwaitDeadLetter (wf_recovery_attempts r))
  | _ => None
  end.

(** The poll loop; [None] is a loop still waiting after [fuel] polls. *)
Fixpoint await_workflow_result (fuel : nat) (workflow_id : string) : M (option AwaitOutcome) :=
  match fuel with
  | O => mret None
  | S fuel =>
      row ← gets_db (λ d, workflow_status d !! workflow_id);
      match await_outcome row with
      | Some outcome => mret (Some outcome)
      | None => wait;; await_workflow_result fuel workflow_id
      end
  end.

Definition get_status (workflow_id : string) : M (option string) :=
  gets_db (λ d, wf_status <$> workflow_status d !! workflow_id).
End status.

(** ** Listing the workflows to recover *)

Record RecoverableWorkflow := mkRecoverable {
  rw_id : string;
  rw_name : string;
  rw_inputs : option string;
  rw_serialization : option string;
  rw_queue_name : option string;
  rw_authenticated_user : option string;
  rw_assumed_role : option string;
  rw_authenticated_roles : option string;
  rw_config_name : option string;
}.

(** The [WHERE] of the listing. *)
Definition recoverable (executor_ids : list string) (application_version : string) (r : wf_row) : bool :=
  bool_decide (wf_status r = status_str Pending) && sql_any (wf_executor_id r) executor_ids
  && sql_eq (wf_application_version r) application_version.

Definition list_pending_for_recovery `{PgScan} (executor_ids : list string)
    (application_version : string) : M (list RecoverableWorkflow) :=
  gets_db (λ d,
    (λ kr, mkRecoverable kr.1 (wf_name kr.2) (wf_inputs kr.2) (wf_serialization kr.2)
             (wf_queue_name kr.2) (wf_authenticated_user kr.2) (wf_assumed_role kr.2)
             (wf_authenticated_roles kr.2) (wf_config_name kr.2))
    <$> select_where (λ _, recoverable executor_ids application_version) (workflow_status d)).

(** ** Lemmas *)

(** [r'] is [r] up to the columns an insert on conflict, a dequeue or the
    dead-letter move may change: what the workflow is, and what it produced,
    is the same. *)
Definition same_work (r r' : wf_row) : Prop :=
  r' = r <| wf_status := wf_status r' |> <| wf_recovery_attempts := wf_recovery_attempts r' |>
         <| wf_updated_at := wf_updated_at r' |> <| wf_executor_id := wf_executor_id r' |>
         <| wf_deduplication_id := wf_deduplication_id r' |>
         <| wf_started_at_epoch_ms := wf_started_at_epoch_ms r' |>
         <| wf_queue_name := wf_queue_name r' |>.

Lemma on_conflict_same_work i r : same_work r (on_conflict_row i r).
Proof. by destruct r. Qed.

Lemma dead_letter_same_work r : same_work r (dead_letter_row r).
Proof. unfold dead_letter_row. case_decide; by destruct r. Qed.

#[export] Instance same_work_refl : Reflexive same_work.
Proof. by intros []. Qed.

#[export] Instance same_work_trans : Transitive same_work.
Proof.
  unfold same_work. intros r1 r2 r3 H12 H23. rewrite H23. rewrite H12 at 1. by destruct r1.
Qed.

#[export] Hint Resolve on_conflict_same_work dead_letter_same_work : dbos.

(** The effect of the whole insert on the tables, whatever its result. *)
Lemma insert_existing_effect i mr w r res w' :
  workflow_status (w_db w) !! in_workflow_id i = Some r →
  insert_workflow_status i mr w = (res, w') →
  ∃ r', w' = w <| w_db ::= set_field workflow_status <[in_workflow_id i := r']> |> ∧
        (r' = on_conflict_row i r ∨
         r' = dead_letter_row (on_conflict_row i r) ∧ ∃ ir, res = Ok ir ∧ ir_dlq_triggered ir = true).
Proof.
  intros Hr. unfold insert_workflow_status, upsert_workflow_status. run_M. rewrite Hr.
  destruct (negb _ && _); [intros; simplify_eq/=; eauto|].
  change (wf_queue_name (on_conflict_row i r)) with (wf_queue_name r).
  destruct (exceeds_attempts _ _ _) eqn:E;
    destruct (in_queue_name i), (wf_queue_name r); simpl; try case_decide; intros;
    simplify_eq/=; eauto.
  all: rewrite alter_insert_eq; eexists; split; [done | right; eauto].
Qed.

(** An insert of a new id. *)
Lemma insert_new_effect i mr w :
  workflow_status (w_db w) !! in_workflow_id i = None →
  insert_workflow_status i mr w =
  if dedup_clash (workflow_status (w_db w)) (in_queue_name i) (in_deduplication_id i)
  then (Err (unique_violation "uq_workflow_status_dedup_id"), w)
  else
    let dlq := exceeds_attempts (in_status i) (in_recovery_attempts i) mr in
    let row := if dlq then dead_letter_row (inserted_row i) else inserted_row i in
    (Ok (mkInsertResult (in_recovery_attempts i) (in_status i) (in_name i) (in_queue_name i)
           (Some (in_owner_xid i)) dlq),
     w <| w_db ::= set_field workflow_status <[in_workflow_id i := row]> |>).
Proof.
  intros Hn. unfold insert_workflow_status, upsert_workflow_status. run_M. rewrite Hn.
  destruct (dedup_clash _ _ _); simpl; [done|].
  rewrite bool_decide_eq_false_2 by (by intros []). rewrite andb_false_r.
  destruct (exceeds_attempts _ _ _);
    (destruct (in_queue_name i) as [q|]; simpl; [rewrite decide_False by (by intros []); simpl|]);
    by rewrite ?alter_insert_eq.
Qed.

(** The common case: the attempts of a new row are within the limit. *)
Lemma exceeds_attempts_fresh status attempts mr :
  attempts ≤ 1 → mr < 2 ^ 63 - 1 → exceeds_attempts status attempts mr = false.
Proof.
  intros Ha Hm. unfold exceeds_attempts.
  destruct (decide (mr > 0)) as [Hp|]; [|by rewrite (bool_decide_eq_false_2 (mr > 0)), andb_false_r].
  rewrite wrap_i64_id by (unfold in_i64; lia).
  rewrite (bool_decide_eq_false_2 (attempts > _)) by lia. apply andb_false_r.
Qed.

(** Reinserting a known row, when names agree and no queue is asked for. *)
Lemma insert_existing_same i mr w r :
  workflow_status (w_db w) !! in_workflow_id i = Some r →
  wf_name r = in_name i → in_queue_name i = None →
  let r1 := on_conflict_row i r in
  let dlq := exceeds_attempts (wf_status r) (wf_recovery_attempts r1) mr in
  insert_workflow_status i mr w =
  (Ok (mkInsertResult (wf_recovery_attempts r1) (wf_status r) (wf_name r) (wf_queue_name r)
         (wf_owner_xid r) dlq),
   w <| w_db ::= set_field workflow_status
          <[in_workflow_id i := if dlq then dead_letter_row r1 else r1]> |>).
Proof.
  intros Hr Hname Hq. unfold insert_workflow_status, upsert_workflow_status. run_M. rewrite Hr, Hq.
  change (wf_name (on_conflict_row i r)) with (wf_name r).
  rewrite bool_decide_eq_false_2 by (intros []; done). rewrite andb_false_r. simpl.
  destruct (exceeds_attempts _ _ _); simpl; by rewrite ?alter_insert_eq.
Qed.

(** [n] reinsertions of the same input, as [n] recoveries perform them. *)
Fixpoint reinsert (n : nat) (i : InsertWorkflowInput) (mr : Z) : M unit :=
  match n with
  | O => mret tt
  | S n => reinsert n i mr;; ir ← insert_workflow_status i mr; mret tt
  end.

Definition is_recovery_input (i : InsertWorkflowInput) : Prop :=
  in_status i = status_str Pending ∧ in_queue_name i = None ∧ in_increment i = 1.

Lemma reinsert_pending n i mr w r :
  is_recovery_input i →
  workflow_status (w_db w) !! in_workflow_id i = Some r →
  wf_name r = in_name i → wf_status r = status_str Pending →
  0 < mr < 2 ^ 63 - 1 → wf_recovery_attempts r + Z.of_nat n ≤ mr + 1 →
  ∃ w' r', reinsert n i mr w = (Ok tt, w') ∧
    workflow_status (w_db w') !! in_workflow_id i = Some r' ∧
    wf_name r' = in_name i ∧ wf_status r' = status_str Pending ∧
    wf_recovery_attempts r' = wf_recovery_attempts r + Z.of_nat n.
Proof.
  intros (Hs & Hq & Hi) Hr Hname Hst Hmr. induction n as [|n IH]; intros Hn.
  { exists w, r. split_and!; [done..|lia]. }
  destruct IH as (w1 & r1 & Hrun & Hr1 & Hname1 & Hst1 & Hatt); [lia|].
  assert (wf_recovery_attempts (on_conflict_row i r1) = wf_recovery_attempts r1 + 1) as Ha.
  { unfold on_conflict_row. simpl. by rewrite Hs, Hi. }
  assert (exceeds_attempts (wf_status r1) (wf_recovery_attempts (on_conflict_row i r1)) mr = false) as E.
  { unfold exceeds_attempts. rewrite Ha, Hatt, wrap_i64_id by (unfold in_i64; lia).
    rewrite (bool_decide_eq_false_2 (_ > mr + 1)) by lia. apply andb_false_r. }
  exists (w1 <| w_db ::= set_field workflow_status <[in_workflow_id i := on_conflict_row i r1]> |>),
    (on_conflict_row i r1).
  split; [|split_and!; [apply lookup_insert_eq | done | done | rewrite Ha, Hatt; lia]].
  simpl. unfold mbind at 1, M_bind at 1. rewrite Hrun. unfold mbind, M_bind.
  rewrite (insert_existing_same i mr w1 r1) by done. by rewrite E.
Qed.

(** ** Properties *)

(** Inserting an id that already exists never loses work: whatever the
    result, the row keeps its name, input, output, error, owner, identity and
    every other column but the bookkeeping ones, its status either stays or
    moves from [PENDING] to the dead-letter status (which the result reports),
    and no other row and no other table changes. *)
Theorem insert_preserves_work i mr w r res w' :
  workflow_status (w_db w) !! in_workflow_id i = Some r →
  insert_workflow_status i mr w = (res, w') →
  ∃ r', workflow_status (w_db w') = <[in_workflow_id i := r']> (workflow_status (w_db w)) ∧
    same_work r r' ∧
    (wf_status r' = wf_status r ∨
     wf_status r = status_str Pending ∧ wf_status r' = status_str MaxRecoveryAttemptsExceeded ∧
     ∃ ir, res = Ok ir ∧ ir_dlq_triggered ir = true) ∧
    operation_outputs (w_db w') = operation_outputs (w_db w) ∧
    notifications (w_db w') = notifications (w_db w) ∧ streams (w_db w') = streams (w_db w).
Proof.
  intros Hr Hins. destruct (insert_existing_effect _ _ _ _ _ _ Hr Hins) as (r' & -> & Hr').
  exists r'. split; [done|]. destruct Hr' as [->|[-> Hres]].
  - split_and!; auto with dbos.
  - split; [etrans; [apply on_conflict_same_work | apply dead_letter_same_work]|]. split_and!; try done. unfold dead_letter_row.
    case_decide; [right | left]; done.
Qed.

(** C30: a directly started workflow (one attempt recorded) can be recovered
    exactly [max_retries] times: each of those reinsertions keeps it
    [PENDING] and counts one attempt, and the next one moves it to the
    dead-letter status and says so. *)
Theorem dead_letter_threshold i mr w r k :
  is_recovery_input i →
  workflow_status (w_db w) !! in_workflow_id i = Some r →
  wf_name r = in_name i → wf_status r = status_str Pending → wf_recovery_attempts r = 1 →
  0 < mr < 2 ^ 63 - 1 → Z.of_nat k ≤ mr →
  ∃ w' r', reinsert k i mr w = (Ok tt, w') ∧
    workflow_status (w_db w') !! in_workflow_id i = Some r' ∧
    wf_status r' = status_str Pending ∧ wf_recovery_attempts r' = 1 + Z.of_nat k ∧
    (Z.of_nat k = mr → ∃ ir w'' r'',
      insert_workflow_status i mr w' = (Ok ir, w'') ∧ ir_dlq_triggered ir = true ∧
      workflow_status (w_db w'') !! in_workflow_id i = Some r'' ∧
      wf_status r'' = status_str MaxRecoveryAttemptsExceeded ∧ wf_queue_name r'' = None).
Proof.
  intros Hi Hr Hname Hst Hatt Hmr Hk.
  destruct (reinsert_pending k i mr w r) as (w' & r' & Hrun & Hr' & Hname' & Hst' & Hatt');
    [done..|lia|].
  exists w', r'. split_and!; [done|done|done|lia|]. intros <-.
  rewrite (insert_existing_same i _ w' r') by (done || apply Hi).
  assert (exceeds_attempts (wf_status r') (wf_recovery_attempts (on_conflict_row i r')) (Z.of_nat k)
          = true) as E.
  { unfold exceeds_attempts, on_conflict_row. simpl.
    destruct Hi as (-> & _ & ->). rewrite Hst', Hatt', Hatt, wrap_i64_id by (unfold in_i64; lia).
    rewrite !bool_decide_eq_true_2 by (done || simpl; lia). done. }
  rewrite E. do 3 eexists. split; [done|]. split; [done|]. split; [apply lookup_insert_eq|].
  unfold dead_letter_row. rewrite decide_True by done. done.
Qed.

(** ** Polling *)

Lemma await_outcome_terminal row :
  is_Some (await_outcome row) ↔
  ∃ r s, row = Some r ∧ wf_status r = status_str s ∧ is_terminal s = true.
Proof.
  destruct row as [r|]; [|by split; [intros [] | intros (? & ? & ? & _)]]. simpl.
  destruct (status_from_str (wf_status r)) as [s|] eqn:E.
  - apply status_from_str_Some in E. split.
    + intros Ho. exists r, s. split_and!; [done..|]. destruct s; done || by destruct Ho.
    + intros (r' & s' & ? & Hs' & Ht). simplify_eq. rewrite E in Hs'. apply (inj _) in Hs' as ->.
      destruct s'; done.
  - split; [by intros []|]. intros (r' & s' & ? & Hs' & _). simplify_eq.
    by rewrite Hs', status_from_str_str in E.
Qed.

Section polling.
Context `{HE : Env}.

(** The world after [k] waits. *)
Fixpoint after_waits (k : nat) (w : World) : World :=
  match k with O => w | S k => after_waits k (snd (wait w)) end.

Definition row_after (k : nat) (id : string) (w : World) : option wf_row :=
  workflow_status (w_db (after_waits k w)) !! id.

Lemma await_result_step fuel id w :
  await_workflow_result (S fuel) id w =
  match await_outcome (row_after 0 id w) with
  | Some o => (Ok (Some o), w)
  | None => await_workflow_result fuel id (after_waits 1 w)
  end.
Proof. simpl. run_M. unfold compose, row_after. simpl. by destruct (await_outcome _). Qed.

(** The workflow has finished, at the [k]-th poll. *)
Definition finished_at (k : nat) (id : string) (w : World) : Prop :=
  ∃ r, row_after k id w = Some r ∧
    wf_status r ∈ ["SUCCESS"; "ERROR"; "CANCELLED"; "MAX_RECOVERY_ATTEMPTS_EXCEEDED"].

(** The outcome tells the row. *)
Definition tells (o : AwaitOutcome) (r : wf_row) : Prop :=
  match o with
  | AwaitSuccess output ser =>
      wf_status r = "SUCCESS" ∧ output = wf_output r ∧ ser = wf_serialization r
  | AwaitError error ser => wf_status r = "ERROR" ∧ error = wf_error r ∧ ser = wf_serialization r
  | AwaitCancelled => wf_status r = "CANCELLED"
  | AwaitDeadLetter attempts =>
      wf_status r = "MAX_RECOVERY_ATTEMPTS_EXCEEDED" ∧ attempts = wf_recovery_attempts r
  end.

Lemma await_outcome_tells k id w :
  match await_outcome (row_after k id w) with
  | Some o => finished_at k id w ∧ ∃ r, row_after k id w = Some r ∧ tells o r
  | None => ¬ finished_at k id w
  end.
Proof.
  unfold await_outcome, finished_at. destruct (row_after k id w) as [r|]; simpl; [|by intros (? & ? & _)].
  destruct (status_from_str (wf_status r)) as [s|] eqn:E.
  - apply status_from_str_Some in E. destruct s; simpl;
      try (by split; [exists r; split; [done|]; rewrite E; set_solver | exists r]);
      intros (? & [= <-] & Hin); rewrite E in Hin;
      repeat (apply elem_of_cons in Hin as [Hin|Hin]; [discriminate Hin|]); by apply not_elem_of_nil in Hin.
  - intros (? & [= <-] & Hin).
    repeat (apply elem_of_cons in Hin as [Hin|Hin]; [by rewrite Hin in E|]). by apply not_elem_of_nil in Hin.
Qed.

(** C38: the poll loop returns at the first poll that finds the workflow in
    one of its four final statuses, with exactly what the row says then: the
    output of a [SUCCESS], the error of an [ERROR], the cancellation, or the
    attempts of a dead-lettered workflow.  It is still waiting after [fuel]
    polls exactly when none of them found it finished, and it never fails,
    whether or not the row exists when the waiting starts. *)
Theorem await_workflow_result_spec fuel id w :
  match await_workflow_result fuel id w with
  | (Ok (Some o), w') =>
      ∃ k r, (k < fuel)%nat ∧ (∀ j, (j < k)%nat → ¬ finished_at j id w) ∧ finished_at k id w ∧
        row_after k id w = Some r ∧ tells o r ∧ w' = after_waits k w
  | (Ok None, w') => (∀ k, (k < fuel)%nat → ¬ finished_at k id w) ∧ w' = after_waits fuel w
  | (Err _, _) => False
  end.
Proof.
  revert w. induction fuel as [|fuel IH]; intros w.
  { split; [intros; lia|done]. }
  rewrite await_result_step. pose proof (await_outcome_tells 0 id w) as H0.
  destruct (await_outcome (row_after 0 id w)) as [o|].
  { destruct H0 as [Hf (r & Hr & Ht)]. exists 0%nat, r. split_and!; [lia|lia|done..]. }
  specialize (IH (after_waits 1 w)).
  destruct (await_workflow_result fuel id (after_waits 1 w)) as [[[o|]|e] w']; [| |done].
  - destruct IH as (k & r & Hk & Hlt & Hf & Hr & Ht & ->). exists (S k), r.
    split_and!; [lia| |done..]. intros [|j] Hj; [done|]. apply (Hlt j). lia.
  - destruct IH as [Hall ->]. split; [|done]. intros [|k] Hk; [done|]. apply (Hall k). lia.
Qed.
End polling.

(** The rows the listing selects. *)
Lemma recoverable_spec executors version r :
  recoverable executors version r = true ↔
  wf_status r = "PENDING" ∧ (∃ e, wf_executor_id r = Some e ∧ e ∈ executors) ∧
  wf_application_version r = Some version.
Proof.
  unfold recoverable, sql_any, sql_eq. rewrite !andb_true_iff, !bool_decide_eq_true.
  destruct (wf_executor_id r); rewrite ?bool_decide_eq_true; naive_solver.
Qed.

(** The recovery listing holds exactly the [PENDING] rows of the given
    executors at the given application version, each once: a workflow of
    another executor or of another version is never picked up. *)
Theorem list_pending_for_recovery_spec `{HS : PgScan, !PgScanLaws HS} executors version w :
  ∃ l, list_pending_for_recovery executors version w = (Ok l, w) ∧
    NoDup (rw_id <$> l) ∧
    ∀ id, id ∈ rw_id <$> l ↔
      ∃ r e, workflow_status (w_db w) !! id = Some r ∧ wf_status r = status_str Pending ∧
             wf_executor_id r = Some e ∧ e ∈ executors ∧ wf_application_version r = Some version.
Proof.
  eexists. split; [done|]. simpl. rewrite <- list_fmap_compose.
  change (rw_id ∘ _) with (@fst string wf_row). split; [apply select_where_nodup|].
  intros id. rewrite list_elem_of_fmap. split.
  - intros ([k r] & -> & Hin). apply elem_of_select_where in Hin as [Hr Hp].
    unfold recoverable, sql_any, sql_eq in Hp. simpl.
    rewrite !andb_true_iff, !bool_decide_eq_true in Hp. destruct Hp as [[Hs He] Hv].
    destruct (wf_executor_id r) as [e|] eqn:Ee; [|done]. apply bool_decide_eq_true in He.
    by exists r, e.
  - intros (r & e & Hr & Hs & He & Hin & Hv). exists (id, r). split; [done|].
    apply elem_of_select_where. split; [done|].
    unfold recoverable, sql_any, sql_eq. rewrite He.
    by rewrite !bool_decide_eq_true_2.
Qed.
