(* ===== verification/Lifecycle.v ===== *)
(** * The life cycle of a workflow

    What the tables may go through, stated without any of the statements that
    change them: the abstract state of one workflow and its transitions, the
    well-formedness of the tables, and the steps from one state of the
    database to the next.  Evolution.v shows that every operation of db/*.rs
    takes such steps only, System.v that the whole program does. *)
From S2P Require Import Prelude Database Status.

Local Open Scope string_scope.
Local Open Scope Z_scope.
Local Open Scope dbos_scope.

(** ** One workflow *)

(** [l_started], [l_completed] and [l_delayed] say whether the columns of
    that name are set. *)
Record life := mkLife {
  l_phase : WorkflowStatusType;
  l_queue : option string;
  l_dedup : option string;
  l_started : bool;
  l_completed : bool;
  l_delayed : bool;
  l_output : option string;
  l_error : option string;
}.

Definition is_set {A} (o : option A) : bool := bool_decide (is_Some o).

Definition life_of (r : wf_row) : option life :=
  phase ← status_from_str (wf_status r);
  Some (mkLife phase (wf_queue_name r) (wf_deduplication_id r) (is_set (wf_started_at_epoch_ms r))
          (is_set (wf_completed_at r)) (is_set (wf_delay_until_epoch_ms r)) (wf_output r) (wf_error r)).

(** Nothing was decided about the workflow's result yet. *)
Definition undecided (l : life) : Prop :=
  l_completed l = false ∧ l_output l = None ∧ l_error l = None.

(** A well-formed state. *)
Definition life_ok (l : life) : Prop :=
  match l_phase l with
  | Pending => undecided l ∧ (is_Some (l_queue l) → l_started l = true)
  | Enqueued => undecided l ∧ is_Some (l_queue l) ∧ l_started l = false
  | Delayed => undecided l ∧ is_Some (l_queue l) ∧ l_started l = false ∧ l_delayed l = true
  | Success => l_completed l = true ∧ is_Some (l_output l) ∧ l_error l = None ∧ l_dedup l = None
  | Error => l_completed l = true ∧ l_output l = None ∧ is_Some (l_error l) ∧ l_dedup l = None
  | Cancelled =>
      l_completed l = true ∧ l_output l = None ∧ l_error l = None ∧
      l_dedup l = None ∧ l_queue l = None ∧ l_started l = false
  | MaxRecoveryAttemptsExceeded =>
      undecided l ∧ l_dedup l = None ∧ l_queue l = None ∧ l_started l = false
  end.

#[export] Instance life_ok_dec l : Decision (life_ok l).
Proof. unfold life_ok, undecided. destruct (l_phase l); apply _. Defined.

(** The state a workflow is created in. *)
Definition life_init (l : life) : Prop :=
  life_ok l ∧ (l_phase l = Pending ∨ l_phase l = Enqueued ∨ l_phase l = Delayed).

(** The transitions. *)
Inductive life_step (l : life) : life → Prop :=
  | Promoted :
      l_phase l = Delayed →
      life_step l (mkLife Enqueued (l_queue l) (l_dedup l) (l_started l) (l_completed l)
                     (l_delayed l) (l_output l) (l_error l))
  | Claimed :
      l_phase l = Enqueued →
      life_step l (mkLife Pending (l_queue l) (l_dedup l) true (l_completed l)
                     (l_delayed l) (l_output l) (l_error l))
  | Requeued :
      l_phase l = Pending → is_Some (l_queue l) →
      life_step l (mkLife Enqueued (l_queue l) (l_dedup l) false (l_completed l)
                     (l_delayed l) (l_output l) (l_error l))
  | DeadLettered :
      l_phase l = Pending →
      life_step l (mkLife MaxRecoveryAttemptsExceeded None None false (l_completed l)
                     (l_delayed l) (l_output l) (l_error l))
  | Succeeded output :
      l_phase l ≠ Cancelled →
      life_step l (mkLife Success (l_queue l) None (l_started l) true
                     (l_delayed l) (Some output) None)
  | Failed error :
      l_phase l ≠ Cancelled →
      life_step l (mkLife Error (l_queue l) None (l_started l) true
                     (l_delayed l) None (Some error))
  | WasCancelled :
      l_phase l ≠ Success → l_phase l ≠ Error → l_phase l ≠ Cancelled →
      life_step l (mkLife Cancelled None None false true
                     (l_delayed l) (l_output l) (l_error l))
  | Resumed queue :
      l_phase l ≠ Success → l_phase l ≠ Error →
      life_step l (mkLife Enqueued (Some queue) None false false
                     (l_delayed l) (l_output l) (l_error l)).

Lemma life_step_ok l l' : life_step l l' → life_ok l → life_ok l'.
Proof.
  destruct l as [phase queue dedup started completed delayed output error].
  intros Hstep. destruct Hstep; destruct phase; unfold life_ok, undecided; simpl in *;
    intuition (subst; eauto; congruence).
Qed.

(** A result, once there, is only ever replaced by another result. *)
Definition decided (l : life) : Prop := l_phase l = Success ∨ l_phase l = Error.

Lemma decided_step l l' : life_step l l' → decided l → decided l'.
Proof. unfold decided. intros []; simpl; intuition congruence. Qed.

(** Only a resumption takes a workflow out of a cancellation. *)
Lemma cancelled_step l l' :
  life_step l l' → l_phase l = Cancelled → ∃ queue, l_phase l' = Enqueued ∧ l_queue l' = Some queue.
Proof. intros []; simpl; try congruence. eauto. Qed.

(** ** Rows *)

(** What a workflow is: the columns no transition touches. *)
Definition origin (r : wf_row) :=
  (wf_name r, wf_inputs r, wf_serialization r, wf_created_at r,
   (wf_authenticated_user r, wf_assumed_role r, wf_authenticated_roles r),
   (wf_class_name r, wf_config_name r, wf_application_id r),
   (wf_parent_workflow_id r, wf_forked_from r, wf_owner_xid r),
   (wf_priority r, wf_queue_partition_key r, wf_workflow_timeout_ms r)).

(** From one state of a row to the next: the same workflow, which made at
    most one transition. *)
Definition moves (r r' : wf_row) : Prop :=
  origin r' = origin r ∧
  ∃ l l', life_of r = Some l ∧ life_of r' = Some l' ∧ (l' = l ∨ life_step l l').

Definition row_ok (r : wf_row) : Prop := ∃ l, life_of r = Some l ∧ life_ok l.
Definition created (r : wf_row) : Prop := ∃ l, life_of r = Some l ∧ life_init l.

Lemma moves_ok r r' : moves r r' → row_ok r → row_ok r'.
Proof.
  intros (_ & l & l' & Hl & Hl' & Hstep) (l0 & Hl0 & Hok). simplify_eq. exists l'. split; [done|].
  destruct Hstep as [->|Hstep]; [done|]. by eapply life_step_ok.
Qed.

Lemma moves_refl r : row_ok r → moves r r.
Proof. intros (l & Hl & _). split; [done|]. by exists l, l; auto. Qed.

Lemma created_ok r : created r → row_ok r.
Proof. intros (l & Hl & Hok & _). by exists l. Qed.

(** A transition never takes a deduplication id. *)
Lemma moves_dedup r r' q d :
  moves r r' → wf_queue_name r' = Some q → wf_deduplication_id r' = Some d →
  wf_queue_name r = Some q ∧ wf_deduplication_id r = Some d.
Proof.
  intros (_ & l & l' & Hl & Hl' & Hstep) Hq Hd. unfold life_of in *.
  destruct (status_from_str (wf_status r)); simplify_eq/=.
  destruct (status_from_str (wf_status r')); simplify_eq/=.
  destruct Hstep as [E|Hstep]; [injection E; intros; split; congruence|].
  inversion Hstep; simpl in *; split; congruence.
Qed.

(** ** The tables *)

Definition holds_slot (queue dedup : string) (r : wf_row) : Prop :=
  wf_queue_name r = Some queue ∧ wf_deduplication_id r = Some dedup.

Definition slots_unique (t : gmap string wf_row) : Prop :=
  ∀ id id' r r' q d, t !! id = Some r → t !! id' = Some r' →
    holds_slot q d r → holds_slot q d r' → id = id'.

Record db_ok (d : Db) : Prop := {
  db_rows id r : workflow_status d !! id = Some r → row_ok r;
  db_slots : slots_unique (workflow_status d);
  db_refs : refs_ok d;
  db_offsets id key o r : streams d !! (id, key, o) = Some r → 0 ≤ o;
}.

Lemma empty_db_ok : db_ok empty_db.
Proof.
  split; [| |split|]; unfold slots_unique, empty_db; simpl; intros; by simplify_map_eq.
Qed.

(** The workflows that somebody may delete. *)
Class Deletable := may_delete : string → Prop.

Section steps.
Context `{Deletable}.

(** One step of the database. *)
Inductive db_step (d : Db) : Db → Prop :=
  | Create id r :
      workflow_status d !! id = None → created r →
      (∀ id' r' q s, workflow_status d !! id' = Some r' → holds_slot q s r → ¬ holds_slot q s r') →
      db_step d (d <| workflow_status ::= <[id := r]> |>)
  | Move t :
      (∀ id, option_Forall2 moves (workflow_status d !! id) (t !! id)) →
      db_step d (d <| workflow_status := t |>)
  | Delete gone :
      (∀ id, gone id = true → may_delete id) → db_step d (delete_cascade gone d)
  | Record_operation id fid o :
      is_Some (workflow_status d !! id) → operation_outputs d !! (id, fid) = None →
      db_step d (d <| operation_outputs ::= <[(id, fid) := o]> |>)
  | Deliver uuid n :
      is_Some (workflow_status d !! nt_destination_uuid n) → notifications d !! uuid = None →
      nt_consumed n = false →
      db_step d (d <| notifications ::= <[uuid := n]> |>)
  | Consume uuid :
      db_step d (d <| notifications ::= alter (set_field nt_consumed (λ _, true)) uuid |>)
  | Publish id key e :
      is_Some (workflow_status d !! id) →
      db_step d (d <| workflow_events ::= <[(id, key) := e]> |>)
  | Log_event id fid key e :
      is_Some (workflow_status d !! id) →
      db_step d (d <| workflow_events_history ::= <[(id, fid, key) := e]> |>)
  | Append id key o r :
      is_Some (workflow_status d !! id) → streams d !! (id, key, o) = None → 0 ≤ o →
      db_step d (d <| streams ::= <[(id, key, o) := r]> |>)
  | Copy id ops evs hist sts :
      is_Some (workflow_status d !! id) →
      (∀ k v, ops !! k = Some v → k.1 = id) → (∀ k v, evs !! k = Some v → k.1 = id) →
      (∀ k v, hist !! k = Some v → k.1.1 = id) →
      (∀ k v, sts !! k = Some v → k.1.1 = id ∧ 0 ≤ k.2) →
      ops ##ₘ operation_outputs d → evs ##ₘ workflow_events d →
      hist ##ₘ workflow_events_history d → sts ##ₘ streams d →
      db_step d (mkDb (workflow_status d) (ops ∪ operation_outputs d) (notifications d)
                   (evs ∪ workflow_events d) (hist ∪ workflow_events_history d) (sts ∪ streams d)).

(** ** Steps keep the tables well-formed *)

Lemma slots_unique_moves t t' :
  (∀ id, option_Forall2 moves (t !! id) (t' !! id)) → slots_unique t → slots_unique t'.
Proof.
  intros Hmv Huniq id id' r r' q s Hr Hr' [Hq Hs] [Hq' Hs'].
  pose proof (Hmv id) as H1. pose proof (Hmv id') as H2. rewrite Hr in H1. rewrite Hr' in H2.
  inversion H1 as [r0 ? Hm E|]; inversion H2 as [r0' ? Hm' E'|]; simplify_eq.
  apply (Huniq id id' r0 r0' q s); [done..| |]; by eapply moves_dedup.
Qed.

Lemma slots_unique_insert t id r :
  t !! id = None →
  (∀ id' r' q s, t !! id' = Some r' → holds_slot q s r → ¬ holds_slot q s r') →
  slots_unique t → slots_unique (<[id := r]> t).
Proof.
  intros Hn Hfree Huniq i j ri rj q s. rewrite !lookup_insert_Some.
  intros [[<- <-]|[? Hi]] [[<- <-]|[? Hj]] Hsi Hsj; [done| | |by eapply Huniq].
  - by destruct (Hfree j rj q s).
  - by destruct (Hfree i ri q s).
Qed.

Lemma slots_unique_subseteq t t' : t' ⊆ t → slots_unique t → slots_unique t'.
Proof.
  intros Hsub Huniq id id' r r' q s Hr Hr'. apply Huniq; by eapply lookup_weaken.
Qed.

(** A row set that keeps its ids keeps the references to them. *)
Lemma refs_ok_dom d t :
  (∀ id, is_Some (workflow_status d !! id) → is_Some (t !! id)) →
  refs_ok d → refs_ok (d <| workflow_status := t |>).
Proof. intros Hdom []. split; simpl; eauto. Qed.

Lemma step_refs_ok d d' : db_step d d' → refs_ok d → refs_ok d'.
Proof.
  intros Hstep Hrefs. destruct Hstep as [id r Hn|t Hmv|gone|id fid o Hid|u n Hid|u|id key e Hid
    |id fid key e Hid|id key o r Hid|id ops evs hist sts Hid Hops Hevs Hhist Hsts].
  - apply (refs_ok_dom d (<[id := r]> (workflow_status d))); [|done].
    intros j Hj. destruct (decide (j = id)) as [->|]; by rewrite ?lookup_insert_eq, ?lookup_insert_ne.
  - apply refs_ok_dom; [|done]. intros id [r Hr]. specialize (Hmv id). rewrite Hr in Hmv.
    inversion Hmv. by eexists.
  - by apply delete_cascade_refs.
  - destruct Hrefs. split; simpl; [|eauto..]. intros i f o'. rewrite lookup_insert_Some.
    intros [[? ?]|[? ?]]; simplify_eq; eauto.
  - destruct Hrefs. split; simpl; [eauto| |eauto..]. intros i n'. rewrite lookup_insert_Some.
    intros [[? ?]|[? ?]]; simplify_eq; eauto.
  - destruct Hrefs as [? Hn]. split; simpl; [eauto| |eauto..]. intros i n'.
    rewrite lookup_alter_Some. intros [(? & ? & ? & ->)|[? ?]]; simplify_eq/=; eauto.
  - destruct Hrefs. split; simpl; [eauto..| |eauto|eauto]. intros i k e'. rewrite lookup_insert_Some.
    intros [[? ?]|[? ?]]; simplify_eq; eauto.
  - destruct Hrefs. split; simpl; [eauto..| |eauto]. intros i f k e'. rewrite lookup_insert_Some.
    intros [[? ?]|[? ?]]; simplify_eq; eauto.
  - destruct Hrefs. split; simpl; [eauto..|]. intros i k o' r'. rewrite lookup_insert_Some.
    intros [[? ?]|[? ?]]; simplify_eq; eauto.
  - destruct Hrefs. split; simpl; intros *.
    + intros [Hv|[_ ?]]%lookup_union_Some_raw; [apply Hops in Hv; by subst|eauto].
    + eauto.
    + intros [Hv|[_ ?]]%lookup_union_Some_raw; [apply Hevs in Hv; by subst|eauto].
    + intros [Hv|[_ ?]]%lookup_union_Some_raw; [apply Hhist in Hv; by subst|eauto].
    + intros [Hv|[_ ?]]%lookup_union_Some_raw; [apply Hsts in Hv as [? _]; by subst|eauto].
Qed.

Lemma step_rows_ok d d' :
  db_step d d' → (∀ id r, workflow_status d !! id = Some r → row_ok r) →
  ∀ id r, workflow_status d' !! id = Some r → row_ok r.
Proof.
  intros Hstep Hok. destruct Hstep as [id0 r0 _ Hc|t Hmv|gone| | | | | | |]; simpl; try done.
  - intros id r [[? ?]|[? ?]]%lookup_insert_Some; simplify_eq; [by apply created_ok | eauto].
  - intros id r Hr. specialize (Hmv id). rewrite Hr in Hmv. inversion Hmv as [r0 ? Hm|]; simplify_eq.
    eapply moves_ok; eauto.
  - intros id r [Hr _]%map_lookup_filter_Some. eauto.
Qed.

Lemma step_slots_unique d d' :
  db_step d d' → slots_unique (workflow_status d) → slots_unique (workflow_status d').
Proof.
  intros Hstep Hu. destruct Hstep as [id0 r0 Hn _ Hfree|t Hmv|gone| | | | | | |]; simpl; try done.
  - by apply slots_unique_insert.
  - by eapply slots_unique_moves.
  - eapply slots_unique_subseteq; [|done]. apply map_filter_subseteq.
Qed.

Lemma db_step_ok d d' : db_step d d' → db_ok d → db_ok d'.
Proof.
  intros Hstep []. split.
  - by eapply step_rows_ok.
  - by eapply step_slots_unique.
  - by eapply step_refs_ok.
  - destruct Hstep as [| | gone| | | | | |id' key' o' r' _ _ Ho|id0 ops evs hist sts _ _ _ _ Hsts];
      simpl; [eauto..| | |]; try done.
    + intros id key o r [Hr _]%map_lookup_filter_Some. eauto.
    + intros id key o r [[? ?]|[? ?]]%lookup_insert_Some; simplify_eq; eauto.
    + intros id key o r [Hv|[_ ?]]%lookup_union_Some_raw; [by apply Hsts in Hv as [_ ?]|eauto].
Qed.

(** The steps of a run. *)
Definition evolves (d d' : Db) : Prop := rtc db_step d d'.

#[export] Instance evolves_preorder : PreOrder evolves.
Proof. apply rtc_po. Qed.

Lemma evolves_ok d d' : evolves d d' → db_ok d → db_ok d'.
Proof. induction 1; eauto using db_step_ok. Qed.

(** ** The history of one workflow *)

Lemma step_row id d d' r :
  db_step d d' → row_ok r → workflow_status d !! id = Some r → is_Some (workflow_status d' !! id) →
  ∃ r', workflow_status d' !! id = Some r' ∧ moves r r'.
Proof.
  intros Hstep Hok Hr [r' Hr']. exists r'. split; [done|].
  destruct Hstep as [id0 r0 Hn _ _|t Hmv|gone| | | | | | |]; simpl in *; simplify_eq;
    try by apply moves_refl.
  - apply lookup_insert_Some in Hr' as [[? ?]|[? ?]]; simplify_eq; by apply moves_refl.
  - specialize (Hmv id). rewrite Hr, Hr' in Hmv. by inversion Hmv.
  - apply map_lookup_filter_Some in Hr' as [? _]. simplify_eq. by apply moves_refl.
Qed.

(** A row that may not be deleted stays. *)
Lemma step_stays id d d' :
  db_step d d' → ¬ may_delete id → is_Some (workflow_status d !! id) → is_Some (workflow_status d' !! id).
Proof.
  intros Hstep Hid [r Hr]. destruct Hstep as [id0 r0 _ _ _|t Hmv|gone Hg| | | | | | |]; simpl; try by eexists.
  - apply lookup_insert_is_Some. destruct (decide (id0 = id)); [by left|right]. split; [done|by eexists].
  - specialize (Hmv id). rewrite Hr in Hmv. inversion Hmv. by eexists.
  - exists r. apply map_lookup_filter_Some. split; [done|]. simpl.
    destruct (gone id) eqn:E; [|done]. by apply Hg in E.
Qed.

(** A recorded operation stays as it is as long as its workflow does. *)
Lemma step_operation id d d' fid o :
  db_step d d' → is_Some (workflow_status d' !! id) →
  operation_outputs d !! (id, fid) = Some o → operation_outputs d' !! (id, fid) = Some o.
Proof.
  intros Hstep [r' Hr'] Ho.
  destruct Hstep as [| |gone|id0 fid0 o0 _ Hn| | | | | |id0 ops evs hist sts _ _ _ _ _ Hd]; simpl in *; try done.
  - apply map_lookup_filter_Some in Hr' as [_ Hg]. by apply map_lookup_filter_Some.
  - rewrite lookup_insert_ne; [done|]. intros [= -> ->]. congruence.
  - apply lookup_union_Some_raw. right. split; [|done].
    apply eq_None_not_Some. intros [v Hv]. rewrite map_disjoint_spec in Hd. eauto.
Qed.

(** From one state of the tables to a later one, [id] is the same workflow: it
    went through its life cycle, and its recorded operations are there. *)
Definition continues (id : string) (d d' : Db) : Prop :=
  ∀ r, workflow_status d !! id = Some r →
  ∃ r', workflow_status d' !! id = Some r' ∧ origin r' = origin r ∧
    (∃ l l', life_of r = Some l ∧ life_of r' = Some l' ∧ rtc life_step l l') ∧
    (∀ fid o, operation_outputs d !! (id, fid) = Some o → operation_outputs d' !! (id, fid) = Some o).

Lemma continues_refl id d : db_ok d → continues id d d.
Proof.
  intros Hok r Hr. exists r. split_and!; [done..| |done].
  apply db_rows in Hr as (l & Hl & _); [|done]. by exists l, l.
Qed.

Lemma continues_step id d d1 d2 :
  db_ok d → db_step d d1 → is_Some (workflow_status d1 !! id) → continues id d1 d2 → continues id d d2.
Proof.
  intros Hok Hstep Hs Hc r Hr. apply db_rows in Hr as Hrow; [|done].
  destruct (step_row id d d1 r Hstep Hrow Hr Hs) as (r1 & Hr1 & Ho1 & l & l1 & Hl & Hl1 & Hmove).
  destruct (Hc r1 Hr1) as (r2 & Hr2 & Ho2 & (l1' & l2 & Hl1' & Hl2 & Hsteps) & Hops).
  rewrite Hl1 in Hl1'. injection Hl1' as <-. exists r2. split_and!; [done|by rewrite Ho2| |].
  - exists l, l2. split_and!; [done..|]. destruct Hmove as [->|Hmove]; [done|]. by eapply rtc_l.
  - intros fid o Ho. by apply Hops, (step_operation id d).
Qed.

Lemma evolves_continues id d d' :
  evolves d d' → db_ok d → ¬ may_delete id → continues id d d'.
Proof.
  induction 1 as [d|d d1 d2 Hstep Hrest IH]; intros Hok Hid; [by apply continues_refl|].
  intros r Hr. assert (is_Some (workflow_status d1 !! id)) as Hs by (eapply step_stays; [done..|by eexists]).
  eapply (continues_step id d d1 d2); [done..| |done]. apply IH; [by eapply db_step_ok|done].
Qed.
End steps.

Lemma decided_steps l l' : rtc life_step l l' → decided l → decided l'.
Proof. induction 1 as [|l l1 l2 Hs _ IH]; [done|]. intros Hd. by apply IH, (decided_step l). Qed.
