(* ===== verification/Steps.v ===== *)
(** * [operation_outputs] operations (db/steps.rs)

    Step memoization: looking up a recorded operation with the determinism
    check, recording an operation once, and the parent-to-child mapping. *)
From S2P Require Import Prelude Errors Serialize Database World Status.

Local Open Scope string_scope.
Local Open Scope Z_scope.
Local Open Scope dbos_scope.

Record RecordedOperation := mkRecorded {
  ro_output : option string;
  ro_error : option string;
  ro_serialization : option string;
}.

Definition recorded_operation (o : op_row) : RecordedOperation :=
  mkRecorded (op_output o) (op_error o) (op_serialization o).

Definition check_operation_execution (workflow_id : string) (function_id : Z)
    (expected_step_name : string) : M (option RecordedOperation) :=
  status ← gets_db (λ d, wf_status <$> workflow_status d !! workflow_id);
  match status with
  | None => raise (non_existent_workflow workflow_id)
  | Some s => if decide (s = "CANCELLED") then raise (workflow_cancelled workflow_id) else mret tt
  end;;
  row ← gets_db (λ d, operation_outputs d !! (workflow_id, function_id));
  match row with
  | None => mret None
  | Some o =>
      if decide (op_function_name o ≠ expected_step_name) then
        raise (unexpected_step workflow_id function_id expected_step_name (op_function_name o))
      else mret (Some (recorded_operation o))
  end.

Section steps.
Context `{Env}.

(** The plain [INSERT]: the primary key and the foreign key on
    [workflow_status] are checked by Postgres. *)
Definition insert_operation (workflow_id : string) (function_id : Z) (o : op_row) : M (Result unit) :=
  d ← gets w_db;
  match operation_outputs d !! (workflow_id, function_id), workflow_status d !! workflow_id with
  | Some _, _ => mret (Err (unique_violation "operation_outputs_pkey"))
  | None, None => mret (Err (foreign_key_violation "operation_outputs_workflow_uuid_fkey"))
  | None, Some _ =>
      modify_db (λ d, d <| operation_outputs ::= <[(workflow_id, function_id) := o]> |>);;
      mret (Ok tt)
  end.

Definition record_operation_result (workflow_id : string) (function_id : Z) (function_name : string)
    (output error child_workflow_id serialization : option string) : M unit :=
  now ← now_epoch_ms;
  res ← insert_operation workflow_id function_id
          (mkOp function_name output error child_workflow_id (Some now) (Some now) serialization);
  match res with
  | Ok _ => mret tt
  | Err e => if is_db_unique_violation e then raise (conflicting_id workflow_id) else raise e
  end.

Definition record_child_workflow (parent_id : string) (function_id : Z)
    (function_name child_id : string) : M unit :=
  record_operation_result parent_id function_id function_name None None (Some child_id) None.
End steps.

Definition check_child_workflow (parent_id : string) (function_id : Z) : M (option string) :=
  gets_db (λ d, o ← operation_outputs d !! (parent_id, function_id); op_child_workflow_id o).

(** ** Lemmas *)

(** The workflow exists and is not cancelled: its steps may run. *)
Definition live (id : string) (d : Db) : Prop :=
  ∃ r, workflow_status d !! id = Some r ∧ wf_status r ≠ status_str Cancelled.

Lemma check_recorded w id fid name o :
  live id (w_db w) → operation_outputs (w_db w) !! (id, fid) = Some o → op_function_name o = name →
  check_operation_execution id fid name w = (Ok (Some (recorded_operation o)), w).
Proof.
  intros (r & Hr & Hs) Ho Hname. unfold check_operation_execution. run_M. rewrite Hr. simpl.
  rewrite decide_False by done. simpl. by rewrite Ho, decide_False by auto.
Qed.

Lemma check_unrecorded w id fid name :
  live id (w_db w) → operation_outputs (w_db w) !! (id, fid) = None →
  check_operation_execution id fid name w = (Ok None, w).
Proof.
  intros (r & Hr & Hs) Ho. unfold check_operation_execution. run_M. rewrite Hr. simpl.
  rewrite decide_False by done. simpl. by rewrite Ho.
Qed.

(** The lookup reads, it never writes. *)
Lemma check_operation_world w id fid name : snd (check_operation_execution id fid name w) = w.
Proof.
  unfold check_operation_execution. run_M.
  destruct (workflow_status (w_db w) !! id); simpl; [case_decide|]; simpl; [done| |done].
  destruct (operation_outputs (w_db w) !! _); simpl; [case_decide|]; done.
Qed.

(** The errors of the lookup, each with its reason. *)
Inductive lookup_refused (d : Db) (id : string) (fid : Z) (name : string) : DbosError → Prop :=
  | refused_missing :
      workflow_status d !! id = None → lookup_refused d id fid name (non_existent_workflow id)
  | refused_cancelled row :
      workflow_status d !! id = Some row → wf_status row = "CANCELLED" →
      lookup_refused d id fid name (workflow_cancelled id)
  | refused_other_step o :
      live id d → operation_outputs d !! (id, fid) = Some o → op_function_name o ≠ name →
      lookup_refused d id fid name (unexpected_step id fid name (op_function_name o)).

Lemma check_operation_reasons w id fid name r w1 :
  check_operation_execution id fid name w = (r, w1) →
  w1 = w ∧ ((∃ e, r = Err e ∧ lookup_refused (w_db w) id fid name e) ∨
    live id (w_db w) ∧ r = Ok (recorded_operation <$> operation_outputs (w_db w) !! (id, fid)) ∧
    ∀ o, operation_outputs (w_db w) !! (id, fid) = Some o → op_function_name o = name).
Proof.
  intros Hc. pose proof (check_operation_world w id fid name) as Hw. rewrite Hc in Hw. simpl in Hw.
  split; [done|]. revert Hc. unfold check_operation_execution. run_M.
  destruct (workflow_status (w_db w) !! id) as [row|] eqn:Hr; simpl.
  2:{ intros [= <- <-]. left. eexists. split; [done|]. by constructor. }
  case_decide as Hs; simpl; [intros [= <- <-]; left; eexists; split; [done|]; by econstructor|].
  assert (live id (w_db w)) as Hl by (by exists row).
  destruct (operation_outputs (w_db w) !! (id, fid)) as [o|] eqn:Ho; simpl.
  - case_decide as Hn; intros [= <- <-].
    + left. eexists. split; [done|]. by constructor.
    + right. split_and!; [done..|]. intros o' [= <-].
      destruct (decide (op_function_name o = name)); [done|by destruct Hn].
  - intros [= <- <-]. by right.
Qed.

Section step_lemmas.
Context `{Env}.

Lemma record_operation_new w id fid name out err child ser :
  is_Some (workflow_status (w_db w) !! id) → operation_outputs (w_db w) !! (id, fid) = None →
  record_operation_result id fid name out err child ser w =
  (Ok tt, w <| w_reads ::= S |>
            <| w_db ::= set_field operation_outputs
                 <[(id, fid) := mkOp name out err child (Some (clock (w_reads w)))
                                  (Some (clock (w_reads w))) ser]> |>).
Proof.
  intros [r Hr] Hn. unfold record_operation_result, insert_operation. run_M. by rewrite Hn, Hr.
Qed.

Lemma record_operation_taken w id fid name out err child ser o :
  operation_outputs (w_db w) !! (id, fid) = Some o →
  record_operation_result id fid name out err child ser w =
  (Err (conflicting_id id), w <| w_reads ::= S |>).
Proof.
  intros Ho. unfold record_operation_result, insert_operation. run_M. by rewrite Ho.
Qed.

Lemma record_operation_orphan w id fid name out err child ser :
  workflow_status (w_db w) !! id = None → operation_outputs (w_db w) !! (id, fid) = None →
  ∃ e, record_operation_result id fid name out err child ser w = (Err e, w <| w_reads ::= S |>) ∧
       is_db_unique_violation e = false.
Proof.
  intros Hr Ho. unfold record_operation_result, insert_operation. run_M. rewrite Ho, Hr. simpl.
  by eexists.
Qed.

Lemma record_operation_Ok w id fid name out err child ser u w' :
  record_operation_result id fid name out err child ser w = (Ok u, w') →
  operation_outputs (w_db w) !! (id, fid) = None ∧
  ∃ o, operation_outputs (w_db w') !! (id, fid) = Some o ∧ op_function_name o = name ∧
       op_output o = out ∧ op_error o = err ∧ op_child_workflow_id o = child ∧ op_serialization o = ser.
Proof.
  intros Hr. destruct (operation_outputs (w_db w) !! (id, fid)) eqn:Ho.
  { by erewrite record_operation_taken in Hr by done. }
  split; [done|]. destruct (workflow_status (w_db w) !! id) eqn:Hrow.
  - rewrite record_operation_new in Hr by eauto. injection Hr as _ <-.
    eexists. by split; [apply lookup_insert_eq|].
  - destruct (record_operation_orphan w id fid name out err child ser Hrow Ho) as (e & He & _).
    by rewrite He in Hr.
Qed.

(** Recording never overwrites: the recorded operations only grow. *)
Lemma record_operation_mono w id fid name out err child ser res w' :
  record_operation_result id fid name out err child ser w = (res, w') →
  operation_outputs (w_db w) ⊆ operation_outputs (w_db w').
Proof.
  unfold record_operation_result, insert_operation. run_M.
  destruct (operation_outputs (w_db w) !! (id, fid)) eqn:E;
    [|destruct (workflow_status (w_db w) !! id)]; intros; simplify_eq/=; try done.
  by apply insert_subseteq.
Qed.

(** C13: an operation is recorded at most once.  Recording at a free step id
    of an existing workflow makes the next lookup under the same name return
    exactly what was recorded, under another name fail with
    [UnexpectedStep]; recording again at the same id fails with
    [ConflictingId] and leaves the database as it was. *)
Theorem operation_recorded_once w id fid name out err child ser :
  live id (w_db w) → operation_outputs (w_db w) !! (id, fid) = None →
  ∃ w', record_operation_result id fid name out err child ser w = (Ok tt, w') ∧
    check_operation_execution id fid name w' = (Ok (Some (mkRecorded out err ser)), w') ∧
    (∀ name', name' ≠ name →
       check_operation_execution id fid name' w' = (Err (unexpected_step id fid name' name), w')) ∧
    ∀ name2 out2 err2 child2 ser2, ∃ w'',
      record_operation_result id fid name2 out2 err2 child2 ser2 w' = (Err (conflicting_id id), w'') ∧
      w_db w'' = w_db w'.
Proof.
  intros (r & Hr & Hs) Hn. rewrite record_operation_new by (by rewrite ?Hr).
  eexists. split; [done|]. set (w' := _ <| w_db ::= _ |>).
  assert (live id (w_db w')) as Hlive by (by exists r).
  pose proof (lookup_insert_eq (operation_outputs (w_db w)) (id, fid)
    (mkOp name out err child (Some (clock (w_reads w))) (Some (clock (w_reads w))) ser)) as Ho.
  change (<[_:=_]> (operation_outputs (w_db w))) with (operation_outputs (w_db w')) in Ho.
  split_and!.
  - by rewrite (check_recorded w' id fid name _ Hlive Ho).
  - intros name' Hne. unfold check_operation_execution. run_M. rewrite Hr. simpl.
    rewrite decide_False by done. simpl in *. rewrite Ho. simpl.
    by rewrite decide_True by auto.
  - intros. eexists. by rewrite (record_operation_taken w' id fid _ _ _ _ _ _ Ho).
Qed.
End step_lemmas.

#[export] Hint Resolve check_recorded check_unrecorded : dbos.
