(* ===== verification/Notifications.v ===== *)
(** * Notifications and events (db/notifications.rs)

    The mailbox of a workflow ([send]/[recv]) and its published key/value
    events ([set_event]/[get_event]), with the per-step history. *)
From S2P Require Import Prelude Errors Serialize Database World Status.

Local Open Scope string_scope.
Local Open Scope Z_scope.
Local Open Scope dbos_scope.

Definition NULL_TOPIC : string := "__null__topic__".

(** A table row that references [workflow_status]. *)
Definition foreign_key (id constraint : string) : M unit :=
  d ← gets w_db;
  match workflow_status d !! id with
  | Some _ => mret tt
  | None => raise (foreign_key_violation constraint)
  end.

(** ** The mailbox *)

Section notifications.
Context `{Env}.

(** The [INSERT]: primary key, then foreign key. *)
Definition insert_notification (destination_id topic message serialization : string) : M unit :=
  message_uuid ← uuid_v4;
  now ← now_epoch_ms;
  d ← gets w_db;
  match notifications d !! message_uuid, workflow_status d !! destination_id with
  | Some _, _ => raise (unique_violation "notifications_pkey")
  | None, None => raise (non_existent_workflow destination_id)
  | None, Some _ =>
      modify_db (λ d, d <| notifications ::= <[message_uuid :=
        mkNt destination_id topic message now (Some serialization) false]> |>)
  end.
End notifications.

(** [destination_uuid = $1 AND topic = $2 AND consumed = false]. *)
Definition unconsumed (destination_id topic : string) (n : nt_row) : bool :=
  bool_decide (nt_destination_uuid n = destination_id) && bool_decide (nt_topic n = topic)
  && negb (nt_consumed n).

Definition notification_exists_unconsumed (destination_id topic : string) : M bool :=
  gets_db (λ d, bool_decide
    (0 < count_where (λ _, unconsumed destination_id topic) (notifications d))%nat).

Definition oldest_entry `{PgScan} (destination_id topic : string) (t : gmap string nt_row)
    : option (string * nt_row) :=
  head (order_by [λ kv, nt_created_at_epoch_ms kv.2]
    (select_where (λ _, unconsumed destination_id topic) t)).

Definition consume_oldest_notification `{PgScan} (destination_id topic : string)
    : M (option (string * option string)) :=
  t ← gets_db notifications;
  match oldest_entry destination_id topic t with
  | None => mret None
  | Some (message_uuid, n) =>
      modify_db (λ d, d <| notifications ::= alter (set_field nt_consumed (λ _, true)) message_uuid |>);;
      mret (Some (nt_message n, nt_serialization n))
  end.

(** ** Events *)

Definition upsert_workflow_event (workflow_id key value serialization : string) : M unit :=
  foreign_key workflow_id "workflow_events_workflow_uuid_fkey";;
  modify_db (λ d, d <| workflow_events ::= <[(workflow_id, key) := mkEv value (Some serialization)]> |>).

Definition insert_workflow_event_history (workflow_id : string) (function_id : Z)
    (key value serialization : string) : M unit :=
  foreign_key workflow_id "workflow_events_history_workflow_uuid_fkey";;
  modify_db (λ d, d <| workflow_events_history ::=
    <[(workflow_id, function_id, key) := mkEv value (Some serialization)]> |>).

Definition select_workflow_event (target_workflow_id key : string) : M (option (string * option string)) :=
  gets_db (λ d, (λ e, (ev_value e, ev_serialization e)) <$> workflow_events d !! (target_workflow_id, key)).

(** ** Lemmas *)

Lemma foreign_key_ok id c w :
  is_Some (workflow_status (w_db w) !! id) → foreign_key id c w = (Ok tt, w).
Proof. intros [r Hr]. unfold foreign_key. run_M. by rewrite Hr. Qed.

#[export] Hint Resolve foreign_key_ok : dbos.

(** The unread messages of a mailbox. *)
Definition mailbox (destination_id topic : string) (d : Db) : gmap string nt_row :=
  filter (λ kv, unconsumed destination_id topic kv.2 = true) (notifications d).

Lemma lookup_mailbox dest topic d k n :
  mailbox dest topic d !! k = Some n ↔
  notifications d !! k = Some n ∧ unconsumed dest topic n = true.
Proof. unfold mailbox. by rewrite map_lookup_filter_Some. Qed.

Lemma exists_unconsumed_mailbox dest topic w :
  notification_exists_unconsumed dest topic w = (Ok (bool_decide (mailbox dest topic (w_db w) ≠ ∅)), w).
Proof.
  unfold notification_exists_unconsumed. run_M. unfold compose. f_equal. f_equal.
  apply bool_decide_ext. rewrite count_where_pos. split.
  - intros (k & n & ?) E.
    assert (mailbox dest topic (w_db w) !! k = Some n) as Hk by (apply lookup_mailbox; naive_solver).
    by rewrite E, lookup_empty in Hk.
  - intros Hne. apply map_choose in Hne as (k & n & Hk%lookup_mailbox). eauto.
Qed.

(** Marking a message read takes it out of the mailbox. *)
Lemma mailbox_consume dest topic d k :
  mailbox dest topic (d <| notifications ::= alter (set_field nt_consumed (λ _, true)) k |>)
  = delete k (mailbox dest topic d).
Proof.
  apply map_eq. intros j. apply option_eq. intros n. rewrite lookup_mailbox. simpl.
  destruct (decide (j = k)) as [->|Hne].
  - rewrite lookup_alter_eq, lookup_delete_eq. split; [|done].
    intros [(m & _ & ->)%fmap_Some Hu]. unfold unconsumed in Hu. simpl in Hu.
    by rewrite andb_false_r in Hu.
  - by rewrite lookup_alter_ne, lookup_delete_ne, lookup_mailbox by done.
Qed.

Section mailbox.
Context `{HS : PgScan, !PgScanLaws HS}.

Lemma lookup_mailbox_select dest topic d k n :
  mailbox dest topic d !! k = Some n ↔
  (k, n) ∈ select_where (λ _, unconsumed dest topic) (notifications d).
Proof. by rewrite lookup_mailbox, (elem_of_select_where (λ _, unconsumed dest topic)). Qed.

Lemma oldest_entry_spec dest topic d :
  match oldest_entry dest topic (notifications d) with
  | Some (k, n) => mailbox dest topic d !! k = Some n ∧
      map_Forall (λ _ m, nt_created_at_epoch_ms n ≤ nt_created_at_epoch_ms m) (mailbox dest topic d)
  | None => mailbox dest topic d = ∅
  end.
Proof.
  unfold oldest_entry.
  pose proof (order_by_head [λ kv : string * nt_row, nt_created_at_epoch_ms kv.2]
    (select_where (λ _, unconsumed dest topic) (notifications d))) as Hh.
  destruct (head _) as [[k n]|]; simpl in Hh.
  - destruct Hh as [Hk Hmin]. rewrite lookup_mailbox_select. split; [done|].
    intros j m Hj%lookup_mailbox_select. specialize (Hmin _ Hj). simpl in Hmin. lia.
  - apply map_empty. intros k. apply eq_None_not_Some. intros [n Hn%lookup_mailbox_select].
    rewrite Hh in Hn. by apply not_elem_of_nil in Hn.
Qed.

Lemma consume_oldest_some dest topic w k n :
  oldest_entry dest topic (notifications (w_db w)) = Some (k, n) →
  consume_oldest_notification dest topic w =
  (Ok (Some (nt_message n, nt_serialization n)),
   w <| w_db ::= set_field notifications (alter (set_field nt_consumed (λ _, true)) k) |>).
Proof. intros E. unfold consume_oldest_notification. run_M. by rewrite E. Qed.

Lemma consume_oldest_none dest topic w :
  mailbox dest topic (w_db w) = ∅ → consume_oldest_notification dest topic w = (Ok None, w).
Proof.
  intros E. unfold consume_oldest_notification. run_M. unfold compose.
  pose proof (oldest_entry_spec dest topic (w_db w)) as Ho.
  destruct (oldest_entry _ _ _) as [[k n]|]; [|done]. destruct Ho as [Hk _].
  by rewrite E, lookup_empty in Hk.
Qed.

(** Reading a mailbox [n] times. *)
Fixpoint drain (n : nat) (dest topic : string) : M (list (string * option string)) :=
  match n with
  | O => mret []
  | S n =>
      m ← consume_oldest_notification dest topic;
      match m with
      | None => mret []
      | Some m => rest ← drain n dest topic; mret (m :: rest)
      end
  end.

(** C19: a mailbox is read oldest first and each message exactly once.
    Reading it as many times as it has unread messages returns all of them,
    each once, in the order of their timestamps; then nothing is left for
    the next read, the messages of every other mailbox and every other table
    are untouched. *)
Theorem mailbox_fifo_exactly_once dest topic w :
  ∃ l w', drain (size (mailbox dest topic (w_db w))) dest topic w =
            (Ok ((λ kn, (nt_message kn.2, nt_serialization kn.2)) <$> l), w') ∧
    l ≡ₚ map_to_list (mailbox dest topic (w_db w)) ∧
    StronglySorted (key_le [λ kn, nt_created_at_epoch_ms kn.2]) l ∧
    consume_oldest_notification dest topic w' = (Ok None, w') ∧
    notification_exists_unconsumed dest topic w' = (Ok false, w') ∧
    (∀ dest' topic', dest' ≠ dest ∨ topic' ≠ topic →
       mailbox dest' topic' (w_db w') = mailbox dest' topic' (w_db w)) ∧
    w' = w <| w_db ::= set_field notifications (λ _, notifications (w_db w')) |>.
Proof.
  remember (size (mailbox dest topic (w_db w))) as n eqn:Hn. revert w Hn.
  induction n as [|n IH]; intros w Hn.
  - symmetry in Hn. apply map_size_empty_iff in Hn.
    exists [], w. rewrite Hn, map_to_list_empty. split_and!; [done|done|constructor| | |done|].
    + by apply consume_oldest_none.
    + rewrite exists_unconsumed_mailbox, Hn. by rewrite bool_decide_eq_false_2 by auto.
    + by destruct w as [[] ? ? ? ? ? ? ? ? ?].
  - pose proof (oldest_entry_spec dest topic (w_db w)) as Ho.
    destruct (oldest_entry _ _ _) as [[k m]|] eqn:E;
      [|rewrite Ho, map_size_empty in Hn; done].
    destruct Ho as [Hk Hmin].
    set (w1 := w <| w_db ::= set_field notifications (alter (set_field nt_consumed (λ _, true)) k) |>).
    assert (mailbox dest topic (w_db w1) = delete k (mailbox dest topic (w_db w))) as Hw1
      by apply mailbox_consume.
    destruct (IH w1) as (l & w' & Hrun & Hperm & Hsort & Hnone & Hex & Hother & Hw').
    { rewrite Hw1, map_size_delete_Some by eauto. lia. }
    exists ((k, m) :: l), w'. split_and!.
    + cbn [drain]. eapply run_bind; [by apply consume_oldest_some|].
      by eapply run_bind; [apply Hrun|].
    + rewrite Hperm, Hw1. by apply map_to_list_delete.
    + constructor; [done|]. apply Forall_forall. intros [j o] Hin. rewrite Hperm, Hw1 in Hin.
      apply elem_of_map_to_list, lookup_delete_Some in Hin as [_ Hin].
      specialize (Hmin _ _ Hin). simpl in *. lia.
    + done.
    + done.
    + intros dest' topic' Hd. rewrite Hother by done.
      etrans; [apply mailbox_consume|]. apply delete_id, eq_None_not_Some. intros [m' Hm'].
      apply lookup_mailbox in Hm' as [Hm' Hu']. apply lookup_mailbox in Hk as [Hk Hu].
      simplify_eq. unfold unconsumed in Hu, Hu'.
      rewrite !andb_true_iff, !bool_decide_eq_true in Hu, Hu'. naive_solver.
    + rewrite Hw'. by destruct w as [[] ? ? ? ? ? ? ? ? ?].
Qed.
End mailbox.
