(* ===== verification/Streams.v ===== *)
(** * Durable streams (db/streams.rs)

    The append-only log of a workflow under a key: appending, closing,
    reading from an offset and following the log live. *)
From S2P Require Import Prelude Errors Json Serialize Database World Status Notifications.

Local Open Scope string_scope.
Local Open Scope Z_scope.
Local Open Scope list_scope.
Local Open Scope dbos_scope.

Definition STREAM_CLOSED_SENTINEL : string := "__DBOS_STREAM_CLOSED__".

(** The rows of one stream, as [(offset, row)]. *)
Definition stream_rows (workflow_id key : string) (t : gmap (string * string * Z) st_row)
    : list (Z * st_row) :=
  (λ kr, (kr.1.2, kr.2)) <$> filter (λ kr, kr.1.1 = (workflow_id, key)) (map_to_list t).

(** [COALESCE((SELECT MAX("offset") ...), -1) + 1]. *)
Definition max_offset (rows : list (Z * st_row)) : option Z :=
  foldr (λ or m, Some (match m with None => or.1 | Some x => or.1 `max` x end)) None rows.
Definition next_offset (workflow_id key : string) (t : gmap (string * string * Z) st_row) : Z :=
  default (-1) (max_offset (stream_rows workflow_id key t)) + 1.

Definition numeric_value_out_of_range : DbosError :=
  from_sqlx (SqlxDatabase (Some "22003") "integer out of range").

Definition write_stream_entry (workflow_id : string) (function_id : Z) (key value : string)
    (serialization : option string) : M unit :=
  t ← gets_db streams;
  if bool_decide (Exists (λ or, st_value or.2 = STREAM_CLOSED_SENTINEL) (stream_rows workflow_id key t))
  then raise (other ("stream '" +:+ key +:+ "' is already closed"))
  else
    let offset := next_offset workflow_id key t in
    if decide (in_i32 offset) then
      foreign_key workflow_id "streams_workflow_uuid_fkey";;
      modify_db (λ d, d <| streams ::=
        <[(workflow_id, key, offset) := mkSt value function_id serialization]> |>)
    else raise numeric_value_out_of_range.

Record StreamEntry := mkStreamEntry {
  se_value : string;
  se_offset : Z;
  se_serialization : option string;
}.

(** The loop over the rows: entries up to the sentinel. *)
Fixpoint until_sentinel (rows : list (Z * st_row)) : list StreamEntry * bool :=
  match rows with
  | [] => ([], false)
  | (o, r) :: rows =>
      if decide (st_value r = STREAM_CLOSED_SENTINEL) then ([], true)
      else let '(es, closed) := until_sentinel rows in
           (mkStreamEntry (st_value r) o (st_serialization r) :: es, closed)
  end.

Definition read_stream_entries (workflow_id key : string) (from_offset : Z)
    : M (list StreamEntry * bool) :=
  gets_db (λ d, until_sentinel (order_by [fst]
    (filter (λ or, from_offset ≤ or.1) (stream_rows workflow_id key (streams d))))).

Section reading.
Context `{Env, SerdeJson, Base64Engine} (T : Type) `{Deserialize T}.

(** The [for] loop: decode the batch and advance [current]. *)
Fixpoint decode_entries (es : list StreamEntry) (current : Z) (values : list T)
    : Result (list T * Z) :=
  match es with
  | [] => Ok (values, current)
  | e :: es =>
      v ← decode_value T (Some (se_value e)) (se_serialization e);
      decode_entries es (wrap_i32 (se_offset e + 1)) (values ++ [v])
  end.

(** One turn of the loop; the other processes may run between its two
    queries. *)
Definition read_stream_turn (workflow_id key : string) (current : Z) (values : list T)
    (snapshot : bool) : M (option (list T * bool) * (list T * Z) * bool) :=
  batch ← read_stream_entries workflow_id key current;
  let '(entries, closed) := batch in
  let got := negb (bool_decide (entries = [])) in
  st ← lift (decode_entries entries current values);
  if (closed : bool) then mret (Some (st.1, true), st, got)
  else if snapshot then mret (Some (st.1, false), st, got)
  else
    wait;;
    status ← get_status workflow_id;
    match status with
    | None => raise (non_existent_workflow workflow_id)
    | Some s =>
        if decide (s ≠ "PENDING" ∧ s ≠ "ENQUEUED") then mret (Some (st.1, true), st, got)
        else mret (None, st, got)
    end.

(** The loop; [None] is a reader still following the stream after [fuel]
    turns. *)
Fixpoint read_stream_loop (fuel : nat) (workflow_id key : string) (current : Z) (values : list T)
    (snapshot : bool) : M (option (list T * bool)) :=
  match fuel with
  | O => mret None
  | S fuel =>
      turn ← read_stream_turn workflow_id key current values snapshot;
      let '(res, st, got) := turn in
      match res with
      | Some r => mret (Some r)
      | None =>
          (if (got : bool) then mret tt else wait);;
          read_stream_loop fuel workflow_id key st.2 st.1 snapshot
      end
  end.

Definition read_stream_blocking (fuel : nat) (workflow_id key : string) (from_offset : Z)
    (snapshot : bool) : M (option (list T * bool)) :=
  read_stream_loop fuel workflow_id key from_offset [] snapshot.
End reading.

(** ** The abstract log *)

(** [log] is the stream's content: its rows are exactly the offsets
    [0 .. length log - 1]. *)
Definition is_log (workflow_id key : string) (d : Db) (log : list st_row) : Prop :=
  (∀ o r, streams d !! (workflow_id, key, o) = Some r ↔ 0 ≤ o ∧ log !! Z.to_nat o = Some r) ∧
  Z.of_nat (length log) < 2 ^ 31.

Definition log_closed (log : list st_row) : Prop :=
  Exists (λ r, st_value r = STREAM_CLOSED_SENTINEL) log.

(** The entries of [log] at or after an offset, up to the sentinel. *)
Definition log_rows (from : nat) (log : list st_row) : list (Z * st_row) :=
  imap (λ i r, (Z.of_nat (from + i), r)) (drop from log).

Lemma elem_of_stream_rows id key t o r :
  (o, r) ∈ stream_rows id key t ↔ t !! (id, key, o) = Some r.
Proof.
  unfold stream_rows. rewrite list_elem_of_fmap. split.
  - intros ([[k o'] r'] & ? & [Hk Hin]%list_elem_of_filter). simplify_eq/=.
    by apply elem_of_map_to_list.
  - intros Ht. exists (id, key, o, r). split; [done|]. apply list_elem_of_filter.
    by rewrite elem_of_map_to_list.
Qed.

Lemma stream_rows_nodup id key t : NoDup (stream_rows id key t).
Proof.
  unfold stream_rows. apply NoDup_fmap_2_strong; [|apply NoDup_filter, NoDup_map_to_list].
  intros [[k1 o1] r1] [[k2 o2] r2] [H1 _]%list_elem_of_filter [H2 _]%list_elem_of_filter ?.
  by simplify_eq/=.
Qed.

Lemma elem_of_log_rows from log o r :
  (o, r) ∈ log_rows from log ↔ Z.of_nat from ≤ o ∧ log !! Z.to_nat o = Some r.
Proof.
  unfold log_rows. rewrite elem_of_lookup_imap. split.
  - intros (i & x & ? & Hi). rewrite lookup_drop in Hi. simplify_eq. rewrite Nat2Z.id. auto with lia.
  - intros [Ho Hr]. exists (Z.to_nat o - from)%nat, r. split; [f_equal; lia|].
    rewrite lookup_drop. rewrite <- Hr. f_equal. lia.
Qed.

Lemma log_rows_nodup from log : NoDup (log_rows from log).
Proof.
  apply NoDup_alt. intros i j [o r]. unfold log_rows. rewrite !list_lookup_imap.
  intros (x & _ & ?)%fmap_Some (y & _ & ?)%fmap_Some. simplify_eq. lia.
Qed.

Lemma log_rows_sorted from log : StronglySorted (key_le [fst]) (log_rows from log).
Proof.
  unfold log_rows. generalize (drop from log) as l. intros l. revert from.
  induction l as [|r l IH]; intros from; [constructor|]. rewrite imap_cons. constructor.
  - rewrite (imap_ext _ (λ i r, (Z.of_nat (S from + i), r))); [apply IH|].
    intros i x _. simpl. by rewrite Nat.add_succ_r.
  - apply Forall_forall. intros [o x]. rewrite elem_of_lookup_imap. intros (i & y & ? & _).
    simplify_eq/=. lia.
Qed.

(** A stream's rows from an offset, in order, are those of its log. *)
Lemma stream_rows_log id key d log from :
  is_log id key d log →
  order_by [fst] (filter (λ or, Z.of_nat from ≤ or.1) (stream_rows id key (streams d)))
  = log_rows from log.
Proof.
  intros [Hlog _].
  assert (order_by [fst] (filter (λ or, Z.of_nat from ≤ or.1) (stream_rows id key (streams d)))
          ≡ₚ log_rows from log) as Hp.
  { rewrite order_by_perm. apply NoDup_Permutation.
    - apply NoDup_filter, stream_rows_nodup.
    - apply log_rows_nodup.
    - intros [o r]. rewrite list_elem_of_filter, elem_of_stream_rows, elem_of_log_rows, Hlog.
      simpl. split; intros; split_and!; naive_solver lia. }
  eapply StronglySorted_unique_strong; [|apply order_by_sorted|apply log_rows_sorted|done].
  intros [o1 r1] [o2 r2] H1 H2. rewrite Hp in H1.
  apply elem_of_log_rows in H1 as [? H1]. apply elem_of_log_rows in H2 as [? H2].
  simpl. intros [?|[? _]] [?|[? _]]; subst; try lia; by simplify_eq.
Qed.

Lemma log_closed_rows id key d log :
  is_log id key d log →
  Exists (λ or, st_value or.2 = STREAM_CLOSED_SENTINEL) (stream_rows id key (streams d)) ↔ log_closed log.
Proof.
  intros [Hlog _]. unfold log_closed. rewrite !Exists_exists. split.
  - intros ([o r] & [? Hr]%elem_of_stream_rows%Hlog & Hs). exists r. split; [|done].
    by eapply list_elem_of_lookup_2.
  - intros (r & [i Hr]%list_elem_of_lookup & Hs). exists (Z.of_nat i, r). split; [|done].
    apply elem_of_stream_rows, Hlog. rewrite Nat2Z.id. split; [lia | done].
Qed.

Lemma max_offset_spec rows :
  match max_offset rows with
  | Some m => m ∈ rows.*1 ∧ ∀ o, o ∈ rows.*1 → o ≤ m
  | None => rows = []
  end.
Proof.
  induction rows as [|[o r] rows IH]; simpl; [done|].
  destruct (max_offset rows) as [m|]; simpl.
  - destruct IH as [Hm Hmax]. split.
    + destruct (Z.max_spec o m) as [[_ ->]|[_ ->]]; [by right | by left].
    + intros o' [->|Ho']%elem_of_cons; [lia|]. specialize (Hmax _ Ho'). lia.
  - subst. split; [by left|]. intros o' [->|Ho']%elem_of_cons; [lia | by apply not_elem_of_nil in Ho'].
Qed.

Lemma next_offset_log id key d log :
  is_log id key d log → next_offset id key (streams d) = Z.of_nat (length log).
Proof.
  intros [Hlog _]. unfold next_offset.
  pose proof (max_offset_spec (stream_rows id key (streams d))) as Hm.
  destruct (max_offset _) as [m|]; simpl.
  - destruct Hm as [([o r] & -> & [Ho Hr]%elem_of_stream_rows%Hlog)%list_elem_of_fmap Hmax]. simpl in *.
    apply lookup_lt_Some in Hr as Hlt.
    destruct (lookup_lt_is_Some_2 log (length log - 1)) as [x Hx]; [lia|].
    assert (Z.of_nat (length log - 1) ≤ o); [|lia]. apply Hmax, list_elem_of_fmap.
    exists (Z.of_nat (length log - 1), x). split; [done|].
    apply elem_of_stream_rows, Hlog. rewrite Nat2Z.id. auto with lia.
  - destruct log as [|x log]; [done|]. exfalso.
    assert ((0, x) ∈ stream_rows id key (streams d)) as H0
      by (apply elem_of_stream_rows, Hlog; auto with lia).
    rewrite Hm in H0. by apply not_elem_of_nil in H0.
Qed.

(** ** Refinement *)

(** C35: writing to a stream refines appending to its log.  On an open log
    with an existing workflow the entry becomes the last of the log, at the
    next free offset, and nothing else changes; on a closed log the write fails and
    changes nothing; streams under other keys keep their logs. *)
Theorem write_stream_refines w id fid key value ser log :
  is_log id key (w_db w) log → Z.of_nat (length log) + 1 < 2 ^ 31 →
  is_Some (workflow_status (w_db w) !! id) →
  if bool_decide (log_closed log) then
    write_stream_entry id fid key value ser w =
      (Err (other ("stream '" +:+ key +:+ "' is already closed")), w)
  else ∃ w', write_stream_entry id fid key value ser w = (Ok tt, w') ∧
    is_log id key (w_db w') (log ++ [mkSt value fid ser]) ∧
    (∀ id' key' log', (id', key') ≠ (id, key) →
       is_log id' key' (w_db w) log' → is_log id' key' (w_db w') log') ∧
    w' = w <| w_db ::= set_field streams (λ _, streams (w_db w')) |>.
Proof.
  intros Hlog Hlen Hid. pose proof (log_closed_rows _ _ _ _ Hlog) as Hc.
  unfold write_stream_entry.
  case_bool_decide as Hcl.
  - eapply run_bind; [done|]. by rewrite bool_decide_eq_true_2 by (by apply Hc).
  - eexists. split; [|split_and!].
    + eapply run_bind; [done|]. rewrite bool_decide_eq_false_2 by (by rewrite Hc).
      unfold compose. rewrite (next_offset_log _ _ _ _ Hlog), decide_True by (unfold in_i32; lia).
      eapply run_bind; [by apply foreign_key_ok | done].
    + destruct Hlog as [Hlog _]. split; simpl; [|rewrite length_app; simpl; lia]. intros o r.
      destruct (decide (o = Z.of_nat (length log))) as [->|Hne].
      * rewrite lookup_insert_eq, Nat2Z.id, list_lookup_middle by done. naive_solver lia.
      * rewrite lookup_insert_ne by (by intros [=]). rewrite Hlog.
        split; intros [Ho Hr]; (split; [done|]).
        -- by apply lookup_app_l_Some.
        -- apply lookup_app_Some in Hr as [?|[? Hr]]; [done|].
           apply list_lookup_singleton_Some in Hr as [? _]. lia.
    + intros id' key' log' Hne [Hlog' ?]. split; [|done]. intros o r. simpl.
      rewrite lookup_insert_ne by (by intros [=]; subst). apply Hlog'.
    + by destruct w as [[] ? ? ? ? ? ? ? ? ?].
Qed.

(** Reading the entries from an offset returns the entries of the log from
    there, in order, up to the closing sentinel. *)
Lemma read_stream_log w id key log from :
  is_log id key (w_db w) log →
  read_stream_entries id key (Z.of_nat from) w = (Ok (until_sentinel (log_rows from log)), w).
Proof. intros Hlog. unfold read_stream_entries. run_M. by rewrite (stream_rows_log _ _ _ log). Qed.

Lemma until_sentinel_app a b :
  until_sentinel (a ++ b) =
  if (until_sentinel a).2 then until_sentinel a
  else ((until_sentinel a).1 ++ (until_sentinel b).1, (until_sentinel b).2).
Proof.
  induction a as [|[o r] a IH]; simpl; [by destruct (until_sentinel b)|].
  case_decide; [done|]. rewrite IH. destruct (until_sentinel a) as [ea []]; done.
Qed.

Lemma until_sentinel_open rows es :
  until_sentinel rows = (es, false) → se_offset <$> es = rows.*1.
Proof.
  revert es. induction rows as [|[o r] rows IH]; intros es; simpl; [by intros; simplify_eq|].
  case_decide; [done|]. destruct (until_sentinel rows) as [es' c]. intros [= <- ->].
  rewrite fmap_cons, IH by done. done.
Qed.

Lemma log_rows_app from log more : log_rows from log `prefix_of` log_rows from (log ++ more).
Proof. unfold log_rows. rewrite drop_app, imap_app. by eexists. Qed.

Lemma length_log_rows from log : length (log_rows from log) = (length log - from)%nat.
Proof. unfold log_rows. by rewrite length_imap, length_drop. Qed.

Lemma log_rows_split from k log :
  (k ≤ length log - from)%nat →
  log_rows from log = take k (log_rows from log) ++ log_rows (from + k) log.
Proof.
  intros Hk. rewrite <- (take_drop k (log_rows from log)) at 1. f_equal.
  apply list_eq. intros i. unfold log_rows. rewrite lookup_drop, !list_lookup_imap, !lookup_drop.
  rewrite !Nat.add_assoc. by replace (from + k + i)%nat with (from + (k + i))%nat by lia.
Qed.

Lemma log_rows_last from log or :
  last (log_rows from log) = Some or → or.1 = Z.of_nat (length log) - 1.
Proof.
  rewrite last_lookup, length_log_rows. unfold log_rows. rewrite list_lookup_imap, lookup_drop.
  intros (x & Hx%lookup_lt_Some & ->)%fmap_Some. simpl. lia.
Qed.

Section live_reader.
Context `{HE : Env, HJ : SerdeJson, HB : Base64Engine} (T : Type) `{HD : Deserialize T}.

Definition decode_entry (e : StreamEntry) : Result T :=
  decode_value T (Some (se_value e)) (se_serialization e).

Lemma decode_entries_ok es cur vals vs' cur' :
  decode_entries T es cur vals = Ok (vs', cur') →
  ∃ vs, mapM decode_entry es = Ok vs ∧ vs' = vals ++ vs ∧
        cur' = match last es with Some e => wrap_i32 (se_offset e + 1) | None => cur end.
Proof.
  revert cur vals. induction es as [|e es IH]; intros cur vals; simpl.
  { intros. simplify_eq. exists []. by rewrite app_nil_r. }
  fold (decode_entry e). destruct (decode_entry e) as [v|] eqn:E; simpl; [|done].
  intros (vs & Hvs & -> & ->)%IH. exists (v :: vs). rewrite <- (assoc_L (++)).
  split_and!; [by rewrite ?Hvs|done|]. destruct es as [|e2 es]; [done|].
  rewrite last_cons_cons. by destruct (proj2 (last_is_Some (e2 :: es))) as [? ->].
Qed.

(** What a reader that started at [from] holds between two turns. *)
Definition reader_inv (id key : string) (from : nat) (log : list st_row) (cur : Z) (vals : list T) : Prop :=
  ∃ k es, cur = Z.of_nat (from + k) ∧ (k ≤ length log - from)%nat ∧
    until_sentinel (take k (log_rows from log)) = (es, false) ∧ mapM decode_entry es = Ok vals.

Lemma reader_inv_app id key from log more cur vals :
  reader_inv id key from log cur vals → reader_inv id key from (log ++ more) cur vals.
Proof.
  intros (k & es & -> & Hk & Hs & Hv). exists k, es. rewrite length_app.
  split_and!; [done | lia | | done]. destruct (log_rows_app from log more) as [rest ->].
  by rewrite take_app_le by (rewrite length_log_rows; lia).
Qed.

Lemma mapM_app_ok es1 es2 vs1 vs2 :
  mapM decode_entry es1 = Ok vs1 → mapM decode_entry es2 = Ok vs2 →
  mapM decode_entry (es1 ++ es2) = Ok (vs1 ++ vs2).
Proof.
  revert vs1. induction es1 as [|e es1 IH]; intros vs1; simpl; [by intros [= <-]|].
  destruct (decode_entry e) as [v|]; simpl; [|done].
  destruct (mapM decode_entry es1) as [vs|] eqn:E; simpl; [|done]. intros [= <-] H2.
  by rewrite (IH vs).
Qed.

(** A batch takes the reader to the end of the log, or to its sentinel. *)
Lemma reader_batch id key from log cur vals st :
  reader_inv id key from log cur vals → Z.of_nat (length log) < 2 ^ 31 →
  ∀ entries closed k, cur = Z.of_nat (from + k) →
  until_sentinel (log_rows (from + k) log) = (entries, closed) →
  decode_entries T entries cur vals = Ok st →
  mapM decode_entry (until_sentinel (log_rows from log)).1 = Ok st.1 ∧
  (until_sentinel (log_rows from log)).2 = closed ∧
  (closed = false → reader_inv id key from log st.2 st.1).
Proof.
  intros (k & es & Hcur & Hk & Hs & Hv) Hlen entries closed k' Hk' Hb Hd.
  assert (k' = k) as -> by lia. destruct st as [vs' cur'].
  apply decode_entries_ok in Hd as (vs & Hvs & -> & Hcur').
  assert (until_sentinel (log_rows from log) = (es ++ entries, closed)) as Hall.
  { rewrite (log_rows_split from k) by done. rewrite until_sentinel_app, Hs, Hb. done. }
  rewrite Hall. simpl. split_and!; [by apply mapM_app_ok | done|]. intros ->.
  exists (length log - from)%nat, (es ++ entries).
  rewrite take_ge, Hall by (rewrite length_log_rows; lia).
  split_and!; [|lia|done|by apply mapM_app_ok].
  assert (last (se_offset <$> entries) = last (log_rows (from + k) log).*1) as Hl
    by (f_equal; by apply until_sentinel_open).
  rewrite !fmap_last in Hl. destruct (last entries) as [e|] eqn:Ee; simpl in Hl.
  - destruct (last (log_rows (from + k) log)) as [or|] eqn:Eo; [|done]. simplify_eq/=.
    apply log_rows_last in Eo as Ho. rewrite last_lookup in Eo. apply lookup_lt_Some in Eo.
    rewrite length_log_rows in Eo. rewrite Hl, wrap_i32_id by (unfold in_i32; lia). lia.
  - destruct (last (log_rows (from + k) log)) as [or|] eqn:Eo; [done|].
    apply last_None in Eo. apply (f_equal length) in Eo. rewrite length_log_rows in Eo.
    simpl in Eo. lia.
Qed.

(** The other processes only ever append to the stream. *)
Definition appends_only (id key : string) : Prop :=
  ∀ n d log, is_log id key d log → ∃ more, is_log id key (others n d) (log ++ more).

(** The producer, if it exists, neither runs nor is queued. *)
Definition producer_done (id : string) (d : Db) : Prop :=
  ∀ r, workflow_status d !! id = Some r → wf_status r ≠ "PENDING" ∧ wf_status r ≠ "ENQUEUED".

(** The log has its sentinel at or after [from]. *)
Definition ends_after (from : nat) (log : list st_row) : Prop := (until_sentinel (log_rows from log)).2 = true.

(** What a reader returns: every entry of [log ++ seen], the log at its last
    query, up to the sentinel; the stream counts as closed when the sentinel is
    there or the producer is done. *)
Definition reader_result (id key : string) (from : nat) (snapshot : bool) (log : list st_row)
    (vs : list T) (closed : bool) (d : Db) : Prop :=
  ∃ seen rest, is_log id key d (log ++ seen ++ rest) ∧
    mapM decode_entry (until_sentinel (log_rows from (log ++ seen))).1 = Ok vs ∧
    (snapshot = true → seen = [] ∧ rest = []) ∧
    (closed = false → snapshot = true) ∧
    (ends_after from (log ++ seen) → closed = true) ∧
    (closed = true → ends_after from (log ++ seen) ∨ producer_done id d ∧ is_Some (workflow_status d !! id)).

(** How a reader fails: the workflow is gone, or the first entry of its log
    that does not decode gives the error. *)
Definition reader_fails (id key : string) (from : nat) (snapshot : bool) (log : list st_row)
    (e : DbosError) (d : Db) : Prop :=
  snapshot = false ∧ e = non_existent_workflow id ∧ workflow_status d !! id = None ∨
  ∃ more, is_log id key d (log ++ more) ∧ (snapshot = true → more = []) ∧
    mapM decode_entry (until_sentinel (log_rows from (log ++ more))).1 = Err e.

Lemma reader_result_app id key from log more vs closed d :
  reader_result id key from false (log ++ more) vs closed d →
  reader_result id key from false log vs closed d.
Proof.
  intros (seen & rest & Hlog & Hv & _ & Hsnap & Hc). exists (more ++ seen), rest.
  rewrite <- !(assoc_L (++)) in *. destruct Hc. by split_and!.
Qed.

Lemma reader_fails_app id key from log more e d :
  reader_fails id key from false (log ++ more) e d → reader_fails id key from false log e d.
Proof.
  intros [?|(more' & Hlog & _ & He)]; [by left|right]. exists (more ++ more').
  rewrite <- !(assoc_L (++)) in *. by split_and!.
Qed.

(** A batch with an entry that does not decode. *)
Lemma decode_entries_err es cur vals e :
  decode_entries T es cur vals = Err e → mapM decode_entry es = Err e.
Proof.
  revert cur vals. induction es as [|x es IH]; intros cur vals; simpl; [done|].
  fold (decode_entry x). destruct (decode_entry x) as [v|]; simpl; [|by intros [= <-]].
  intros He%IH. by rewrite He.
Qed.

Lemma mapM_app_err es1 es2 vs1 e :
  mapM decode_entry es1 = Ok vs1 → mapM decode_entry es2 = Err e → mapM decode_entry (es1 ++ es2) = Err e.
Proof.
  revert vs1. induction es1 as [|x es1 IH]; intros vs1; simpl; [done|].
  destruct (decode_entry x) as [v|]; simpl; [|done].
  destruct (mapM decode_entry es1) as [vs|] eqn:E; simpl; [|done]. intros _ H2. by rewrite (IH vs).
Qed.

Lemma reader_batch_err id key from log cur vals entries closed k e :
  reader_inv id key from log cur vals → cur = Z.of_nat (from + k) →
  until_sentinel (log_rows (from + k) log) = (entries, closed) →
  decode_entries T entries cur vals = Err e →
  mapM decode_entry (until_sentinel (log_rows from log)).1 = Err e.
Proof.
  intros (k' & es & Hcur & Hk & Hs & Hv) Hk' Hb Hd%decode_entries_err.
  assert (k' = k) as -> by lia.
  rewrite (log_rows_split from k) by done. rewrite until_sentinel_app, Hs, Hb. by eapply mapM_app_err.
Qed.

(** One turn: it either ends the reading, or leaves the reader at the end of
    the log it read, which was open, with its producer still active after the
    wait. *)
Lemma reader_turn id key from log cur vals snapshot w :
  appends_only id key → is_log id key (w_db w) log → reader_inv id key from log cur vals →
  match read_stream_turn T id key cur vals snapshot w with
  | (Ok (Some (vs, closed), _, _), w') => reader_result id key from snapshot log vs closed (w_db w')
  | (Ok (None, st, _), w') =>
      snapshot = false ∧ w' = snd (wait w) ∧ ¬ ends_after from log ∧ ¬ producer_done id (w_db w') ∧
      reader_inv id key from log st.2 st.1
  | (Err e, w') => reader_fails id key from snapshot log e (w_db w')
  end.
Proof.
  intros Happ Hlog Hinv. assert (Hk := Hinv). destruct Hk as (k & es & -> & _).
  unfold read_stream_turn. rewrite M_bind_run, (read_stream_log w id key log (from + k)) by done.
  destruct (until_sentinel (log_rows (from + k) log)) as [entries closed] eqn:Eb.
  cbv zeta. rewrite M_bind_run. unfold lift at 1.
  destruct (decode_entries T entries _ vals) as [st|e] eqn:Hd.
  2:{ right. exists []. rewrite app_nil_r. split_and!; [done..|by eapply reader_batch_err]. }
  destruct (reader_batch id key from log _ vals st Hinv (proj2 Hlog) entries closed k eq_refl Eb Hd)
    as (Hv & Hc & Hinv').
  unfold reader_result, ends_after.
  destruct closed; [|destruct snapshot].
  - exists [], []. rewrite !app_nil_r. split_and!; try done. by left.
  - exists [], []. rewrite !app_nil_r. split_and!; try done. by rewrite Hc.
  - destruct (Happ (w_waits w) _ _ Hlog) as [more Hmore].
    unfold get_status. run_M. unfold compose, producer_done. simpl.
    destruct (workflow_status (others (w_waits w) (w_db w)) !! id) as [r|] eqn:Hr; simpl.
    2:{ left. by split_and!. }
    case_decide as Hst; simpl.
    + exists [], more. rewrite !app_nil_r. split_and!; try done. right.
      split; [|done]. intros r' Hr'. by simplify_eq.
    + split_and!; [done|done|by rewrite Hc| |by apply Hinv']. intros Hdone. by apply Hst, Hdone.
Qed.

(** How the loop ends, if it does. *)
Lemma reader_loop id key from snapshot fuel w log cur vals :
  appends_only id key → is_log id key (w_db w) log → reader_inv id key from log cur vals →
  match read_stream_loop T fuel id key cur vals snapshot w with
  | (Ok (Some (vs, closed)), w') => reader_result id key from snapshot log vs closed (w_db w')
  | (Ok None, _) => True
  | (Err e, w') => reader_fails id key from snapshot log e (w_db w')
  end.
Proof.
  intros Happ. revert w log cur vals.
  induction fuel as [|fuel IH]; intros w log cur vals Hlog Hinv; [done|]. cbn [read_stream_loop].
  rewrite M_bind_run. pose proof (reader_turn id key from log cur vals snapshot w Happ Hlog Hinv) as Ht.
  destruct (read_stream_turn _ _ _ _ _ _ w) as [[[[[[vs closed]|] st] got]|e] w1]; [done| |done].
  destruct Ht as (-> & -> & _ & _ & Hinv1).
  destruct (Happ (w_waits w) _ _ Hlog) as [more Hmore].
  assert (∀ w2 more', is_log id key (w_db w2) ((log ++ more) ++ more') →
    match read_stream_loop T fuel id key st.2 st.1 false w2 with
    | (Ok (Some (vs, closed)), w') => reader_result id key from false log vs closed (w_db w')
    | (Ok None, _) => True
    | (Err e, w') => reader_fails id key from false log e (w_db w')
    end) as Hnext.
  { intros w2 more' Hlog2. rewrite <- (assoc_L (++)) in Hlog2.
    specialize (IH w2 _ _ _ Hlog2 (reader_inv_app _ _ _ _ _ _ _ Hinv1)).
    destruct (read_stream_loop _ _ _ _ _ _ _ w2) as [[[[vs closed]|]|e] w3]; [|done|].
    - by eapply reader_result_app.
    - by eapply reader_fails_app. }
  destruct got; rewrite M_bind_run; simpl.
  - apply (Hnext _ []). by rewrite app_nil_r.
  - destruct (Happ (S (w_waits w)) _ _ Hmore) as [more' Hmore']. by apply (Hnext _ more').
Qed.

(** A reader that has not returned after [fuel] turns found, at each of them,
    the stream open and the producer active: so the turns cannot outlast
    either. *)
Definition came_from (w : World) : Prop := ∃ n d, w_waits w = S n ∧ w_db w = others n d.

Lemma reader_waiting id key from snapshot fuel w w' log cur vals :
  appends_only id key → is_log id key (w_db w) log → reader_inv id key from log cur vals →
  read_stream_loop T fuel id key cur vals snapshot w = (Ok None, w') →
  (snapshot = true → fuel = 0%nat) ∧
  (∀ N, (∀ n d, (N ≤ n)%nat → producer_done id (others n d)) → (fuel ≤ N - w_waits w)%nat) ∧
  (∀ N, (∀ n d log', (N ≤ n)%nat → is_log id key (others n d) log' → ends_after from log') →
    (fuel ≤ S (N - w_waits w))%nat ∧ (came_from w → fuel ≤ S N - w_waits w)%nat).
Proof.
  intros Happ. revert w log cur vals.
  induction fuel as [|fuel IH]; intros w log cur vals Hlog Hinv.
  { intros _. split_and!; intros; lia || split; intros; lia. }
  cbn [read_stream_loop]. rewrite M_bind_run.
  pose proof (reader_turn id key from log cur vals snapshot w Happ Hlog Hinv) as Ht.
  destruct (read_stream_turn _ _ _ _ _ _ w) as [[[[[[vs closed]|] st] got]|e] w1]; [done| |done].
  destruct Ht as (-> & -> & Hopen & Hactive & Hinv1).
  destruct (Happ (w_waits w) _ _ Hlog) as [more Hmore].
  assert (∀ w2 more', is_log id key (w_db w2) ((log ++ more) ++ more') → came_from w2 →
    (S (w_waits w) ≤ w_waits w2)%nat →
    read_stream_loop T fuel id key st.2 st.1 false w2 = (Ok None, w') →
    (false = true → S fuel = 0%nat) ∧
    (∀ N, (∀ n d, (N ≤ n)%nat → producer_done id (others n d)) → (S fuel ≤ N - w_waits w)%nat) ∧
    (∀ N, (∀ n d log', (N ≤ n)%nat → is_log id key (others n d) log' → ends_after from log') →
      (S fuel ≤ S (N - w_waits w))%nat ∧ (came_from w → S fuel ≤ S N - w_waits w)%nat)) as Hnext.
  { intros w2 more' Hlog2 Hfrom Hw2 Hrun. rewrite <- (assoc_L (++)) in Hlog2.
    apply (IH w2 _ _ _ Hlog2 (reader_inv_app _ _ _ _ _ _ _ Hinv1)) in Hrun as (_ & Hdone & Hend).
    split; [done|]. split.
    - intros N HN. specialize (Hdone N HN).
      destruct (le_lt_dec N (w_waits w)) as [Hle|?]; [|lia]. by destruct (Hactive (HN _ _ Hle)).
    - intros N HN. destruct (Hend N HN) as [_ He]. specialize (He Hfrom). split; [lia|].
      intros (n & d & Hn & Hd). destruct (le_lt_dec N n) as [Hle|?]; [|lia].
      rewrite Hd in Hlog. by destruct (Hopen (HN _ _ _ Hle Hlog)). }
  destruct got; rewrite M_bind_run; simpl.
  - apply (Hnext _ []); [by rewrite app_nil_r | by eexists _, _ | simpl; lia].
  - destruct (Happ (S (w_waits w)) _ _ Hmore) as [more' Hmore'].
    apply (Hnext _ more'); [done | by eexists _, _ | simpl; lia].
Qed.

(** C34: a live reader sees the log in order, without gaps or duplicates, and
    does return.  While the other processes only append, the values it returns
    decode exactly the entries from its starting offset, up to the sentinel,
    of the log as it was at the reader's last query; a snapshot read is one of
    the initial log, and only a snapshot read can leave the stream open.  It
    fails only when the workflow does not exist or with the error of the first
    entry that does not decode.  It is still following after [fuel] turns only
    while the stream is open and its producer active: if from some wait [N] on
    the producer is done, or the sentinel is written, [fuel] is at most the
    waits from the start to [N], with one turn more for the sentinel; a
    snapshot returns in its first turn. *)
Theorem live_reader_follows_log id key from snapshot fuel w log :
  appends_only id key → is_log id key (w_db w) log →
  match read_stream_blocking T fuel id key (Z.of_nat from) snapshot w with
  | (Ok (Some (vs, closed)), w') => reader_result id key from snapshot log vs closed (w_db w')
  | (Ok None, _) =>
      (snapshot = true → fuel = 0%nat) ∧
      (∀ N, (∀ n d, (N ≤ n)%nat → producer_done id (others n d)) → (fuel ≤ N - w_waits w)%nat) ∧
      (∀ N, (∀ n d log', (N ≤ n)%nat → is_log id key (others n d) log' → ends_after from log') →
        (fuel ≤ S (N - w_waits w))%nat)
  | (Err e, w') => reader_fails id key from snapshot log e (w_db w')
  end.
Proof.
  intros Happ Hlog. unfold read_stream_blocking.
  assert (reader_inv id key from log (Z.of_nat from) []) as Hinv.
  { exists 0%nat, []. rewrite Nat.add_0_r. split_and!; [done | lia | done | done]. }
  pose proof (reader_loop id key from snapshot fuel w log _ _ Happ Hlog Hinv) as Hl.
  destruct (read_stream_loop _ _ _ _ _ _ _ w) as [[[[vs closed]|]|e] w'] eqn:Hrun; [done| |done].
  destruct (reader_waiting id key from snapshot fuel w w' log _ _ Happ Hlog Hinv Hrun) as (Hs & Hd & He).
  split_and!; [done|done|]. intros N HN. by apply He.
Qed.

Lemma decode_entries_run es cur vals vs :
  mapM decode_entry es = Ok vs → ∃ cur', decode_entries T es cur vals = Ok (vals ++ vs, cur').
Proof.
  revert cur vals vs. induction es as [|e es IH]; intros cur vals vs; simpl.
  { intros [= <-]. exists cur. by rewrite app_nil_r. }
  fold (decode_entry e). destruct (decode_entry e) as [v|]; simpl; [|done].
  destruct (mapM decode_entry es) as [vs'|] eqn:E; simpl; [|done]. intros [= <-].
  destruct (IH (wrap_i32 (se_offset e + 1)) (vals ++ [v]) vs' eq_refl) as [cur' ->].
  exists cur'. by rewrite <- (assoc_L (++)).
Qed.

(** A reader can miss a producer's last entries.  When the producer
    appends [more] and finishes (or is [DELAYED]) between the reader's query
    of the entries and its query of the status, the reader reports the stream
    closed with the values of the earlier log only, although the entries of
    [more] are there. *)
Theorem reader_misses_final_entries id key from fuel w log more vs s :
  is_log id key (w_db w) log → (until_sentinel (log_rows from log)).2 = false →
  mapM decode_entry (until_sentinel (log_rows from log)).1 = Ok vs →
  is_log id key (others (w_waits w) (w_db w)) (log ++ more) →
  wf_status <$> workflow_status (others (w_waits w) (w_db w)) !! id = Some s →
  s ≠ "PENDING" ∧ s ≠ "ENQUEUED" →
  ∃ w', read_stream_blocking T (S fuel) id key (Z.of_nat from) false w = (Ok (Some (vs, true)), w') ∧
        is_log id key (w_db w') (log ++ more).
Proof.
  intros Hlog Hopen Hvs Hmore Hst Hs. destruct (decode_entries_run _ (Z.of_nat from) [] _ Hvs) as [cur Hdec].
  exists (snd (wait w)). split; [|exact Hmore]. unfold read_stream_blocking. cbn [read_stream_loop].
  pose proof (read_stream_log w id key log from Hlog) as Hread.
  destruct (until_sentinel (log_rows from log)) as [es closed]. simpl in Hopen, Hdec. subst closed.
  eapply run_bind with (a := (Some (vs, true), (vs, cur), negb (bool_decide (es = [])))); [|done].
  unfold read_stream_turn. eapply run_bind; [exact Hread|]. cbv zeta.
  eapply run_bind; [unfold lift; by rewrite Hdec|]. simpl.
  eapply run_bind; [done|]. eapply run_bind; [done|]. unfold compose. simpl. rewrite Hst.
  by rewrite decide_True.
Qed.
End live_reader.
