(* ===== verification/LiveStream.v ===== *)
(** * Live streams over a channel (runtime/mod.rs)

    [read_stream_async]: the task that follows a stream and hands each entry
    to a channel, and its agreement with the blocking reader of [Streams]. *)
From S2P Require Import Prelude Errors Json Serialize Database World Status Streams.

Local Open Scope string_scope.
Local Open Scope Z_scope.
Local Open Scope list_scope.
Local Open Scope dbos_scope.

(** The channel from the task to the receiver: what was sent, and how many
    more values are taken before the receiver is dropped; [None] is a
    receiver that is never dropped.  A full channel delays the task at a point
    where it holds nothing. *)
Record Channel (T : Type) := mkChannel {
  ch_sent : list (Result T);
  ch_left : option nat;
}.
Arguments mkChannel {T} _ _.
Arguments ch_sent {T} _.
Arguments ch_left {T} _.

(** [tx.send(r).await.is_ok()]. *)
Definition tx_send {T} (r : Result T) (c : Channel T) : Channel T * bool :=
  match ch_left c with
  | None => (mkChannel (ch_sent c ++ [r]) None, true)
  | Some (S n) => (mkChannel (ch_sent c ++ [r]) (Some n), true)
  | Some O => (c, false)
  end.

(** [let _ = tx.send(Err(e)).await]. *)
Definition tx_send_error {T} (e : DbosError) (c : Channel T) : Channel T := (tx_send (Err e) c).1.

Section task.
Context `{Env, SerdeJson, Base64Engine} (T : Type) `{Deserialize T}.

(** The [for] loop; [None] when the task returns from within it. *)
Fixpoint send_entries (es : list StreamEntry) (current : Z) (c : Channel T) : option Z * Channel T :=
  match es with
  | [] => (Some current, c)
  | e :: es =>
      match decode_value T (Some (se_value e)) (se_serialization e) with
      | Ok v =>
          let '(c, sent) := tx_send (Ok v) c in
          if sent then send_entries es (wrap_i32 (se_offset e + 1)) c else (None, c)
      | Err err => (None, tx_send_error err c)
      end
  end.

(** One turn: where to go on from and whether it had entries, or [None] when
    the task is over. *)
Definition read_stream_async_turn (workflow_id key : string) (current : Z) (c : Channel T)
    : M (option (Z * bool) * Channel T) :=
  batch ← attempt (read_stream_entries workflow_id key current);
  match batch with
  | Err e => mret (None, tx_send_error e c)
  | Ok (entries, closed) =>
      let got := negb (bool_decide (entries = [])) in
      match send_entries entries current c with
      | (None, c) => mret (None, c)
      | (Some current, c) =>
          if (closed : bool) then mret (None, c)
          else
            wait;;
            status ← attempt (get_status workflow_id);
            match status with
            | Ok None => mret (None, tx_send_error (non_existent_workflow workflow_id) c)
            | Ok (Some s) =>
                if decide (s ≠ "PENDING" ∧ s ≠ "ENQUEUED") then mret (None, c)
                else mret (Some (current, got), c)
            | Err e => mret (None, tx_send_error e c)
            end
      end
  end.

(** The loop of the task, and whether it is over after [fuel] turns. *)
Fixpoint read_stream_async_loop (fuel : nat) (workflow_id key : string) (current : Z) (c : Channel T)
    : M (bool * Channel T) :=
  match fuel with
  | O => mret (false, c)
  | S fuel =>
      turn ← read_stream_async_turn workflow_id key current c;
      match turn with
      | (None, c) => mret (true, c)
      | (Some (current, got), c) =>
          (if (got : bool) then mret tt else wait);;
          read_stream_async_loop fuel workflow_id key current c
      end
  end.

(** The spawned task, for a receiver that takes [takes] values. *)
Definition read_stream_async (fuel : nat) (workflow_id key : string) (takes : option nat)
    : M (bool * Channel T) :=
  read_stream_async_loop fuel workflow_id key 0 (mkChannel [] takes).
End task.

(** ** Agreement with the blocking reader *)

Section agreement.
Context `{HE : Env, HJ : SerdeJson, HB : Base64Engine} (T : Type) `{HD : Deserialize T}.

(** The channel of a receiver that stays, having got the values [vs]. *)
Definition received (vs : list T) : Channel T := mkChannel (Ok <$> vs) None.

(** What the channel carries when the reader fails with [e]. *)
Definition failed_after (e : DbosError) (c : Channel T) : Prop :=
  ∃ vs, c = mkChannel ((Ok <$> vs) ++ [Err e]) None.

Lemma tx_send_error_received e vs : failed_after e (tx_send_error e (received vs)).
Proof. by exists vs. Qed.

Lemma send_entries_decode es cur vs :
  match decode_entries T es cur vs with
  | Ok (vs', cur') => send_entries T es cur (received vs) = (Some cur', received vs')
  | Err e => ∃ c, send_entries T es cur (received vs) = (None, c) ∧ failed_after e c
  end.
Proof.
  revert cur vs. induction es as [|e es IH]; intros cur vs; [done|].
  cbn [decode_entries send_entries].
  destruct (decode_value T _ _) as [v|err]; simpl; [|eauto using tx_send_error_received].
  specialize (IH (wrap_i32 (se_offset e + 1)) (vs ++ [v])). unfold received in IH |- *.
  rewrite fmap_app in IH. apply IH.
Qed.

(** One turn of both readers from the same state. *)
Definition same_turn (blocking : Result (option (list T * bool) * (list T * Z) * bool))
    (async : Result (option (Z * bool) * Channel T)) : Prop :=
  match blocking with
  | Ok (None, (vs, cur), got) => async = Ok (Some (cur, got), received vs)
  | Ok (Some (vs, _), _, _) => async = Ok (None, received vs)
  | Err e => ∃ c, async = Ok (None, c) ∧ failed_after e c
  end.

Lemma async_turn_agrees id key cur vs w :
  let '(b, w1) := read_stream_turn T id key cur vs false w in
  let '(a, w2) := read_stream_async_turn T id key cur (received vs) w in
  same_turn b a ∧ w1 = w2.
Proof.
  unfold read_stream_turn, read_stream_async_turn.
  unfold read_stream_entries, get_status, wait. run_M.
  destruct (until_sentinel _) as [entries closed]. simpl.
  pose proof (send_entries_decode entries cur vs) as Hs.
  destruct (decode_entries T entries cur vs) as [[vs' cur']|e]; simpl.
  - rewrite Hs. destruct closed; simpl; [done|].
    destruct (wf_status <$> _) as [s|]; simpl; [by case_decide|eauto using tx_send_error_received].
  - destruct Hs as (c & -> & Hc). simpl. eauto.
Qed.

(** The whole run of both readers. *)
Definition same_run (blocking : Result (option (list T * bool))) (async : Result (bool * Channel T))
    : Prop :=
  match blocking with
  | Ok (Some (vs, _)) => async = Ok (true, received vs)
  | Ok None => ∃ vs, async = Ok (false, received vs)
  | Err e => ∃ c, async = Ok (true, c) ∧ failed_after e c
  end.

Lemma async_loop_agrees fuel id key cur vs w :
  let '(b, w1) := read_stream_loop T fuel id key cur vs false w in
  let '(a, w2) := read_stream_async_loop T fuel id key cur (received vs) w in
  same_run b a ∧ w1 = w2.
Proof.
  revert cur vs w. induction fuel as [|fuel IH]; intros cur vs w; simpl; [by split; [exists vs|]|].
  unfold mbind, M_bind. pose proof (async_turn_agrees id key cur vs w) as Ht.
  destruct (read_stream_turn T id key cur vs false w) as [b w1].
  destruct (read_stream_async_turn T id key cur (received vs) w) as [a w2].
  destruct Ht as [Ht <-]. destruct b as [[[res [vs' cur']] got]|e]; simpl in Ht.
  - destruct res as [[vs2 closed]|]; subst a; [done|].
    destruct got; simpl; apply IH.
  - destruct Ht as (c & -> & Hc). simpl. eauto.
Qed.

(** ** Receivers that are dropped *)

(** The run of a receiver that stays only ever adds to what it got. *)
Definition extends (c c' : Channel T) : Prop := ch_left c' = None ∧ ch_sent c `prefix_of` ch_sent c'.

Lemma extends_refl c : ch_left c = None → extends c c.
Proof. done. Qed.

Lemma extends_trans c1 c2 c3 : extends c1 c2 → extends c2 c3 → extends c1 c3.
Proof. intros [_ ?] [? ?]. split; [done|by etrans]. Qed.

Lemma tx_send_stays (r : Result T) c :
  ch_left c = None → tx_send r c = (mkChannel (ch_sent c ++ [r]) None, true).
Proof. unfold tx_send. by intros ->. Qed.

Lemma extends_error e c : ch_left c = None → extends c (tx_send_error e c).
Proof. intros Hc. unfold tx_send_error. rewrite tx_send_stays by done. split; [done|]. by eexists. Qed.

Lemma send_entries_extends es cur c : ch_left c = None → extends c (send_entries T es cur c).2.
Proof.
  revert cur c. induction es as [|e es IH]; intros cur c Hc; [done|]. simpl.
  destruct (decode_value T _ _) as [v|err]; [|by apply extends_error].
  rewrite tx_send_stays by done. eapply extends_trans; [|by apply IH].
  split; [done|]. by eexists.
Qed.

Lemma turn_extends id key cur c w r c' w' :
  ch_left c = None → read_stream_async_turn T id key cur c w = (Ok (r, c'), w') → extends c c'.
Proof.
  intros Hc. unfold read_stream_async_turn, read_stream_entries, get_status, wait. run_M.
  destruct (until_sentinel _) as [entries closed].
  pose proof (send_entries_extends entries cur c Hc) as Hs.
  destruct (send_entries T entries cur c) as [[cur'|] c1]; simpl in *; [|by intros [= _ <- _]].
  destruct closed; simpl; [by intros [= _ <- _]|].
  destruct (wf_status <$> _) as [s|]; simpl; [by case_decide; intros [= _ <- _]|].
  intros [= _ <- _]. eapply extends_trans; [done|]. apply extends_error, Hs.
Qed.

Lemma turn_total id key cur c w : ∃ rc w', read_stream_async_turn T id key cur c w = (Ok rc, w').
Proof.
  unfold read_stream_async_turn, read_stream_entries, get_status, wait. run_M.
  destruct (until_sentinel _) as [entries closed].
  destruct (send_entries T entries cur c) as [[cur'|] c1]; simpl; [|eauto].
  destruct closed; simpl; [eauto|]. destruct (wf_status <$> _); simpl; [case_decide|]; eauto.
Qed.

Lemma loop_total fuel id key cur c w : ∃ dc w', read_stream_async_loop T fuel id key cur c w = (Ok dc, w').
Proof.
  revert cur c w. induction fuel as [|fuel IH]; intros cur c w; simpl; [eauto|].
  unfold mbind, M_bind. destruct (turn_total id key cur c w) as ([[[cur' got]|] c1]&w1&->); [|eauto].
  destruct got; apply IH.
Qed.

Lemma loop_extends fuel id key cur c w d c' w' :
  ch_left c = None → read_stream_async_loop T fuel id key cur c w = (Ok (d, c'), w') → extends c c'.
Proof.
  revert cur c w. induction fuel as [|fuel IH]; intros cur c w Hc; simpl; [by intros [= _ <- _]|].
  unfold mbind, M_bind.
  destruct (turn_total id key cur c w) as ([[[cur' got]|] c1]&w1&E); rewrite E;
    apply turn_extends in E; [|done| |done].
  - destruct got; simpl; intros Hl; apply IH in Hl; eauto using extends_trans; apply E.
  - by intros [= _ <- _].
Qed.

(** The run of a receiver that takes [n] values beside the run of one that
    stays, while the former goes on, and when it is over. *)
Definition in_step (n : nat) (c full : Channel T) : Prop :=
  ch_sent c = ch_sent full ∧ ch_left c = Some (n - length (ch_sent full))%nat ∧
  ch_left full = None ∧ (length (ch_sent full) ≤ n)%nat.

Definition cut_at (n : nat) (c full : Channel T) : Prop := ch_sent c = take n (ch_sent full).

Definition over {A} (n : nat) (c full : Channel T) (rest : option A) : Prop :=
  cut_at n c full ∧ ch_left full = None ∧ (rest = None ∨ (n ≤ length (ch_sent full))%nat).

Lemma in_step_cut n c full : in_step n c full → cut_at n c full.
Proof. intros (Hs & _ & _ & Hn). unfold cut_at. by rewrite take_ge. Qed.

Lemma cut_extends n c full full' :
  cut_at n c full → (n ≤ length (ch_sent full))%nat → extends full full' → cut_at n c full'.
Proof. unfold cut_at. intros -> Hn [_ [more ->]]. by rewrite take_app_le. Qed.

Lemma tx_send_in_step n r c full :
  in_step n c full →
  let '(c', sent) := tx_send r c in
  let full' := mkChannel (ch_sent full ++ [r]) None in
  if sent then in_step n c' full' else c' = c ∧ length (ch_sent full) = n.
Proof.
  destruct c as [cs cl], full as [fs fl]. intros (Hs & Hl & Hf & Hn). simpl in *. subst cs cl fl.
  unfold tx_send. simpl. destruct (n - length fs)%nat as [|k] eqn:Hk; simpl; [split; [done|lia]|].
  unfold in_step. simpl. rewrite length_app. simpl. split_and!; [done| |done|lia]. f_equal. lia.
Qed.

Lemma tx_send_error_over {A} n e c full :
  in_step n c full → over (A := A) n (tx_send_error e c) (tx_send_error e full) None.
Proof.
  intros Hi. pose proof (tx_send_in_step n (Err e) c full Hi) as Ht.
  pose proof Hi as (Hs & _ & Hf & _).
  unfold tx_send_error. rewrite (tx_send_stays _ full) by done. simpl.
  destruct (tx_send (Err e) c) as [c' []]; simpl.
  - split_and!; [by apply in_step_cut|done|by left].
  - destruct Ht as [-> Hn]. split_and!; [|done|by left]. unfold cut_at. simpl.
    by rewrite <-Hn, take_app_length.
Qed.

(** What one part of the two runs gives. *)
Definition beside {A} (n : nat) (r r' : option A * Channel T) : Prop :=
  match r.1 with
  | Some a => r'.1 = Some a ∧ in_step n r.2 r'.2
  | None => over n r.2 r'.2 r'.1
  end.

Lemma over_extends {A B} n c full (a : A) full' (rest : option B) :
  over n c full (Some a) → extends full full' → beside n (None, c) (rest, full').
Proof.
  intros (Hc & _ & [?|Hn]) He; [done|]. unfold beside, over. simpl.
  split_and!; [by eapply cut_extends|apply He|]. right. destruct He as [_ [more ->]].
  rewrite length_app. lia.
Qed.

Lemma send_entries_beside n es cur c full :
  in_step n c full → beside n (send_entries T es cur c) (send_entries T es cur full).
Proof.
  revert cur c full. induction es as [|e es IH]; intros cur c full Hi; [done|]. simpl.
  destruct (decode_value T _ _) as [v|err]; [|by apply tx_send_error_over].
  pose proof (tx_send_in_step n (Ok v) c full Hi) as Ht. pose proof Hi as (Hs & _ & Hf & _).
  rewrite (tx_send_stays _ full) by done.
  destruct (tx_send (Ok v) c) as [c' []]; [by apply IH|]. destruct Ht as [-> Hn].
  set (full' := mkChannel _ _). pose proof (send_entries_extends es (wrap_i32 (se_offset e + 1)) full' eq_refl) as He.
  assert (cut_at n c full') as Hc.
  { unfold cut_at. simpl. by rewrite <-Hn, take_app_length. }
  assert (n ≤ length (ch_sent full'))%nat as Hl by (simpl; rewrite length_app; lia).
  unfold beside, over. simpl. split_and!; [by eapply cut_extends|apply He|].
  right. destruct He as [_ [more ->]]. rewrite length_app. lia.
Qed.

Lemma turn_beside n id key cur c full w :
  in_step n c full →
  let '(r, w1) := read_stream_async_turn T id key cur c w in
  let '(r', w2) := read_stream_async_turn T id key cur full w in
  ∃ p p', r = Ok p ∧ r' = Ok p' ∧ beside n p p' ∧ (p.1 = None ∨ w1 = w2).
Proof.
  intros Hi. unfold read_stream_async_turn, read_stream_entries, get_status, wait. run_M.
  destruct (until_sentinel _) as [entries closed].
  pose proof (send_entries_beside n entries cur c full Hi) as Hb. unfold beside in Hb.
  destruct (send_entries T entries cur c) as [[cur1|] c1],
    (send_entries T entries cur full) as [[cur2|] full1]; simpl in *; [|naive_solver| |].
  - destruct Hb as [[= ->] Hb]. pose proof (in_step_cut _ _ _ Hb) as Hc.
    destruct closed; simpl; [|destruct (wf_status <$> _) as [s|]; simpl; [case_decide|]];
      eexists _, _; (split_and!; [done..| |by auto]); unfold beside; simpl;
      first [done|by split_and!; [done|apply Hb|left]|by apply tx_send_error_over].
  - pose proof (λ full' (rest : option (Z * bool)), over_extends n c1 full1 cur2 full' rest Hb) as He.
    destruct closed; simpl; [|destruct (wf_status <$> _) as [s|]; simpl; [case_decide|]];
      eexists _, _; (split_and!; [done..| |by left]); apply He;
      first [by apply extends_refl, Hb|by apply extends_error, Hb].
  - eexists _, _. split_and!; [done..| |by left]. split_and!; [apply Hb|apply Hb|by left].
Qed.

Lemma loop_beside fuel n id key cur c full w :
  in_step n c full →
  let '(r, _) := read_stream_async_loop T fuel id key cur c w in
  let '(r', _) := read_stream_async_loop T fuel id key cur full w in
  ∃ d c' d' full', r = Ok (d, c') ∧ r' = Ok (d', full') ∧ cut_at n c' full'.
Proof.
  revert cur c full w. induction fuel as [|fuel IH]; intros cur c full w Hi; simpl.
  { eexists _, _, _, _. split_and!; [done..|by apply in_step_cut]. }
  unfold mbind, M_bind. pose proof (turn_beside n id key cur c full w Hi) as Ht.
  destruct (read_stream_async_turn T id key cur c w) as [r w1].
  destruct (read_stream_async_turn T id key cur full w) as [r' w2].
  destruct Ht as ([next c1]&[next' full1]&->&->&Hb&Hw). unfold beside in Hb. simpl in *.
  destruct next as [[cur' got]|]; simpl in *.
  - destruct Hb as [-> Hb], Hw as [?| <-]; [done|]. simpl. destruct got; apply IH, Hb.
  - destruct Hb as (Hc & Hl & Hn). destruct next' as [[cur2 got]|].
    + destruct Hn as [?|Hn]; [done|].
      assert (∀ w, ∃ d' full', (read_stream_async_loop T fuel id key cur2 full1 w).1 = Ok (d', full') ∧
        cut_at n c1 full') as Hrest.
      { intros w3. destruct (loop_total fuel id key cur2 full1 w3) as ([d' full']&w4&E).
        rewrite E. exists d', full'. split; [done|]. eapply cut_extends; [done..|].
        by eapply loop_extends. }
      destruct got; simpl; [specialize (Hrest w2)|specialize (Hrest (wait w2).2)]; simpl in Hrest;
        destruct (read_stream_async_loop T fuel id key cur2 full1 _);
        destruct Hrest as (d'&full'&Hr&Hc'); simpl in Hr; subst; eexists _, _, _, _; by split_and!.
    + eexists _, _, _, _. by split_and!.
Qed.

(** C27: a live stream over a channel carries what the blocking reader returns.
    Followed by a receiver that stays, the task sends exactly the values of
    [read_stream_blocking] from offset 0, in order, and closes the channel when
    that reader returns; where that reader fails, the channel carries its
    error last, after the values decoded before it; while that reader still
    follows the stream so does the task; and both leave the same world.  A
    receiver that is dropped after [n] values got the first [n] of these. *)
Theorem read_stream_async_agrees fuel id key w :
  let '(blocking, w1) := read_stream_blocking T fuel id key 0 false w in
  let '(async, w2) := read_stream_async T fuel id key None w in
  w1 = w2 ∧
  match blocking with
  | Ok (Some (vs, _)) => async = Ok (true, mkChannel (Ok <$> vs) None)
  | Ok None => ∃ vs, async = Ok (false, mkChannel (Ok <$> vs) None)
  | Err e => ∃ vs, async = Ok (true, mkChannel ((Ok <$> vs) ++ [Err e]) None)
  end ∧
  ∀ n, ∃ d c d' full, (read_stream_async T fuel id key (Some n) w).1 = Ok (d, c) ∧
    async = Ok (d', full) ∧ ch_sent c = take n (ch_sent full).
Proof.
  unfold read_stream_blocking, read_stream_async.
  pose proof (async_loop_agrees fuel id key 0 [] w) as Ha. unfold received in Ha. simpl in Ha.
  pose proof (λ n, loop_beside fuel n id key 0 (mkChannel [] (Some n)) (mkChannel [] None) w) as Hb.
  destruct (read_stream_loop T fuel id key 0 [] false w) as [b w1].
  destruct (read_stream_async_loop T fuel id key 0 (mkChannel [] None) w) as [a w2].
  destruct Ha as [Hrun <-]. split_and!; [done| |].
  - destruct b as [[[vs closed]|]|e]; simpl in Hrun; [done|done|].
    destruct Hrun as (c & -> & vs & ->). by exists vs.
  - intros n. specialize (Hb n). destruct (read_stream_async_loop _ _ _ _ _ (mkChannel [] (Some n)) w).
    destruct Hb as (d & c & d' & full & -> & -> & Hc); [|by exists d, c, d', full].
    unfold in_step. simpl. rewrite Nat.sub_0_r. split_and!; [done..|lia].
Qed.
End agreement.
