(* ===== verification/QueueDb.v ===== *)
(** * Durable queues in the database (db/queue.rs)

    Promotion of delayed workflows, clearing a queue assignment for recovery,
    partition discovery and the dequeue transaction with its rate, worker and
    global concurrency limits. *)
From S2P Require Import Prelude Errors Serialize Database World Status.

Local Open Scope string_scope.
Local Open Scope Z_scope.
Local Open Scope list_scope.
Local Open Scope dbos_scope.

(** The rows locked by other transactions, at the [n]-th clock reading. *)
Class RowLocks := locked_rows : nat → gset string.

(** [c <= x] and [c > x] on a nullable column. *)
Definition sql_le (c : option Z) (x : Z) : bool :=
  match c with Some z => bool_decide (z ≤ x) | None => false end.
Definition sql_gt (c : option Z) (x : Z) : bool :=
  match c with Some z => bool_decide (z > x) | None => false end.

Section promotion.
Context `{Env}.

Definition delay_elapsed (now : Z) (r : wf_row) : bool :=
  bool_decide (wf_status r = status_str Delayed) && sql_le (wf_delay_until_epoch_ms r) now.

Definition transition_delayed_workflows : M unit :=
  now ← now_epoch_ms;
  modify_db (λ d, d <| workflow_status ::=
    update_where (λ _, delay_elapsed now) (set_field wf_status (λ _, status_str Enqueued)) |>).
End promotion.

Definition queue_assigned (r : wf_row) : bool :=
  bool_decide (is_Some (wf_queue_name r)) && bool_decide (wf_status r = status_str Pending).

Definition clear_row (r : wf_row) : wf_row :=
  r <| wf_status := status_str Enqueued |> <| wf_started_at_epoch_ms := None |>.

Definition clear_queue_assignment (workflow_id : string) : M bool :=
  t ← gets_db workflow_status;
  match select_key queue_assigned workflow_id t with
  | Some r =>
      modify_db (λ d, d <| workflow_status ::= <[workflow_id := clear_row r]> |>);; mret true
  | None => mret false
  end.

(** [SELECT DISTINCT queue_partition_key ...]. *)
Definition get_queue_partitions `{PgScan} (queue_name : string) : M (list string) :=
  gets_db (λ d, remove_dups (omap (λ kr, wf_queue_partition_key kr.2)
    (select_where (λ _ r, sql_eq (wf_queue_name r) queue_name
                          && bool_decide (wf_status r = status_str Enqueued)) (workflow_status d)))).

(** ** Dequeue *)

Record DequeueInput := mkDequeueInput {
  dq_queue_name : string;
  dq_executor_id : string;
  dq_application_version : string;
  dq_partition_key : option string;
  dq_local_running_count : Z;
  dq_worker_concurrency : option Z;
  dq_global_concurrency : option Z;
  dq_max_tasks_per_iteration : Z;
  dq_rate_limit : option (Z * Duration.t);
}.

Record DequeuedWorkflow := mkDequeued {
  dw_id : string;
  dw_name : string;
  dw_inputs : option string;
  dw_serialization : option string;
  dw_config_name : option string;
}.

(** [partition_clause]. *)
Definition partition_clause (partition : option string) (r : wf_row) : bool :=
  match partition with
  | Some pk => sql_eq (wf_queue_partition_key r) pk
  | None => true
  end.

(** [queue_name = $1 AND rate_limited = TRUE AND status NOT IN ($2, $3) AND
    started_at_epoch_ms > $4]. *)
Definition recently_started (input : DequeueInput) (cutoff : Z) (r : wf_row) : bool :=
  sql_eq (wf_queue_name r) (dq_queue_name input) && wf_rate_limited r
  && negb (sql_in (wf_status r) queued_statuses) && sql_gt (wf_started_at_epoch_ms r) cutoff
  && partition_clause (dq_partition_key input) r.

(** [queue_name = $1 AND status = $2]. *)
Definition running (input : DequeueInput) (r : wf_row) : bool :=
  sql_eq (wf_queue_name r) (dq_queue_name input) && bool_decide (wf_status r = status_str Pending)
  && partition_clause (dq_partition_key input) r.

Definition version_matches (version : string) (r : wf_row) : bool :=
  match wf_application_version r with Some v => bool_decide (v = version) | None => true end.

Definition claimable (input : DequeueInput) (r : wf_row) : bool :=
  sql_eq (wf_queue_name r) (dq_queue_name input) && bool_decide (wf_status r = status_str Enqueued)
  && version_matches (dq_application_version input) r && partition_clause (dq_partition_key input) r.

Definition lock_not_available : DbosError :=
  from_sqlx (SqlxDatabase (Some "55P03") "could not obtain lock on row in relation").

Definition bigint_out_of_range : DbosError :=
  from_sqlx (SqlxDatabase (Some "22003") "bigint out of range").

(** The [SELECT ... FOR UPDATE] of the candidates: without a global limit
    locked rows are skipped, with one they are an error. *)
Definition select_candidates `{PgScan} (input : DequeueInput) (max_tasks : Z) (locked : gset string)
    (t : gmap string wf_row) : Result (list string) :=
  let ordered := order_by [λ kr, wf_priority kr.2; λ kr, wf_created_at kr.2]
                   (select_where (λ _, claimable input) t) in
  match dq_global_concurrency input with
  | None => Ok (take (Z.to_nat max_tasks) (filter (λ k, k ∉ locked) ordered.*1))
  | Some _ =>
      let ids := take (Z.to_nat max_tasks) ordered.*1 in
      if bool_decide (Exists (λ k, k ∈ locked) ids) then Err lock_not_available else Ok ids
  end.

(** The deadline the claim computes; [None] is an overflow. *)
Definition claimed_deadline (now : Z) (r : wf_row) : option (option Z) :=
  match wf_workflow_timeout_ms r, wf_workflow_deadline_epoch_ms r with
  | Some timeout, None => if decide (in_i64 (now + timeout)) then Some (Some (now + timeout)) else None
  | _, deadline => Some deadline
  end.

Definition claimed_row (input : DequeueInput) (now : Z) (deadline : option Z) (r : wf_row) : wf_row :=
  r <| wf_status := status_str Pending |>
    <| wf_application_version := Some (dq_application_version input) |>
    <| wf_executor_id := Some (dq_executor_id input) |> <| wf_started_at_epoch_ms := Some now |>
    <| wf_rate_limited := bool_decide (is_Some (dq_rate_limit input)) |>
    <| wf_workflow_deadline_epoch_ms := deadline |>.

(** The claiming [UPDATE]. *)
Definition claim (input : DequeueInput) (now : Z) (id : string) : M (option DequeuedWorkflow) :=
  t ← gets_db workflow_status;
  match select_key (λ r, bool_decide (wf_status r = status_str Enqueued)) id t with
  | None => mret None
  | Some r =>
      match claimed_deadline now r with
      | None => raise bigint_out_of_range
      | Some deadline =>
          modify_db (λ d, d <| workflow_status ::= <[id := claimed_row input now deadline r]> |>);;
          mret (Some (mkDequeued id (wf_name r) (wf_inputs r) (wf_serialization r) (wf_config_name r)))
      end
  end.

#[export] Instance DequeuedWorkflow_eq_dec : EqDecision DequeuedWorkflow.
Proof. solve_decision. Defined.

Definition limit_reached (input : DequeueInput) (num_recent : Z) (claimed : list DequeuedWorkflow) : bool :=
  match dq_rate_limit input with
  | Some (limit, _) => bool_decide (limit ≤ Z.of_nat (length claimed) + num_recent)
  | None => false
  end.

Fixpoint claim_all (input : DequeueInput) (now num_recent : Z) (ids : list string)
    (claimed : list DequeuedWorkflow) : M (list DequeuedWorkflow) :=
  match ids with
  | [] => mret claimed
  | id :: ids =>
      if limit_reached input num_recent claimed then mret claimed
      else
        row ← claim input now id;
        claim_all input now num_recent ids
          (match row with Some wf => claimed ++ [wf] | None => claimed end)
  end.

(** How many tasks may be claimed this iteration. *)
Definition task_budget (input : DequeueInput) (t : gmap string wf_row) : Z :=
  let max_tasks := match dq_worker_concurrency input with
                   | Some wc => (wc - dq_local_running_count input) `max` 0
                   | None => dq_max_tasks_per_iteration input
                   end in
  match dq_global_concurrency input with
  | Some gc => max_tasks `min` ((gc - Z.of_nat (count_where (λ _, running input) t)) `max` 0)
  | None => max_tasks
  end.

Section dequeue.
Context `{Env, RowLocks, PgScan}.

Definition rows_locked : M (gset string) := gets (λ w, locked_rows (w_reads w)).

(** The rate-limit gate: the recent starts, and whether it is closed. *)
Definition rate_gate (input : DequeueInput) : M (Z * bool) :=
  match dq_rate_limit input with
  | None => mret (0, false)
  | Some (limit, period) =>
      now ← now_epoch_ms;
      let cutoff := wrap_i64 (now - wrap_i64 (Duration.as_millis period)) in
      t ← gets_db workflow_status;
      let num_recent := Z.of_nat (count_where (λ _, recently_started input cutoff) t) in
      mret (num_recent, bool_decide (limit ≤ num_recent))
  end.

(** The body of the transaction. *)
Definition dequeue_tx (input : DequeueInput) : M (tx_end (list DequeuedWorkflow)) :=
  gate ← rate_gate input;
  t ← gets_db workflow_status;
  let max_tasks := task_budget input t in
  if gate.2 || bool_decide (max_tasks ≤ 0) then mret (Rollback (Ok []))
  else
    held ← rows_locked;
    candidate_ids ← lift (select_candidates input max_tasks held t);
    now ← now_epoch_ms;
    claimed ← claim_all input now gate.1 candidate_ids [];
    mret (if bool_decide (claimed = []) then Rollback (Ok claimed) else Commit (Ok claimed)).

Definition dequeue_workflows (input : DequeueInput) : M (list DequeuedWorkflow) :=
  transaction (dequeue_tx input).
End dequeue.

(** ** The claims of one iteration *)

Definition dequeued_of (id : string) (r : wf_row) : DequeuedWorkflow :=
  mkDequeued id (wf_name r) (wf_inputs r) (wf_serialization r) (wf_config_name r).

(** The table after the claims. *)
Definition claims (input : DequeueInput) (now : Z) (ids : list string) (t : gmap string wf_row)
    : gmap string wf_row :=
  update_where (λ k _, bool_decide (k ∈ ids))
    (λ r, claimed_row input now (default None (claimed_deadline now r)) r) t.

Definition is_enqueued (t : gmap string wf_row) (id : string) : Prop :=
  ∃ r, t !! id = Some r ∧ wf_status r = status_str Enqueued.

Lemma claim_ok input now id w res w' :
  is_enqueued (workflow_status (w_db w)) id → claim input now id w = (Ok res, w') →
  ∃ r, workflow_status (w_db w) !! id = Some r ∧ is_Some (claimed_deadline now r) ∧
    res = Some (dequeued_of id r) ∧
    w' = w <| w_db ::= set_field workflow_status
           <[id := claimed_row input now (default None (claimed_deadline now r)) r]> |>.
Proof.
  intros (r & Hr & Hs). unfold claim. run_M. unfold select_key. rewrite Hr. simpl.
  rewrite bool_decide_eq_true_2 by done.
  destruct (claimed_deadline now r) as [dl|] eqn:E; simpl; intros [= <- <-]. exists r. by rewrite E.
Qed.

Lemma claims_cons input now id ids t r :
  id ∉ ids → t !! id = Some r →
  claims input now (id :: ids) t =
  claims input now ids (<[id := claimed_row input now (default None (claimed_deadline now r)) r]> t).
Proof.
  intros Hid Hr. apply map_eq. intros k. unfold claims. rewrite !lookup_update_where.
  destruct (decide (k = id)) as [->|Hne].
  - rewrite Hr, lookup_insert_eq. simpl. rewrite bool_decide_eq_true_2 by (apply elem_of_cons; auto).
    by rewrite bool_decide_eq_false_2.
  - rewrite lookup_insert_ne by done. destruct (t !! k); simpl; [|done]. f_equal.
    erewrite (bool_decide_ext (k ∈ id :: ids)); [done|]. rewrite elem_of_cons. naive_solver.
Qed.

Definition within_rate (input : DequeueInput) (recent : Z) (claimed : list DequeuedWorkflow) : Prop :=
  match dq_rate_limit input with
  | Some (limit, _) => Z.of_nat (length claimed) + recent ≤ limit
  | None => True
  end.

Lemma claims_nil input now t : claims input now [] t = t.
Proof.
  apply update_where_id. intros k r _ Hin. by apply bool_decide_eq_true, not_elem_of_nil in Hin.
Qed.

Lemma elem_of_take_1 {A} n (l : list A) x : x ∈ take n l → x ∈ l.
Proof. apply sublist_subseteq, sublist_take. Qed.

(** A workflow the loop claimed: it is returned as its row has it, and its
    deadline fits the column. *)
Definition is_claimed (now : Z) (t : gmap string wf_row) (id : string) (dw : DequeuedWorkflow) : Prop :=
  ∃ r, t !! id = Some r ∧ is_Some (claimed_deadline now r) ∧ dw = dequeued_of id r.

Lemma is_claimed_ids now t ids claimed :
  Forall2 (is_claimed now t) ids claimed →
  dw_id <$> claimed = ids ∧ Forall (λ dw, is_claimed now t (dw_id dw) dw) claimed.
Proof.
  induction 1 as [|id dw ids claimed (r & Hr & Hdl & ->) _ [IH1 IH2]]; [done|].
  rewrite fmap_cons, IH1. split; [done|]. constructor; [by exists r | done].
Qed.

(** The claiming loop: the first [n] candidates are claimed, [n] being as
    large as the rate limit allows. *)
Lemma claim_all_ok input now recent ids acc w res w' :
  Forall (is_enqueued (workflow_status (w_db w))) ids → NoDup ids →
  claim_all input now recent ids acc w = (Ok res, w') →
  ∃ n news, res = acc ++ news ∧
    Forall2 (is_claimed now (workflow_status (w_db w))) (take n ids) news ∧
    w' = w <| w_db ::= set_field workflow_status (claims input now (take n ids)) |> ∧
    (n = length ids ∨ limit_reached input recent res = true) ∧
    (within_rate input recent acc → within_rate input recent res).
Proof.
  revert acc w. induction ids as [|id ids IH]; intros acc w Hall Hnd; cbn [claim_all].
  { intros [= <- <-]. exists 0%nat, []. rewrite app_nil_r. split_and!; [done|constructor| |auto..].
    destruct w as [[] ? ? ? ? ? ? ? ? ?]. simpl. by rewrite claims_nil. }
  destruct (limit_reached input recent acc) eqn:Hlim.
  { intros [= <- <-]. exists 0%nat, []. rewrite app_nil_r. split_and!; [done|constructor| |auto..].
    destruct w as [[] ? ? ? ? ? ? ? ? ?]. simpl. by rewrite claims_nil. }
  apply Forall_cons in Hall as [Hid Hall]. apply NoDup_cons in Hnd as [Hnid Hnd].
  intros (row & w1 & Hc & Hrun)%M_bind_Ok. apply claim_ok in Hc as (r & Hr & Hdl & -> & ->); [|done].
  apply IH in Hrun as (n & news & -> & H2 & -> & Hn & Hrate); [| |done].
  - exists (S n), (dequeued_of id r :: news). rewrite <- (assoc_L (++)) in *. split_and!.
    + done.
    + simpl. constructor; [by exists r|].
      rewrite Forall2_lookup in *. intros i. specialize (H2 i). inversion H2 as [id' dw Hdw Ht|]; [|constructor].
      constructor. destruct Hdw as (r' & Hr' & Hdl' & ->). exists r'. split; [|done].
      simpl in Hr'. rewrite lookup_insert_ne in Hr'; [done|]. intros <-. apply Hnid.
      eapply elem_of_take_1, list_elem_of_lookup_2. by rewrite <- Ht.
    + simpl. f_equal. destruct (w_db w). simpl in *. f_equal. symmetry.
      apply claims_cons; [|done]. intros Hin%elem_of_take_1. done.
    + simpl. destruct Hn as [->|?]; auto.
    + intros _. apply Hrate. unfold within_rate, limit_reached in *.
      destruct (dq_rate_limit input) as [[limit ?]|]; [|done].
      apply bool_decide_eq_false in Hlim. rewrite length_app. simpl. lia.
  - simpl. rewrite Forall_forall in *. intros id' Hin. destruct (Hall _ Hin) as (r' & Hr' & Hs').
    exists r'. rewrite lookup_insert_ne by (by intros ->). done.
Qed.

(** ** What is selected *)

Section selection.
Context `{HS : PgScan, !PgScanLaws HS}.

(** The claimable rows no other transaction holds, in dequeue order. *)
Definition free_rows (input : DequeueInput) (held : gset string) (t : gmap string wf_row)
    : list (string * wf_row) :=
  filter (λ kr, kr.1 ∉ held)
    (order_by [λ kr, wf_priority kr.2; λ kr, wf_created_at kr.2]
      (select_where (λ _, claimable input) t)).

Lemma free_rows_fst input held t :
  (free_rows input held t).*1 =
  filter (λ k, k ∉ held)
    (order_by [λ kr, wf_priority kr.2; λ kr, wf_created_at kr.2]
      (select_where (λ _, claimable input) t)).*1.
Proof. unfold free_rows. symmetry. exact (filter_fst (λ k, k ∉ held) _). Qed.

Lemma take_filter_all {A} (P : A → Prop) `{∀ x, Decision (P x)} n (l : list A) :
  Forall P (take n l) → take n (filter P l) = take n l.
Proof.
  revert l. induction n as [|n IH]; intros [|x l]; [done..|]. rewrite filter_cons. simpl.
  intros [Hx Hl]%Forall_cons. rewrite decide_True by done. simpl. by rewrite IH.
Qed.

Lemma passed_over {A} (l : list A) x m : x ∈ l → x ∉ take m l → (m < length l)%nat.
Proof. intros Hl Hx. destruct (le_lt_dec (length l) m); [|done]. by rewrite take_ge in Hx. Qed.

Lemma select_candidates_free input n held t ids :
  select_candidates input n held t = Ok ids → ids = (take (Z.to_nat n) (free_rows input held t)).*1.
Proof.
  unfold select_candidates. rewrite fmap_take, free_rows_fst.
  destruct (dq_global_concurrency input); [|by intros [= <-]].
  case_bool_decide as Hex; [done|]. intros [= <-]. symmetry. apply take_filter_all.
  apply Forall_forall. intros k Hk Hheld. apply Hex, Exists_exists. eauto.
Qed.

Lemma elem_of_free_rows input held t k r :
  (k, r) ∈ free_rows input held t ↔ t !! k = Some r ∧ claimable input r = true ∧ k ∉ held.
Proof.
  unfold free_rows. rewrite list_elem_of_filter, order_by_perm, (elem_of_select_where (λ _, claimable input)).
  naive_solver.
Qed.

Lemma elem_of_free_rows_eligible input held t k r :
  (k, r) ∈ free_rows input held t ↔
  t !! k = Some r ∧ wf_status r = "ENQUEUED" ∧ wf_queue_name r = Some (dq_queue_name input) ∧
  (wf_application_version r = None ∨ wf_application_version r = Some (dq_application_version input)) ∧
  (dq_partition_key input = None ∨ wf_queue_partition_key r = dq_partition_key input) ∧ k ∉ held.
Proof.
  rewrite elem_of_free_rows. unfold claimable, sql_eq, version_matches, partition_clause, sql_eq.
  rewrite !andb_true_iff, !bool_decide_eq_true.
  destruct (wf_queue_name r), (wf_application_version r), (dq_partition_key input), (wf_queue_partition_key r);
    rewrite ?bool_decide_eq_true; naive_solver.
Qed.

Lemma free_rows_nodup input held t : NoDup (free_rows input held t).*1.
Proof.
  rewrite free_rows_fst. apply NoDup_filter. rewrite order_by_perm.
  apply select_where_nodup.
Qed.

Lemma free_rows_sorted input held t :
  StronglySorted (key_le [λ kr, wf_priority kr.2; λ kr, wf_created_at kr.2]) (free_rows input held t).
Proof. apply StronglySorted_filter, order_by_sorted. Qed.
End selection.

Lemma claimable_enqueued input r : claimable input r = true → wf_status r = status_str Enqueued.
Proof. unfold claimable. rewrite !andb_true_iff, !bool_decide_eq_true. naive_solver. Qed.

Lemma size_list_to_set_le (l : list string) : (size (list_to_set l : gset string) ≤ length l)%nat.
Proof.
  induction l as [|x l IH]; [done|]. rewrite list_to_set_cons, size_union_alt, size_singleton. simpl.
  apply le_n_S. etrans; [apply subseteq_size, subseteq_difference_l; reflexivity | done].
Qed.

(** An update of the rows of a list of keys adds at most that many rows to any
    count. *)
Lemma count_update_keys (p : string → wf_row → bool) f (ids : list string) (t : gmap string wf_row) :
  (count_where p (update_where (λ k _, bool_decide (k ∈ ids)) f t) ≤ count_where p t + length ids)%nat.
Proof.
  rewrite !count_where_size, <- !size_dom.
  etrans; [apply (subseteq_size _ (dom (filter (λ kv, p kv.1 kv.2 = true) t) ∪ list_to_set ids))|].
  - intros k. rewrite elem_of_union, elem_of_list_to_set, !elem_of_dom. intros [r Hr].
    apply map_lookup_filter_Some in Hr as [Hr Hp]. rewrite lookup_update_where in Hr.
    destruct (t !! k) as [r'|] eqn:E; simplify_eq/=. case_bool_decide; [by right|]. left.
    exists r'. by apply map_lookup_filter_Some.
  - rewrite size_union_alt. apply Nat.add_le_mono_l.
    etrans; [apply subseteq_size, subseteq_difference_l; reflexivity | apply size_list_to_set_le].
Qed.

(** ** The dequeue transaction *)

Section dequeue_properties.
Context `{HE : Env, HL : RowLocks, HS : PgScan, !PgScanLaws HS}.
Implicit Types (input : DequeueInput) (w : World).

(** The count of the rate-limit gate, at one cutoff. *)
Definition recent_starts input (cutoff : Z) (t : gmap string wf_row) : Z :=
  Z.of_nat (count_where (λ _, recently_started input cutoff) t).

Definition gate_cutoff w (period : Duration.t) : Z :=
  wrap_i64 (clock (w_reads w) - wrap_i64 (Duration.as_millis period)).

(** The clock reading of the claims: the gate of a rate limit takes one before
    it. *)
Definition claim_reading input w : nat :=
  match dq_rate_limit input with Some _ => S (w_reads w) | None => w_reads w end.

Lemma rate_gate_run input w :
  ∃ recent, rate_gate input w =
    (Ok (recent, match dq_rate_limit input with
                 | Some (limit, _) => bool_decide (limit ≤ recent)
                 | None => false
                 end), w <| w_reads := claim_reading input w |>) ∧
    match dq_rate_limit input with
    | Some (_, period) => recent = recent_starts input (gate_cutoff w period) (workflow_status (w_db w))
    | None => recent = 0
    end.
Proof.
  unfold rate_gate, claim_reading. destruct (dq_rate_limit input) as [[limit period]|]; run_M.
  - eexists. by split.
  - exists 0. split; [by destruct w | done].
Qed.

(** What an iteration that claimed [claimed] did. *)
Definition iteration input w (claimed : list DequeuedWorkflow) (d : Db) : Prop :=
  ∃ recent now j n,
    let held := locked_rows j in
    d = (w_db w) <| workflow_status ::= claims input now (dw_id <$> claimed) |> ∧
    dw_id <$> claimed = take n (free_rows input held (workflow_status (w_db w))).*1 ∧
    (n ≤ Z.to_nat (task_budget input (workflow_status (w_db w))))%nat ∧
    Forall (λ dw, is_claimed now (workflow_status (w_db w)) (dw_id dw) dw) claimed ∧
    (claimed = [] ∨ within_rate input recent claimed) ∧
    match dq_rate_limit input with
    | Some (_, period) => recent = recent_starts input (gate_cutoff w period) (workflow_status (w_db w))
    | None => recent = 0
    end ∧
    j = claim_reading input w ∧ now = clock j.

(** What an iteration leaves behind: a free claimable row is passed over only
    when the budget or the rate limit is used up. *)
Definition leaves_none input w (claimed : list DequeuedWorkflow) : Prop :=
  ∀ k r, (k, r) ∈ free_rows input (locked_rows (claim_reading input w)) (workflow_status (w_db w)) →
    k ∉ dw_id <$> claimed →
    task_budget input (workflow_status (w_db w)) ≤ Z.of_nat (length claimed) ∨
    match dq_rate_limit input with
    | Some (limit, period) =>
        limit ≤ Z.of_nat (length claimed) +
                recent_starts input (gate_cutoff w period) (workflow_status (w_db w))
    | None => False
    end.

Lemma free_rows_enqueued input held t n :
  Forall (is_enqueued t) (take n (free_rows input held t)).*1.
Proof.
  apply Forall_forall. intros id ([k r] & -> & Hin)%list_elem_of_fmap.
  apply elem_of_take_1, elem_of_free_rows in Hin as (Hr & Hc & _).
  exists r. split; [done | by eapply claimable_enqueued].
Qed.

Lemma dequeue_tx_ok input w e w1 :
  dequeue_tx input w = (Ok e, w1) →
  (e = Rollback (Ok []) ∧ leaves_none input w []) ∨
  ∃ claimed, e = Commit (Ok claimed) ∧ iteration input w claimed (w_db w1) ∧ leaves_none input w claimed.
Proof.
  destruct (rate_gate_run input w) as (recent & Hgate & Hrecent).
  intros (g & w2 & Hg & Htx)%M_bind_Ok. rewrite Hgate in Hg. injection Hg as <- <-.
  apply M_bind_Ok in Htx as (t & w2 & [= <- <-] & Htx).
  cbn zeta in Htx. destruct (_ || _) eqn:Hgo.
  { injection Htx as <- <-. left. split; [done|]. intros k r _ _. cbn [fst snd] in *.
    apply orb_true_iff in Hgo as [Hlim|Hpos%bool_decide_eq_true]; [|left; etrans; [exact Hpos|apply Nat2Z.is_nonneg]].
    destruct (dq_rate_limit input) as [[limit period]|]; [|done].
    apply bool_decide_eq_true in Hlim. simpl. lia. }
  apply orb_false_iff in Hgo as [Hlim Hpos]. apply bool_decide_eq_false in Hpos. cbn [fst snd] in *.
  apply M_bind_Ok in Htx as (held & w2 & [= <- <-] & Htx).
  apply M_bind_Ok in Htx as (ids & w2 & Hsel & Htx). injection Hsel as Hsel <-.
  apply M_bind_Ok in Htx as (now & w2 & [= <- <-] & Htx).
  apply M_bind_Ok in Htx as (cl & w2 & Hcl & Htx). injection Htx as <- <-.
  apply select_candidates_free in Hsel as ->.
  apply claim_all_ok in Hcl as (n & news & -> & H2 & -> & Hn & Hrate);
    [|apply free_rows_enqueued | rewrite fmap_take; eapply sublist_NoDup;
       [apply free_rows_nodup | apply sublist_take]].
  apply is_claimed_ids in H2 as [Hids Hall]. cbn [app] in *. simpl in Hids, Hall, Hn, Hrate, Hpos |- *.
  rewrite fmap_take, take_take in Hids.
  assert (leaves_none input w news) as Hnone.
  { intros k r Hin Hk. destruct Hn as [->|Hn].
    - left. rewrite <- (length_fmap dw_id). rewrite Hids in Hk |- *.
      assert (k ∈ (free_rows input (locked_rows (claim_reading input w))
                    (workflow_status (w_db w))).*1) as Hin' by (apply list_elem_of_fmap; by exists (k, r)).
      pose proof (passed_over _ _ _ Hin' Hk) as Hlt.
      rewrite length_fmap, length_take, length_fmap in Hlt.
      rewrite length_take, length_fmap, length_fmap, length_take. lia.
    - right. unfold limit_reached in Hn. destruct (dq_rate_limit input) as [[limit ?]|]; [|done].
      apply bool_decide_eq_true in Hn. lia. }
  destruct (bool_decide (news = [])) eqn:Hne.
  { apply bool_decide_eq_true in Hne as ->. by left. }
  right. exists news. split; [done|]. split; [|done].
  eexists recent, _, _, (n `min` _)%nat. rewrite Hids.
  split_and!; [by rewrite fmap_take, take_take | done | lia | done | | done..].
  right. apply Hrate. unfold within_rate. destruct (dq_rate_limit input) as [[limit ?]|]; [|done].
  apply bool_decide_eq_false in Hlim. simpl. lia.
Qed.

Lemma iteration_nil input w : iteration input w [] (w_db w).
Proof.
  destruct (rate_gate_run input w) as (recent & _ & Hrecent).
  eexists recent, _, _, 0%nat. split_and!; [|done|lia|by constructor|by left|done..].
  destruct (w_db w). simpl. by rewrite claims_nil.
Qed.

Lemma dequeue_run input w claimed w' :
  dequeue_workflows input w = (Ok claimed, w') →
  iteration input w claimed (w_db w') ∧ leaves_none input w claimed.
Proof.
  unfold dequeue_workflows, transaction.
  destruct (dequeue_tx input w) as [[e|] w1] eqn:Htx; [|done].
  destruct (dequeue_tx_ok _ _ _ _ Htx) as [[-> Hn]|(cl & -> & Hit)]; intros [= <- <-]; [|done].
  split; [exact (iteration_nil input w) | exact Hn].
Qed.

Lemma dequeue_ok input w claimed w' :
  dequeue_workflows input w = (Ok claimed, w') → iteration input w claimed (w_db w').
Proof. apply dequeue_run. Qed.

Lemma dequeue_failed input w e w' :
  dequeue_workflows input w = (Err e, w') → iteration input w [] (w_db w').
Proof.
  unfold dequeue_workflows, transaction.
  destruct (dequeue_tx input w) as [[e'|e'] w1] eqn:Htx.
  - destruct (dequeue_tx_ok _ _ _ _ Htx) as [[-> _]|(cl & -> & Hit)]; intros [=].
  - intros [= <- <-]. exact (iteration_nil input w).
Qed.

Lemma iteration_length input w claimed d :
  iteration input w claimed d →
  (length claimed ≤ Z.to_nat (task_budget input (workflow_status (w_db w))))%nat.
Proof.
  intros (recent & now & j & n & _ & Hids & Hn & _).
  rewrite <- (length_fmap dw_id), Hids, length_take. lia.
Qed.

Lemma iteration_keys input w claimed d :
  iteration input w claimed d → NoDup (dw_id <$> claimed).
Proof.
  intros (recent & now & j & n & _ & -> & _).
  eapply sublist_NoDup; [apply free_rows_nodup | apply sublist_take].
Qed.

Lemma claimed_columns input now deadline r :
  claimed_row input now deadline r =
  r <| wf_status := "PENDING" |> <| wf_executor_id := Some (dq_executor_id input) |>
    <| wf_application_version := Some (dq_application_version input) |>
    <| wf_started_at_epoch_ms := Some now |>
    <| wf_rate_limited := match dq_rate_limit input with Some _ => true | None => false end |>
    <| wf_workflow_deadline_epoch_ms := deadline |>.
Proof. unfold claimed_row. by destruct r, (dq_rate_limit input). Qed.

(** C16: the workflows a dequeue returns are claimed, and nothing else is
    touched.  They are distinct.  Each was [ENQUEUED] on this queue, in the
    asked partition, at no version or at this one, not locked by another
    transaction, and is returned with its own name, input, serialization and
    configuration; its row is now [PENDING] on this executor and version, with
    the start time and the mark of the rate limit, and with the deadline
    [now + timeout] if it has a timeout and no deadline yet; its other columns,
    every other row and every other table are as before.  Such a row is left
    behind only if a limit is used up. *)
Theorem dequeue_claims input w claimed w' :
  dequeue_workflows input w = (Ok claimed, w') →
  let reading := match dq_rate_limit input with Some _ => S (w_reads w) | None => w_reads w end in
  let now := clock reading in
  let eligible id r :=
    workflow_status (w_db w) !! id = Some r ∧ wf_status r = "ENQUEUED" ∧
    wf_queue_name r = Some (dq_queue_name input) ∧
    (wf_application_version r = None ∨ wf_application_version r = Some (dq_application_version input)) ∧
    (dq_partition_key input = None ∨ wf_queue_partition_key r = dq_partition_key input) ∧
    id ∉ locked_rows reading in
  NoDup (dw_id <$> claimed) ∧
  (w_db w') <| workflow_status := ∅ |> = (w_db w) <| workflow_status := ∅ |> ∧
  (∀ id, id ∉ dw_id <$> claimed → workflow_status (w_db w') !! id = workflow_status (w_db w) !! id) ∧
  Forall (λ dw, ∃ r deadline, eligible (dw_id dw) r ∧
    dw_name dw = wf_name r ∧ dw_inputs dw = wf_inputs r ∧
    dw_serialization dw = wf_serialization r ∧ dw_config_name dw = wf_config_name r ∧
    workflow_status (w_db w') !! dw_id dw =
      Some (r <| wf_status := "PENDING" |> <| wf_executor_id := Some (dq_executor_id input) |>
              <| wf_application_version := Some (dq_application_version input) |>
              <| wf_started_at_epoch_ms := Some now |>
              <| wf_rate_limited := match dq_rate_limit input with Some _ => true | None => false end |>
              <| wf_workflow_deadline_epoch_ms := deadline |>) ∧
    match wf_workflow_timeout_ms r, wf_workflow_deadline_epoch_ms r with
    | Some timeout, None => deadline = Some (now + timeout) ∧ in_i64 (now + timeout)
    | _, old => deadline = old
    end) claimed ∧
  ∀ id r, eligible id r → id ∉ dw_id <$> claimed →
    task_budget input (workflow_status (w_db w)) ≤ Z.of_nat (length claimed) ∨
    ∃ limit period, dq_rate_limit input = Some (limit, period) ∧
      limit ≤ Z.of_nat (length claimed) +
              recent_starts input (gate_cutoff w period) (workflow_status (w_db w)).
Proof.
  intros Hdq%dequeue_run reading now eligible. destruct Hdq as [Hit Hnone].
  assert (∀ id r, eligible id r ↔ (id, r) ∈ free_rows input (locked_rows reading) (workflow_status (w_db w)))
    as Helig by (intros; symmetry; apply elem_of_free_rows_eligible).
  split; [by eapply iteration_keys|].
  destruct Hit as (recent & now' & j & n & Hd & Hids & _ & Hall & _ & _ & -> & ->).
  fold reading in Hids, Hnone. rewrite Hd. cbn [workflow_status]. split_and!.
  - done.
  - intros id Hid. unfold claims. simpl. rewrite lookup_update_where.
    destruct (workflow_status (w_db w) !! id); simpl; [|done]. by rewrite bool_decide_eq_false_2.
  - apply Forall_forall. intros dw Hin. rewrite Forall_forall in Hall.
    destruct (Hall dw Hin) as (r & Hr & [dl Hdl] & Hdw).
    assert (dw_id dw ∈ dw_id <$> claimed) as Hin' by (apply list_elem_of_fmap; eauto).
    exists r, dl. rewrite Helig. rewrite Hids in Hin'. split_and!; [|by rewrite Hdw..| |].
    + apply elem_of_take_1, list_elem_of_fmap in Hin' as ([k r'] & E & Hf). simpl in E. subst k.
      pose proof Hf as (Hr' & _)%elem_of_free_rows. by simplify_eq.
    + unfold claims. simpl. rewrite lookup_update_where, Hr. simpl. rewrite Hids.
      rewrite bool_decide_eq_true_2 by done. rewrite Hdl. simpl. f_equal. apply claimed_columns.
    + unfold claimed_deadline in Hdl.
      destruct (wf_workflow_timeout_ms r), (wf_workflow_deadline_epoch_ms r); try congruence.
      destruct (decide _); [|done]. by injection Hdl as <-.
  - intros id r Hel Hid. apply Helig in Hel. destruct (Hnone _ _ Hel Hid) as [?|Hr]; [by left|right].
    destruct (dq_rate_limit input) as [[limit period]|]; [|done]. eauto.
Qed.

(** C12: the limits hold.  An iteration claims no more than the per-iteration
    maximum or, with a worker limit, than the free worker slots; with a
    global limit the claims never push the running workflows of the queue
    over it; with a rate limit the workflows started within the trailing
    window stay within it. *)
Theorem dequeue_limits input w claimed w' :
  dequeue_workflows input w = (Ok claimed, w') →
  let t := workflow_status (w_db w) in
  let t' := workflow_status (w_db w') in
  let count := Z.of_nat (length claimed) in
  match dq_worker_concurrency input with
  | Some wc => count ≤ (wc - dq_local_running_count input) `max` 0
  | None => count ≤ dq_max_tasks_per_iteration input `max` 0
  end ∧
  match dq_global_concurrency input with
  | Some gc =>
      let running t := Z.of_nat (count_where (λ _, running input) t) in
      running t' ≤ gc `max` running t
  | None => True
  end ∧
  match dq_rate_limit input with
  | Some (limit, period) =>
      let started := recent_starts input (gate_cutoff w period) in
      started t' ≤ limit `max` started t
  | None => True
  end.
Proof.
  intros Hdq%dequeue_ok. pose proof (iteration_length _ _ _ _ Hdq) as Hlen.
  destruct Hdq as (recent & now & j & n & Hd & Hids & Hn & _ & Hrate & Hrecent & _). simpl.
  assert (∀ p, count_where p (workflow_status (w_db w')) ≤
               count_where p (workflow_status (w_db w)) + length claimed)%nat as Hcount.
  { intros p. rewrite Hd, <- (length_fmap dw_id claimed). apply count_update_keys. }
  unfold task_budget in Hlen. split_and!.
  - destruct (dq_worker_concurrency input), (dq_global_concurrency input); lia.
  - destruct (dq_global_concurrency input) as [gc|]; [|done].
    specialize (Hcount (λ _, running input)). destruct (dq_worker_concurrency input); lia.
  - destruct (dq_rate_limit input) as [[limit period]|] eqn:Erl; [|done].
    unfold recent_starts in *.
    specialize (Hcount (λ _, recently_started input (gate_cutoff w period))).
    destruct Hrate as [->|Hrate]; simpl in *; [lia|].
    unfold within_rate in Hrate. rewrite Erl in Hrate. lia.
Qed.

(** Priority, then age: a claimable workflow that the iteration left
    behind and that no other transaction held comes, in the queue's order,
    after every workflow it claimed. *)
Theorem dequeue_order input w claimed w' :
  dequeue_workflows input w = (Ok claimed, w') →
  ∀ id r k r', id ∈ dw_id <$> claimed → workflow_status (w_db w) !! id = Some r →
    workflow_status (w_db w) !! k = Some r' → claimable input r' = true →
    (∀ j, k ∉ locked_rows j) → k ∉ dw_id <$> claimed →
    wf_priority r < wf_priority r' ∨
    wf_priority r = wf_priority r' ∧ wf_created_at r ≤ wf_created_at r'.
Proof.
  intros (recent & now & j & n & _ & Hids & _)%dequeue_ok.
  intros id r k r' Hid Hr Hr' Hc Hheld Hk. rewrite Hids, <- fmap_take in Hid, Hk.
  apply list_elem_of_fmap in Hid as ([id' x] & -> & Hid).
  assert (x = r) as ->.
  { apply elem_of_take_1, elem_of_free_rows in Hid as (Hx & _). simpl in *. by simplify_eq. }
  pose proof (take_before _ (free_rows input (locked_rows j) (workflow_status (w_db w))) n (id', r) (k, r')
    (free_rows_sorted _ _ _) Hid) as Hle.
  opose proof* Hle as Hord.
  { by apply elem_of_free_rows. }
  { intros Hin. apply Hk, list_elem_of_fmap. by exists (k, r'). }
  simpl in Hord. lia.
Qed.
End dequeue_properties.
