(* ===== verification/Management.v ===== *)
(** * Workflow management (db/management.rs)

    Listing workflows and steps, cancelling, resuming, deleting, forking and
    garbage collection. *)
From S2P Require Import Prelude Errors Json Serialize Database World Status QueueDb.

Local Open Scope string_scope.
Local Open Scope Z_scope.
Local Open Scope list_scope.
Local Open Scope dbos_scope.

Definition INTERNAL_QUEUE_NAME : string := "_dbos_internal_queue".

Record WorkflowStatus := mkWorkflowStatus {
  ws_id : string;
  ws_status : WorkflowStatusType;
  ws_name : string;
  ws_queue_name : option string;
  ws_executor_id : option string;
  ws_application_version : option string;
  ws_recovery_attempts : Z;
  ws_created_at : Z;
  ws_updated_at : Z;
  ws_completed_at : option Z;
  ws_started_at : option Z;
  ws_priority : Z;
  ws_deduplication_id : option string;
  ws_parent_workflow_id : option string;
  ws_forked_from : option string;
  ws_was_forked_from : bool;
  ws_config_name : option string;
  ws_input : option Value;
  ws_output : option Value;
  ws_error : option string;
}.

Record StepInfo := mkStepInfo {
  si_step_id : Z;
  si_step_name : string;
  si_output : option Value;
  si_error : option string;
  si_child_workflow_id : option string;
  si_started_at : option Z;
  si_completed_at : option Z;
}.

Record ListWorkflowsFilter := mkFilter {
  lf_workflow_ids : option (list string);
  lf_status : option (list WorkflowStatusType);
  lf_workflow_name : option string;
  lf_queue_name : option string;
  lf_queues_only : bool;
  lf_application_version : option string;
  lf_executor_ids : option (list string);
  lf_start_time : option Z;
  lf_end_time : option Z;
  lf_limit : option Z;
  lf_offset : option Z;
  lf_sort_desc : bool;
}.

Definition ListWorkflowsFilter_default : ListWorkflowsFilter :=
  mkFilter None None None None false None None None None None None false.

Record ForkWorkflowInput := mkFork {
  fk_original_workflow_id : string;
  fk_forked_workflow_id : option string;
  fk_start_step : Z;
  fk_application_version : option string;
  fk_queue_name : option string;
  fk_queue_partition_key : option string;
}.

(** ** Listing *)

Section decoding.
Context `{SerdeJson, Base64Engine}.

Definition decode_value_opt (s ser : option string) : option Value :=
  match s with None => None | Some _ => result_ok (decode_value Value s ser) end.

Definition decode_input_opt (s ser : option string) : option Value :=
  match s with None => None | Some _ => result_ok (decode_input Value s ser) end.
End decoding.

(** The statuses a filter asks for. *)
Definition filter_status (f : ListWorkflowsFilter) : option (list WorkflowStatusType) :=
  match lf_queues_only f, lf_status f with
  | true, None => Some [Enqueued; Pending; Delayed]
  | _, st => st
  end.

Definition opt_filter {A} (f : option A) (p : A → bool) : bool :=
  match f with Some a => p a | None => true end.

(** The [WHERE] clause the query builder assembles. *)
Definition filter_matches (f : ListWorkflowsFilter) (id : string) (r : wf_row) : bool :=
  opt_filter (lf_workflow_ids f) (sql_in id)
  && opt_filter (filter_status f) (λ st,
       bool_decide (st = []) || sql_in (wf_status r) (status_str <$> st))
  && opt_filter (lf_workflow_name f) (λ n, bool_decide (wf_name r = n))
  && (if lf_queues_only f then bool_decide (is_Some (wf_queue_name r))
      else opt_filter (lf_queue_name f) (sql_eq (wf_queue_name r)))
  && opt_filter (lf_application_version f) (sql_eq (wf_application_version r))
  && opt_filter (lf_executor_ids f) (λ es, bool_decide (es = []) || sql_any (wf_executor_id r) es)
  && opt_filter (lf_start_time f) (λ t, bool_decide (t ≤ wf_created_at r))
  && opt_filter (lf_end_time f) (λ t, bool_decide (wf_created_at r ≤ t)).

Definition created_order (desc : bool) : string * wf_row → Z :=
  λ kr, if desc then - wf_created_at kr.2 else wf_created_at kr.2.

(** [LIMIT l OFFSET o]; negative bounds are an error. *)
Definition limit_offset {A} (limit offset : option Z) (l : list A) : Result (list A) :=
  match offset, limit with
  | Some o, _ => if decide (o < 0)
                 then Err (from_sqlx (SqlxDatabase (Some "2201X") "OFFSET must not be negative"))
                 else Ok tt
  | None, _ => Ok tt
  end ≫= λ _,
  match limit with
  | Some n => if decide (n < 0)
              then Err (from_sqlx (SqlxDatabase (Some "2201W") "LIMIT must not be negative"))
              else Ok (take (Z.to_nat n) (drop (Z.to_nat (default 0 offset)) l))
  | None => Ok (drop (Z.to_nat (default 0 offset)) l)
  end.

Section listing.
Context `{SerdeJson, Base64Engine, PgScan}.

Definition workflow_status_of (kr : string * wf_row) : WorkflowStatus :=
  let r := kr.2 in
  mkWorkflowStatus kr.1 (default Pending (status_from_str (wf_status r))) (wf_name r)
    (wf_queue_name r) (wf_executor_id r) (wf_application_version r) (wf_recovery_attempts r)
    (wf_created_at r) (wf_updated_at r) (wf_completed_at r) (wf_started_at_epoch_ms r)
    (wf_priority r) (wf_deduplication_id r) (wf_parent_workflow_id r) (wf_forked_from r)
    (wf_was_forked_from r) (wf_config_name r)
    (decode_input_opt (wf_inputs r) (wf_serialization r))
    (decode_value_opt (wf_output r) (wf_serialization r)) (wf_error r).

Definition list_workflows (f : ListWorkflowsFilter) : M (list WorkflowStatus) :=
  t ← gets_db workflow_status;
  rows ← lift (limit_offset (lf_limit f) (lf_offset f)
                 (order_by [created_order (lf_sort_desc f)] (select_where (filter_matches f) t)));
  mret (workflow_status_of <$> rows).

Definition step_info (fo : Z * op_row) : StepInfo :=
  let o := fo.2 in
  mkStepInfo fo.1 (op_function_name o) (decode_value_opt (op_output o) (op_serialization o))
    (op_error o) (op_child_workflow_id o) (op_started_at_epoch_ms o) (op_completed_at_epoch_ms o).

(** The steps of a workflow, [ORDER BY function_id ASC]. *)
Definition steps_of (workflow_id : string) (d : Db) : list (Z * op_row) :=
  order_by [fst] ((λ ko, (ko.1.2, ko.2)) <$>
    filter (λ ko, ko.1.1 = workflow_id) (map_to_list (operation_outputs d))).

Definition get_workflow_steps (workflow_id : string) : M (list StepInfo) :=
  gets_db (λ d, step_info <$> steps_of workflow_id d).
End listing.

(** ** Cancel, delete, resume *)

Definition cancel_row (now : Z) (r : wf_row) : wf_row :=
  r <| wf_status := status_str Cancelled |> <| wf_updated_at := now |>
    <| wf_completed_at := Some now |> <| wf_started_at_epoch_ms := None |>
    <| wf_queue_name := None |> <| wf_deduplication_id := None |>.

Definition cancellable (ids : list string) (id : string) (r : wf_row) : bool :=
  sql_in id ids
  && negb (sql_in (wf_status r) [status_str Success; status_str Error; status_str Cancelled]).

(** The [existing] rows of the two statements. *)
Definition existing `{PgScan} (ids : list string) (t : gmap string wf_row) : list string :=
  (select_where (λ k _, sql_in k ids) t).*1.

Definition resume_row (queue_name : string) (now : Z) (r : wf_row) : wf_row :=
  r <| wf_status := status_str Enqueued |> <| wf_queue_name := Some queue_name |>
    <| wf_recovery_attempts := 0 |> <| wf_workflow_deadline_epoch_ms := None |>
    <| wf_deduplication_id := None |> <| wf_started_at_epoch_ms := None |>
    <| wf_updated_at := now |> <| wf_completed_at := None |>.

Definition resumable (ids : list string) (id : string) (r : wf_row) : bool :=
  sql_in id ids && negb (sql_in (wf_status r) [status_str Success; status_str Error]).

Section changes.
Context `{Env, PgScan}.

Definition cancel_workflows (ids : list string) : M (list string) :=
  now ← now_epoch_ms;
  t ← gets_db workflow_status;
  modify_db (λ d, d <| workflow_status ::= update_where (cancellable ids) (cancel_row now) |>);;
  mret (existing ids t).

Definition delete_workflows (ids : list string) : M unit :=
  modify_db (delete_cascade (λ id, sql_in id ids)).

Definition cancel_all_before `{SerdeJson, Base64Engine} (cutoff_epoch_ms : Z) : M unit :=
  ws ← list_workflows (mkFilter None (Some [Pending; Enqueued; Delayed]) None None false None None
                        None (Some cutoff_epoch_ms) None None false);
  let ids := ws_id <$> ws in
  if bool_decide (ids = []) then mret tt else _ ← cancel_workflows ids; mret tt.

Definition resume_workflows (ids : list string) (queue_name : string) : M (list string) :=
  now ← now_epoch_ms;
  t ← gets_db workflow_status;
  modify_db (λ d, d <| workflow_status ::= update_where (resumable ids) (resume_row queue_name now) |>);;
  mret (existing ids t).
End changes.

(** ** Fork *)

Definition forked_row (input : ForkWorkflowInput) (queue_name : string) (now : Z) (r : wf_row) : wf_row := {|
  wf_status := status_str Enqueued;
  wf_name := wf_name r;
  wf_authenticated_user := wf_authenticated_user r;
  wf_assumed_role := wf_assumed_role r;
  wf_authenticated_roles := wf_authenticated_roles r;
  wf_output := None;
  wf_error := None;
  wf_executor_id := None;
  wf_created_at := now;
  wf_updated_at := now;
  wf_application_version := fk_application_version input;
  wf_application_id := wf_application_id r;
  wf_class_name := wf_class_name r;
  wf_config_name := wf_config_name r;
  wf_recovery_attempts := 0;
  wf_queue_name := Some queue_name;
  wf_workflow_timeout_ms := None;
  wf_workflow_deadline_epoch_ms := None;
  wf_inputs := wf_inputs r;
  wf_started_at_epoch_ms := None;
  wf_deduplication_id := None;
  wf_priority := 0;
  wf_queue_partition_key := fk_queue_partition_key input;
  wf_forked_from := Some (fk_original_workflow_id input);
  wf_owner_xid := None;
  wf_parent_workflow_id := None;
  wf_serialization := wf_serialization r;
  wf_delay_until_epoch_ms := None;
  wf_was_forked_from := false;
  wf_rate_limited := false;
  wf_completed_at := None;
|}.

(** A plain [INSERT ... SELECT]: a taken primary key is an error. *)
Definition insert_select {K V} `{Countable K} (constraint : string) (new t : gmap K V)
    : Result (gmap K V) :=
  if bool_decide (new ##ₘ t) then Ok (new ∪ t) else Err (unique_violation constraint).

Section fork_copies.
Context (orig new : string) (start : Z).

Definition fork_operation (k : string * Z) : option (string * Z) :=
  if decide (k.1 = orig ∧ k.2 < start) then Some (new, k.2) else None.

Definition fork_history (k : string * Z * string) : option (string * Z * string) :=
  if decide (k.1.1 = orig ∧ k.1.2 < start) then Some (new, k.1.2, k.2) else None.

(** The latest entry of its event below [start]. *)
Definition latest_before (h : gmap (string * Z * string) ev_row) (k : string * Z * string) : Prop :=
  k.1.1 = orig ∧ k.1.2 < start ∧
  map_Forall (λ k' _, k'.1.1 = orig → k'.1.2 < start → k'.2 = k.2 → k'.1.2 ≤ k.1.2) h.

#[export] Instance latest_before_dec h k : Decision (latest_before h k).
Proof. unfold latest_before. apply _. Defined.

Definition fork_event (h : gmap (string * Z * string) ev_row) (k : string * Z * string)
    : option (string * string) :=
  if decide (latest_before h k) then Some (new, k.2) else None.

Definition fork_streams (t : gmap (string * string * Z) st_row) : gmap (string * string * Z) st_row :=
  copy_rows (λ k, if decide (k.1.1 = orig) then Some (new, k.1.2, k.2) else None)
    (filter (λ kr, st_function_id kr.2 < start) t).

(** The four copying statements. *)
Definition copy_prefix : M unit :=
  d ← gets w_db;
  ops ← lift (insert_select "operation_outputs_pkey"
                (copy_rows fork_operation (operation_outputs d)) (operation_outputs d));
  hist ← lift (insert_select "workflow_events_history_pkey"
                (copy_rows fork_history (workflow_events_history d)) (workflow_events_history d));
  evs ← lift (insert_select "workflow_events_pkey"
                (copy_rows (fork_event (workflow_events_history d)) (workflow_events_history d))
                (workflow_events d));
  sts ← lift (insert_select "streams_pkey" (fork_streams (streams d)) (streams d));
  modify_db (λ d, mkDb (workflow_status d) ops (notifications d) evs hist sts).
End fork_copies.

Section fork.
Context `{Env}.

Definition fork_tx (input : ForkWorkflowInput) (new_id : string) (row : wf_row)
    : M (tx_end string) :=
  t ← gets_db workflow_status;
  match t !! new_id with
  | Some _ => raise (unique_violation "workflow_status_pkey")
  | None =>
      modify_db (λ d, d <| workflow_status ::= <[new_id := row]> |>
                        <| workflow_status ::=
                             alter (set_field wf_was_forked_from (λ _, true)) (fk_original_workflow_id input) |>);;
      (if decide (fk_start_step input > 0)
       then copy_prefix (fk_original_workflow_id input) new_id (fk_start_step input)
       else mret tt);;
      commit new_id
  end.

Definition fork_workflow (input : ForkWorkflowInput) : M string :=
  new_id ← match fk_forked_workflow_id input with Some id => mret id | None => uuid_v4 end;
  let queue_name := default INTERNAL_QUEUE_NAME (fk_queue_name input) in
  now ← now_epoch_ms;
  original ← gets_db (λ d, workflow_status d !! fk_original_workflow_id input);
  r ← lift (ok_or original (non_existent_workflow (fk_original_workflow_id input)));
  transaction (fork_tx input new_id (forked_row input queue_name now r)).
End fork.

(** ** Garbage collection *)

(** [SELECT created_at ... ORDER BY created_at DESC LIMIT 1 OFFSET n]. *)
Definition rows_cutoff `{PgScan} (n : Z) (t : gmap string wf_row) : option Z :=
  (wf_created_at ∘ snd) <$> order_by [created_order true] (select_where (λ _ _, true) t) !! Z.to_nat n.

(** The cutoff of the deletion; the query of the row count is a statement of
    its own, so the other processes may run before the [DELETE]. *)
Definition gc_cutoff `{Env, PgScan} (cutoff rows_threshold : option Z) : M (option Z) :=
  match rows_threshold with
  | Some threshold =>
      if decide (threshold > 0) then
        t ← gets_db workflow_status;
        wait;;
        mret (match rows_cutoff (threshold - 1) t with
              | Some rc => Some (match cutoff with None => rc | Some c => c `max` rc end)
              | None => cutoff
              end)
      else mret cutoff
  | None => mret cutoff
  end.

Definition collectable (cutoff : Z) (r : wf_row) : bool :=
  bool_decide (wf_created_at r < cutoff)
  && negb (sql_in (wf_status r) [status_str Pending; status_str Enqueued; status_str Delayed]).

(** The ids a [DELETE ... WHERE] removes. *)
Definition garbage_collect `{Env, PgScan} (cutoff_epoch_ms rows_threshold : option Z) : M unit :=
  cutoff ← gc_cutoff cutoff_epoch_ms rows_threshold;
  match cutoff with
  | None => mret tt
  | Some cutoff =>
      modify_db (λ d, delete_cascade (λ id, match workflow_status d !! id with
                                            | Some r => collectable cutoff r
                                            | None => false
                                            end) d)
  end.

(** ** Listing *)

Section list_properties.
Context `{HJ : SerdeJson, HB : Base64Engine, HS : PgScan, !PgScanLaws HS}.

(** The listing reads, it never writes. *)
Lemma list_workflows_reads f w : snd (list_workflows f w) = w.
Proof.
  unfold list_workflows, gets_db, gets, lift, mbind, M_bind. simpl.
  by destruct (limit_offset _ _ _).
Qed.

Lemma list_workflows_run f w rows :
  limit_offset (lf_limit f) (lf_offset f)
    (order_by [created_order (lf_sort_desc f)]
      (select_where (filter_matches f) (workflow_status (w_db w)))) = Ok rows →
  list_workflows f w = (Ok (workflow_status_of <$> rows), w).
Proof. intros Hrows. unfold list_workflows. run_M. by rewrite Hrows. Qed.

(** The listing returns a window of one ordered enumeration of the
    matching workflows: every workflow the filter matches appears in it once
    and no other, in the order of creation asked for, and the offset and the
    limit cut that list. *)
Theorem list_workflows_spec f w :
  0 ≤ default 0 (lf_offset f) → 0 ≤ default 0 (lf_limit f) →
  ∃ all, list_workflows f w =
      (Ok (workflow_status_of <$> (match lf_limit f with Some n => take (Z.to_nat n) | None => id end)
             (drop (Z.to_nat (default 0 (lf_offset f))) all)), w) ∧
    NoDup all.*1 ∧
    (∀ k r, (k, r) ∈ all ↔ workflow_status (w_db w) !! k = Some r ∧ filter_matches f k r = true) ∧
    StronglySorted (key_le [created_order (lf_sort_desc f)]) all.
Proof.
  intros Ho Hl.
  exists (order_by [created_order (lf_sort_desc f)]
            (select_where (filter_matches f) (workflow_status (w_db w)))). split_and!.
  - apply list_workflows_run. unfold limit_offset.
    destruct (lf_offset f) as [o|], (lf_limit f) as [n|]; simpl in *;
      repeat (case_decide; simpl; [lia|]); done.
  - rewrite order_by_perm. apply select_where_nodup.
  - intros k r. by rewrite order_by_perm, elem_of_select_where.
  - apply order_by_sorted.
Qed.
End list_properties.

(** With [queues_only] the listing does not look at the queue name asked
    for: two filters that differ in it match the same workflows. *)
Theorem queues_only_ignores_queue_name f q id r :
  lf_queues_only f = true →
  filter_matches (mkFilter (lf_workflow_ids f) (lf_status f) (lf_workflow_name f) (Some q)
    (lf_queues_only f) (lf_application_version f) (lf_executor_ids f) (lf_start_time f)
    (lf_end_time f) (lf_limit f) (lf_offset f) (lf_sort_desc f)) id r
  = filter_matches f id r.
Proof. intros Hq. unfold filter_matches, filter_status. simpl. by rewrite Hq. Qed.

(** ** Cancelling *)

Section cancel_properties.
Context `{HE : Env, HS : PgScan, !PgScanLaws HS}.

Lemma outcome_row_cancelled s out err now r :
  wf_status r = status_str Cancelled → s = Success ∨ s = Error →
  outcome_row s out err now r = r.
Proof.
  intros Hr Hs. unfold outcome_row. rewrite bool_decide_eq_true_2 by done.
  by destruct Hs as [-> | ->].
Qed.

Lemma cancellable_in ids id r :
  id ∈ ids → cancellable ids id r =
  negb (sql_in (wf_status r) [status_str Success; status_str Error; status_str Cancelled]).
Proof. intros Hin. unfold cancellable, sql_in at 1. by rewrite bool_decide_eq_true_2. Qed.

Lemma cancel_run ids w :
  cancel_workflows ids w =
  (Ok (existing ids (workflow_status (w_db w))),
   w <| w_reads ::= S |>
     <| w_db ::= set_field workflow_status
          (update_where (cancellable ids) (cancel_row (clock (w_reads w)))) |>).
Proof. done. Qed.

Lemma outcome_run id s out err w :
  update_workflow_outcome id s out err w =
  (Ok tt, w <| w_reads ::= S |>
            <| w_db ::= set_field workflow_status
                 (alter (outcome_row s out err (clock (w_reads w))) id) |>).
Proof. done. Qed.

(** C31: a cancellation and an outcome exclude each other, whichever comes
    first.  Cancelling returns the ids that exist and leaves a completed
    workflow as it is; any other one becomes [CANCELLED] off its queue, and
    then no [SUCCESS] or [ERROR] outcome written later changes the row. *)
Theorem cancel_outcome_exclusive ids id r w :
  id ∈ ids → workflow_status (w_db w) !! id = Some r →
  ∃ found w', cancel_workflows ids w = (Ok found, w') ∧
    (∀ k, k ∈ found ↔ k ∈ ids ∧ is_Some (workflow_status (w_db w) !! k)) ∧
    if sql_in (wf_status r) [status_str Success; status_str Error; status_str Cancelled]
    then workflow_status (w_db w') !! id = Some r
    else ∃ r', workflow_status (w_db w') !! id = Some r' ∧
      wf_status r' = status_str Cancelled ∧ wf_queue_name r' = None ∧
      ∀ s out err, s = Success ∨ s = Error →
        workflow_status (w_db (snd (update_workflow_outcome id s out err w'))) !! id = Some r'.
Proof.
  intros Hin Hr. rewrite cancel_run. do 2 eexists. split; [done|]. split.
  - intros k. unfold existing. rewrite list_elem_of_fmap. split.
    + intros ([j x] & -> & Hj). apply elem_of_select_where in Hj as [Hj Hk].
      apply bool_decide_eq_true in Hk. naive_solver.
    + intros [Hk [x Hx]]. exists (k, x). split; [done|]. apply elem_of_select_where.
      split; [done|]. by apply bool_decide_eq_true.
  - simpl. rewrite lookup_update_where, Hr. cbn [fmap option_fmap option_map].
    rewrite cancellable_in by done. destruct (sql_in (wf_status r) _) eqn:E; [done|].
    exists (cancel_row (clock (w_reads w)) r). split_and!; [done..|]. intros s out err Hs.
    simpl. rewrite lookup_alter_eq, lookup_update_where, Hr.
    cbn [fmap option_fmap option_map]. rewrite cancellable_in by done. cbn [status_str]. rewrite E.
    cbn [negb]. by rewrite outcome_row_cancelled.
Qed.
End cancel_properties.

(** ** Garbage collection *)

Section gc_properties.
Context `{HE : Env, HS : PgScan, !PgScanLaws HS}.

Lemma select_all_count (p : wf_row → bool) (t : gmap string wf_row) :
  length (filter (λ kr, p kr.2 = true) (select_where (λ _ _, true) t)) = count_where (λ _, p) t.
Proof.
  rewrite <- length_select_where. unfold select_where. rewrite list_filter_filter.
  f_equal. apply list_filter_iff. naive_solver.
Qed.

(** More than [n] rows are at or after the one at position [n]. *)
Lemma rows_cutoff_spec n t c :
  0 ≤ n → rows_cutoff n t = Some c →
  (Z.to_nat n < count_where (λ _ r, bool_decide (c ≤ wf_created_at r)%Z) t)%nat.
Proof.
  intros Hn. unfold rows_cutoff. rewrite <- select_all_count.
  pose proof (order_by_sorted [created_order true] (select_where (λ _ _, true) t)) as Hs.
  pose proof (order_by_perm [created_order true] (select_where (λ _ _, true) t)) as Hp.
  intros ([k r] & Hk & ->)%fmap_Some. simpl. rewrite <- Hp. revert Hs Hk.
  generalize (order_by [created_order true] (select_where (λ _ _, true) t)) as l. intros l Hs Hk.
  apply list_elem_of_split_length in Hk as (l1 & l2 & -> & Hl1).
  rewrite filter_app, filter_cons, decide_True by (by apply bool_decide_eq_true). simpl.
  rewrite length_app. simpl.
  replace (filter _ l1) with l1; [lia|]. symmetry. apply filter_id, Forall_forall.
  intros [k' r'] Hin. apply bool_decide_eq_true.
  pose proof (StronglySorted_app_1_elem_of _ _ _ _ (k, r) Hs Hin ltac:(by left)) as Hle.
  unfold created_order in Hle. simpl in *. lia.
Qed.

(** The world in which the [DELETE] runs. *)
Definition gc_world (threshold : option Z) (w : World) : World :=
  match threshold with
  | Some n => if decide (n > 0) then snd (wait w) else w
  | None => w
  end.

Lemma gc_cutoff_run cutoff threshold w :
  ∃ c, gc_cutoff cutoff threshold w = (Ok c, gc_world threshold w) ∧
    ∀ z, c = Some z → ∀ created, created < z →
      (∃ c', cutoff = Some c' ∧ created < c') ∨
      (∃ n, threshold = Some n ∧ 0 < n ∧
        n ≤ Z.of_nat (count_where (λ _ r, bool_decide (created < wf_created_at r)) (workflow_status (w_db w)))).
Proof.
  unfold gc_cutoff, gc_world. destruct threshold as [n|]; [|by eexists; split; eauto].
  case_decide as Hn; [|by eexists; split; eauto].
  exists (match rows_cutoff (n - 1) (workflow_status (w_db w)) with
          | Some rc => Some (match cutoff with None => rc | Some c => c `max` rc end)
          | None => cutoff
          end).
  split; [done|]. destruct (rows_cutoff (n - 1) (workflow_status (w_db w))) as [rc|] eqn:Hrc; [|eauto].
  intros z Hz created Hlt.
  assert (created < rc ∨ ∃ c', cutoff = Some c' ∧ created < c') as [Hnew|?]; [|right|by left].
  { injection Hz as <-. destruct cutoff as [c'|]; [|by left].
    destruct (Z.max_spec c' rc) as [[_ E]|[_ E]]; rewrite E in Hlt; eauto. }
  exists n. split_and!; [done | lia|]. apply rows_cutoff_spec in Hrc; [|lia].
  assert (count_where (λ _ r, bool_decide (rc ≤ wf_created_at r)%Z) (workflow_status (w_db w))
    ≤ count_where (λ _ r', bool_decide (created < wf_created_at r')%Z) (workflow_status (w_db w)))%nat;
    [|lia].
  apply count_where_mono. intros _ x. rewrite !bool_decide_eq_true. lia.
Qed.

(** C33: garbage collection only deletes what it may.  With [d] the tables
    when its [DELETE] runs (other processes may run after the query of the row
    count), a deleted workflow is in [d] neither [PENDING] nor [ENQUEUED] nor
    [DELAYED], and is older than the time cutoff or than at least
    [rows_threshold] workflows of the table the query saw; the rows that stay
    are unchanged, none appears, and no row is left referring to a deleted
    workflow. *)
Theorem garbage_collect_safe cutoff threshold w :
  let d := match threshold with
           | Some n => if decide (n > 0) then others (w_waits w) (w_db w) else w_db w
           | None => w_db w
           end in
  refs_ok d →
  ∃ w', garbage_collect cutoff threshold w = (Ok tt, w') ∧ refs_ok (w_db w') ∧
    (∀ id, workflow_status d !! id = None → workflow_status (w_db w') !! id = None) ∧
    ∀ id r, workflow_status d !! id = Some r →
      workflow_status (w_db w') !! id = Some r ∨
      workflow_status (w_db w') !! id = None ∧
      (wf_status r ∉ [status_str Pending; status_str Enqueued; status_str Delayed]) ∧
      ((∃ c, cutoff = Some c ∧ wf_created_at r < c) ∨
       (∃ n, threshold = Some n ∧ 0 < n ∧
         n ≤ Z.of_nat (count_where (λ _ r', bool_decide (wf_created_at r < wf_created_at r'))
                         (workflow_status (w_db w))))).
Proof.
  intros d Hrefs. destruct (gc_cutoff_run cutoff threshold w) as (c & Hrun & Hc).
  unfold garbage_collect. rewrite M_bind_run, Hrun.
  assert (w_db (gc_world threshold w) = d) as Hd.
  { unfold gc_world, d. destruct threshold; [case_decide|]; done. }
  destruct c as [c|]; [|exists (gc_world threshold w); rewrite Hd; split_and!; auto].
  rewrite <- Hd in Hrefs |- *.
  eexists. split; [done|]. generalize dependent (gc_world threshold w). intros w1 Hrun _ Hrefs.
  split_and!; [by apply delete_cascade_refs| |]; simpl.
  { intros id Hn. by rewrite map_lookup_filter, Hn. }
  intros id r Hr. rewrite map_lookup_filter, Hr. simpl. rewrite Hr.
  destruct (collectable c r) eqn:Hcol; [right | left; by rewrite option_guard_True].
  rewrite option_guard_False by done. split; [done|].
  unfold collectable, sql_in in Hcol. rewrite andb_true_iff, negb_true_iff in Hcol.
  destruct Hcol as [Hlt%bool_decide_eq_true Hst%bool_decide_eq_false]. split; [done|].
  by apply (Hc c).
Qed.
End gc_properties.

(** ** Fork *)

Section fork_properties.
Context (orig new : string) (start : Z) (d : Db).
Context (Hnew : ∀ fid, operation_outputs d !! (new, fid) = None)
        (Hnewh : ∀ fid key, workflow_events_history d !! (new, fid, key) = None)
        (Hnewe : ∀ key, workflow_events d !! (new, key) = None)
        (Hnews : ∀ key o, streams d !! (new, key, o) = None).

Lemma lookup_fork_operation fid :
  copy_rows (fork_operation orig new start) (operation_outputs d) !! (new, fid) =
  if decide (fid < start) then operation_outputs d !! (orig, fid) else None.
Proof.
  apply option_eq. intros o. rewrite lookup_copy_rows.
  - unfold fork_operation. split.
    + intros ([id f] & Hk & Ho). simpl in Hk. case_decide as Hd; [|done]. simplify_eq.
      destruct Hd as [-> ?]. by rewrite decide_True.
    + case_decide; [|done]. intros Ho. exists (orig, fid). simpl. by rewrite decide_True.
  - unfold fork_operation. intros [] [] ? ? ? _ _ H1 H2. repeat case_decide; naive_solver.
Qed.

Lemma lookup_fork_history fid key :
  copy_rows (fork_history orig new start) (workflow_events_history d) !! (new, fid, key) =
  if decide (fid < start) then workflow_events_history d !! (orig, fid, key) else None.
Proof.
  apply option_eq. intros o. rewrite lookup_copy_rows.
  - unfold fork_history. split.
    + intros ([[id f] k] & Hk & Ho). simpl in Hk. case_decide as Hd; [|done]. simplify_eq.
      destruct Hd as [-> ?]. by rewrite decide_True.
    + case_decide; [|done]. intros Ho. exists (orig, fid, key). simpl. by rewrite decide_True.
  - unfold fork_history. intros [[] ?] [[] ?] ? ? ? _ _ H1 H2. repeat case_decide; naive_solver.
Qed.

(** The event's value the forked steps left: the latest below [start]. *)
Definition event_before (key : string) (e : ev_row) : Prop :=
  ∃ fid, fid < start ∧ workflow_events_history d !! (orig, fid, key) = Some e ∧
    ∀ fid' e', workflow_events_history d !! (orig, fid', key) = Some e' → fid' < start → fid' ≤ fid.

Lemma lookup_fork_event key e :
  copy_rows (fork_event orig new start (workflow_events_history d)) (workflow_events_history d)
    !! (new, key) = Some e ↔ event_before key e.
Proof.
  unfold event_before. rewrite lookup_copy_rows.
  - unfold fork_event. split.
    + intros ([[id f] k] & Hk & Ho). case_decide as Hd; [|done]. simplify_eq/=.
      destruct Hd as (? & ? & Hmax). simpl in *. subst id. exists f. split_and!; [done..|].
      intros fid' e' He' Hlt. by apply (Hmax _ _ He').
    + intros (f & Hf & Ho & Hmax). exists (orig, f, key). rewrite decide_True; [done|].
      split_and!; [done..|]. intros [[id f'] k] e' He' ? ? ?. simpl in *. subst. eauto.
  - unfold fork_event. intros [[id1 f1] k1] [[id2 f2] k2] k v1 v2 H1 H2.
    case_decide as Hd1; [|done]. case_decide as Hd2; [|done]. intros Hk1 Hk2. simplify_eq/=.
    destruct Hd1 as (? & ? & Hmax1), Hd2 as (? & ? & Hmax2). simpl in *. subst.
    pose proof (Hmax1 _ _ H2) as Hle1. pose proof (Hmax2 _ _ H1) as Hle2. simpl in *.
    assert (f1 = f2) as -> by (specialize (Hle1 eq_refl ltac:(done) ltac:(congruence));
      specialize (Hle2 eq_refl ltac:(done) ltac:(congruence)); lia).
    by simplify_eq.
Qed.

Lemma lookup_fork_streams key o :
  fork_streams orig new start (streams d) !! (new, key, o) =
  (r ← streams d !! (orig, key, o); if decide (st_function_id r < start) then Some r else None).
Proof.
  apply option_eq. intros x. unfold fork_streams. rewrite lookup_copy_rows, bind_Some.
  - split.
    + intros ([[id k] o'] & Hk & Hr). simpl in Hk. case_decide; [|done]. simplify_eq/=.
      apply map_lookup_filter_Some in Hr as [Hr Hlt]. exists x. by rewrite decide_True.
    + intros (r & Hr & Hx). case_decide; [|done]. simplify_eq. exists (orig, key, o). simpl.
      rewrite decide_True by done. split; [done|]. by apply map_lookup_filter_Some.
  - intros [[] ?] [[] ?] ? ? ? _ _ H1 H2. simpl in *. repeat case_decide; naive_solver.
Qed.

(** No copied key is taken, so the copies go through. *)
Lemma copy_prefix_run w :
  w_db w = d →
  copy_prefix orig new start w =
  (Ok tt, w <| w_db := mkDb (workflow_status d)
     (copy_rows (fork_operation orig new start) (operation_outputs d) ∪ operation_outputs d)
     (notifications d)
     (copy_rows (fork_event orig new start (workflow_events_history d)) (workflow_events_history d)
        ∪ workflow_events d)
     (copy_rows (fork_history orig new start) (workflow_events_history d) ∪ workflow_events_history d)
     (fork_streams orig new start (streams d) ∪ streams d) |>).
Proof.
  intros Hd. unfold copy_prefix, insert_select.
  eapply run_bind; [done|]. rewrite Hd.
  rewrite !bool_decide_eq_true_2; [run_M; by rewrite Hd|..]; apply map_disjoint_spec.
  all: intros ? x y (k & Hk)%copy_rows_image Hy;
    unfold fork_operation, fork_history, fork_event in Hk; case_decide; [|done]; simplify_eq;
    by rewrite ?Hnew, ?Hnewh, ?Hnewe, ?Hnews in Hy.
Qed.
End fork_properties.

(** The rows of the workflows other than [id] are the same. *)
Definition same_elsewhere (id : string) (d d' : Db) : Prop :=
  (∀ k, k ≠ id → workflow_status d' !! k = workflow_status d !! k) ∧
  (∀ k fid, k ≠ id → operation_outputs d' !! (k, fid) = operation_outputs d !! (k, fid)) ∧
  (∀ k key, k ≠ id → workflow_events d' !! (k, key) = workflow_events d !! (k, key)) ∧
  (∀ k fid key, k ≠ id →
     workflow_events_history d' !! (k, fid, key) = workflow_events_history d !! (k, fid, key)) ∧
  (∀ k key o, k ≠ id → streams d' !! (k, key, o) = streams d !! (k, key, o)) ∧
  notifications d' = notifications d.

Section fork_theorem.
Context `{HE : Env}.

Lemma fork_run input new r w :
  fk_forked_workflow_id input = Some new →
  workflow_status (w_db w) !! fk_original_workflow_id input = Some r →
  workflow_status (w_db w) !! new = None →
  let q := default INTERNAL_QUEUE_NAME (fk_queue_name input) in
  let w1 := w <| w_reads ::= S |>
              <| w_db ::= set_field workflow_status (λ t,
                   alter (set_field wf_was_forked_from (λ _, true)) (fk_original_workflow_id input)
                     (<[new := forked_row input q (clock (w_reads w)) r]> t)) |> in
  fork_workflow input w =
  match (if decide (fk_start_step input > 0)
         then copy_prefix (fk_original_workflow_id input) new (fk_start_step input)
         else mret tt) w1 with
  | (Ok _, w2) => (Ok new, w2)
  | (Err e, w2) => (Err e, w2 <| w_db := w_db w |>)
  end.
Proof.
  intros Hfk Hr Hn. unfold fork_workflow. rewrite Hfk.
  eapply run_bind; [done|]. eapply run_bind; [done|]. eapply run_bind; [done|].
  eapply run_bind; [run_M; by rewrite Hr|]. unfold transaction, fork_tx. run_M. rewrite Hn.
  case_decide; [|done]. by destruct (copy_prefix _ _ _ _) as [[[]|] ?].
Qed.

(** C32: a fork is a new workflow with the original's past up to the start
    step.  It is [ENQUEUED] with the original's name and input; its recorded
    operations, its event history and its streams are exactly the original's
    below the start step, and its events have the latest value published
    there; the original is only marked as forked, and the rows of all other
    workflows are untouched. *)
Theorem fork_copies_prefix input new r w :
  refs_ok (w_db w) → fk_forked_workflow_id input = Some new → 0 < fk_start_step input →
  workflow_status (w_db w) !! fk_original_workflow_id input = Some r →
  workflow_status (w_db w) !! new = None →
  let orig := fk_original_workflow_id input in
  let start := fk_start_step input in
  ∃ w', fork_workflow input w = (Ok new, w') ∧
    (∃ q now, workflow_status (w_db w') !! new = Some (forked_row input q now r)) ∧
    workflow_status (w_db w') !! orig = Some (r <| wf_was_forked_from := true |>) ∧
    (∀ fid, operation_outputs (w_db w') !! (new, fid) =
            if decide (fid < start) then operation_outputs (w_db w) !! (orig, fid) else None) ∧
    (∀ fid key, workflow_events_history (w_db w') !! (new, fid, key) =
            if decide (fid < start) then workflow_events_history (w_db w) !! (orig, fid, key) else None) ∧
    (∀ key e, workflow_events (w_db w') !! (new, key) = Some e ↔ event_before orig start (w_db w) key e) ∧
    (∀ key o, streams (w_db w') !! (new, key, o) =
            (x ← streams (w_db w) !! (orig, key, o);
             if decide (st_function_id x < start) then Some x else None)) ∧
    same_elsewhere new ((w_db w) <| workflow_status ::=
      alter (set_field wf_was_forked_from (λ _, true)) orig |>) (w_db w').
Proof.
  intros Hrefs Hfk Hstart Hr Hn orig start.
  destruct (refs_absent _ _ Hrefs Hn) as (Ho & Hh & He & Hs).
  assert (new ≠ orig) as Hne by (intros E; rewrite E in Hn; unfold orig in Hn; congruence).
  rewrite (fork_run input new r w) by done. cbv zeta. rewrite decide_True by lia.
  match goal with |- context [copy_prefix _ _ _ ?w1] =>
    rewrite (copy_prefix_run (fk_original_workflow_id input) new (fk_start_step input)
      (w_db w1) Ho Hh He Hs w1 eq_refl)
  end.
  eexists. split; [done|]. simpl. split_and!.
  - do 2 eexists. by rewrite lookup_alter_ne, lookup_insert_eq by done.
  - unfold orig in *. by rewrite lookup_alter_eq, lookup_insert_ne, Hr by done.
  - intros fid. by rewrite lookup_union_l, lookup_fork_operation by done.
  - intros fid key. by rewrite lookup_union_l, lookup_fork_history by done.
  - intros key e. rewrite lookup_union_l by done. apply lookup_fork_event.
  - intros key o. by rewrite lookup_union_l, lookup_fork_streams by done.
  - unfold same_elsewhere. simpl. split_and!; [|intros..|done].
    { intros k Hk. destruct (decide (k = orig)) as [->|]; fold orig.
      - by rewrite !lookup_alter_eq, lookup_insert_ne by done.
      - by rewrite !lookup_alter_ne, lookup_insert_ne by done. }
    all: apply lookup_union_r, eq_None_not_Some; intros [x [? Hx]%copy_rows_image];
      unfold fork_operation, fork_history, fork_event in Hx; case_decide; [|done]; by simplify_eq.
Qed.
End fork_theorem.
