(* ===== verification/Evolution.v ===== *)
(** * The operations of db/*.rs take only steps of the life cycle

    [Evolves m]: from well-formed tables, [m] takes the database through steps
    of Lifecycle.v, whatever its result.  The class is closed under the monad
    and under transactions, so that the instances of the composed operations
    are found by type class search. *)
From S2P Require Import Prelude Errors Json Serialize Database World Status Lifecycle.
From S2P Require Import Steps Notifications Streams QueueDb Management.

Local Open Scope string_scope.
Local Open Scope Z_scope.
Local Open Scope dbos_scope.

Class Evolves `{Deletable} {A} (m : M A) : Prop :=
  evolves_run w : db_ok (w_db w) → evolves (w_db w) (w_db (snd (m w))).

(** ** The monad *)

Section evolution.
Context `{Deletable}.

Section monad.
Context {A B : Type}.

#[export] Instance evolves_ret (a : A) : Evolves (mret a).
Proof. intros w _. reflexivity. Qed.
#[export] Instance evolves_raise e : Evolves (raise (A := A) e).
Proof. intros w _. reflexivity. Qed.
#[export] Instance evolves_lift (r : Result A) : Evolves (lift r).
Proof. intros w _. reflexivity. Qed.
#[export] Instance evolves_gets (f : World → A) : Evolves (gets f).
Proof. intros w _. reflexivity. Qed.

#[export] Instance evolves_bind (m : M A) (f : A → M B) :
  Evolves m → (∀ a, Evolves (f a)) → Evolves (m ≫= f).
Proof.
  intros Hm Hf w Hok. unfold mbind, M_bind. specialize (Hm w Hok).
  destruct (m w) as [[a|e] w1]; simpl in *; [|done].
  etrans; [done|]. apply Hf. by eapply evolves_ok.
Qed.

#[export] Instance evolves_attempt (m : M A) : Evolves m → Evolves (attempt m).
Proof. intros Hm w Hok. unfold attempt. specialize (Hm w Hok). by destruct (m w). Qed.

(** A transaction takes all its steps or none. *)
#[export] Instance evolves_transaction (m : M (tx_end A)) : Evolves m → Evolves (transaction m).
Proof.
  intros Hm w Hok. unfold transaction. specialize (Hm w Hok).
  by destruct (m w) as [[[]|] ?].
Qed.

(** The continuation of a read knows what was read. *)
Lemma evolves_gets_bind (f : World → A) (k : A → M B) :
  (∀ w, db_ok (w_db w) → evolves (w_db w) (w_db (snd (k (f w) w)))) → Evolves (gets f ≫= k).
Proof. by intros Hk w Hok; apply Hk. Qed.

(** What does not touch the database. *)
Lemma evolves_modify (f : World → World) : (∀ w, w_db (f w) = w_db w) → Evolves (modify f).
Proof. intros Hf w _. unfold modify. simpl. by rewrite Hf. Qed.

Lemma evolves_still (m : M A) : (∀ w, w_db (snd (m w)) = w_db w) → Evolves m.
Proof. intros Hm w _. by rewrite Hm. Qed.

(** A change of the database alone. *)
Lemma evolves_modify_db f : (∀ d, db_ok d → evolves d (f d)) → Evolves (modify_db f).
Proof. intros Hf w Hok. by apply Hf. Qed.
End monad.

#[export] Instance evolves_fmap {A B} (f : A → B) (m : M A) : Evolves m → Evolves (f <$> m).
Proof. intros. unfold fmap, M_fmap. apply _. Qed.

#[export] Instance evolves_ignore {A} (m : M A) : Evolves m → Evolves (ignore m).
Proof. intros. unfold ignore. apply _. Qed.

#[export] Instance evolves_now `{Env} : Evolves now_epoch_ms.
Proof. intros w _. reflexivity. Qed.
#[export] Instance evolves_instant `{Env} : Evolves instant_now.
Proof. intros w _. reflexivity. Qed.
#[export] Instance evolves_uuid `{Env} : Evolves uuid_v4.
Proof. intros w _. reflexivity. Qed.

(** ** Updates of rows *)

Section rows.
Implicit Types (t : gmap string wf_row) (r : wf_row).

Lemma evolves_row d id r r' :
  workflow_status d !! id = Some r → (∀ id r, workflow_status d !! id = Some r → row_ok r) →
  moves r r' → evolves d (d <| workflow_status ::= <[id := r']> |>).
Proof.
  intros Hr Hok Hm. apply rtc_once, (Move d (<[id := r']> (workflow_status d))). intros j.
  destruct (decide (j = id)) as [->|Hne].
  - rewrite Hr, lookup_insert_eq. by constructor.
  - rewrite lookup_insert_ne by done. destruct (workflow_status d !! j) eqn:E; constructor.
    apply moves_refl. eauto.
Qed.

Lemma evolves_alter d id f :
  (∀ id r, workflow_status d !! id = Some r → row_ok r) →
  (∀ r, workflow_status d !! id = Some r → row_ok r → moves r (f r)) →
  evolves d (d <| workflow_status ::= alter f id |>).
Proof.
  intros Hok Hm. apply rtc_once, (Move d (alter f id (workflow_status d))). intros j.
  destruct (decide (j = id)) as [->|Hne].
  - rewrite lookup_alter_eq. destruct (workflow_status d !! id) eqn:E; constructor. eauto.
  - rewrite lookup_alter_ne by done. destruct (workflow_status d !! j) eqn:E; constructor.
    apply moves_refl. eauto.
Qed.

Lemma evolves_update_where d p f :
  (∀ id r, workflow_status d !! id = Some r → row_ok r) →
  (∀ id r, p id r = true → row_ok r → moves r (f r)) →
  evolves d (d <| workflow_status ::= update_where p f |>).
Proof.
  intros Hok Hm. apply rtc_once, (Move d (update_where p f (workflow_status d))). intros j.
  rewrite lookup_update_where. destruct (workflow_status d !! j) eqn:E; constructor.
  destruct (p j _) eqn:Ep; [|apply moves_refl]; eauto.
Qed.

(** A row with a given status. *)
Lemma row_phase r s : row_ok r → wf_status r = status_str s → ∃ l, life_of r = Some l ∧ l_phase l = s.
Proof.
  intros (l & Hl & _) Hs. exists l. split; [done|]. unfold life_of in Hl. rewrite Hs in Hl.
  rewrite status_from_str_str in Hl. by simplify_eq/=.
Qed.

(** A row without one. *)
Lemma row_not_phase r s l : life_of r = Some l → wf_status r ≠ status_str s → l_phase l ≠ s.
Proof.
  intros Hl Hne <-. apply Hne, status_from_str_Some. unfold life_of in Hl.
  destruct (status_from_str (wf_status r)); by simplify_eq/=.
Qed.
End rows.

(** ** The updates are transitions *)

Section transitions.
Implicit Types r : wf_row.

(** The same state. *)
Lemma moves_same r r' : row_ok r → origin r' = origin r → life_of r' = life_of r → moves r r'.
Proof.
  intros (l & Hl & _) Ho Hl'. split; [done|]. exists l, l. rewrite Hl'. auto.
Qed.

(** One transition. *)
Lemma moves_step r r' l l' :
  life_of r = Some l → origin r' = origin r → life_of r' = Some l' → life_step l l' → moves r r'.
Proof. intros Hl Ho Hl' Hs. split; [done|]. exists l, l'. auto. Qed.

(** The state of a row whose status is known. *)
Lemma life_of_status r s :
  wf_status r = status_str s →
  life_of r = Some (mkLife s (wf_queue_name r) (wf_deduplication_id r) (is_set (wf_started_at_epoch_ms r))
    (is_set (wf_completed_at r)) (is_set (wf_delay_until_epoch_ms r)) (wf_output r) (wf_error r)).
Proof. intros Hs. unfold life_of. by rewrite Hs, status_from_str_str. Qed.

(** The columns of the state of a row. *)
Lemma life_of_columns r l :
  life_of r = Some l →
  wf_status r = status_str (l_phase l) ∧ wf_queue_name r = l_queue l ∧
  wf_deduplication_id r = l_dedup l ∧ is_set (wf_started_at_epoch_ms r) = l_started l ∧
  is_set (wf_completed_at r) = l_completed l ∧ is_set (wf_delay_until_epoch_ms r) = l_delayed l ∧
  wf_output r = l_output l ∧ wf_error r = l_error l.
Proof.
  unfold life_of. destruct (status_from_str (wf_status r)) as [s|] eqn:E; simpl; [|done].
  apply status_from_str_Some in E. by intros [= <-].
Qed.

Lemma moves_on_conflict i r : row_ok r → moves r (on_conflict_row i r).
Proof. intros Hok. by apply moves_same. Qed.

Lemma moves_dead_letter r : row_ok r → moves r (dead_letter_row r).
Proof.
  intros Hok. unfold dead_letter_row. case_decide as Hs; [|by apply moves_refl].
  eapply moves_step; [by apply (life_of_status r)|done|by apply life_of_status|].
  by apply (DeadLettered (mkLife _ _ _ _ _ _ _ _)).
Qed.

(** The outcomes [run_task] records. *)
Definition outcome_kind (s : WorkflowStatusType) (output error : option string) : Prop :=
  (s = Success ∧ is_Some output ∧ error = None) ∨ (s = Error ∧ output = None ∧ is_Some error).

Lemma moves_outcome s output error now r :
  outcome_kind s output error → row_ok r → moves r (outcome_row s output error now r).
Proof.
  intros Hkind Hok. unfold outcome_row. destruct (_ && _) eqn:Hc; [by apply moves_refl|].
  destruct Hok as (l & Hl & Hok). assert (l_phase l ≠ Cancelled) as Hne.
  { eapply row_not_phase; [done|]. intros Hs. rewrite Hs in Hc.
    destruct Hkind as [(-> & _)|(-> & _)]; by vm_compute in Hc. }
  destruct Hkind as [(-> & [out ->] & ->)|(-> & -> & [err ->])].
  - eapply moves_step; [done..|by apply life_of_status|]. cbn -[is_set].
    destruct (life_of_columns r l Hl) as (_ & -> & _ & -> & _ & -> & _). by apply Succeeded.
  - eapply moves_step; [done..|by apply life_of_status|]. cbn -[is_set].
    destruct (life_of_columns r l Hl) as (_ & -> & _ & -> & _ & -> & _). by apply Failed.
Qed.

Lemma moves_cancel ids id now r :
  cancellable ids id r = true → row_ok r → moves r (cancel_row now r).
Proof.
  intros [_ Hc]%andb_true_iff (l & Hl & _). apply negb_true_iff, bool_decide_eq_false in Hc.
  rewrite !not_elem_of_cons in Hc. destruct Hc as (Hs & He & Hx & _).
  eapply moves_step; [done..|by apply life_of_status|]. cbn -[is_set].
  destruct (life_of_columns r l Hl) as (_ & _ & _ & _ & _ & -> & -> & ->).
  apply WasCancelled; by eapply row_not_phase.
Qed.

Lemma moves_resume ids id queue now r :
  resumable ids id r = true → row_ok r → moves r (resume_row queue now r).
Proof.
  intros [_ Hc]%andb_true_iff (l & Hl & _). apply negb_true_iff, bool_decide_eq_false in Hc.
  rewrite !not_elem_of_cons in Hc. destruct Hc as (Hs & He & _).
  eapply moves_step; [done..|by apply life_of_status|]. cbn -[is_set].
  destruct (life_of_columns r l Hl) as (_ & _ & _ & _ & _ & -> & -> & ->).
  apply Resumed; by eapply row_not_phase.
Qed.

Lemma moves_promote now r :
  delay_elapsed now r = true → moves r (r <| wf_status := status_str Enqueued |>).
Proof.
  intros [Hs%bool_decide_eq_true _]%andb_true_iff.
  eapply moves_step; [by apply (life_of_status r)|done|by apply life_of_status|].
  by apply (Promoted (mkLife _ _ _ _ _ _ _ _)).
Qed.

Lemma moves_clear r : queue_assigned r = true → moves r (clear_row r).
Proof.
  intros [Hq%bool_decide_eq_true Hs%bool_decide_eq_true]%andb_true_iff.
  eapply moves_step; [by apply (life_of_status r)|done|by apply life_of_status|].
  by apply (Requeued (mkLife _ _ _ _ _ _ _ _)).
Qed.

Lemma moves_claimed input now deadline r :
  wf_status r = status_str Enqueued → moves r (claimed_row input now deadline r).
Proof.
  intros Hs. eapply moves_step; [by apply (life_of_status r)|done|by apply life_of_status|].
  by apply (Claimed (mkLife _ _ _ _ _ _ _ _)).
Qed.

Lemma created_forked input queue now r : created (forked_row input queue now r).
Proof.
  eexists. split; [by apply life_of_status|]. split; [|auto]. split_and!; [done..|by eexists|done].
Qed.
End transitions.

(** ** The operations of db/*.rs *)

(** The search for instances goes by the name of the operation. *)
#[export] Hint Opaque now_epoch_ms instant_now uuid_v4 wait upsert_workflow_status
  insert_workflow_status update_workflow_outcome check_operation_execution check_child_workflow
  insert_operation record_operation_result record_child_workflow insert_notification
  consume_oldest_notification foreign_key upsert_workflow_event insert_workflow_event_history
  write_stream_entry read_stream_entries transition_delayed_workflows clear_queue_assignment
  claim claim_all rate_gate dequeue_tx dequeue_workflows get_queue_partitions
  list_pending_for_recovery list_workflows get_workflow_steps cancel_workflows resume_workflows
  delete_workflows cancel_all_before garbage_collect copy_prefix fork_tx fork_workflow
  : typeclass_instances.

Section status_operations.
Context `{Env}.

Lemma dedup_free t i :
  dedup_clash t (in_queue_name i) (in_deduplication_id i) = false →
  ∀ id r q s, t !! id = Some r → holds_slot q s (inserted_row i) → ¬ holds_slot q s r.
Proof.
  intros Hc id r q s Hr [Hq Hs] Hslot. simpl in *. unfold dedup_clash in Hc. rewrite Hq, Hs in Hc.
  apply bool_decide_eq_false in Hc. apply Hc. by exists id, r.
Qed.

#[export] Instance evolves_upsert i : created (inserted_row i) → Evolves (upsert_workflow_status i).
Proof.
  intros Hnew. unfold upsert_workflow_status, gets_db. apply evolves_gets_bind. intros w Hok. unfold compose.
  destruct (workflow_status (w_db w) !! in_workflow_id i) as [r|] eqn:Hr.
  - change (evolves (w_db w) ((w_db w) <| workflow_status ::= <[in_workflow_id i := on_conflict_row i r]> |>)).
    eapply evolves_row; [done|by apply db_rows|]. by eapply moves_on_conflict, db_rows.
  - destruct (dedup_clash _ _ _) eqn:Hc; [reflexivity|].
    change (evolves (w_db w) ((w_db w) <| workflow_status ::= <[in_workflow_id i := inserted_row i]> |>)).
    apply rtc_once, Create; [done..|]. intros id r q s. by apply dedup_free.
Qed.

#[export] Instance evolves_insert i mr : created (inserted_row i) → Evolves (insert_workflow_status i mr).
Proof.
  intros Hnew. unfold insert_workflow_status. apply evolves_bind; [by apply evolves_upsert|].
  intros row. destruct (_ && _); [apply _|]. apply evolves_bind.
  - destruct (in_queue_name i), (wf_queue_name row); try case_decide; apply _.
  - intros _. cbv zeta. apply evolves_bind; [|apply _]. destruct (exceeds_attempts _ _ _); [|apply _].
    apply evolves_modify_db. intros d Hok. apply evolves_alter; [by apply db_rows|].
    intros r _. apply moves_dead_letter.
Qed.

#[export] Instance evolves_outcome id s output error :
  outcome_kind s output error → Evolves (update_workflow_outcome id s output error).
Proof.
  intros Hk. unfold update_workflow_outcome. apply evolves_bind; [apply _|]. intros now.
  apply evolves_modify_db. intros d Hok. apply evolves_alter; [by apply db_rows|].
  intros r _. by apply moves_outcome.
Qed.
End status_operations.

#[export] Instance evolves_check id fid name : Evolves (check_operation_execution id fid name).
Proof. apply evolves_still. intros w. by rewrite check_operation_world. Qed.

#[export] Instance evolves_check_child id fid : Evolves (check_child_workflow id fid).
Proof. unfold check_child_workflow, gets_db. apply _. Qed.

Section step_operations.
Context `{Env}.

#[export] Instance evolves_insert_operation id fid o : Evolves (insert_operation id fid o).
Proof.
  unfold insert_operation. apply evolves_gets_bind. intros w Hok.
  destruct (operation_outputs (w_db w) !! (id, fid)) eqn:Ho; [reflexivity|].
  destruct (workflow_status (w_db w) !! id) eqn:Hr; [|reflexivity].
  apply rtc_once, Record_operation; [by eexists|done].
Qed.

#[export] Instance evolves_record id fid name out err child ser :
  Evolves (record_operation_result id fid name out err child ser).
Proof.
  unfold record_operation_result. apply evolves_bind; [apply _|]. intros now.
  apply evolves_bind; [apply _|]. intros [[]|e]; [apply _|]. destruct (is_db_unique_violation e); apply _.
Qed.

#[export] Instance evolves_record_child parent fid name child :
  Evolves (record_child_workflow parent fid name child).
Proof. unfold record_child_workflow. apply _. Qed.

#[export] Instance evolves_insert_notification dest topic msg ser :
  Evolves (insert_notification dest topic msg ser).
Proof.
  unfold insert_notification. apply evolves_bind; [apply _|]. intros u.
  apply evolves_bind; [apply _|]. intros now. apply evolves_gets_bind. intros w Hok.
  destruct (notifications (w_db w) !! u) eqn:Hu; [reflexivity|].
  destruct (workflow_status (w_db w) !! dest) eqn:Hr; [|reflexivity].
  apply rtc_once, Deliver; [by eexists|done..].
Qed.
End step_operations.

#[export] Instance evolves_consume `{PgScan} dest topic : Evolves (consume_oldest_notification dest topic).
Proof.
  unfold consume_oldest_notification, gets_db. apply evolves_gets_bind. intros w Hok.
  destruct (oldest_entry _ _ _) as [[u n]|]; [|reflexivity]. apply rtc_once, Consume.
Qed.

Lemma evolves_foreign_key id c f :
  (∀ d, db_ok d → is_Some (workflow_status d !! id) → evolves d (f d)) →
  Evolves (foreign_key id c;; modify_db f).
Proof.
  intros Hf. unfold foreign_key. intros w Hok. unfold mbind, M_bind, gets.
  destruct (workflow_status (w_db w) !! id) eqn:Hr; [|reflexivity]. by apply Hf; [|eexists].
Qed.

#[export] Instance evolves_upsert_event id key v ser : Evolves (upsert_workflow_event id key v ser).
Proof. apply evolves_foreign_key. intros d _ Hid. by apply rtc_once, Publish. Qed.

#[export] Instance evolves_event_history id fid key v ser :
  Evolves (insert_workflow_event_history id fid key v ser).
Proof. apply evolves_foreign_key. intros d _ Hid. by apply rtc_once, Log_event. Qed.

(** The next offset is free, and not negative. *)
Lemma next_offset_free id key d :
  db_ok d → 0 ≤ next_offset id key (streams d) ∧ streams d !! (id, key, next_offset id key (streams d)) = None.
Proof.
  intros Hok. unfold next_offset. pose proof (max_offset_spec (stream_rows id key (streams d))) as Hm.
  destruct (max_offset _) as [m|]; simpl.
  - destruct Hm as [([o r] & -> & Hr%elem_of_stream_rows)%list_elem_of_fmap Hmax]. simpl in *.
    apply db_offsets in Hr as Ho; [|done]. split; [lia|]. apply eq_None_not_Some. intros [x Hx].
    assert (o + 1 ≤ o); [|lia]. apply Hmax, list_elem_of_fmap. exists (o + 1, x).
    by rewrite elem_of_stream_rows.
  - split; [lia|]. apply eq_None_not_Some. intros [x Hx%elem_of_stream_rows].
    rewrite Hm in Hx. by apply not_elem_of_nil in Hx.
Qed.

#[export] Instance evolves_write_stream id fid key v ser : Evolves (write_stream_entry id fid key v ser).
Proof.
  unfold write_stream_entry, gets_db. apply evolves_gets_bind. intros w Hok. unfold compose.
  destruct (bool_decide _); [reflexivity|]. cbv zeta. case_decide; [|reflexivity].
  unfold foreign_key, mbind, M_bind, gets.
  destruct (workflow_status (w_db w) !! id) eqn:Hr; [|reflexivity].
  destruct (next_offset_free id key (w_db w) Hok). apply rtc_once, Append; [by eexists|done..].
Qed.

#[export] Instance evolves_read_entries id key from : Evolves (read_stream_entries id key from).
Proof. unfold read_stream_entries, gets_db. apply _. Qed.

(** *** Queues *)

Section queue_operations.
Context `{Env}.

#[export] Instance evolves_transition_delayed : Evolves transition_delayed_workflows.
Proof.
  unfold transition_delayed_workflows. apply evolves_bind; [apply _|]. intros now.
  apply evolves_modify_db. intros d Hok. apply evolves_update_where; [by apply db_rows|].
  intros _ r Hr _. by apply (moves_promote now).
Qed.

#[export] Instance evolves_clear_assignment id : Evolves (clear_queue_assignment id).
Proof.
  unfold clear_queue_assignment, gets_db. apply evolves_gets_bind. intros w Hok. unfold compose, select_key.
  destruct (workflow_status (w_db w) !! id) as [r|] eqn:Hr; simpl; [|reflexivity].
  destruct (queue_assigned r) eqn:Hq; [|reflexivity].
  change (evolves (w_db w) ((w_db w) <| workflow_status ::= <[id := clear_row r]> |>)).
  eapply evolves_row; [done|by apply db_rows|by apply moves_clear].
Qed.

#[export] Instance evolves_claim input now id : Evolves (claim input now id).
Proof.
  unfold claim, gets_db. apply evolves_gets_bind. intros w Hok. unfold compose, select_key.
  destruct (workflow_status (w_db w) !! id) as [r|] eqn:Hr; simpl; [|reflexivity].
  case_bool_decide as Hs; [|reflexivity]. destruct (claimed_deadline now r) as [dl|]; [|reflexivity].
  change (evolves (w_db w) ((w_db w) <| workflow_status ::= <[id := claimed_row input now dl r]> |>)).
  eapply evolves_row; [done|by apply db_rows|by apply moves_claimed].
Qed.

#[export] Instance evolves_claim_all input now recent ids acc : Evolves (claim_all input now recent ids acc).
Proof.
  revert acc. induction ids as [|id ids IH]; intros acc; cbn [claim_all]; [apply _|].
  destruct (limit_reached _ _ _); apply _.
Qed.

#[export] Instance evolves_dequeue `{RowLocks, PgScan} input : Evolves (dequeue_workflows input).
Proof.
  unfold dequeue_workflows, dequeue_tx, rows_locked, gets_db. apply evolves_transaction, evolves_bind.
  - unfold rate_gate, gets_db. destruct (dq_rate_limit input) as [[]|]; apply _.
  - intros gate. apply evolves_bind; [apply _|]. intros t. cbv zeta. destruct (_ || _); apply _.
Qed.

#[export] Instance evolves_partitions `{PgScan} queue : Evolves (get_queue_partitions queue).
Proof. unfold get_queue_partitions, gets_db. apply _. Qed.
End queue_operations.

(** *** Management *)

#[export] Instance evolves_list_pending `{PgScan} ids version : Evolves (list_pending_for_recovery ids version).
Proof. unfold list_pending_for_recovery, gets_db. apply _. Qed.

#[export] Instance evolves_list `{SerdeJson, Base64Engine, PgScan} f : Evolves (list_workflows f).
Proof. apply evolves_still. intros w. by rewrite list_workflows_reads. Qed.

#[export] Instance evolves_steps `{SerdeJson, Base64Engine, PgScan} id : Evolves (get_workflow_steps id).
Proof. unfold get_workflow_steps, gets_db. apply _. Qed.

Section management_operations.
Context `{Env, PgScan}.

#[export] Instance evolves_cancel ids : Evolves (cancel_workflows ids).
Proof.
  unfold cancel_workflows, gets_db. apply evolves_bind; [apply _|]. intros now.
  apply evolves_bind; [apply _|]. intros t. apply evolves_bind; [|apply _].
  apply evolves_modify_db. intros d Hok. apply evolves_update_where; [by apply db_rows|].
  intros id r. apply moves_cancel.
Qed.

#[export] Instance evolves_resume ids queue : Evolves (resume_workflows ids queue).
Proof.
  unfold resume_workflows, gets_db. apply evolves_bind; [apply _|]. intros now.
  apply evolves_bind; [apply _|]. intros t. apply evolves_bind; [|apply _].
  apply evolves_modify_db. intros d Hok. apply evolves_update_where; [by apply db_rows|].
  intros id r. apply moves_resume.
Qed.

Lemma evolves_delete ids : (∀ id, id ∈ ids → may_delete id) → Evolves (delete_workflows ids).
Proof.
  intros Hids. apply evolves_modify_db. intros d _. apply rtc_once, Delete.
  intros id Hid%bool_decide_eq_true. auto.
Qed.

#[export] Instance evolves_cancel_before `{SerdeJson, Base64Engine} cutoff : Evolves (cancel_all_before cutoff).
Proof.
  unfold cancel_all_before. apply evolves_bind; [apply _|]. intros ws. cbv zeta. destruct (bool_decide _); apply _.
Qed.

(** The four copies of a fork, as one step. *)
Lemma insert_select_disjoint {K V} `{Countable K} c (new t t' : gmap K V) :
  insert_select c new t = Ok t' → new ##ₘ t ∧ t' = new ∪ t.
Proof. unfold insert_select. case_bool_decide; [|done]. by intros [= <-]. Qed.

Lemma copy_prefix_evolves orig new start w :
  db_ok (w_db w) → is_Some (workflow_status (w_db w) !! new) →
  evolves (w_db w) (w_db (snd (copy_prefix orig new start w))).
Proof.
  intros Hok Hid. unfold copy_prefix, mbind, M_bind, gets, lift.
  destruct (insert_select "operation_outputs_pkey" _ _) as [ops|] eqn:E1; [|reflexivity].
  destruct (insert_select "workflow_events_history_pkey" _ _) as [hist|] eqn:E2; [|reflexivity].
  destruct (insert_select "workflow_events_pkey" _ _) as [evs|] eqn:E3; [|reflexivity].
  destruct (insert_select "streams_pkey" _ _) as [sts|] eqn:E4; [|reflexivity].
  apply insert_select_disjoint in E1 as [? ->], E2 as [? ->], E3 as [? ->], E4 as [? ->].
  apply rtc_once, (Copy (w_db w) new); try done.
  - intros k v (k0 & Hf & _)%copy_rows_source. unfold fork_operation in Hf. case_decide; by simplify_eq.
  - intros k v (k0 & Hf & _)%copy_rows_source. unfold fork_event in Hf. case_decide; by simplify_eq.
  - intros k v (k0 & Hf & _)%copy_rows_source. unfold fork_history in Hf. case_decide; by simplify_eq.
  - intros k v ([[i key] o] & Hf & [Ht _]%map_lookup_filter_Some)%copy_rows_source.
    case_decide; simplify_eq/=. split; [done|]. by eapply db_offsets.
Qed.

#[export] Instance evolves_fork input : Evolves (fork_workflow input).
Proof.
  unfold fork_workflow, gets_db. apply evolves_bind; [destruct (fk_forked_workflow_id input); apply _|].
  intros new. apply evolves_bind; [apply _|]. intros now. apply evolves_bind; [apply _|]. intros original.
  apply evolves_bind; [apply _|]. intros r. apply evolves_transaction. unfold fork_tx, gets_db.
  apply evolves_gets_bind. intros w Hok. unfold compose.
  destruct (workflow_status (w_db w) !! new) eqn:Hn; [reflexivity|].
  set (row := forked_row _ _ _ _). set (orig := fk_original_workflow_id input).
  set (d1 := (w_db w) <| workflow_status ::= <[new := row]> |>).
  set (d2 := d1 <| workflow_status ::= alter (set_field wf_was_forked_from (λ _, true)) orig |>).
  assert (evolves (w_db w) d1) as Hd1.
  { apply rtc_once, Create; [done|apply created_forked|]. by intros ? ? ? ? ? [_ ?]. }
  assert (evolves d1 d2) as Hd2.
  { apply evolves_alter; [by apply db_rows, (evolves_ok (w_db w))|]. intros r0 _ Hr0. by apply moves_same. }
  assert (is_Some (workflow_status d2 !! new)) as Hid.
  { simpl. rewrite lookup_alter_is_Some. by rewrite lookup_insert_eq. }
  assert (evolves (w_db w) d2) as Hd12 by by etrans.
  etrans; [done|]. unfold mbind, M_bind, modify_db, modify. case_decide; [|reflexivity].
  pose proof (copy_prefix_evolves orig new (fk_start_step input) (w <| w_db := d2 |>)) as Hc.
  specialize (Hc (evolves_ok _ _ Hd12 Hok) Hid).
  change (w <| w_db ::= _ |>) with (w <| w_db := d2 |>).
  by destruct (copy_prefix _ _ _ _) as [[]].
Qed.
End management_operations.
End evolution.
