(* ===== verification/Wire.v ===== *)
(** * JSON on the wire

    What the conductor client and the admin server share: reading request
    fields, building objects, decimal text, and the relations that say what a
    request names and an object carries.  The RFC 3339 reader of chrono
    is a class. *)
From S2P Require Import Prelude Errors Json Serialize Database World Status Management.

Local Open Scope string_scope.
Local Open Scope Z_scope.
Local Open Scope list_scope.

(** [chrono::DateTime::parse_from_rfc3339], to epoch milliseconds. *)
Class Rfc3339 := parse_from_rfc3339 : string → option Z.

(** ** Objects *)

(** [serde_json::Map]. *)
Abbreviation Object := (list (string * Value)).

(** [if let Some(v) = v { o.insert(k, json!(v)) }]. *)
Definition insert_opt (k : string) (v : option Value) (o : Object) : Object :=
  match v with Some v => map_insert k v o | None => o end.

Definition json_int (z : Z) : Value := VNumber (NInt z).
(** [json!(z.to_string())]. *)
Definition json_decimal (z : Z) : Value := VString (pretty z).

Lemma map_get_insert_opt_eq k v o :
  map_get k (insert_opt k v o) = match v with Some v => Some v | None => map_get k o end.
Proof. destruct v; [apply map_get_insert_eq|done]. Qed.

Lemma map_get_insert_opt_ne k k' v o : k ≠ k' → map_get k (insert_opt k' v o) = map_get k o.
Proof. intros. destruct v; [by apply map_get_insert_ne|done]. Qed.

(** Finding a key among insertions of literal keys. *)
Ltac map_get_insert :=
  repeat first
    [ rewrite map_get_insert_eq
    | rewrite map_get_insert_opt_eq
    | rewrite map_get_insert_ne by (intros [=])
    | rewrite map_get_insert_opt_ne by (intros [=]) ].

(** ** What an object holds *)

(** Fields, of which some may be absent. *)
Abbreviation Fields := (list (string * option Value)).

(** The object has exactly these fields. *)
Definition carries (o : Object) (fields : Fields) : Prop :=
  ∀ k, map_get k o = match map_get k fields with Some v => v | None => None end.

(** [o'] is [o] with these fields set. *)
Definition extends (o o' : Object) (fields : Fields) : Prop :=
  ∀ k, map_get k o' = match map_get k fields with Some (Some v) => Some v | _ => map_get k o end.

(** Setting them one by one. *)
Definition set_fields (fields : Fields) (o : Object) : Object :=
  fold_left (λ o kv, insert_opt kv.1 kv.2 o) fields o.

Lemma map_get_fresh {A} k (m : list (string * A)) : k ∉ m.*1 → map_get k m = None.
Proof.
  induction m as [|[k' v] m IH]; simpl; [done|]. rewrite not_elem_of_cons. intros [Hne Hm].
  rewrite decide_False by done. by apply IH.
Qed.

Lemma set_fields_extends fields o : NoDup fields.*1 → extends o (set_fields fields o) fields.
Proof.
  unfold set_fields. revert o. induction fields as [|[k v] fields IH]; intros o Hnd k'; simpl; [done|].
  apply NoDup_cons in Hnd as [Hk Hnd]. rewrite IH by done. case_decide as Hkk.
  - subst. rewrite map_get_fresh by done. simpl. rewrite map_get_insert_opt_eq. by destruct v.
  - destruct (map_get k' fields) as [[v'|]|]; [done|simpl; by apply map_get_insert_opt_ne..].
Qed.

Lemma set_fields_carries fields : NoDup fields.*1 → carries (set_fields fields []) fields.
Proof.
  intros Hnd k. rewrite (set_fields_extends fields [] Hnd). by destruct (map_get k fields) as [[]|].
Qed.

(** Literal keys are distinct by computation. *)
Ltac distinct_keys := apply (bool_decide_unpack _); vm_compute; exact I.

(** An array that shows every element, in order. *)
Definition shows_all {A} (shows : A → Value → Prop) (l : list A) (v : Value) : Prop :=
  ∃ vs, v = VArray vs ∧ Forall2 shows l vs.

Lemma map_shows_all {A} (shows : A → Value → Prop) wire (l : list A) :
  (∀ a, shows a (wire a)) → shows_all shows l (VArray (wire <$> l)).
Proof. intros Hs. eexists. split; [done|]. induction l; simpl; by constructor. Qed.

(** ** What a request names *)

(** The texts among the values of an array. *)
Inductive texts_of : list Value → list string → Prop :=
  | texts_nil : texts_of [] []
  | texts_text s vs l : texts_of vs l → texts_of (VString s :: vs) (s :: l)
  | texts_other v vs l : (∀ s, v ≠ VString s) → texts_of vs l → texts_of (v :: vs) l.

(** The names of a field that holds one text or an array of them. *)
Inductive names_in : option Value → list string → Prop :=
  | names_text s : names_in (Some (VString s)) [s]
  | names_array vs l : texts_of vs l → names_in (Some (VArray vs)) l
  | names_none v :
      (∀ s, v ≠ Some (VString s)) → (∀ vs, v ≠ Some (VArray vs)) → names_in v [].

(** The statuses among the names. *)
Inductive statuses_of : list string → list WorkflowStatusType → Prop :=
  | statuses_nil : statuses_of [] []
  | statuses_known s names l : statuses_of names l → statuses_of (status_str s :: names) (s :: l)
  | statuses_unknown name names l :
      (∀ s, name ≠ status_str s) → statuses_of names l → statuses_of (name :: names) l.

Definition text_field (k : string) (v : Value) : option string :=
  match value_get k v with Some (VString s) => Some s | _ => None end.
Definition flag_set (k : string) (v : Value) : Prop := value_get k v = Some (VBool true).
Definition time_field `{Rfc3339} (k : string) (v : Value) : option Z :=
  match value_get k v with Some (VString s) => parse_from_rfc3339 s | _ => None end.
Definition int_field (k : string) (v : Value) : option Z :=
  match value_get k v with Some v => as_i64 v | None => None end.

Lemma texts_of_omap vs : texts_of vs (omap as_str vs).
Proof. induction vs as [|[] vs IH]; simpl; by constructor. Qed.

Lemma statuses_of_omap names : statuses_of names (omap status_from_str names).
Proof.
  induction names as [|name names IH]; simpl; [constructor|].
  destruct (status_from_str name) as [s|] eqn:E.
  - apply status_from_str_Some in E as ->. by constructor.
  - constructor; [|done]. intros s ->. by rewrite status_from_str_str in E.
Qed.

(** [v.get(k).and_then(Value::as_str)]. *)
Definition get_str (k : string) (v : Value) : option string := value_get k v ≫= as_str.
Definition get_i64 (k : string) (v : Value) : option Z := value_get k v ≫= as_i64.
Definition get_bool (k : string) (v : Value) : option bool := value_get k v ≫= as_bool.

Lemma get_str_field k v : get_str k v = text_field k v.
Proof. unfold get_str, text_field. by destruct (value_get k v) as [[]|]. Qed.

Lemma get_i64_field k v : get_i64 k v = int_field k v.
Proof. unfold get_i64, int_field. by destruct (value_get k v). Qed.

Lemma get_bool_field k v : default false (get_bool k v) = true ↔ flag_set k v.
Proof. unfold get_bool, flag_set. destruct (value_get k v) as [[|[]| | | |]|]; naive_solver. Qed.

(** ** Decimal text *)

Definition parses_to (s : string) (z : Z) : Prop := parse_digits 0 s = Some z.

Lemma digit_value_pretty x : (x < 10)%N → digit_value (pretty_N_char x) = Some (Z.of_N x).
Proof.
  intros Hx. assert (∃ n, (n < 10)%nat ∧ x = N.of_nat n) as (n&Hn&->).
  { exists (N.to_nat x). lia. }
  do 10 (destruct n as [|n]; [done|]). lia.
Qed.

Lemma parse_digits_pretty_go x s :
  parse_digits 0 (pretty_N_go x s) = parse_digits (Z.of_N x) s.
Proof.
  revert s. induction (N.lt_wf_0 x) as [x _ IH]; intros s.
  destruct (decide (x = 0)%N) as [->|Hx]; [by rewrite pretty_N_go_0|].
  rewrite pretty_N_go_step by lia. rewrite IH by (apply N.div_lt; lia).
  cbn [parse_digits]. rewrite digit_value_pretty by (apply N.mod_lt; lia). simpl.
  f_equal. rewrite (N.div_mod x 10) at 3 by lia. lia.
Qed.

Lemma parse_digits_pretty_N x : parse_digits 0 (pretty x) = Some (Z.of_N x).
Proof.
  unfold pretty, pretty_N. case_decide as Hx; [by subst|]. by rewrite parse_digits_pretty_go.
Qed.

(** The text of a natural number starts with a digit. *)
Lemma pretty_N_head x :
  ∃ c s d, pretty x = String c s ∧ digit_value c = Some d ∧ parse_digits 0 (String c s) = Some (Z.of_N x).
Proof.
  pose proof (parse_digits_pretty_N x) as Hp.
  destruct (pretty x) as [|c s] eqn:E.
  - exfalso. unfold pretty, pretty_N in E. case_decide as Hx; [done|].
    assert (∀ y t, t ≠ "" → pretty_N_go y t ≠ "") as Hgo.
    { intros y. induction (N.lt_wf_0 y) as [y _ IH]; intros t Ht.
      destruct (decide (y = 0)%N) as [->|]; [by rewrite pretty_N_go_0|].
      rewrite pretty_N_go_step by lia. apply IH; [apply N.div_lt; lia|done]. }
    rewrite pretty_N_go_step in E by lia. by apply Hgo in E.
  - pose proof Hp as Hc. cbn [parse_digits] in Hc. apply bind_Some in Hc as (d&Hd&_).
    by exists c, s, d.
Qed.

(** [i64::to_string] is read back by [str::parse]. *)
Lemma parse_i64_pretty z : in_i64 z → parse_i64 (pretty z) = Some z.
Proof.
  intros Hz. unfold parse_i64, parse_int, in_i64 in *.
  destruct z as [|p|p]; [done| |].
  - change (pretty (Zpos p)) with (pretty (N.pos p)).
    destruct (pretty_N_head (N.pos p)) as (c&s&d&->&Hd&Hp).
    assert (parse_magnitude (String c s) = Some (Zpos p)) as Hm by done.
    destruct (decide (c = "+"%char)) as [->|Hplus]; [done|].
    destruct (decide (c = "-"%char)) as [->|Hminus]; [done|].
    assert ((match String c s with
             | String "+" rest => parse_magnitude rest
             | String "-" rest => if decide (- 2 ^ 63 < 0) then Z.opp <$> parse_magnitude rest else None
             | _ => parse_magnitude (String c s)
             end) = Some (Zpos p)) as ->.
    { rewrite <-Hm. destruct c as [[] [] [] [] [] [] [] []]; done. }
    simpl. by rewrite decide_True by lia.
  - change (pretty (Zneg p)) with (String "-" (pretty (N.pos p))). cbv iota.
    destruct (pretty_N_head (N.pos p)) as (c&s&d&->&_&Hp).
    assert (parse_magnitude (String c s) = Some (Zpos p)) as -> by done.
    rewrite decide_True by lia. simpl. by rewrite decide_True by lia.
Qed.
