(* ===== verification/Step.v ===== *)
(** * Step execution (runtime/step.rs)

    Retries with their pauses, and the error a recorded step failure is read
    back as. *)
From S2P Require Import Prelude Float64 Errors Json Serialize Database World.

Local Open Scope string_scope.
Local Open Scope Z_scope.
Local Open Scope list_scope.
Local Open Scope dbos_scope.

Definition DEFAULT_BASE_INTERVAL : Duration.t := Duration.from_millis 100.
Definition DEFAULT_MAX_INTERVAL : Duration.t := Duration.from_secs 5.
Definition DEFAULT_BACKOFF_FACTOR : f64 := f64_of_Z 2.

Record StepOptions := mkStepOptions {
  max_retries : Z;
  base_interval : option Duration.t;
  max_interval : option Duration.t;
  backoff_factor : option f64;
}.

Definition StepOptions_default : StepOptions := mkStepOptions 0 None None None.

(** The pause before the given retry, from 1 on; [None] where
    [Duration::from_secs_f64] panics. *)
Definition retry_delay (opts : StepOptions) (retry : Z) : option Duration.t :=
  let base := default DEFAULT_BASE_INTERVAL (base_interval opts) in
  let max_interval := default DEFAULT_MAX_INTERVAL (max_interval opts) in
  let factor := default DEFAULT_BACKOFF_FACTOR (backoff_factor opts) in
  if decide (retry = 1) then Some base
  else
    let secs := f64_min (f64_mul (as_secs_f64 base) (powi factor (wrap_i32 (retry - 1))))
                  (as_secs_f64 max_interval) in
    try_from_secs_f64 secs.

(** [errors.join(newline)]. *)
Definition newline : string := String (Ascii.ascii_of_nat 10) "".

Section retry.
Context `{Env} {R : Type}.

(** The [for retry in 1..=max_retries] loop, at [retry] with [n] turns of it
    left.  Other processes run during its pauses ([wait]), whatever their
    length; [None] is a loop whose pause panicked. *)
Fixpoint retry_loop (opts : StepOptions) (n : nat) (retry : Z) (run : M R) (errors : list string)
    : M (option (R + list string)) :=
  match n with
  | O => mret (Some (inr errors))
  | S n =>
      match retry_delay opts retry with
      | None => mret None
      | Some _ =>
          wait;;
          res ← attempt run;
          match res with
          | Ok v => mret (Some (inl v))
          | Err e => retry_loop opts n (retry + 1) run (errors ++ [error_to_string e])
          end
      end
  end.

Definition execute_step_with_retry (opts : StepOptions) (step_name workflow_id : string)
    (run : M R) : M (option R) :=
  first ← attempt run;
  match first with
  | Ok v => mret (Some v)
  | Err e =>
      if decide (max_retries opts = 0) then raise e
      else
        out ← retry_loop opts (Z.to_nat (max_retries opts)) 1 run [error_to_string e];
        match out with
        | None => mret None
        | Some (inl v) => mret (Some v)
        | Some (inr errors) =>
            raise (max_step_retries_exceeded workflow_id step_name (max_retries opts)
                     (String.concat newline errors))
        end
  end.
End retry.

(** The error rebuilt from its stored form. *)
Definition decoded_step_error `{SerdeJson, Base64Engine} (err_str : string)
    (serialization : option string) : DbosError :=
  match deserialize_workflow_error (Some err_str) serialization with
  | Some (Plain s) => other s
  | Some (PortableError pe) => other (pe_message pe)
  | None => other "step failed"
  end.

(** ** Attempts *)

Section attempts.
Context `{HE : Env} {R : Type} (run : M R) (w : World).

(** The [k]-th run of the body, each one after a pause. *)
Fixpoint nth_attempt (k : nat) : Result R * World :=
  match k with
  | O => run w
  | S k => run (snd (wait (snd (nth_attempt k))))
  end.

Definition failed (r : Result R) : Prop := match r with Err _ => True | Ok _ => False end.

Definition error_text (r : Result R) : string :=
  match r with Err e => error_to_string e | Ok _ => "" end.

(** The texts of the first [k] attempts. *)
Definition texts (k : nat) : list string := (λ i, error_text (nth_attempt i).1) <$> seq 0 k.

Lemma texts_S k : texts (S k) = texts k ++ [error_text (nth_attempt k).1].
Proof. unfold texts. by rewrite seq_S, fmap_app. Qed.

(** The loop after [k] retries. *)
Definition loop_at (opts : StepOptions) (n k : nat) : M (option (R + list string)) :=
  retry_loop opts n (Z.of_nat (S k)) run (texts (S k)).

Lemma retry_step opts n k :
  is_Some (retry_delay opts (Z.of_nat (S k))) →
  loop_at opts (S n) k (snd (nth_attempt k)) =
  match nth_attempt (S k) with
  | (Ok v, w') => (Ok (Some (inl v)), w')
  | (Err e, w') => loop_at opts n (S k) w'
  end.
Proof.
  intros [d Hd]. unfold loop_at. cbn [retry_loop]. rewrite Hd.
  replace (Z.of_nat (S k) + 1) with (Z.of_nat (S (S k))) by lia.
  eapply run_bind; [done|]. rewrite (texts_S (S k)).
  cbn [nth_attempt]. destruct (run _) as [[v|e] w'] eqn:E;
    (eapply run_bind; [unfold attempt; cbn [wait snd] in E; by rewrite E | done]).
Qed.

(** The pauses before the retries up to the [j]-th are durations. *)
Definition pauses_ok (opts : StepOptions) (j : nat) : Prop :=
  ∀ i : nat, (1 ≤ i ≤ j)%nat → is_Some (retry_delay opts (Z.of_nat i)).

(** Failing attempts pass on to the next one. *)
Lemma retry_loop_skip opts n j k :
  (j ≤ n)%nat → pauses_ok opts (k + j) → (∀ i, (i ≤ k + j)%nat → failed (nth_attempt i).1) →
  loop_at opts n k (snd (nth_attempt k)) = loop_at opts (n - j) (k + j) (snd (nth_attempt (k + j))).
Proof.
  revert n k. induction j as [|j IH]; intros n k Hj Hp Hfail.
  { by rewrite Nat.sub_0_r, Nat.add_0_r. }
  destruct n as [|n]; [lia|]. rewrite retry_step by (apply Hp; lia).
  assert (failed (nth_attempt (S k)).1) as Hk by (apply Hfail; lia).
  specialize (IH n (S k)). rewrite Nat.add_succ_r, <- Nat.add_succ_l in *. rewrite Nat.sub_succ.
  destruct (nth_attempt (S k)) as [[|e] w1]; [done|]. apply IH; [lia|done|done].
Qed.

(** The run up to the first pause. *)
Lemma retry_from_first opts name id :
  0 < max_retries opts → failed (nth_attempt 0).1 →
  execute_step_with_retry opts name id run w =
  match loop_at opts (Z.to_nat (max_retries opts)) 0 (snd (nth_attempt 0)) with
  | (Ok None, w') => (Ok None, w')
  | (Ok (Some (inl v)), w') => (Ok (Some v), w')
  | (Ok (Some (inr errors)), w') =>
      (Err (max_step_retries_exceeded id name (max_retries opts) (String.concat newline errors)), w')
  | (Err e, w') => (Err e, w')
  end.
Proof.
  intros Hn H0. unfold execute_step_with_retry, loop_at, texts.
  cbn [seq fmap list_fmap]. destruct (nth_attempt 0) as [[|e] w0] eqn:E0; [done|].
  cbn in E0. rewrite M_bind_run. unfold attempt at 1. rewrite E0. rewrite decide_False by lia.
  rewrite M_bind_run. cbn [error_text fst snd]. change (Z.of_nat 1) with 1.
  by destruct (retry_loop _ _ _ _ _ w0) as [[[[v|errors]|]|e'] w1].
Qed.

(** C39: a step with retries runs until its first success, at most
    [max_retries + 1] times, and returns that success as the last run left
    the world.  If every run fails, a step without retries fails with its
    own error, and one with retries with [MaxStepRetriesExceeded], which
    joins the text of every attempt in order.  That is so as long as the
    pauses can be computed: at the first one that cannot, the step panics
    after the attempt before it.  No pause can panic when the backoff factor
    does not have the negative sign and the longest pause is representable,
    as with the default options. *)
Theorem retry_until_success opts name id :
  0 ≤ max_retries opts →
  let n := Z.to_nat (max_retries opts) in
  let result := execute_step_with_retry opts name id run w in
  (∀ j v w', (j ≤ n)%nat → (∀ i, (i < j)%nat → failed (nth_attempt i).1) → pauses_ok opts j →
     nth_attempt j = (Ok v, w') → result = (Ok (Some v), w')) ∧
  ((∀ i, (i ≤ n)%nat → failed (nth_attempt i).1) → pauses_ok opts n →
   snd result = snd (nth_attempt n) ∧
   fst result = if decide (n = 0%nat) then Some <$> (nth_attempt 0).1
                else Err (max_step_retries_exceeded id name (max_retries opts)
                            (String.concat newline (texts (S n))))) ∧
  (∀ j, (j < n)%nat → (∀ i, (i ≤ j)%nat → failed (nth_attempt i).1) → pauses_ok opts j →
     retry_delay opts (Z.of_nat (S j)) = None → result = (Ok None, snd (nth_attempt j))) ∧
  (0 ≤ default DEFAULT_BASE_INTERVAL (base_interval opts) →
   f64_pos (default DEFAULT_BACKOFF_FACTOR (backoff_factor opts)) = true →
   is_Some (try_from_secs_f64 (as_secs_f64 (default DEFAULT_MAX_INTERVAL (max_interval opts)))) →
   ∀ j, pauses_ok opts j).
Proof.
  intros Hn n result. split_and!.
  - intros [|j] v w' Hj Hfail Hp Hok.
    { eapply run_bind; [unfold attempt; cbn in Hok; by rewrite Hok | done]. }
    unfold result. rewrite retry_from_first by (lia || apply Hfail; lia).
    rewrite (retry_loop_skip opts _ j 0) by (lia || intros i ?; first [apply Hp; lia | apply Hfail; lia]).
    fold n. replace (n - j)%nat with (S (n - S j)) by lia. cbn [Nat.add].
    rewrite retry_step by (apply Hp; lia). by rewrite Hok.
  - intros Hfail Hp. destruct (decide (n = 0%nat)) as [Hz|Hz].
    { assert (failed (nth_attempt 0).1) as H0 by (apply Hfail; lia). rewrite Hz.
      unfold result, execute_step_with_retry. rewrite M_bind_run. unfold attempt. cbn [nth_attempt] in *.
      destruct (run w) as [[|e] w0]; [done|]. rewrite decide_True by lia. done. }
    unfold result. rewrite retry_from_first by (lia || apply Hfail; lia). fold n.
    rewrite (retry_loop_skip opts n n 0) by (lia || intros i ?; first [apply Hp; lia | apply Hfail; lia]).
    rewrite Nat.sub_diag. done.
  - intros j Hj Hfail Hp Hd. unfold result. rewrite retry_from_first by (lia || apply Hfail; lia). fold n.
    rewrite (retry_loop_skip opts n j 0) by (lia || intros i ?; first [apply Hp; lia | apply Hfail; lia]).
    replace (n - j)%nat with (S (n - S j)) by lia. unfold loop_at. cbn [Nat.add retry_loop]. by rewrite Hd.
  - intros Hb Hf Hl j i _. unfold retry_delay. case_decide; [eauto|].
    apply try_from_secs_min_pos; [|done]. apply f64_mul_pos; [by apply as_secs_pos | by apply powi_pos].
Qed.
End attempts.

(** ** Pauses *)

(** The first pause is the base interval, also above the maximum; no later
    one is longer than the maximum, as far as [f64] can tell, which is exactly
    so for a whole number of seconds. *)
Theorem retry_delay_bounds opts retry d :
  let base := default DEFAULT_BASE_INTERVAL (base_interval opts) in
  let limit := default DEFAULT_MAX_INTERVAL (max_interval opts) in
  retry_delay opts retry = Some d →
  (retry = 1 → d = base) ∧
  (retry ≠ 1 → Duration.valid d ∧
    (∀ limit', try_from_secs_f64 (as_secs_f64 limit) = Some limit' → d ≤ limit') ∧
    (∀ s, 0 ≤ s < 2 ^ 53 → limit = Duration.from_secs s → d ≤ limit)).
Proof.
  intros base limit Hd. unfold retry_delay in Hd. case_decide as Hr; [by simplify_eq|]. split; [done|intros _].
  split; [by eapply try_from_secs_valid|]. split; [intros limit' Hl; by eapply try_from_secs_min|].
  intros s Hs Hl. eapply try_from_secs_min; [exact Hd|]. fold limit. rewrite Hl. by apply whole_secs.
Qed.

(** With the default options the pauses double from 100 ms up to 5 s. *)
Lemma default_delays :
  let pauses := map (retry_delay StepOptions_default) (seqZ 1 64) in
  pauses = map (λ k, Some (Duration.from_millis (100 * 2 ^ k) `min` Duration.from_secs 5)) (seqZ 0 64).
Proof. vm_compute. reflexivity. Qed.

(** A negative factor is not refused, and panics at the second retry. *)
Lemma negative_factor_panics :
  retry_delay (mkStepOptions 2 None None (Some (f64_of_Z (-2)))) 2 = None.
Proof. vm_compute. reflexivity. Qed.
