(* ===== verification/Context.v ===== *)
(** * The workflow context (runtime/context.rs)

    The durable operations a workflow body performs: steps, messages, events,
    streams and sleeps, each checkpointed under a step id. *)
From S2P Require Import Prelude Errors Json Serialize Database World Status Steps Notifications.
From S2P Require Import Streams Step.

Local Open Scope string_scope.
Local Open Scope Z_scope.
Local Open Scope list_scope.
Local Open Scope dbos_scope.

(** [st_step_id] is the key of the state's counter in [w_counters]. *)
Record WorkflowState := mkState {
  st_workflow_id : string;
  st_step_id : nat;
  st_auth : AuthIdentity;
}.

Definition WorkflowState_new (workflow_id : string) (auth : AuthIdentity) : M WorkflowState := λ w,
  let k := fresh (dom (w_counters w)) in
  (Ok (mkState workflow_id k auth), w <| w_counters ::= <[k := -1]> |>).

(** [fetch_add(1) + 1]. *)
Definition next_step_id (st : WorkflowState) : M Z := λ w,
  let id := wrap_i32 (default 0 (w_counters w !! st_step_id st) + 1) in
  (Ok id, w <| w_counters ::= <[st_step_id st := id]> |>).

Record WorkflowContext := mkContext {
  ctx_state : WorkflowState;
  ctx_within_step : bool;
}.

Definition workflow_id (ctx : WorkflowContext) : string := st_workflow_id (ctx_state ctx).

(** The context a step body gets. *)
Definition step_ctx (ctx : WorkflowContext) : WorkflowContext := mkContext (ctx_state ctx) true.

(** [topic.filter(|t| !t.is_empty()).unwrap_or(NULL_TOPIC)]. *)
Definition topic_or_null (topic : option string) : string :=
  match topic with
  | Some t => if str_is_empty t then NULL_TOPIC else t
  | None => NULL_TOPIC
  end.

Section context.
Context `{Env, SerdeJson, Base64Engine, PgScan}.

(** ** Steps *)

Definition replay_step (R : Type) `{Deserialize R} (ctx : WorkflowContext) (step_id : Z)
    (name : string) : M (option (Result R)) :=
  rec ← check_operation_execution (workflow_id ctx) step_id name;
  match rec with
  | None => mret None
  | Some rec =>
      match ro_error rec with
      | Some err => mret (Some (Err (decoded_step_error err (ro_serialization rec))))
      | None =>
          value ← lift (decode_value R (ro_output rec) (ro_serialization rec));
          mret (Some (Ok value))
      end
  end.

Definition record_step {R : Type} `{Serialize R} (ctx : WorkflowContext) (step_id : Z)
    (name : string) (result : Result R) : M unit :=
  oe ← lift (match result with
             | Ok value => enc ← encode_value value Portable; Ok (Some enc, None)
             | Err e => Ok (None, Some (serialize_workflow_error (error_to_string e) None Portable))
             end);
  record_operation_result (workflow_id ctx) step_id name oe.1 oe.2 None (Some PORTABLE_NAME).

(** [run_step] outside a step: replay, or run the body and checkpoint its
    outcome. *)
Definition run_checkpointed {R : Type} `{Serialize R, Deserialize R} (ctx : WorkflowContext)
    (name : string) (body : M R) : M R :=
  step_id ← next_step_id (ctx_state ctx);
  replay ← replay_step R ctx step_id name;
  match replay with
  | Some r => lift r
  | None =>
      result ← attempt body;
      record_step ctx step_id name result;;
      lift result
  end.

Definition run_step {R : Type} `{Serialize R, Deserialize R} (ctx : WorkflowContext)
    (name : string) (f : WorkflowContext → M R) : M R :=
  if ctx_within_step ctx then f ctx else run_checkpointed ctx name (f (step_ctx ctx)).

(** [None] is a step that panicked at a pause: nothing of it is recorded. *)
Definition run_step_with {R : Type} `{Serialize R, Deserialize R} (ctx : WorkflowContext)
    (name : string) (opts : StepOptions) (f : WorkflowContext → M R) : M (option R) :=
  if ctx_within_step ctx then Some <$> f ctx
  else
    step_id ← next_step_id (ctx_state ctx);
    replay ← replay_step R ctx step_id name;
    match replay with
    | Some r => Some <$> lift r
    | None =>
        result ← attempt (execute_step_with_retry opts name (workflow_id ctx) (f (step_ctx ctx)));
        match result with
        | Ok None => mret None
        | Ok (Some v) => record_step ctx step_id name (Ok v);; mret (Some v)
        | Err e => record_step ctx step_id name (Err e : Result R);; raise e
        end
    end.

(** ** Operations written in one transaction with their checkpoint *)

(** A durable write: skipped when it was recorded before, else performed by
    [write] in the transaction that records it. *)
Definition durable_write (ctx : WorkflowContext) (name : string)
    (prepare : Result string) (write : Z → string → M unit) : M unit :=
  step_id ← next_step_id (ctx_state ctx);
  rec ← check_operation_execution (workflow_id ctx) step_id name;
  match rec with
  | Some _ => mret tt
  | None =>
      encoded ← lift prepare;
      unit_enc ← lift (encode_value tt Portable);
      transaction (
        write step_id encoded;;
        record_operation_result (workflow_id ctx) step_id name (Some unit_enc) None None
          (Some PORTABLE_NAME);;
        commit tt)
  end.

Definition send {T : Type} `{Serialize T} (ctx : WorkflowContext) (destination_id : string)
    (message : T) (topic : option string) : M unit :=
  if ctx_within_step ctx then
    raise (step_execution (workflow_id ctx) "DBOS.send" "cannot call Send within a step")
  else
    durable_write ctx "DBOS.send" (encode_value message Portable) (λ _ encoded,
      insert_notification destination_id (topic_or_null topic) encoded PORTABLE_NAME).

Definition set_event {T : Type} `{Serialize T} (ctx : WorkflowContext) (key : string)
    (value : T) : M unit :=
  if ctx_within_step ctx then
    raise (step_execution (workflow_id ctx) "DBOS.setEvent" "cannot call SetEvent within a step")
  else
    durable_write ctx "DBOS.setEvent" (encode_value value Portable) (λ step_id encoded,
      upsert_workflow_event (workflow_id ctx) key encoded PORTABLE_NAME;;
      insert_workflow_event_history (workflow_id ctx) step_id key encoded PORTABLE_NAME).

Definition write_stream_raw (ctx : WorkflowContext) (key step_name value : string)
    (serialization : option string) : M unit :=
  if ctx_within_step ctx then
    raise (step_execution (workflow_id ctx) step_name "cannot write to a stream within a step")
  else
    durable_write ctx step_name (Ok value) (λ step_id value,
      write_stream_entry (workflow_id ctx) step_id key value serialization).

Definition write_stream {T : Type} `{Serialize T} (ctx : WorkflowContext) (key : string)
    (value : T) : M unit :=
  encoded ← lift (encode_value value Portable);
  write_stream_raw ctx key "DBOS.writeStream" encoded (Some PORTABLE_NAME).

Definition close_stream (ctx : WorkflowContext) (key : string) : M unit :=
  write_stream_raw ctx key "DBOS.closeStream" STREAM_CLOSED_SENTINEL None.

(** ** Sleeping *)

(** The recorded deadline, read back. *)
Definition recorded_deadline (rec : RecordedOperation) : Result Z :=
  decode_value Z (ro_output rec) (ro_serialization rec).

Definition sleep_deadline (ctx : WorkflowContext) (step_id : Z) (duration : Duration.t) : M Z :=
  rec ← check_operation_execution (workflow_id ctx) step_id "DBOS.sleep";
  match rec with
  | Some rec => lift (recorded_deadline rec)
  | None =>
      now ← now_epoch_ms;
      let end_ms := wrap_i64 (now + wrap_i64 (Duration.as_millis duration)) in
      output ← lift (encode_value end_ms Portable);
      res ← attempt (record_operation_result (workflow_id ctx) step_id "DBOS.sleep" (Some output)
                       None None (Some PORTABLE_NAME));
      match res with
      | Ok _ => mret end_ms
      | Err e =>
          if error_is e ConflictingId then
            rec ← check_operation_execution (workflow_id ctx) step_id "DBOS.sleep";
            rec ← lift (ok_or rec e);
            lift (recorded_deadline rec)
          else raise e
      end
  end.

Definition record_sleep (ctx : WorkflowContext) (step_id : Z) (duration : Duration.t)
    (skip_sleep : bool) : M Duration.t :=
  end_ms ← sleep_deadline ctx step_id duration;
  now ← now_epoch_ms;
  let remaining := Duration.from_millis (wrap_i64 (end_ms - now) `max` 0) in
  (if skip_sleep then mret tt else wait);;
  mret remaining.

Definition sleep (ctx : WorkflowContext) (duration : Duration.t) : M Duration.t :=
  if ctx_within_step ctx then
    raise (step_execution (workflow_id ctx) "DBOS.sleep" "cannot call Sleep within a step")
  else
    step_id ← next_step_id (ctx_state ctx);
    record_sleep ctx step_id duration false.

(** ** Receiving *)

Definition decode_optional (T : Type) `{Deserialize T} (rec : RecordedOperation) : Result (option T) :=
  match ro_error rec with
  | Some err => Err (decoded_step_error err (ro_serialization rec))
  | None =>
      match ro_output rec with
      | None => Ok None
      | Some out => Some <$> decode_value T (Some out) (ro_serialization rec)
      end
  end.

(** The decoded value of a found [(value, serialization)] pair. *)
Definition decode_found (T : Type) `{Deserialize T} (found : option (string * option string))
    : Result (option T) :=
  match found with
  | None => Ok None
  | Some (v, ser) => Some <$> decode_value T (Some v) (Some (default PORTABLE_NAME ser))
  end.

(** [WaiterGuard]: the entry is removed however the body ends. *)
Definition with_waiter {A} (payload : string) (body : M A) : M A :=
  modify (λ w, w <| w_notification_waiters ::= union {[payload]} |>);;
  r ← attempt body;
  modify (λ w, w <| w_notification_waiters ::= (.∖ {[payload]}) |>);;
  lift r.

(** The wait loop until [ready] finds something or the deadline passes;
    [None] is a loop still waiting after [fuel] turns. *)
Fixpoint wait_until {A} (fuel : nat) (deadline : Z) (ready : M (option A)) : M (option (option A)) :=
  match fuel with
  | O => mret None
  | S fuel =>
      found ← ready;
      match found with
      | Some a => mret (Some (Some a))
      | None =>
          now ← instant_now;
          if decide (deadline ≤ now) then mret (Some None)
          else wait;; wait_until fuel deadline ready
      end
  end.

(** Both waiting operations take two step ids and record the deadline of the
    wait under the second. *)
Definition await_durably {A} (fuel : nat) (ctx : WorkflowContext) (sleep_step_id : Z)
    (timeout : Duration.t) (ready : M (option A)) : M (option (option A)) :=
  remaining ← record_sleep ctx sleep_step_id timeout true;
  now ← instant_now;
  wait_until fuel (now + Duration.as_millis remaining) ready.

(** Consuming the message in the transaction that records it. *)
Definition consume_and_record (ctx : WorkflowContext) (step_id : Z) (topic : string)
    : M (option (string * option string)) :=
  transaction (
    consumed ← consume_oldest_notification (workflow_id ctx) topic;
    record_operation_result (workflow_id ctx) step_id "DBOS.recv" (fst <$> consumed) None None
      (Some (default PORTABLE_NAME (consumed ≫= snd)));;
    commit consumed).

(** [recv] up to its wait; [None] is a [recv] still waiting. *)
Definition recv_live (fuel : nat) (T : Type) `{Deserialize T} (ctx : WorkflowContext)
    (step_id sleep_step_id : Z) (topic : string) (timeout : Duration.t) : M (option (option T)) :=
  let payload := workflow_id ctx +:+ "::" +:+ topic in
  waiters ← gets w_notification_waiters;
  if bool_decide (payload ∈ waiters) then raise (conflicting_id (workflow_id ctx))
  else with_waiter payload (
    woken ← await_durably fuel ctx sleep_step_id timeout (
      ready ← notification_exists_unconsumed (workflow_id ctx) topic;
      mret (if (ready : bool) then Some tt else None));
    match woken with
    | None => mret None
    | Some _ =>
        consumed ← consume_and_record ctx step_id topic;
        Some <$> lift (decode_found T consumed)
    end).

Definition recv (fuel : nat) (T : Type) `{Deserialize T} (ctx : WorkflowContext)
    (topic : option string) (timeout : Duration.t) : M (option (option T)) :=
  if ctx_within_step ctx then
    raise (step_execution (workflow_id ctx) "DBOS.recv" "cannot call Recv within a step")
  else
    step_id ← next_step_id (ctx_state ctx);
    sleep_step_id ← next_step_id (ctx_state ctx);
    rec ← check_operation_execution (workflow_id ctx) step_id "DBOS.recv";
    match rec with
    | Some rec => Some <$> lift (decode_optional T rec)
    | None => recv_live fuel T ctx step_id sleep_step_id (topic_or_null topic) timeout
    end.

(** [get_event] up from its wait; the waiters of events are shared, so nothing
    conflicts. *)
Definition get_event_live (fuel : nat) (T : Type) `{Deserialize T} (ctx : WorkflowContext)
    (step_id sleep_step_id : Z) (target_workflow_id key : string) (timeout : Duration.t)
    : M (option (option T)) :=
  woken ← await_durably fuel ctx sleep_step_id timeout (select_workflow_event target_workflow_id key);
  match woken with
  | None => mret None
  | Some found =>
      record_operation_result (workflow_id ctx) step_id "DBOS.getEvent" (fst <$> found) None
        None (Some (default PORTABLE_NAME (found ≫= snd)));;
      Some <$> lift (decode_found T found)
  end.

Definition get_event (fuel : nat) (T : Type) `{Deserialize T} (ctx : WorkflowContext)
    (target_workflow_id key : string) (timeout : Duration.t) : M (option (option T)) :=
  if ctx_within_step ctx then
    raise (step_execution (workflow_id ctx) "DBOS.getEvent" "cannot call GetEvent within a step")
  else
    step_id ← next_step_id (ctx_state ctx);
    sleep_step_id ← next_step_id (ctx_state ctx);
    rec ← check_operation_execution (workflow_id ctx) step_id "DBOS.getEvent";
    match rec with
    | Some rec => Some <$> lift (decode_optional T rec)
    | None => get_event_live fuel T ctx step_id sleep_step_id target_workflow_id key timeout
    end.
End context.

(** ** Waiter keys *)

(** The key joins the id and the topic with "::", which both may contain: a
    [recv] is refused while another workflow waits on a topic that happens to
    give the same key. *)
Lemma recv_key_collision `{Env, SerdeJson, Base64Engine, PgScan} fuel T `{Deserialize T}
    ctx ctx' id a b s1 s2 d w :
  workflow_id ctx = id → workflow_id ctx' = id +:+ "::" +:+ a →
  let key := workflow_id ctx +:+ "::" +:+ (a +:+ "::" +:+ b) in
  key ∈ w_notification_waiters w →
  recv_live fuel T ctx' s1 s2 b d w = (Err (conflicting_id (workflow_id ctx')), w).
Proof.
  intros Hid Hid' key Hin. unfold recv_live. eapply run_bind; [done|].
  rewrite bool_decide_eq_true_2; [done|]. unfold key in Hin. rewrite Hid in Hin.
  by rewrite Hid', !str_app_assoc.
Qed.

(** ** Durable writes are atomic *)

Section context_properties.
Context `{HE : Env, HJ : SerdeJson, HB : Base64Engine, HS : PgScan}.

(** What a recorded write leaves of the operations. *)
Definition record_of (id : string) (s : Z) (name out : string) (now : Z) (d : Db) : Db :=
  d <| operation_outputs ::= <[(id, s) :=
    mkOp name (Some out) None None (Some now) (Some now) (Some PORTABLE_NAME)]> |>.

(** The step id the next operation of a context gets. *)
Definition upcoming_step (ctx : WorkflowContext) (w : World) : Z :=
  wrap_i32 (default 0 (w_counters w !! st_step_id (ctx_state ctx)) + 1).

(** The world in which that step runs. *)
Definition step_begun (ctx : WorkflowContext) (w : World) : World :=
  w <| w_counters ::= <[st_step_id (ctx_state ctx) := upcoming_step ctx w]> |>.

(** How a durable write can end: done before at this very step, refused by the
    lookup of the step, failed without a trace for a reason of its own, or
    done and recorded now. *)
Lemma durable_write_cases ctx name prepare write w r w1 :
  durable_write ctx name prepare write w = (r, w1) →
  let id := workflow_id ctx in
  let s := upcoming_step ctx w in
  (∃ e, r = Err e ∧ w_db w1 = w_db w ∧ lookup_refused (w_db w) id s name e) ∨
  live id (w_db w) ∧
  ((∃ o, operation_outputs (w_db w) !! (id, s) = Some o ∧ op_function_name o = name ∧
      r = Ok tt ∧ w_db w1 = w_db w) ∨
   operation_outputs (w_db w) !! (id, s) = None ∧
   ((∃ e, r = Err e ∧ w_db w1 = w_db w ∧ (prepare = Err e ∨ encode_value tt Portable = Err e)) ∨
    ∃ encoded out, prepare = Ok encoded ∧ encode_value tt Portable = Ok out ∧
      ((∃ e w2, write s encoded (step_begun ctx w) = (Err e, w2) ∧ r = Err e ∧ w_db w1 = w_db w) ∨
       ∃ w2, write s encoded (step_begun ctx w) = (Ok tt, w2) ∧
         (r = Ok tt ∧ w_db w1 = record_of id s name out (clock (w_reads w2)) (w_db w2) ∨
          w_db w1 = w_db w ∧ (is_Some (operation_outputs (w_db w2) !! (id, s)) ∨
            workflow_status (w_db w2) !! id = None))))).
Proof.
  unfold durable_write. set (id := workflow_id ctx). cbv zeta.
  unfold mbind at 1, M_bind at 1, next_step_id. cbv zeta. fold (upcoming_step ctx w).
  change (w <| w_counters ::= _ |>) with (step_begun ctx w). set (s := upcoming_step ctx w).
  assert (w_db (step_begun ctx w) = w_db w) as Hdb by done. revert Hdb.
  generalize (step_begun ctx w) as w0. intros w0 <-.
  unfold mbind at 1, M_bind at 1.
  destruct (check_operation_execution id s name w0) as [rc w0'] eqn:Hc.
  apply check_operation_reasons in Hc as [-> [(e & -> & He)|(Hl & -> & Hname)]].
  { intros [= <- <-]. left. eauto. }
  intros Hrun. right. split; [done|]. revert Hrun.
  destruct (operation_outputs (w_db w0) !! (id, s)) as [o|] eqn:Ho; cbn [fmap option_fmap option_map] in *.
  { intros [= <- <-]. left. exists o. split_and!; [done|by apply Hname|done..]. }
  intros Hrun. right. split; [done|]. revert Hrun.
  unfold mbind at 1 2, M_bind at 1 2, lift. destruct prepare as [enc|e]; [|intros [= <- <-]; eauto 6].
  destruct (encode_value tt Portable) as [u|e]; [|intros [= <- <-]; eauto 6].
  unfold transaction, mbind at 1, M_bind at 1.
  destruct (write s enc w0) as [[[]|e] w2] eqn:Hwr;
    [|intros [= <- <-]; right; exists enc, u; split_and!; [done..|]; left; eauto].
  unfold mbind, M_bind. intros Hrun. right. exists enc, u. split_and!; [done..|]. right. exists w2.
  split; [done|]. revert Hrun.
  destruct (operation_outputs (w_db w2) !! (id, s)) as [o|] eqn:Hn.
  { erewrite record_operation_taken by done. intros [= <- <-]. right. eauto. }
  destruct (workflow_status (w_db w2) !! id) as [row|] eqn:Hrow.
  - rewrite record_operation_new by eauto. intros [= <- <-]. by left.
  - destruct (record_operation_orphan w2 id s name (Some u) None None (Some PORTABLE_NAME) Hrow Hn)
      as (e & -> & _). intros [= <- <-]. right. eauto.
Qed.

(** C18: [send] is atomic and takes effect at its own step.  With [s] the next
    step id of the context and [u] the identifier it draws, it is refused
    inside a step; or the lookup of step [s] refuses it (the workflow is
    missing or cancelled, or [s] is recorded under another name); or [s] is
    already recorded as a send and it does nothing; or the message cannot be
    encoded, the destination does not exist or [u] is taken, and it fails; or
    it adds exactly one unread message with its topic, content and time to the
    existing destination and records step [s].  Whenever it fails the database
    is as before. *)
Theorem send_atomic {T} `{Serialize T} ctx dest (msg : T) topic w r w1 :
  send ctx dest msg topic w = (r, w1) →
  let id := workflow_id ctx in
  let s := wrap_i32 (default 0 (w_counters w !! st_step_id (ctx_state ctx)) + 1) in
  let u := new_v4 (w_uuids w) in
  let recorded := operation_outputs (w_db w) !! (id, s) in
  let fails e := r = Err e ∧ w_db w1 = w_db w in
  if ctx_within_step ctx then fails (step_execution id "DBOS.send" "cannot call Send within a step")
  else
    (∃ e, fails e ∧ lookup_refused (w_db w) id s "DBOS.send" e) ∨
    live id (w_db w) ∧
    ((∃ o, recorded = Some o ∧ op_function_name o = "DBOS.send" ∧ r = Ok tt ∧ w_db w1 = w_db w) ∨
     recorded = None ∧
     ((∃ e, fails e ∧ (encode_value msg Portable = Err e ∨ encode_value tt Portable = Err e)) ∨
      ∃ enc out, encode_value msg Portable = Ok enc ∧ encode_value tt Portable = Ok out ∧
        match notifications (w_db w) !! u, workflow_status (w_db w) !! dest with
        | Some _, _ => fails (unique_violation "notifications_pkey")
        | None, None => fails (non_existent_workflow dest)
        | None, Some _ =>
            r = Ok tt ∧
            w_db w1 = (w_db w)
              <| notifications ::= <[u := mkNt dest
                   match topic with Some "" | None => "__null__topic__" | Some t => t end
                   enc (clock (w_reads w)) (Some "portable_json") false]> |>
              <| operation_outputs ::= <[(id, s) := mkOp "DBOS.send" (Some out) None None
                   (Some (clock (S (w_reads w)))) (Some (clock (S (w_reads w)))) (Some "portable_json")]> |>
        end)).
Proof.
  unfold send. cbv zeta. destruct (ctx_within_step ctx); [by intros [= <- <-]|].
  intros [(e & -> & Hdb & He)|[Hl Hw]]%durable_write_cases; [left; eauto|right; split; [done|]].
  destruct Hw as [(o & Ho & Hn & -> & Hd)|[Hnone Hw]]; [left; eauto 6|right; split; [done|]].
  destruct Hw as [(e & -> & Hdb & He)|(enc & out & Henc & Hout & Hw)]; [left; eauto 6|right].
  exists enc, out. split_and!; [done..|]. unfold insert_notification in Hw. run_M.
  change (w_db (step_begun ctx w)) with (w_db w) in Hw.
  change (w_uuids (step_begun ctx w)) with (w_uuids w) in Hw.
  change (w_reads (step_begun ctx w)) with (w_reads w) in Hw.
  destruct (notifications (w_db w) !! new_v4 (w_uuids w)) as [n|].
  { destruct Hw as [(e & w2 & [= <- <-] & -> & Hd)|(w2 & [=] & _)]. by split. }
  destruct (workflow_status (w_db w) !! dest) as [row|].
  2:{ destruct Hw as [(e & w2 & [= <- <-] & -> & Hd)|(w2 & [=] & _)]. by split. }
  destruct Hw as [(e & w2 & [=] & _)|(w2 & [= <-] & [[-> Hd]|[_ Hbad]])].
  - split; [done|]. rewrite Hd. by destruct topic as [[|a t]|].
  - exfalso. simpl in Hbad. destruct Hl as (row' & Hr' & _). destruct Hbad as [[x Hx]|Hbad]; congruence.
Qed.

(** ** Durable sleeps *)

Lemma sleep_deadline_fresh `{!SerdeJsonLaws HJ, !Base64Laws HB} ctx s duration w :
  live (workflow_id ctx) (w_db w) → operation_outputs (w_db w) !! (workflow_id ctx, s) = None →
  let deadline := wrap_i64 (clock (w_reads w) + wrap_i64 (Duration.as_millis duration)) in
  ∃ out, stored_as deadline Portable out ∧
    sleep_deadline ctx s duration w = (Ok deadline,
      w <| w_reads ::= S ∘ S |>
        <| w_db ::= record_of (workflow_id ctx) s "DBOS.sleep" out (clock (S (w_reads w))) |>).
Proof.
  intros Hl Hn deadline.
  destruct (encode_stored deadline Portable (i64_faithful _ _ (wrap_i64_range _))) as (out & Henc & Hst).
  exists out. split; [done|]. assert (Hl' := Hl). destruct Hl' as (row & Hrow & _).
  unfold sleep_deadline. eapply run_bind; [by apply check_unrecorded|].
  eapply run_bind; [done|]. cbv zeta. fold deadline. rewrite Henc. eapply run_bind; [done|].
  eapply run_bind; [unfold attempt; rewrite record_operation_new by eauto; reflexivity | done].
Qed.

Lemma sleep_deadline_again `{!SerdeJsonLaws HJ, !Base64Laws HB} ctx s duration w deadline out now :
  live (workflow_id ctx) (w_db w) → stored_as deadline Portable out →
  operation_outputs (w_db w) !! (workflow_id ctx, s) =
    Some (mkOp "DBOS.sleep" (Some out) None None (Some now) (Some now) (Some PORTABLE_NAME)) →
  sleep_deadline ctx s duration w = (Ok deadline, w).
Proof.
  intros Hl Hst Ho. unfold sleep_deadline. eapply run_bind; [by apply check_recorded|].
  unfold lift, recorded_deadline. simpl. by rewrite Hst.
Qed.

Lemma record_sleep_remaining ctx s duration skip w deadline w1 :
  sleep_deadline ctx s duration w = (Ok deadline, w1) →
  fst (record_sleep ctx s duration skip w) =
    Ok (Duration.from_millis (wrap_i64 (deadline - clock (w_reads w1)) `max` 0)).
Proof. intros Hd. unfold record_sleep, mbind, M_bind. rewrite Hd. by destruct skip. Qed.

(** C20: a sleep ends at its recorded deadline however often it is resumed.
    The first run records [now + duration]; any later run, at any time, waits
    for what is left until that deadline and nothing once it has passed. *)
Theorem sleep_keeps_deadline `{!SerdeJsonLaws HJ, !Base64Laws HB, !EnvLaws HE} ctx s duration w :
  live (workflow_id ctx) (w_db w) → operation_outputs (w_db w) !! (workflow_id ctx, s) = None →
  0 ≤ Duration.as_millis duration < 2 ^ 62 →
  let deadline := clock (w_reads w) + Duration.as_millis duration in
  ∃ w1 o, sleep_deadline ctx s duration w = (Ok deadline, w1) ∧
    operation_outputs (w_db w1) !! (workflow_id ctx, s) = Some o ∧
    ∀ ctx' w' duration' skip, workflow_id ctx' = workflow_id ctx → live (workflow_id ctx) (w_db w') →
      operation_outputs (w_db w') !! (workflow_id ctx, s) = Some o →
      fst (record_sleep ctx' s duration' skip w') =
        Ok (Duration.from_millis ((deadline - clock (w_reads w')) `max` 0)).
Proof.
  intros Hl Hn Hd deadline. pose proof (clock_range (w_reads w)) as Hc.
  destruct (sleep_deadline_fresh ctx s duration w Hl Hn) as (out & Hst & Hrun).
  rewrite (wrap_i64_id (Duration.as_millis duration)), wrap_i64_id in Hrun, Hst
    by (unfold in_i64; lia). fold deadline in Hrun, Hst.
  do 2 eexists. split; [exact Hrun|]. split; [apply lookup_insert_eq|].
  intros ctx' w' duration' skip Hid Hl' Ho. rewrite <- Hid in Hl', Ho.
  erewrite record_sleep_remaining by (eapply sleep_deadline_again; [exact Hl' | exact Hst | exact Ho]).
  pose proof (clock_range (w_reads w')). rewrite wrap_i64_id by (unfold in_i64, deadline; lia). done.
Qed.

(** The longest duration does not wait at all: the milliseconds of
    [Duration::MAX] do not fit an [i64] and become [-1], so the deadline is
    already past when it is recorded. *)
Theorem sleep_max_returns_at_once `{!SerdeJsonLaws HJ, !Base64Laws HB, !EnvLaws HE} ctx s skip w :
  live (workflow_id ctx) (w_db w) → operation_outputs (w_db w) !! (workflow_id ctx, s) = None →
  fst (record_sleep ctx s Duration.MAX skip w) = Ok 0.
Proof.
  intros Hl Hn. destruct (sleep_deadline_fresh ctx s Duration.MAX w Hl Hn) as (out & _ & Hrun).
  erewrite record_sleep_remaining by exact Hrun.
  pose proof (clock_range (w_reads w)). pose proof (clock_range (S (S (w_reads w)))).
  pose proof (clock_mono (w_reads w) (S (S (w_reads w))) ltac:(lia)).
  change (wrap_i64 (Duration.as_millis Duration.MAX)) with (-1).
  cbn [w_reads set_field set_w_reads set_w_db compose].
  rewrite (wrap_i64_id (_ + -1)), wrap_i64_id by (unfold in_i64; lia).
  by rewrite Z.max_r by lia.
Qed.
End context_properties.
