(* ===== verification/Replay.v ===== *)
(** * Replay

    The guarantee the durable operations are for: a workflow body run again
    over the operations it recorded gets the same results, without performing
    anything again.  Programs are sequences of context operations; the
    operations may be related one by one ([replays]), and then the programs. *)
From S2P Require Import Prelude Errors Json Serialize Database World Status Steps Notifications.
From S2P Require Import Streams Step Context.

Local Open Scope string_scope.
Local Open Scope Z_scope.
Local Open Scope list_scope.
Local Open Scope dbos_scope.

(** ** What a computation leaves alone *)

Section frames.
Context `{HE : Env} (id : string) (k : nat).

(** The recorded operations of the workflow. *)
Definition ops (w : World) (fid : Z) : option op_row := operation_outputs (w_db w) !! (id, fid).

(** The other processes leave the workflow's operations to its executor, and
    do not cancel or delete it. *)
Definition single_writer : Prop := ∀ n d,
  (∀ fid, operation_outputs (others n d) !! (id, fid) = operation_outputs d !! (id, fid)) ∧
  (live id d → live id (others n d)).

Context (Hsw : single_writer).

(** [m] changes the workflow's operations at most at the ids of [P], and does
    not use its step counter, once there is one. *)
Definition frame {A} (P : Z → Prop) (m : M A) : Prop := ∀ w r w1,
  is_Some (w_counters w !! k) → m w = (r, w1) →
  w_counters w1 !! k = w_counters w !! k ∧ ∀ fid, ¬ P fid → ops w1 fid = ops w fid.

Definition quiet {A} (m : M A) : Prop := frame (λ _, False) m.

Section rules.
Context {A B : Type}.
Implicit Types (P : Z → Prop) (m : M A).

Lemma frame_weaken P Q m : (∀ fid, P fid → Q fid) → frame P m → frame Q m.
Proof. intros HPQ Hm w r w1 Hk Hr. destruct (Hm _ _ _ Hk Hr) as [? Ho]. split; [done|]. intros. apply Ho. naive_solver. Qed.

Lemma quiet_frame P m : quiet m → frame P m.
Proof. apply frame_weaken. done. Qed.

Lemma frame_lift P (r : Result A) : frame P (lift r).
Proof. by intros w r' w1 _ [= <- <-]. Qed.
Lemma frame_ret P (a : A) : frame P (mret a).
Proof. by intros w r' w1 _ [= <- <-]. Qed.
Lemma frame_raise P e : frame P (raise e : M A).
Proof. by intros w r' w1 _ [= <- <-]. Qed.
Lemma frame_gets P (f : World → A) : frame P (gets f).
Proof. by intros w r' w1 _ [= <- <-]. Qed.

Lemma frame_bind P m (f : A → M B) : frame P m → (∀ a, frame P (f a)) → frame P (m ≫= f).
Proof.
  intros Hm Hf w r w2 Hk. unfold mbind, M_bind. destruct (m w) as [[a|e] w1] eqn:E; intros Hr.
  - destruct (Hm _ _ _ Hk E) as [Hc1 Ho1]. rewrite <- Hc1 in Hk.
    destruct (Hf _ _ _ _ Hk Hr) as [Hc2 Ho2].
    split; [congruence|]. intros fid Hfid. by rewrite Ho2, Ho1.
  - simplify_eq. by apply (Hm _ _ _ Hk E).
Qed.

Lemma frame_attempt P m : frame P m → frame P (attempt m).
Proof.
  intros Hm w r w1 Hk. unfold attempt. destruct (m w) as [r' w'] eqn:E. intros [= <- <-].
  by apply (Hm _ _ _ Hk E).
Qed.
End rules.

Lemma frame_transaction {A} P (m : M (tx_end A)) : frame P m → frame P (transaction m).
Proof.
  intros Hm w r w1 Hk. unfold transaction. destruct (m w) as [[[x|x]|e] w'] eqn:E; intros [= <- <-];
    destruct (Hm _ _ _ Hk E) as [Hc Ho]; auto.
Qed.

Lemma frame_modify P f :
  (∀ w, w_counters (f w) !! k = w_counters w !! k ∧ w_db (f w) = w_db w) → frame P (modify f).
Proof. intros Hf w r w1 _ [= <- <-]. destruct (Hf w) as [Hc Hd]. unfold ops. by rewrite Hd. Qed.

Lemma frame_modify_db P f :
  (∀ d, operation_outputs (f d) = operation_outputs d) → frame P (modify_db f).
Proof. intros Hf w r w1 _ [= <- <-]. split; [done|]. intros. unfold ops. simpl. by rewrite Hf. Qed.

Lemma frame_now P : frame P now_epoch_ms.
Proof. by intros w r w1 _ [= <- <-]. Qed.
Lemma frame_instant P : frame P instant_now.
Proof. by intros w r w1 _ [= <- <-]. Qed.
Lemma frame_uuid P : frame P uuid_v4.
Proof. by intros w r w1 _ [= <- <-]. Qed.

Lemma frame_wait P : frame P wait.
Proof. intros w r w1 _ [= <- <-]. split; [done|]. intros fid _. apply Hsw. Qed.

Lemma frame_check P wid fid name : frame P (check_operation_execution wid fid name).
Proof.
  intros w r w1 _ E. pose proof (check_operation_world w wid fid name) as Hw. rewrite E in Hw.
  by simpl in Hw; subst.
Qed.

Lemma frame_record (P : Z → Prop) fid name out err child ser :
  P fid → frame P (record_operation_result id fid name out err child ser).
Proof.
  intros HP w r w1 _. unfold record_operation_result, insert_operation. run_M.
  destruct (operation_outputs (w_db w) !! (id, fid)) eqn:E;
    [|destruct (workflow_status (w_db w) !! id)]; intros; simplify_eq/=; try done.
  split; [done|]. intros fid' Hfid. unfold ops. simpl. by rewrite lookup_insert_ne by congruence.
Qed.
End frames.

Create HintDb frames.
#[export] Hint Resolve frame_lift frame_ret frame_raise frame_gets frame_attempt frame_transaction
  frame_now frame_instant frame_uuid frame_wait frame_check frame_record : frames.

(** Decomposing a framed computation along its binds and matches. *)
Ltac solve_frame :=
  repeat first
    [ progress intros
    | solve [eauto with frames]
    | apply frame_bind | apply frame_attempt | apply frame_transaction
    | case_match | case_decide
    | apply frame_modify_db; intros; reflexivity
    | apply frame_modify; intros; split; reflexivity ].

Section pieces.
Context `{HE : Env, HJ : SerdeJson, HB : Base64Engine, HS : PgScan} (id : string) (k : nat).
Context (Hsw : single_writer id).

Lemma frame_foreign_key P wid c : frame id k P (foreign_key wid c).
Proof. unfold foreign_key. solve_frame. Qed.

Lemma frame_insert_notification P dest topic msg ser : frame id k P (insert_notification dest topic msg ser).
Proof. unfold insert_notification. solve_frame. Qed.

Lemma frame_set_event P wid key v fid ser :
  frame id k P (upsert_workflow_event wid key v ser;; insert_workflow_event_history wid fid key v ser).
Proof.
  unfold upsert_workflow_event, insert_workflow_event_history.
  repeat (apply frame_bind; [|intros]); try apply frame_foreign_key; solve_frame.
Qed.

Lemma frame_write_stream P wid fid key v ser : frame id k P (write_stream_entry wid fid key v ser).
Proof.
  unfold write_stream_entry. apply frame_bind; [solve_frame|]. intros t.
  case_match; [solve_frame|]. case_decide; [|solve_frame].
  apply frame_bind; [apply frame_foreign_key | solve_frame].
Qed.

Lemma frame_retry_loop {R} P opts n retry (run : M R) errors :
  frame id k P run → frame id k P (retry_loop opts n retry run errors).
Proof. revert retry errors. induction n; intros; simpl; solve_frame. Qed.

Lemma frame_retry {R} P opts name wid (run : M R) :
  frame id k P run → frame id k P (execute_step_with_retry opts name wid run).
Proof.
  intros. unfold execute_step_with_retry. apply frame_bind; [solve_frame|]. intros [v|e]; [solve_frame|].
  case_decide; [solve_frame|]. apply frame_bind; [by apply frame_retry_loop | solve_frame].
Qed.

Lemma frame_consume P dest topic : frame id k P (consume_oldest_notification dest topic).
Proof. unfold consume_oldest_notification. solve_frame. Qed.

Lemma frame_wait_until {A} P fuel deadline (ready : M (option A)) :
  frame id k P ready → frame id k P (wait_until fuel deadline ready).
Proof. induction fuel; intros; simpl; solve_frame. Qed.

Lemma frame_with_waiter {A} P payload (body : M A) : frame id k P body → frame id k P (with_waiter payload body).
Proof. intros. unfold with_waiter. solve_frame. Qed.

Context (ctx : WorkflowContext) (Hid : workflow_id ctx = id).

Lemma frame_record_sleep (P : Z → Prop) step_id d skip : P step_id → frame id k P (record_sleep ctx step_id d skip).
Proof.
  intros HP. unfold record_sleep, sleep_deadline. rewrite Hid.
  solve_frame.
Qed.

Lemma frame_await (P : Z → Prop) {A} fuel step_id d (ready : M (option A)) :
  P step_id → frame id k P ready → frame id k P (await_durably fuel ctx step_id d ready).
Proof.
  intros. unfold await_durably. apply frame_bind; [by apply frame_record_sleep|]. intros.
  apply frame_bind; [solve_frame|]. intros. by apply frame_wait_until.
Qed.

Lemma frame_consume_and_record (P : Z → Prop) step_id topic :
  P step_id → frame id k P (consume_and_record ctx step_id topic).
Proof.
  intros. unfold consume_and_record. rewrite Hid. apply frame_transaction, frame_bind; [apply frame_consume|].
  intros. apply frame_bind; [by apply frame_record | solve_frame].
Qed.
End pieces.

(** ** Operations that replay *)

Section replay.
Context `{HE : Env, HJ : SerdeJson, !SerdeJsonLaws HJ, HB : Base64Engine, !Base64Laws HB, HS : PgScan}.
Context (id : string) (k k' : nat) (Hsw : single_writer id).

(** The database only moved by what the other processes did. *)
Definition idle : relation Db := rtc (λ d d', ∃ n, d' = others n d).

Lemma idle_live d d' : idle d d' → live id d → live id d'.
Proof. induction 1 as [|d1 d2 d3 [n ->] _ IH]; [done|]. intros Hl. by apply IH, Hsw. Qed.

Lemma idle_ops d d' fid : idle d d' →
  operation_outputs d' !! (id, fid) = operation_outputs d !! (id, fid).
Proof. induction 1 as [|d1 d2 d3 [n ->] _ IH]; [done|]. rewrite IH. apply Hsw. Qed.

(** A world in which the workflow can be run again from step id [c]. *)
Definition restart (c : Z) (w' : World) : Prop :=
  w_counters w' !! k' = Some c ∧ live id (w_db w').

(** [m'] replays [m], which takes [n] step ids: when [m], run from [c] with
    nothing recorded at its first id, left a record at each of them, then
    [m'], run again from [c] over those records, returns the same result and
    writes nothing. *)
Definition replays {A} (n : Z) (m m' : M A) : Prop := ∀ w r w1 c,
  w_counters w !! k = Some c → -1 ≤ c → ops id w (c + 1) = None →
  m w = (r, w1) → c + n < 2 ^ 31 →
  w_counters w1 !! k = Some (c + n) ∧
  (∀ fid, fid ≤ c ∨ c + n < fid → ops id w1 fid = ops id w fid) ∧
  ((∀ fid, c < fid ≤ c + n → is_Some (ops id w1 fid)) →
   ∀ w', restart c w' → (∀ fid, c < fid ≤ c + n → ops id w' fid = ops id w1 fid) →
   ∃ r' w'', m' w' = (r', w'') ∧ r ≡ r' ∧ restart (c + n) w'' ∧ idle (w_db w') (w_db w'')).

Lemma replays_lift {A} (r r' : Result A) : r ≡ r' → replays 0 (lift r) (lift r').
Proof.
  intros Hr w r1 w1 c Hc _ _ [= <- <-] _. rewrite Z.add_0_r.
  split_and!; [done|done|]. intros _ w' Hw' _.
  exists r', w'. split_and!; [done..|apply rtc_refl].
Qed.

Lemma next_id_run st w c :
  w_counters w !! st_step_id st = Some c → -1 ≤ c → c + 1 < 2 ^ 31 →
  next_step_id st w = (Ok (c + 1), w <| w_counters ::= <[st_step_id st := c + 1]> |>).
Proof.
  intros Hc ??. unfold next_step_id. rewrite Hc. simpl.
  by rewrite wrap_i32_id by (unfold in_i32; lia).
Qed.

(** What replaying the record [o] of a body means. *)
Definition replayed_by {A} (o : op_row) (s : Z) (r : Result A) (body' : M A) : Prop :=
  ∀ w', live id (w_db w') → ops id w' s = Some o →
  ∃ r' w'', body' w' = (r', w'') ∧ r ≡ r' ∧ w_counters w'' = w_counters w' ∧ idle (w_db w') (w_db w'').

Definition recorded_at {A} (s : Z) (body body' : M A) : Prop := ∀ w r w1 o,
  is_Some (w_counters w !! k) → ops id w s = None → body w = (r, w1) → ops id w1 s = Some o → replayed_by o s r body'.

Lemma restart_idle c w w' :
  restart c w → w_counters w' = w_counters w → idle (w_db w) (w_db w') → restart c w'.
Proof. intros [Hc Hl] E Hi. split; [by rewrite E | by eapply idle_live]. Qed.

(** An operation that takes one step id. *)
Lemma replays_one {A} st st' (body body' : Z → M A) :
  st_step_id st = k → st_step_id st' = k' →
  (∀ s, frame id k (.= s) (body s)) → (∀ s, recorded_at s (body s) (body' s)) →
  replays 1 (s ← next_step_id st; body s) ((s ← next_step_id st'; body' s)).
Proof.
  intros Hst Hst' Hframe Hrec w r w1 c Hc Hc1 Hfresh Hrun Hlt.
  unfold mbind, M_bind in Hrun. rewrite (next_id_run st w c) in Hrun by (by rewrite ?Hst).
  set (w0 := w <| w_counters ::= _ |>) in Hrun.
  assert (is_Some (w_counters w0 !! k)) as Hk0 by (simpl; rewrite Hst, lookup_insert_eq; eauto).
  destruct (Hframe (c + 1) _ _ _ Hk0 Hrun) as [Hcnt Hops]. split.
  { rewrite Hcnt. simpl. by rewrite Hst, lookup_insert_eq. }
  split; [intros fid ?; apply (Hops fid); cbn beta; lia|].
  intros Hall w' [Hc' Hl'] Hsame.
  destruct (Hall (c + 1)) as [o Ho]; [lia|].
  destruct (Hrec (c + 1) w0 r w1 o Hk0 Hfresh Hrun Ho
    (w' <| w_counters ::= <[k' := c + 1]> |>)) as (r' & w'' & Hr' & Heq & Hcw & Hidle).
  { done. }
  { etrans; [apply Hsame; lia | done]. }
  exists r', w''. split_and!; [|done| |done].
  - unfold mbind, M_bind. rewrite (next_id_run st' w' c) by (by rewrite ?Hst'). by rewrite Hst'.
  - split; [rewrite Hcw; simpl; apply lookup_insert_eq|]. by eapply idle_live.
Qed.

(** An operation that takes two, and records its result under the first. *)
Lemma replays_two {A} st st' (body body' : Z → Z → M A) :
  st_step_id st = k → st_step_id st' = k' →
  (∀ s1 s2, frame id k (λ fid, fid = s1 ∨ fid = s2) (body s1 s2)) →
  (∀ s1 s2, s1 ≠ s2 → recorded_at s1 (body s1 s2) (body' s1 s2)) →
  replays 2 (s1 ← next_step_id st; s2 ← next_step_id st; body s1 s2)
    ((s1 ← next_step_id st'; s2 ← next_step_id st'; body' s1 s2)).
Proof.
  intros Hst Hst' Hframe Hrec w r w1 c Hc Hc1 Hfresh Hrun Hlt.
  unfold mbind, M_bind in Hrun. rewrite (next_id_run st w c) in Hrun by (rewrite ?Hst; done || lia).
  rewrite (next_id_run st _ (c + 1)) in Hrun
    by (done || lia || (simpl; apply lookup_insert_eq)).
  set (w0 := _ <| w_counters ::= _ |>) in Hrun.
  assert (is_Some (w_counters w0 !! k)) as Hk0 by (simpl; rewrite Hst, lookup_insert_eq; eauto).
  destruct (Hframe _ _ _ _ _ Hk0 Hrun) as [Hcnt Hops]. split.
  { rewrite Hcnt. simpl. rewrite Hst, lookup_insert_eq. f_equal. lia. }
  split; [intros fid ?; apply (Hops fid); cbn beta; lia|].
  intros Hall w' [Hc' Hl'] Hsame.
  destruct (Hall (c + 1)) as [o Ho]; [lia|].
  destruct (Hrec (c + 1) (c + 1 + 1) ltac:(lia) w0 r w1 o Hk0 Hfresh Hrun Ho
    (w' <| w_counters ::= <[k' := c + 1]> |> <| w_counters ::= <[k' := c + 1 + 1]> |>))
    as (r' & w'' & Hr' & Heq & Hcw & Hidle).
  { done. }
  { etrans; [apply Hsame; lia | done]. }
  exists r', w''. split_and!; [|done| |done].
  - unfold mbind, M_bind. rewrite (next_id_run st' w' c) by (rewrite ?Hst'; done || lia).
    rewrite (next_id_run st' _ (c + 1)) by (done || lia || (simpl; apply lookup_insert_eq)).
    by rewrite Hst'.
  - split; [rewrite Hcw; simpl; rewrite lookup_insert_eq; f_equal; lia|]. by eapply idle_live.
Qed.

(** *** Reading and writing the record *)

Lemma check_None wid s name w r w1 :
  check_operation_execution wid s name w = (r, w1) →
  operation_outputs (w_db w) !! (wid, s) = None →
  w1 = w ∧ (r = Ok None ∨ ∃ e, r = Err e).
Proof.
  intros Hc Hn. pose proof (check_operation_world w wid s name) as Hw. rewrite Hc in Hw. simpl in Hw.
  split; [done|]. revert Hc. unfold check_operation_execution. run_M.
  destruct (workflow_status (w_db w) !! wid); simpl; [|intros; simplify_eq; eauto].
  case_decide; simpl; [intros; simplify_eq; eauto|]. rewrite Hn. simpl. intros; simplify_eq. auto.
Qed.

Lemma record_inv s name out err child ser w res w1 o :
  record_operation_result id s name out err child ser w = (res, w1) →
  ops id w s = None → ops id w1 s = Some o →
  res = Ok tt ∧ ∃ t1 t2, o = mkOp name out err child t1 t2 ser.
Proof.
  unfold ops. intros Hr Hn Ho. destruct (workflow_status (w_db w) !! id) as [row|] eqn:Hrow.
  - rewrite record_operation_new in Hr by eauto. simplify_eq. split; [done|].
    simpl in Ho. rewrite lookup_insert_eq in Ho. simplify_eq. eauto.
  - destruct (record_operation_orphan w id s name out err child ser Hrow Hn) as (e & He & _).
    rewrite He in Hr. simplify_eq. simpl in Ho. congruence.
Qed.

Context (ctx ctx' : WorkflowContext).
Context (Hid : workflow_id ctx = id) (Hid' : workflow_id ctx' = id).
Context (Hk : st_step_id (ctx_state ctx) = k) (Hk' : st_step_id (ctx_state ctx') = k').

(** Every result a step body can return survives a round trip to the
    database, and it leaves the workflow's records and counter alone. *)
Definition step_body_ok {R} `{Serialize R, Deserialize R} (body : M R) : Prop :=
  quiet id k body ∧ ∀ w v w1, body w = (Ok v, w1) → serde_faithful 127 v.

Lemma decoded_recorded_error e :
  decoded_step_error (serialize_workflow_error (error_to_string e) None Portable) (Some PORTABLE_NAME) ≡ e.
Proof. unfold decoded_step_error. rewrite stored_error_portable. apply other_equiv. Qed.

Lemma record_step_inv {R} `{Serialize R, Deserialize R} s name (result : Result R) w res w1 o :
  record_step ctx s name result w = (res, w1) → ops id w s = None → ops id w1 s = Some o →
  (∀ v, result = Ok v → serde_faithful 127 v) →
  res = Ok tt ∧ ∀ w', live id (w_db w') → ops id w' s = Some o →
    ∃ r', replay_step R ctx' s name w' = (Ok (Some r'), w') ∧ result ≡ r'.
Proof.
  intros Hr Hn Ho Hf. unfold record_step in Hr. rewrite Hid in Hr. destruct result as [v|e].
  - destruct (encode_stored v Portable (Hf v eq_refl)) as (enc & Henc & Hst). rewrite Henc in Hr.
    unfold mbind at 1, M_bind in Hr. simpl in Hr.
    destruct (record_inv _ _ _ _ _ _ _ _ _ _ Hr Hn Ho) as [-> (t1 & t2 & ->)]. split; [done|].
    intros w' Hl Hw'. exists (Ok v). split; [|done]. unfold replay_step. rewrite Hid'.
    eapply run_bind; [by apply check_recorded|]. simpl.
    eapply run_bind; [unfold lift; by rewrite Hst | done].
  - unfold mbind at 1, M_bind in Hr. simpl in Hr.
    destruct (record_inv _ _ _ _ _ _ _ _ _ _ Hr Hn Ho) as [-> (t1 & t2 & ->)]. split; [done|].
    intros w' Hl Hw'.
    exists (Err (decoded_step_error (serialize_workflow_error (error_to_string e) None Portable)
                   (Some PORTABLE_NAME))).
    split; [|exact (symmetry (decoded_recorded_error e))].
    unfold replay_step. rewrite Hid'. by eapply run_bind; [apply check_recorded|].
Qed.

Lemma replays_checkpointed {R} `{Serialize R, Deserialize R} name (body body' : M R) :
  step_body_ok body →
  replays 1 (run_checkpointed ctx name body) (run_checkpointed ctx' name body').
Proof.
  intros [Hq Hf]. apply replays_one; [done..| |]; intros s.
  - apply frame_bind.
    { unfold replay_step. rewrite Hid. apply frame_bind; [apply frame_check|]. solve_frame. }
    intros [r|]; [solve_frame|]. apply frame_bind; [apply frame_attempt; by apply quiet_frame|].
    intros result. apply frame_bind; [|solve_frame]. unfold record_step. rewrite Hid.
    apply frame_bind; [solve_frame|]. intros. by apply frame_record.
  - intros w r w1 o Hk0 Hn Hrun Ho w' Hl Hw'.
    unfold mbind at 1, M_bind at 1, replay_step at 1 in Hrun. rewrite Hid in Hrun.
    destruct (check_operation_execution id s name w) as [rc w2] eqn:Hc.
    destruct (check_None _ _ _ _ _ _ Hc Hn) as [-> [-> | [e ->]]];
      unfold mbind at 1, M_bind at 1 in Hrun; rewrite Hc in Hrun; simpl in Hrun;
      [|injection Hrun as <- <-; congruence].
    apply M_bind_attempt in Hrun as (result & w2 & Hb & Hrun).
    destruct (Hq _ _ _ Hk0 Hb) as [_ Hops].
    assert (ops id w2 s = None) as Hn2 by (rewrite Hops; auto).
    unfold mbind, M_bind in Hrun. destruct (record_step ctx s name result w2) as [res w3] eqn:Hrec.
    assert (w1 = w3) as -> by (destruct res; [by injection Hrun | by injection Hrun]).
    destruct (record_step_inv s name result w2 res w3 o Hrec Hn2 Ho) as [-> Hrep].
    { intros v ->. by eapply Hf. }
    injection Hrun as <-. destruct (Hrep w' Hl Hw') as (r' & Hr' & Heq).
    exists r', w'. split_and!; [|done|done|apply rtc_refl].
    unfold mbind, M_bind. by rewrite Hr'.
Qed.

Lemma record_step_failed {R} `{Serialize R, Deserialize R} s name (result : Result R) w e w1 :
  record_step ctx s name result w = (Err e, w1) → ops id w s = None →
  (∀ v, result = Ok v → serde_faithful 127 v) → ops id w1 s = None.
Proof.
  intros Hr Hn Hf. destruct (ops id w1 s) as [o|] eqn:Ho; [|done].
  by destruct (record_step_inv s name result w (Err e) w1 o Hr Hn Ho Hf).
Qed.

(** What the retries return is a value of the body. *)
Lemma retry_value {R} opts name wid (run : M R) w v w1 :
  execute_step_with_retry opts name wid run w = (Ok (Some v), w1) → ∃ w0 w2, run w0 = (Ok v, w2).
Proof.
  unfold execute_step_with_retry. intros (r0 & w0 & Hr0 & H1)%M_bind_attempt.
  destruct r0 as [v0|e]; [injection H1 as <- <-; eauto|]. case_decide; [done|].
  apply M_bind_Ok in H1 as (out & w2 & Hl & Hout).
  destruct out as [[v'|errors]|]; [injection Hout as <- <-|done..]. clear Hr0. revert Hl.
  generalize [error_to_string e] as es. generalize 1 as retry. revert w0.
  induction (Z.to_nat (max_retries opts)) as [|n IH]; intros w0 retry es; cbn [retry_loop]; [done|].
  destruct (retry_delay opts retry); [|done].
  intros ([] & w3 & _ & Hl)%M_bind_Ok. apply M_bind_attempt in Hl as (r & w4 & Hr & Hl).
  destruct r as [v1|e1]; [injection Hl as <- <-; eauto | by eapply IH].
Qed.

(** The body of [run_step_with] once the lookup found nothing. *)
Lemma step_with_inv {R} `{Serialize R, Deserialize R} name opts (f : WorkflowContext → M R) s w r w1 :
  step_body_ok (f (step_ctx ctx)) → is_Some (w_counters w !! k) → ops id w s = None →
  (replay ← replay_step R ctx s name;
   match replay with
   | Some r => Some <$> lift r
   | None =>
       result ← attempt (execute_step_with_retry opts name (workflow_id ctx) (f (step_ctx ctx)));
       match result with
       | Ok None => mret None
       | Ok (Some v) => record_step ctx s name (Ok v);; mret (Some v)
       | Err e => record_step ctx s name (Err e : Result R);; raise e
       end
   end) w = (r, w1) →
  ops id w1 s = None ∨
  ∃ (result : Result R) w2, r = Some <$> result ∧ record_step ctx s name result w2 = (Ok tt, w1) ∧
    ops id w2 s = None ∧ ∀ v, result = Ok v → serde_faithful 127 v.
Proof.
  intros [Hq Hf] Hk0 Hn Hrun.
  unfold mbind at 1, M_bind at 1, replay_step at 1 in Hrun. rewrite Hid in Hrun.
  destruct (check_operation_execution id s name w) as [rc w2] eqn:Hc.
  destruct (check_None _ _ _ _ _ _ Hc Hn) as [-> [-> | [e ->]]];
    unfold mbind at 1, M_bind at 1 in Hrun; rewrite Hc in Hrun; simpl in Hrun;
    [|injection Hrun as <- <-; by left].
  apply M_bind_attempt in Hrun as (result & w2 & Hb & Hrun).
  destruct (frame_retry id k Hsw (λ _, False) opts name id _ Hq _ _ _ Hk0 Hb) as [_ Hops].
  assert (ops id w2 s = None) as Hn2 by (rewrite Hops; auto).
  destruct result as [[v|]|e]; [| injection Hrun as <- <-; by left|].
  - apply retry_value in Hb as (w3 & w4 & Hv). unfold mbind, M_bind in Hrun.
    destruct (record_step ctx s name (Ok v) w2) as [[[]|e] w5] eqn:Hrec; injection Hrun as <- <-.
    + right. exists (Ok v), w2. split_and!; [done..|]. intros v' [= <-]. by eapply Hf.
    + left. eapply record_step_failed; [done..|]. intros v' [= <-]. by eapply Hf.
  - unfold mbind, M_bind in Hrun.
    destruct (record_step ctx s name (Err e) w2) as [[[]|e'] w5] eqn:Hrec; injection Hrun as <- <-.
    + right. by exists (Err e), w2.
    + left. by eapply record_step_failed.
Qed.

Lemma replays_step_with {R} `{Serialize R, Deserialize R} name opts opts' (f f' : WorkflowContext → M R) :
  ctx_within_step ctx = false → ctx_within_step ctx' = false → step_body_ok (f (step_ctx ctx)) →
  replays 1 (run_step_with ctx name opts f) (run_step_with ctx' name opts' f').
Proof.
  intros Hw Hw' Hbody. unfold run_step_with. rewrite Hw, Hw'.
  apply replays_one; [done..| |]; intros s.
  - apply frame_bind.
    { unfold replay_step. rewrite Hid. apply frame_bind; [apply frame_check|]. solve_frame. }
    intros [r|]; [unfold fmap, M_fmap; solve_frame|].
    apply frame_bind; [apply frame_attempt, frame_retry; [done|]; by apply quiet_frame, Hbody|].
    intros [[v|]|e]; [|solve_frame|]; (apply frame_bind; [|solve_frame]);
      unfold record_step; rewrite Hid; (apply frame_bind; [solve_frame|]); intros; by apply frame_record.
  - intros w r w1 o Hk0 Hn Hrun Ho w' Hl Hw0.
    apply step_with_inv in Hrun as [Hnone|(result & w2 & -> & Hrec & Hn2 & Hfaith)]; [congruence| |done..].
    destruct (record_step_inv s name result w2 (Ok tt) w1 o Hrec Hn2 Ho Hfaith) as [_ Hrep].
    destruct (Hrep w' Hl Hw0) as (r' & Hr' & Heq).
    exists (Some <$> r'), w'. split_and!; [|by apply Result_fmap_equiv|done|apply rtc_refl].
    unfold mbind at 1, M_bind at 1. rewrite Hr'. by destruct r'.
Qed.

(** A panicking step records nothing. *)
Lemma step_with_panicked {R} `{Serialize R, Deserialize R} name opts (f : WorkflowContext → M R) w w1 c :
  ctx_within_step ctx = false → step_body_ok (f (step_ctx ctx)) →
  w_counters w !! k = Some c → -1 ≤ c → c + 1 < 2 ^ 31 → ops id w (c + 1) = None →
  run_step_with ctx name opts f w = (Ok None, w1) → ops id w1 (c + 1) = None.
Proof.
  intros Hw Hbody Hc Hc1 Hlt Hn Hrun. unfold run_step_with in Hrun. rewrite Hw in Hrun.
  unfold mbind at 1, M_bind at 1 in Hrun. rewrite (next_id_run _ w c) in Hrun by (by rewrite ?Hk).
  apply step_with_inv in Hrun as [Hnone|(result & w2 & Hres & _)]; [done|by destruct result|done| |done].
  simpl. rewrite Hk, lookup_insert_eq. eauto.
Qed.

Lemma replays_ext {A} N (m m0 m' m0' : M A) :
  (∀ w, m w = m0 w) → (∀ w, m' w = m0' w) → replays N m0 m0' → replays N m m'.
Proof.
  intros Hm Hm' Hr w r w1 c Hc Hc1 Hfresh Hrun Hlt. rewrite Hm in Hrun.
  destruct (Hr _ _ _ _ Hc Hc1 Hfresh Hrun Hlt) as (? & ? & Hrep). split_and!; [done..|].
  intros Hrec w' Hw' Hs. rewrite Hm'. by apply Hrep.
Qed.

(** Running the first part of a body whose lookup finds no record. *)
Lemma run_unrecorded {A} s name (f : option RecordedOperation → M A) w r w1 o :
  (check_operation_execution id s name ≫= f) w = (r, w1) →
  ops id w s = None → ops id w1 s = Some o → f None w = (r, w1).
Proof.
  intros Hrun Hn Ho. unfold mbind, M_bind in Hrun.
  destruct (check_operation_execution id s name w) as [rc w2] eqn:Hc.
  destruct (check_None _ _ _ _ _ _ Hc Hn) as [-> [-> | [e ->]]]; [done|].
  injection Hrun as <- <-. congruence.
Qed.

Lemma replays_durable_write name prepare prepare' write write' :
  (∀ s e, quiet id k (write s e)) →
  replays 1 (durable_write ctx name prepare write) (durable_write ctx' name prepare' write').
Proof.
  intros Hq. apply replays_one; [done..| |]; intros s.
  - rewrite Hid. apply frame_bind; [apply frame_check|]. intros [rec|]; [solve_frame|].
    repeat (apply frame_bind; [solve_frame|]; intros). apply frame_transaction.
    apply frame_bind; [by apply quiet_frame|]. intros.
    apply frame_bind; [by apply frame_record | solve_frame].
  - intros w r w1 o Hk0 Hn Hrun Ho w' Hl Hw'. rewrite Hid in Hrun.
    apply run_unrecorded with (o := o) in Hrun; [|done..].
    unfold mbind at 1 2, M_bind at 1 2, lift in Hrun.
    destruct prepare as [enc|e]; [|injection Hrun as <- <-; congruence].
    destruct (encode_value tt Portable) as [u|e]; [|injection Hrun as <- <-; congruence].
    unfold transaction, mbind at 1, M_bind at 1 in Hrun.
    destruct (write s enc w) as [[[]|e] w2] eqn:Hwr; [|by injection Hrun as <- <-; unfold ops in *; simpl in *; congruence].
    destruct (Hq _ _ _ _ _ Hk0 Hwr) as [_ Hops].
    assert (ops id w2 s = None) as Hn2 by (rewrite Hops; auto).
    unfold mbind, M_bind in Hrun.
    destruct (record_operation_result id s name (Some u) None None (Some PORTABLE_NAME) w2)
      as [[[]|e] w3] eqn:Hr; [|by injection Hrun as <- <-; unfold ops in *; simpl in *; congruence].
    injection Hrun as <- <-.
    destruct (record_inv _ _ _ _ _ _ _ _ _ _ Hr Hn2 Ho) as [_ (t1 & t2 & ->)].
    exists (Ok tt), w'. split_and!; [|done|done|apply rtc_refl]. rewrite Hid'.
    eapply run_bind; [by apply check_recorded | done].
Qed.

(** *** Waiting *)

Lemma sleep_deadline_inv s d w r w1 o :
  is_Some (w_counters w !! k) →
  sleep_deadline ctx s d w = (r, w1) → ops id w s = None → ops id w1 s = Some o →
  ∃ end_ms out t1 t2, r = Ok end_ms ∧ stored_as end_ms Portable out ∧
    o = mkOp "DBOS.sleep" (Some out) None None t1 t2 (Some PORTABLE_NAME).
Proof.
  intros Hk0 Hrun Hn Ho. unfold sleep_deadline in Hrun. rewrite Hid in Hrun.
  apply run_unrecorded with (o := o) in Hrun; [|done..].
  unfold mbind at 1, M_bind at 1, now_epoch_ms in Hrun. cbv zeta in Hrun.
  set (end_ms := wrap_i64 _) in Hrun.
  destruct (encode_stored end_ms Portable) as (out & Henc & Hst).
  { apply i64_faithful. apply wrap_i64_range. }
  unfold mbind at 1, M_bind at 1, lift in Hrun. rewrite Henc in Hrun.
  apply M_bind_attempt in Hrun as (res & w2 & Hr & Hrun).
  pose proof Hr as [Hk2 _]%(frame_record id k (λ _, True)); [|done|exact Hk0]. change (is_Some (w_counters (w <| w_reads ::= S |>) !! k)) in Hk0. rewrite <- Hk2 in Hk0.
  assert (∀ res : Result unit, quiet id k (match res with
    | Ok _ => mret end_ms
    | Err e =>
        if error_is e ConflictingId
        then rec ← check_operation_execution id s "DBOS.sleep";
             rec ← lift (ok_or rec e); lift (recorded_deadline rec)
        else raise e
    end)) as Hq by (intros [x|x]; unfold quiet; solve_frame).
  destruct (Hq _ _ _ _ Hk0 Hrun) as [_ Hops]. rewrite Hops in Ho by auto.
  destruct (record_inv _ _ _ _ _ _ _ _ _ _ Hr Hn Ho) as [-> (t1 & t2 & ->)].
  injection Hrun as <- <-. eauto 10.
Qed.

Lemma sleep_deadline_replay s d w' end_ms out t1 t2 :
  live id (w_db w') → stored_as end_ms Portable out →
  ops id w' s = Some (mkOp "DBOS.sleep" (Some out) None None t1 t2 (Some PORTABLE_NAME)) →
  sleep_deadline ctx' s d w' = (Ok end_ms, w').
Proof.
  intros Hl Hst Ho. unfold sleep_deadline. rewrite Hid'.
  eapply run_bind; [by apply check_recorded|]. unfold lift, recorded_deadline. simpl. by rewrite Hst.
Qed.

Lemma replays_sleep d d' :
  ctx_within_step ctx = false → ctx_within_step ctx' = false →
  replays 1 (sleep ctx d;; mret tt) (sleep ctx' d';; mret tt).
Proof.
  intros Hw Hw'. unfold sleep. rewrite Hw, Hw'.
  eapply (replays_ext _ _ (s ← next_step_id (ctx_state ctx); record_sleep ctx s d false;; mret tt)
            _ (s ← next_step_id (ctx_state ctx'); record_sleep ctx' s d' false;; mret tt));
    [intros; apply M_bind_assoc..|].
  apply replays_one; [done..| |]; intros s.
  - apply frame_bind; [by apply frame_record_sleep | solve_frame].
  - intros w r w1 o Hk0 Hn Hrun Ho w'0 Hl Ho'. unfold record_sleep, mbind at 1 2, M_bind at 1 2 in Hrun.
    destruct (sleep_deadline ctx s d w) as [rd w2] eqn:Hd.
    assert (ops id w2 s = Some o) as Ho2.
    { destruct rd as [end_ms|e]; [|by injection Hrun as <- <-].
      rewrite <- Ho. symmetry. unfold ops. injection Hrun as <- <-. apply Hsw. }
    destruct (sleep_deadline_inv _ _ _ _ _ _ Hk0 Hd Hn Ho2) as (end_ms & out & t1 & t2 & -> & Hst & ->).
    injection Hrun as <- <-. eexists (Ok tt), _. split_and!.
    + unfold record_sleep. eapply run_bind; [eapply run_bind; [by eapply sleep_deadline_replay|] | done].
      eapply run_bind; [done|]. eapply run_bind; [done | done].
    + done.
    + done.
    + simpl. apply rtc_once. by eexists.
Qed.

(** What a receiving operation records, and how it is read back. *)
Definition found_row (name : string) (found : option (string * option string)) (t1 t2 : option Z) : op_row :=
  mkOp name (fst <$> found) None None t1 t2 (Some (default PORTABLE_NAME (found ≫= snd))).

Lemma decode_found_row T `{Deserialize T} name found t1 t2 :
  decode_optional T (recorded_operation (found_row name found t1 t2)) = decode_found T found.
Proof. by destruct found as [[v ser]|]. Qed.

Lemma consume_and_record_inv s topic w r w1 o :
  is_Some (w_counters w !! k) →
  consume_and_record ctx s topic w = (r, w1) → ops id w s = None → ops id w1 s = Some o →
  ∃ found t1 t2, r = Ok found ∧ o = found_row "DBOS.recv" found t1 t2.
Proof.
  intros Hk0 Hrun Hn Ho. unfold consume_and_record, transaction in Hrun. rewrite Hid in Hrun.
  unfold mbind, M_bind in Hrun.
  destruct (consume_oldest_notification id topic w) as [[found|e] w2] eqn:Hc;
    [|by injection Hrun as <- <-; unfold ops in *; simpl in *; congruence].
  destruct (frame_consume id k (λ _, False) _ _ _ _ _ Hk0 Hc) as [_ Hops].
  destruct (record_operation_result _ _ _ _ _ _ _ _) as [[[]|e] w3] eqn:Hr;
    [|by injection Hrun as <- <-; unfold ops in *; simpl in *; congruence].
  injection Hrun as <- <-.
  assert (ops id w2 s = None) as Hn2 by (rewrite Hops; auto).
  destruct (record_inv _ _ _ _ _ _ _ _ _ _ Hr Hn2 Ho) as [_ (t1 & t2 & ->)]. by exists found, t1, t2.
Qed.

(** The wait records nothing at the first id. *)
Lemma await_unrecorded {A B} fuel s1 s2 d (ready : M (option A)) (f : option (option A) → M B) w r w1 :
  is_Some (w_counters w !! k) → s1 ≠ s2 → quiet id k ready →
  (await_durably fuel ctx s2 d ready ≫= f) w = (r, w1) → ops id w s1 = None →
  (∃ e, r = Err e ∧ ops id w1 s1 = None) ∨
  ∃ woken w2, f woken w2 = (r, w1) ∧ ops id w2 s1 = None ∧ is_Some (w_counters w2 !! k).
Proof.
  intros Hk0 Hne Hq Hrun Hn. unfold mbind, M_bind in Hrun.
  destruct (await_durably fuel ctx s2 d ready w) as [res w2] eqn:Ha.
  destruct (frame_await id k Hsw ctx Hid (.= s2) fuel s2 d ready eq_refl (quiet_frame _ _ _ _ Hq)
    _ _ _ Hk0 Ha) as [Hk2 Hops]. rewrite <- Hk2 in Hk0.
  assert (ops id w2 s1 = None) as Hn2 by (by rewrite Hops).
  destruct res as [woken|e]; [right; eauto | left; injection Hrun as <- <-; eauto].
Qed.

Lemma recv_live_inv fuel T `{Deserialize T} s1 s2 topic d w r w1 o :
  is_Some (w_counters w !! k) → s1 ≠ s2 → recv_live fuel T ctx s1 s2 topic d w = (r, w1) →
  ops id w s1 = None → ops id w1 s1 = Some o →
  ∃ found t1 t2, o = found_row "DBOS.recv" found t1 t2 ∧ r = Some <$> decode_found T found.
Proof.
  intros Hk0 Hne Hrun Hn Ho. unfold recv_live in Hrun. unfold mbind at 1, M_bind at 1, gets in Hrun.
  cbv zeta in Hrun. case_bool_decide; [by injection Hrun as <- <-; congruence|].
  unfold with_waiter in Hrun. unfold mbind at 1, M_bind at 1, modify at 1 in Hrun.
  apply M_bind_attempt in Hrun as (res & w2 & Hb & Hrun). injection Hrun as <- <-.
  change (ops id w2 s1 = Some o) in Ho.
  apply (await_unrecorded fuel s1 s2) in Hb as [(e & _ & ?)|(woken & w3 & Hb & Hn3 & Hk3)];
    [congruence | |exact Hk0|done| |done]; [|rewrite Hid; unfold quiet; solve_frame].
  destruct woken as [woken|]; cbv beta iota in Hb; [|injection Hb as <- <-; congruence].
  unfold mbind, M_bind in Hb.
  destruct (consume_and_record ctx s1 topic w3) as [rc w4] eqn:Hc.
  assert (ops id w4 s1 = Some o) as Ho4.
  { destruct rc as [a|]; [rewrite fmap_lift in Hb|]; by injection Hb as <- <-. }
  destruct (consume_and_record_inv _ _ _ _ _ _ Hk3 Hc Hn3 Ho4) as (found & t1 & t2 & -> & ->).
  rewrite fmap_lift in Hb. injection Hb as <- <-. by exists found, t1, t2.
Qed.

Lemma frame_recv_live fuel T `{Deserialize T} s1 s2 topic d :
  frame id k (λ fid, fid = s1 ∨ fid = s2) (recv_live fuel T ctx s1 s2 topic d).
Proof.
  unfold recv_live. apply frame_bind; [solve_frame|]. intros. case_match; [solve_frame|].
  apply frame_with_waiter, frame_bind.
  - apply frame_await; [done|done|by right|]. solve_frame.
  - intros [woken|]; [|solve_frame]. apply frame_bind; [|solve_frame].
    apply frame_consume_and_record; auto.
Qed.

Lemma get_event_live_inv fuel T `{Deserialize T} s1 s2 target key d w r w1 o :
  is_Some (w_counters w !! k) → s1 ≠ s2 → get_event_live fuel T ctx s1 s2 target key d w = (r, w1) →
  ops id w s1 = None → ops id w1 s1 = Some o →
  ∃ found t1 t2, o = found_row "DBOS.getEvent" found t1 t2 ∧ r = Some <$> decode_found T found.
Proof.
  intros Hk0 Hne Hrun Hn Ho.
  apply (await_unrecorded fuel s1 s2) in Hrun as [(e & _ & ?)|(woken & w3 & Hb & Hn3 & Hk3)];
    [congruence| |done|done|unfold quiet; solve_frame|done].
  destruct woken as [found|]; cbv beta iota in Hb; [|injection Hb as <- <-; congruence].
  unfold mbind at 1, M_bind at 1 in Hb. rewrite Hid in Hb.
  destruct (record_operation_result _ _ _ _ _ _ _ _) as [rc w4] eqn:Hr.
  assert (ops id w4 s1 = Some o) as Ho4.
  { destruct rc; [rewrite fmap_lift in Hb|]; by injection Hb as <- <-. }
  destruct (record_inv _ _ _ _ _ _ _ _ _ _ Hr Hn3 Ho4) as [-> (t1 & t2 & ->)].
  rewrite fmap_lift in Hb. injection Hb as <- <-. by exists found, t1, t2.
Qed.

Lemma frame_get_event_live fuel T `{Deserialize T} s1 s2 target key d :
  frame id k (λ fid, fid = s1 ∨ fid = s2) (get_event_live fuel T ctx s1 s2 target key d).
Proof.
  unfold get_event_live. apply frame_bind; [apply frame_await; [done|done|by right|solve_frame]|].
  intros [found|]; [|solve_frame]. apply frame_bind; [rewrite Hid; apply frame_record; by left | solve_frame].
Qed.

(** *** What [recv] and [get_event] share

    They take two ids, look for a record under the first, and otherwise run
    their live part. *)
Section receiving.
Context {A : Type} (name : string) (decode : RecordedOperation → Result (option A)).

Definition receive (c : WorkflowContext) (live : Z → Z → M (option (option A))) : M (option (option A)) :=
  s1 ← next_step_id (ctx_state c);
  s2 ← next_step_id (ctx_state c);
  rec ← check_operation_execution (workflow_id c) s1 name;
  match rec with
  | Some rec => Some <$> lift (decode rec)
  | None => live s1 s2
  end.

(** What the live part records is what it returns. *)
Definition live_inv (live : Z → Z → M (option (option A))) : Prop := ∀ s1 s2 w r w1 o,
  is_Some (w_counters w !! k) → s1 ≠ s2 → live s1 s2 w = (r, w1) →
  ops id w s1 = None → ops id w1 s1 = Some o →
  op_function_name o = name ∧ r = Some <$> decode (recorded_operation o).

Lemma receive_inv live s1 s2 w r w1 o :
  live_inv live → is_Some (w_counters w !! k) → s1 ≠ s2 →
  (rec ← check_operation_execution (workflow_id ctx) s1 name;
   match rec with Some rec => Some <$> lift (decode rec) | None => live s1 s2 end) w = (r, w1) →
  ops id w s1 = None → ops id w1 s1 = Some o →
  op_function_name o = name ∧ r = Some <$> decode (recorded_operation o).
Proof.
  intros Hinv Hk0 Hne Hrun Hn Ho. rewrite Hid in Hrun.
  apply run_unrecorded with (o := o) in Hrun; [|done..]. by eapply Hinv.
Qed.

Lemma replays_receive live live' :
  (∀ s1 s2, frame id k (λ fid, fid = s1 ∨ fid = s2) (live s1 s2)) → live_inv live →
  replays 2 (receive ctx live) (receive ctx' live').
Proof.
  intros Hframe Hinv. apply replays_two; [done..| |].
  - intros s1 s2. apply frame_bind; [apply frame_check|]. intros [rec|]; [solve_frame | apply Hframe].
  - intros s1 s2 Hne w r w1 o Hk0 Hn Hrun Ho w' Hl Ho'.
    destruct (receive_inv live s1 s2 w r w1 o Hinv Hk0 Hne Hrun Hn Ho) as [Hname ->].
    eexists _, w'. split_and!; [|reflexivity|done|apply rtc_refl].
    rewrite Hid'. eapply run_bind; [by apply check_recorded|]. cbv beta iota. by rewrite fmap_lift.
Qed.

(** One that is still waiting has no record under its first id. *)
Lemma receive_waiting live w w1 c :
  live_inv live → w_counters w !! k = Some c → -1 ≤ c → c + 2 < 2 ^ 31 → ops id w (c + 1) = None →
  receive ctx live w = (Ok None, w1) → ops id w1 (c + 1) = None.
Proof.
  intros Hinv Hc Hc1 Hlt Hn Hrun. unfold receive in Hrun. unfold mbind at 1 2, M_bind at 1 2 in Hrun.
  rewrite (next_id_run _ w c) in Hrun by (rewrite ?Hk; done || lia).
  rewrite (next_id_run _ _ (c + 1)) in Hrun by (done || lia || (simpl; apply lookup_insert_eq)).
  set (w0 := _ <| w_counters ::= _ |>) in Hrun.
  assert (is_Some (w_counters w0 !! k)) as Hk0 by (simpl; rewrite Hk, lookup_insert_eq; eauto).
  destruct (ops id w1 (c + 1)) as [o|] eqn:Ho; [exfalso|done].
  apply (receive_inv live _ _ w0 _ w1 o) in Hrun as [_ Hr]; [|done|done|lia|done|done].
  by destruct (decode _).
Qed.
End receiving.

Lemma live_inv_recv fuel T `{Deserialize T} topic d :
  live_inv "DBOS.recv" (decode_optional T) (λ s1 s2, recv_live fuel T ctx s1 s2 topic d).
Proof.
  intros s1 s2 w r w1 o Hk0 Hne Hrun Hn Ho.
  destruct (recv_live_inv _ _ _ _ _ _ _ _ _ _ Hk0 Hne Hrun Hn Ho) as (found & t1 & t2 & -> & ->).
  by rewrite decode_found_row.
Qed.

Lemma live_inv_get_event fuel T `{Deserialize T} target key d :
  live_inv "DBOS.getEvent" (decode_optional T) (λ s1 s2, get_event_live fuel T ctx s1 s2 target key d).
Proof.
  intros s1 s2 w r w1 o Hk0 Hne Hrun Hn Ho.
  destruct (get_event_live_inv _ _ _ _ _ _ _ _ _ _ _ Hk0 Hne Hrun Hn Ho) as (found & t1 & t2 & -> & ->).
  by rewrite decode_found_row.
Qed.

Lemma replays_recv fuel fuel' T `{Deserialize T} topic topic' d d' :
  ctx_within_step ctx = false → ctx_within_step ctx' = false →
  replays 2 (recv fuel T ctx topic d) (recv fuel' T ctx' topic' d').
Proof.
  intros Hw Hw'. unfold recv. rewrite Hw, Hw'.
  by apply replays_receive; [intros; apply frame_recv_live | apply live_inv_recv].
Qed.

Lemma replays_get_event fuel fuel' T `{Deserialize T} target target' key key' d d' :
  ctx_within_step ctx = false → ctx_within_step ctx' = false →
  replays 2 (get_event fuel T ctx target key d) (get_event fuel' T ctx' target' key' d').
Proof.
  intros Hw Hw'. unfold get_event. rewrite Hw, Hw'.
  by apply replays_receive; [intros; apply frame_get_event_live | apply live_inv_get_event].
Qed.
End replay.
