(* ===== verification/Workflow.v ===== *)
(** * Starting workflows (runtime/workflow.rs, runtime/registry.rs)

    The registry, the handles, the direct-execution lifecycle, enqueueing, the
    task that runs a body and child workflows (runtime/context.rs). *)
From S2P Require Import Prelude Errors Json Serialize Database World Status Steps Step Context.

Local Open Scope string_scope.
Local Open Scope Z_scope.
Local Open Scope list_scope.
Local Open Scope dbos_scope.

(** ** The runtime's parts *)

Record RegistryEntry := mkEntry {
  re_handler : WorkflowContext → option string → Format → M string;
  re_max_retries : Z;
  re_name : string;
  re_class_name : option string;
  re_config_name : option string;
}.

Definition Registry : Type := gmap string RegistryEntry.

(** The fields of [DbosInner] the modelled code reads and never changes. *)
Record DbosInner := mkInner {
  executor_id : string;
  application_version : string;
  application_id : option string;
  registry : Registry;
}.

Record WorkflowOptions := mkOptions {
  wo_workflow_id : option string;
  wo_application_version : option string;
  wo_authenticated_user : option string;
  wo_assumed_role : option string;
  wo_authenticated_roles : option (list string);
}.

Definition WorkflowOptions_default : WorkflowOptions := mkOptions None None None None None.

Record EnqueueOptions := mkEnqueue {
  eo_workflow_id : option string;
  eo_deduplication_id : option string;
  eo_priority : option Z;
  eo_queue_partition_key : option string;
  eo_delay : option Duration.t;
  eo_application_version : option string;
}.

(** ** Handles *)

Inductive HandleKind :=
  | Owned (channel : nat)
  | Polling.

Record WorkflowHandle := mkHandle { h_id : string; h_kind : HandleKind }.

Definition polling (id : string) : WorkflowHandle := mkHandle id Polling.
Definition owned (id : string) (rx : nat) : WorkflowHandle := mkHandle id (Owned rx).

(** On the pool and schema of the runtime. *)
Definition polling_from_inner (id : string) : WorkflowHandle := polling id.
Definition owned_from_inner (id : string) (rx : nat) : WorkflowHandle := owned id rx.

Definition handle_workflow_id (h : WorkflowHandle) : string := h_id h.

Section handles.
Context `{Env, SerdeJson, Base64Engine}.

(** The outcome of the poll, as a result. *)
Definition outcome_result (R : Type) `{Deserialize R} (id : string) (o : AwaitOutcome) : Result R :=
  match o with
  | AwaitSuccess output serialization => decode_value R output serialization
  | AwaitError error serialization =>
      Err (match deserialize_workflow_error error serialization with
           | Some (Plain s) => other s
           | Some (PortableError pe) => other (pe_message pe)
           | None => other "workflow failed"
           end)
  | AwaitCancelled => Err (awaited_workflow_cancelled id)
  | AwaitDeadLetter recovery_attempts => Err (dead_letter_queue id (wrap_i64 (recovery_attempts - 2)))
  end.

Definition poll_result (fuel : nat) (R : Type) `{Deserialize R} (id : string) : M (option R) :=
  outcome ← await_workflow_result fuel id;
  match outcome with
  | None => mret None
  | Some o => Some <$> lift (outcome_result R id o)
  end.

(** [get_result], once the body's task has ended: an owned handle takes its
    receiver, which has the sent result or, when the sender was dropped,
    nothing; then it polls like any other. *)
Definition get_result (fuel : nat) (R : Type) `{Deserialize R} (h : WorkflowHandle) : M (option R) :=
  match h_kind h with
  | Owned ch =>
      taken ← gets w_taken;
      if bool_decide (ch ∈ taken) then poll_result fuel R (h_id h)
      else
        modify (λ w, w <| w_taken ::= union {[ch]} |>);;
        sent ← gets (λ w, w_channels w !! ch);
        match sent with
        | Some (Ok encoded) => Some <$> lift (decode_value R (Some encoded) (Some PORTABLE_NAME))
        | Some (Err e) => raise e
        | None => poll_result fuel R (h_id h)
        end
  | Polling => poll_result fuel R (h_id h)
  end.

Definition handle_get_status (h : WorkflowHandle) : M (option WorkflowStatusType) :=
  s ← get_status (h_id h); mret (s ≫= status_from_str).
End handles.

(** ** Starting *)

Definition resolve_auth (opts : WorkflowOptions) (parent : option (WorkflowState * Z)) : AuthIdentity :=
  let pauth := (st_auth ∘ fst) <$> parent in
  mkAuth (match wo_authenticated_user opts with Some u => Some u | None => pauth ≫= au_user end)
         (match wo_assumed_role opts with Some r => Some r | None => pauth ≫= au_role end)
         (match wo_authenticated_roles opts with Some rs => rs | None => default [] (au_roles <$> pauth) end).

Definition not_registered (name : string) : DbosError :=
  other ("workflow " +:+ name +:+ " is not registered").

(** A one-shot channel. *)
Definition new_channel : M nat := λ w,
  (Ok (fresh (dom (w_channels w) ∪ list_to_set (omap (λ t, match t_origin t with
                                                         | Started ch => Some ch
                                                         | Dequeued _ => None
                                                         end) (w_tasks w)) ∪ w_taken w)), w).

Definition spawn (t : task) : M unit := modify (λ w, w <| w_tasks ::= (.++ [t]) |>).

Section start.
Context `{Env, SerdeJson, Base64Engine} (inner : DbosInner).

Definition lookup_entry (name : string) : M RegistryEntry :=
  lift (ok_or (registry inner !! name) (not_registered name)).

(** The id of a new workflow. *)
Definition choose_id (opts : WorkflowOptions) (parent : option (WorkflowState * Z)) : M string :=
  match wo_workflow_id opts, parent with
  | Some id, _ => mret id
  | None, Some (pstate, step_id) => mret (st_workflow_id pstate +:+ "-" +:+ pretty step_id)
  | None, None => uuid_v4
  end.

Definition start_input (name workflow_id : string) (entry : RegistryEntry) (encoded_input : option string)
    (opts : WorkflowOptions) (parent : option (WorkflowState * Z)) (fmt : Format)
    (is_recovery : bool) (now : Z) (owner_xid : string) : InsertWorkflowInput :=
  let auth := resolve_auth opts parent in {|
  in_workflow_id := workflow_id;
  in_status := status_str Pending;
  in_name := name;
  in_queue_name := None;
  in_authenticated_user := au_user auth;
  in_assumed_role := au_role auth;
  in_authenticated_roles :=
    match au_roles auth with [] => None | roles => result_ok (to_string roles) end;
  in_executor_id := executor_id inner;
  in_application_version := Some (default (application_version inner) (wo_application_version opts));
  in_application_id := application_id inner;
  in_created_at := now;
  in_updated_at := now;
  in_recovery_attempts := 1;
  in_workflow_timeout_ms := None;
  in_workflow_deadline_epoch_ms := None;
  in_inputs := encoded_input;
  in_deduplication_id := None;
  in_priority := 0;
  in_queue_partition_key := None;
  in_owner_xid := owner_xid;
  in_parent_workflow_id := (st_workflow_id ∘ fst) <$> parent;
  in_class_name := re_class_name entry;
  in_config_name := re_config_name entry;
  in_serialization := Some (format_name fmt);
  in_delay_until_epoch_ms := None;
  in_increment := if is_recovery then 1 else 0;
|}.

(** The transaction: the status row and, for a child, the parent's step. *)
Definition start_tx (input : InsertWorkflowInput) (max_retries : Z)
    (parent : option (WorkflowState * Z)) : M (tx_end InsertResult) :=
  res ← insert_workflow_status input max_retries;
  if ir_dlq_triggered res then
    mret (Commit (Err (dead_letter_queue (in_workflow_id input) max_retries)))
  else
    match parent with
    | Some (pstate, step_id) =>
        record_child_workflow (st_workflow_id pstate) step_id (in_name input) (in_workflow_id input)
    | None => mret tt
    end;;
    commit res.

(** Terminal, or (unless recovering) started by someone else. *)
Definition should_skip (res : InsertResult) (owner_xid : string) (is_recovery : bool) : bool :=
  bool_decide (ir_status res = status_str Success) || bool_decide (ir_status res = status_str Error)
  || (negb is_recovery && bool_decide (ir_owner_xid res ≠ Some owner_xid)).

Definition start_workflow (name : string) (encoded_input : option string) (opts : WorkflowOptions)
    (parent : option (WorkflowState * Z)) (fmt : Format) (is_recovery : bool) : M WorkflowHandle :=
  entry ← lookup_entry name;
  workflow_id ← choose_id opts parent;
  now ← now_epoch_ms;
  owner_xid ← uuid_v4;
  let input := start_input name workflow_id entry encoded_input opts parent fmt is_recovery now owner_xid in
  res ← transaction (start_tx input (re_max_retries entry) parent);
  if should_skip res owner_xid is_recovery then mret (polling_from_inner workflow_id)
  else
    state ← WorkflowState_new workflow_id (resolve_auth opts parent);
    ch ← new_channel;
    spawn (mkTask workflow_id name encoded_input fmt (st_step_id state) (st_auth state) (Started ch));;
    mret (owned_from_inner workflow_id ch).

(** ** Running a body *)

(** What a finished body is recorded as. *)
Definition outcome_of (fmt : Format) (result : Result string)
    : WorkflowStatusType * option string * option string :=
  match result with
  | Ok out => (Success, Some out, None)
  | Err e => (Error, None, Some (serialize_workflow_error (error_to_string e) None fmt))
  end.

Definition dec_worker (key : string * string) : M unit :=
  modify (λ w, w <| w_worker_counts ::= alter (λ c, c - 1) key |>).

(** The spawned task: the body, its outcome, and then its one-shot channel
    or its worker slot. *)
Definition run_task (t : task) : M unit :=
  entry ← lookup_entry (t_name t);
  let ctx := mkContext (mkState (t_workflow_id t) (t_state t) (t_auth t)) false in
  result ← attempt (re_handler entry ctx (t_input t) (t_format t));
  let '(status, output, err_str) := outcome_of (t_format t) result in
  ignore (update_workflow_outcome (t_workflow_id t) status output err_str);;
  match t_origin t with
  | Started ch => modify (λ w, w <| w_channels ::= <[ch := result]> |>)
  | Dequeued key => dec_worker key
  end.

(** ** Enqueueing *)

Definition enqueue_input (queue_name name workflow_id : string) (entry : RegistryEntry)
    (encoded_input : option string) (opts : EnqueueOptions) (now : Z) (owner_xid : string)
    : InsertWorkflowInput := {|
  in_workflow_id := workflow_id;
  in_status := match eo_delay opts with Some _ => status_str Delayed | None => status_str Enqueued end;
  in_name := name;
  in_queue_name := Some queue_name;
  in_authenticated_user := None;
  in_assumed_role := None;
  in_authenticated_roles := None;
  in_executor_id := executor_id inner;
  in_application_version := Some (default (application_version inner) (eo_application_version opts));
  in_application_id := application_id inner;
  in_created_at := now;
  in_updated_at := now;
  in_recovery_attempts := 0;
  in_workflow_timeout_ms := None;
  in_workflow_deadline_epoch_ms := None;
  in_inputs := encoded_input;
  in_deduplication_id := eo_deduplication_id opts;
  in_priority := default 0 (eo_priority opts);
  in_queue_partition_key := eo_queue_partition_key opts;
  in_owner_xid := owner_xid;
  in_parent_workflow_id := None;
  in_class_name := re_class_name entry;
  in_config_name := re_config_name entry;
  in_serialization := Some PORTABLE_NAME;
  in_delay_until_epoch_ms := (λ d, wrap_i64 (now + wrap_i64 (Duration.as_millis d))) <$> eo_delay opts;
  in_increment := 0;
|}.

Definition enqueue_workflow (queue_name name : string) (encoded_input : option string)
    (opts : EnqueueOptions) : M WorkflowHandle :=
  entry ← lookup_entry name;
  workflow_id ← match eo_workflow_id opts with Some id => mret id | None => uuid_v4 end;
  now ← now_epoch_ms;
  owner_xid ← uuid_v4;
  transaction (
    res ← attempt (insert_workflow_status
                     (enqueue_input queue_name name workflow_id entry encoded_input opts now owner_xid)
                     (re_max_retries entry));
    mret (match res with
          | Ok _ => Commit (Ok (polling_from_inner workflow_id))
          | Err e =>
              Rollback (Err (if is_db_unique_violation e
                             then queue_deduplicated workflow_id queue_name
                                    (default "" (eo_deduplication_id opts))
                             else e))
          end)).

(** ** Child workflows *)

Definition run_child_workflow {P : Type} `{Serialize P} (ctx : WorkflowContext) (name : string)
    (input : P) (opts : WorkflowOptions) : M WorkflowHandle :=
  if ctx_within_step ctx then
    raise (step_execution (workflow_id ctx) name "cannot start a child workflow from within a step")
  else
    step_id ← next_step_id (ctx_state ctx);
    child ← check_child_workflow (workflow_id ctx) step_id;
    match child with
    | Some child_id => mret (polling_from_inner child_id)
    | None =>
        encoded ← lift (encode_input input Portable);
        start_workflow name (Some encoded) opts (Some (ctx_state ctx, step_id)) Portable false
    end.
End start.

(** ** Spawned bodies *)

(** Those of one workflow. *)
Definition tasks_of (id : string) (ts : list task) : list task :=
  filter (λ t, t_workflow_id t = id) ts.

Lemma tasks_of_own id ts : (∀ t, t ∈ ts → t_workflow_id t = id) → tasks_of id ts = ts.
Proof.
  induction ts as [|t ts IH]; [done|]. intros Hall. unfold tasks_of in *. rewrite filter_cons.
  rewrite decide_True by (apply Hall; left). rewrite IH; [done|]. intros; apply Hall; by right.
Qed.

Lemma tasks_of_other id ts : (∀ t, t ∈ ts → t_workflow_id t ≠ id) → tasks_of id ts = [].
Proof.
  induction ts as [|t ts IH]; [done|]. intros Hall. unfold tasks_of in *. rewrite filter_cons.
  rewrite decide_False by (apply Hall; left). apply IH. intros; apply Hall; by right.
Qed.

(** New bodies have step counters of their own, at the beginning. *)
Definition counters_begin (ts : list task) (w w' : World) : Prop :=
  w_counters w ⊆ w_counters w' ∧ ∀ t, t ∈ ts → w_counters w' !! t_state t = Some (-1).

Lemma counters_begin_none w w' : w_counters w' = w_counters w → counters_begin [] w w'.
Proof. intros E. split; [by rewrite E|]. by intros t ?%not_elem_of_nil. Qed.

Lemma counters_begin_app ts ts' w w1 w' :
  counters_begin ts w w1 → counters_begin ts' w1 w' → counters_begin (ts ++ ts') w w'.
Proof.
  intros [Hs Hb] [Hs' Hb']. split; [by etrans|].
  intros t [Ht|Ht]%elem_of_app; [|auto]. by eapply lookup_weaken; [apply Hb|].
Qed.

(** ** Properties *)

Section workflow_properties.
Context `{HE : Env, HJ : SerdeJson, HB : Base64Engine} (inner : DbosInner).

(** The world [start_workflow] inserts in: the clock and a UUID are read. *)
Definition started_at (w : World) : World := w <| w_reads ::= S |> <| w_uuids ::= S |>.

Lemma start_workflow_prefix name enc opts parent fmt is_recovery w entry id :
  registry inner !! name = Some entry → wo_workflow_id opts = Some id →
  start_workflow inner name enc opts parent fmt is_recovery w =
  (let owner := new_v4 (w_uuids w) in
   res ← transaction (start_tx (start_input inner name id entry enc opts parent fmt is_recovery
                                  (clock (w_reads w)) owner) (re_max_retries entry) parent);
   if should_skip res owner is_recovery then mret (polling_from_inner id)
   else
     state ← WorkflowState_new id (resolve_auth opts parent);
     ch ← new_channel;
     spawn (mkTask id name enc fmt (st_step_id state) (st_auth state) (Started ch));;
     mret (mkHandle id (Owned ch))) (started_at w).
Proof.
  intros He Hid. unfold start_workflow. eapply run_bind.
  { unfold lookup_entry. by rewrite He. }
  unfold choose_id. rewrite Hid. by do 3 (eapply run_bind; [done|]).
Qed.

(** The transaction of a top-level start on an existing row. *)
Lemma start_tx_existing i mr w r :
  workflow_status (w_db w) !! in_workflow_id i = Some r → in_queue_name i = None →
  wf_name r = in_name i →
  let r1 := on_conflict_row i r in
  let dlq := exceeds_attempts (wf_status r) (wf_recovery_attempts r1) mr in
  transaction (start_tx i mr None) w =
    (if dlq then Err (dead_letter_queue (in_workflow_id i) mr)
     else Ok (mkInsertResult (wf_recovery_attempts r1) (wf_status r) (wf_name r) (wf_queue_name r)
                (wf_owner_xid r) false),
     w <| w_db ::= set_field workflow_status
            <[in_workflow_id i := if dlq then dead_letter_row r1 else r1]> |>).
Proof.
  intros Hr Hq Hname r1 dlq. unfold transaction, start_tx, mbind, M_bind.
  rewrite (insert_existing_same i mr w r) by done. fold r1 dlq. simpl. by destruct dlq.
Qed.

(** C15: starting a workflow is idempotent in its id.  A start (not a
    recovery) of an id that exists under the same name runs nothing: no body
    is spawned, the caller gets a handle that polls for the existing
    workflow's result, and the row keeps its status, input and result
    (only the bookkeeping columns change). *)
Theorem start_is_idempotent name enc opts fmt w entry id r :
  registry inner !! name = Some entry → wo_workflow_id opts = Some id →
  workflow_status (w_db w) !! id = Some r → wf_name r = name →
  wf_owner_xid r ≠ Some (new_v4 (w_uuids w)) →
  exceeds_attempts (wf_status r) (wf_recovery_attempts r) (re_max_retries entry) = false →
  ∃ w' r', start_workflow inner name enc opts None fmt false w = (Ok (mkHandle id Polling), w') ∧
    w_tasks w' = w_tasks w ∧
    w_db w' = (w_db w) <| workflow_status ::= <[id := r']> |> ∧
    same_work r r' ∧ wf_status r' = wf_status r ∧
    wf_recovery_attempts r' = wf_recovery_attempts r.
Proof.
  intros He Hid Hr Hname Hown Hdlq.
  rewrite (start_workflow_prefix _ _ _ _ _ _ _ _ _ He Hid). cbv zeta.
  set (i := start_input _ _ _ _ _ _ _ _ _ _ _).
  assert (wf_recovery_attempts (on_conflict_row i r) = wf_recovery_attempts r) as Hatt.
  { unfold on_conflict_row. simpl. lia. }
  eexists _, (on_conflict_row i r). split.
  - eapply run_bind.
    + rewrite (start_tx_existing i _ _ r) by done. by rewrite Hatt, Hdlq.
    + unfold should_skip. simpl. rewrite (bool_decide_eq_true_2 (wf_owner_xid r ≠ _)) by done.
      by rewrite orb_true_r.
  - by split_and!.
Qed.

(** The row and the task of a fresh top-level start or child. *)
Definition fresh_row name id entry enc opts parent fmt w : wf_row :=
  inserted_row (start_input inner name id entry enc opts parent fmt false
                  (clock (w_reads w)) (new_v4 (w_uuids w))).

Definition fresh_task name id enc opts parent fmt w ch : task :=
  mkTask id name enc fmt (fresh (dom (w_counters w))) (resolve_auth opts parent) (Started ch).

(** The transaction of a top-level start of a new id. *)
Lemma start_tx_new name id entry enc opts fmt w :
  workflow_status (w_db w) !! id = None → re_max_retries entry < 2 ^ 63 - 1 →
  let i := start_input inner name id entry enc opts None fmt false
             (clock (w_reads w)) (new_v4 (w_uuids w)) in
  transaction (start_tx i (re_max_retries entry) None) (started_at w) =
    (Ok (mkInsertResult 1 (status_str Pending) name None (Some (new_v4 (w_uuids w))) false),
     (started_at w) <| w_db ::= set_field workflow_status
        <[id := fresh_row name id entry enc opts None fmt w]> |>).
Proof.
  intros Hn Hmr i. unfold transaction, start_tx, mbind, M_bind.
  rewrite insert_new_effect by done. cbn [in_queue_name i start_input dedup_clash].
  cbv zeta. change (in_recovery_attempts i) with 1.
  by rewrite exceeds_attempts_fresh by lia.
Qed.

(** The channels in use. *)
Definition channels_of (w : World) : gset nat :=
  dom (w_channels w) ∪ list_to_set (omap (λ t, match t_origin t with
    | Started ch => Some ch | Dequeued _ => None end) (w_tasks w)) ∪ w_taken w.

(** A top-level start of a new id. *)
Lemma start_fresh_run name enc opts fmt w entry id :
  registry inner !! name = Some entry → wo_workflow_id opts = Some id →
  workflow_status (w_db w) !! id = None → re_max_retries entry < 2 ^ 63 - 1 →
  let ch := fresh (channels_of w) in
  ∃ w', start_workflow inner name enc opts None fmt false w = (Ok (mkHandle id (Owned ch)), w') ∧
    w_db w' = (w_db w) <| workflow_status ::= <[id := fresh_row name id entry enc opts None fmt w]> |> ∧
    w_tasks w' = w_tasks w ++ [fresh_task name id enc opts None fmt w ch] ∧
    w_counters w' = <[fresh (dom (w_counters w)) := -1]> (w_counters w).
Proof.
  intros He Hid Hn Hmr ch. rewrite (start_workflow_prefix _ _ _ _ _ _ _ _ _ He Hid). cbv zeta.
  eexists. split.
  - eapply run_bind; [by apply start_tx_new|]. unfold should_skip. cbn [ir_status ir_owner_xid negb].
    rewrite (bool_decide_eq_false_2 (Some _ ≠ Some _)) by auto. simpl.
    do 3 (eapply run_bind; [done|]). done.
  - by split_and!.
Qed.

(** A fresh start records the workflow and spawns it exactly once: the
    row is inserted [PENDING] with the caller's input, the body is queued as
    one new task with its own fresh step counter at [-1], and the handle owns
    a channel no other task or handle uses. *)
Theorem start_fresh_spawns_once name enc opts fmt w entry id :
  registry inner !! name = Some entry → wo_workflow_id opts = Some id →
  workflow_status (w_db w) !! id = None → re_max_retries entry < 2 ^ 63 - 1 →
  ∃ w' ch, start_workflow inner name enc opts None fmt false w = (Ok (mkHandle id (Owned ch)), w') ∧
    w_db w' = (w_db w) <| workflow_status ::= <[id := fresh_row name id entry enc opts None fmt w]> |> ∧
    w_tasks w' = w_tasks w ++ [fresh_task name id enc opts None fmt w ch] ∧
    w_counters w !! fresh (dom (w_counters w)) = None ∧
    w_counters w' = <[fresh (dom (w_counters w)) := -1]> (w_counters w) ∧
    w_channels w !! ch = None ∧ (ch ∉ w_taken w) ∧
    (∀ t, t ∈ w_tasks w → t_origin t ≠ Started ch).
Proof.
  intros He Hid Hn Hmr. destruct (start_fresh_run name enc opts fmt w entry id) as (w' & Hrun & Hd & Ht & Hc);
    [done..|]. pose proof (is_fresh (channels_of w)) as Hch. exists w', (fresh (channels_of w)).
  set (ch := fresh (channels_of w)) in *. unfold channels_of in Hch.
  rewrite !not_elem_of_union, not_elem_of_dom, elem_of_list_to_set in Hch.
  destruct Hch as [[Hch Htasks] Htaken].
  split_and!; try done; [apply not_elem_of_dom, is_fresh|].
  intros t Ht' Ho. apply Htasks, list_elem_of_omap. exists t. by rewrite Ho.
Qed.

(** ** Enqueueing *)

Definition enqueued_row queue name id entry enc opts w : wf_row :=
  inserted_row (enqueue_input inner queue name id entry enc opts (clock (w_reads w)) (new_v4 (w_uuids w))).

Lemma enqueue_new queue name enc opts w entry id :
  registry inner !! name = Some entry → eo_workflow_id opts = Some id →
  workflow_status (w_db w) !! id = None → re_max_retries entry < 2 ^ 63 - 1 →
  enqueue_workflow inner queue name enc opts w =
  if dedup_clash (workflow_status (w_db w)) (Some queue) (eo_deduplication_id opts)
  then (Err (queue_deduplicated id queue (default "" (eo_deduplication_id opts))), started_at w)
  else (Ok (mkHandle id Polling),
        (started_at w) <| w_db ::= set_field workflow_status
           <[id := enqueued_row queue name id entry enc opts w]> |>).
Proof.
  intros He Hid Hn Hmr. unfold enqueue_workflow. eapply run_bind.
  { unfold lookup_entry. by rewrite He. }
  rewrite Hid. do 3 (eapply run_bind; [done|]).
  unfold transaction, mbind, M_bind, attempt. rewrite insert_new_effect by done.
  cbn [in_queue_name in_deduplication_id enqueue_input].
  change (workflow_status (w_db _)) with (workflow_status (w_db w)).
  destruct (dedup_clash _ _ _); [done|]. cbv zeta.
  change (in_recovery_attempts _) with 0. by rewrite exceeds_attempts_fresh by lia.
Qed.

Lemma dedup_clash_row t id r queue d :
  t !! id = Some r → wf_queue_name r = Some queue → wf_deduplication_id r = Some d →
  dedup_clash t (Some queue) (Some d) = true.
Proof. intros Hr Hq Hd. apply bool_decide_eq_true. by exists id, r. Qed.

(** C37: a deduplication id admits one workflow per queue.  An enqueue under a
    free id adds one row, [ENQUEUED] or, with a delay, [DELAYED] until then,
    and runs nothing; while that row holds its queue and deduplication id,
    enqueueing another workflow with them fails with [QueueDeduplicated] and
    leaves the database as it was. *)
Theorem enqueue_deduplicates queue name enc opts w entry id d :
  registry inner !! name = Some entry → eo_workflow_id opts = Some id →
  workflow_status (w_db w) !! id = None → re_max_retries entry < 2 ^ 63 - 1 →
  eo_deduplication_id opts = Some d →
  dedup_clash (workflow_status (w_db w)) (Some queue) (Some d) = false →
  ∃ w' r, enqueue_workflow inner queue name enc opts w = (Ok (mkHandle id Polling), w') ∧
    w_db w' = (w_db w) <| workflow_status ::= <[id := r]> |> ∧ w_tasks w' = w_tasks w ∧
    wf_status r = status_str (match eo_delay opts with Some _ => Delayed | None => Enqueued end) ∧
    wf_queue_name r = Some queue ∧ wf_deduplication_id r = Some d ∧ wf_inputs r = enc ∧
    ∀ w2 r2 enc2 opts2 id2,
      workflow_status (w_db w2) !! id = Some r2 →
      wf_queue_name r2 = wf_queue_name r → wf_deduplication_id r2 = wf_deduplication_id r →
      eo_workflow_id opts2 = Some id2 → eo_deduplication_id opts2 = Some d →
      workflow_status (w_db w2) !! id2 = None →
      ∃ w3, enqueue_workflow inner queue name enc2 opts2 w2 = (Err (queue_deduplicated id2 queue d), w3) ∧
            w_db w3 = w_db w2.
Proof.
  intros He Hid Hn Hmr Hd Hclash. eexists _, (enqueued_row queue name id entry enc opts w).
  rewrite (enqueue_new _ _ _ _ _ _ _ He Hid Hn Hmr), Hd, Hclash.
  split_and!; [done..| |done|done|done|].
  - simpl. by destruct (eo_delay opts).
  - intros w2 r2 enc2 opts2 id2 Hr2 Hq2 Hd2 Hid2 Hdd2 Hn2.
    eexists. rewrite (enqueue_new _ _ _ _ _ _ _ He Hid2 Hn2 Hmr), Hdd2.
    rewrite (dedup_clash_row _ _ _ _ _ Hr2 Hq2); [done|]. by rewrite Hd2.
Qed.

(** ** Child workflows *)

Lemma start_tx_child i mr p k w res w1 :
  transaction (start_tx i mr (Some (p, k))) w = (Ok res, w1) →
  ∃ o, operation_outputs (w_db w1) !! (st_workflow_id p, k) = Some o ∧
       op_child_workflow_id o = Some (in_workflow_id i).
Proof.
  unfold transaction. destruct (start_tx _ _ _ _) as [[e|e] w2] eqn:E; [|done].
  unfold start_tx in E. apply M_bind_Ok in E as (ir & w3 & _ & E).
  destruct (ir_dlq_triggered ir).
  { injection E as <- <-. done. }
  apply M_bind_Ok in E as (u & w4 & Hr & E). injection E as <- <-. intros [= _ <-].
  apply record_operation_Ok in Hr as (_ & o & Ho & _ & _ & _ & Hc & _). by exists o.
Qed.

(** A started child is recorded under its parent's step. *)
Lemma start_child_recorded name enc opts p k fmt is_recovery w h w1 :
  start_workflow inner name enc opts (Some (p, k)) fmt is_recovery w = (Ok h, w1) →
  ∃ o, operation_outputs (w_db w1) !! (st_workflow_id p, k) = Some o ∧
       op_child_workflow_id o = Some (h_id h).
Proof.
  unfold start_workflow. intros (entry & w2 & _ & H)%M_bind_Ok.
  apply M_bind_Ok in H as (id & w3 & _ & H). do 2 apply M_bind_Ok in H as (? & ? & _ & H).
  apply M_bind_Ok in H as (res & w4 & Htx & H). cbv zeta in Htx.
  assert (∃ o, operation_outputs (w_db w4) !! (st_workflow_id p, k) = Some o ∧
               op_child_workflow_id o = Some id) as (o & Ho & Hc).
  { exact (start_tx_child _ _ _ _ _ _ _ Htx). }
  exists o. destruct (should_skip _ _ _); [by injection H as <- <-|].
  apply M_bind_Ok in H as (st & w5 & [= _ <-] & H). apply M_bind_Ok in H as (ch & w6 & [= _ <-] & H).
  apply M_bind_Ok in H as (u & w7 & [= _ <-] & H). by injection H as <- <-.
Qed.

(** The step id a context takes next. *)
Definition next_id (ctx : WorkflowContext) (w : World) : Z :=
  wrap_i32 (default 0 (w_counters w !! st_step_id (ctx_state ctx)) + 1).

Lemma child_replayed {P : Type} `{Serialize P} ctx name (input : P) opts w o c :
  ctx_within_step ctx = false →
  operation_outputs (w_db w) !! (workflow_id ctx, next_id ctx w) = Some o →
  op_child_workflow_id o = Some c →
  ∃ w', run_child_workflow inner ctx name input opts w = (Ok (mkHandle c Polling), w') ∧
        w_db w' = w_db w ∧ w_tasks w' = w_tasks w.
Proof.
  intros Hs Ho Hc. unfold run_child_workflow. rewrite Hs. eexists. split.
  - eapply run_bind; [done|]. eapply run_bind with (a := Some c); [|done]. cbv zeta.
    unfold check_child_workflow, gets_db, gets, compose. simpl.
    change (wrap_i32 _) with (next_id ctx w). rewrite Ho. simpl. by rewrite Hc.
  - done.
Qed.

(** C14: a child is started at most once per step of its parent.  Once
    [run_child_workflow] has returned a handle, every later execution of the
    parent that reaches the same step id returns a handle on that same child,
    whatever name, input and options it passes, and neither the database
    nor the list of spawned bodies changes. *)
Theorem child_started_once {P : Type} `{Serialize P} ctx name (input : P) opts w h w1 :
  run_child_workflow inner ctx name input opts w = (Ok h, w1) →
  ∃ o, operation_outputs (w_db w1) !! (workflow_id ctx, next_id ctx w) = Some o ∧
    op_child_workflow_id o = Some (h_id h) ∧
    ∀ ctx2 name2 (input2 : P) opts2 w2,
      ctx_within_step ctx2 = false → workflow_id ctx2 = workflow_id ctx →
      next_id ctx2 w2 = next_id ctx w →
      operation_outputs (w_db w1) ⊆ operation_outputs (w_db w2) →
      ∃ w3, run_child_workflow inner ctx2 name2 input2 opts2 w2 = (Ok (mkHandle (h_id h) Polling), w3) ∧
            w_db w3 = w_db w2 ∧ w_tasks w3 = w_tasks w2.
Proof.
  intros Hrun. cut (∃ o, operation_outputs (w_db w1) !! (workflow_id ctx, next_id ctx w) = Some o ∧
    op_child_workflow_id o = Some (h_id h)).
  { intros (o & Ho & Hc). exists o. split_and!; [done..|]. intros ctx2 * Hs Hid Hk Hsub.
    apply (child_replayed _ _ _ _ _ o); [done| |done]. rewrite Hid, Hk.
    by apply (lookup_weaken _ _ _ _ Ho). }
  revert Hrun. unfold run_child_workflow. destruct (ctx_within_step ctx); [done|].
  intros (k & w2 & [= <- <-] & H1)%M_bind_Ok. apply M_bind_Ok in H1 as (child & w2 & [= Hch <-] & H1).
  cbv zeta in *. fold (next_id ctx w) in H1, Hch. simpl in Hch.
  destruct child as [c|].
  - injection H1 as <- <-. simpl. apply bind_Some in Hch as (o & Ho & Hc). eauto.
  - apply M_bind_Ok in H1 as (enc & w2 & _ & H1). by eapply start_child_recorded.
Qed.

(** ** Results *)

(** The row after its body has finished with [result]. *)
Definition finished_row (fmt : Format) (result : Result string) (now : Z) (r : wf_row) : wf_row :=
  let '(status, output, err) := outcome_of fmt result in outcome_row status output err now r.

Lemma run_task_run t ch entry result w w1 :
  registry inner !! t_name t = Some entry → t_origin t = Started ch →
  re_handler entry (mkContext (mkState (t_workflow_id t) (t_state t) (t_auth t)) false)
    (t_input t) (t_format t) w = (result, w1) →
  run_task inner t w = (Ok tt,
    w1 <| w_reads ::= S |>
       <| w_db ::= set_field workflow_status
            (alter (finished_row (t_format t) result (clock (w_reads w1))) (t_workflow_id t)) |>
       <| w_channels ::= <[ch := result]> |>).
Proof.
  intros He Ho Hh. unfold run_task. eapply run_bind.
  { unfold lookup_entry. by rewrite He. }
  eapply run_bind; [unfold attempt; by rewrite Hh|]. rewrite Ho.
  unfold finished_row. by destruct (outcome_of _ _) as [[status output] err].
Qed.

Lemma poll_result_terminal fuel (R : Type) `{Deserialize R} id w r o :
  workflow_status (w_db w) !! id = Some r → await_outcome (Some r) = Some o →
  poll_result (S fuel) R id w = (Some <$> outcome_result R id o, w).
Proof.
  intros Hr Ho. unfold poll_result. eapply run_bind.
  - rewrite await_result_step. unfold row_after. simpl. by rewrite Hr, Ho.
  - apply fmap_lift.
Qed.

Lemma owned_result fuel (R : Type) `{Deserialize R} id ch w result :
  ch ∉ w_taken w → w_channels w !! ch = Some result →
  fst (get_result fuel R (mkHandle id (Owned ch)) w) =
  (encoded ← result; Some <$> decode_value R (Some encoded) (Some PORTABLE_NAME)).
Proof.
  intros Ht Hc. unfold get_result. simpl. run_M. rewrite bool_decide_eq_false_2 by done. simpl.
  rewrite Hc. destruct result as [enc|e]; [|done]. simpl. by destruct (decode_value R _ _).
Qed.

(** What the handles of a finished body report. *)
Definition owned_outcome (R : Type) `{Deserialize R} (result : Result string) : Result (option R) :=
  encoded ← result; Some <$> decode_value R (Some encoded) (Some PORTABLE_NAME).
Definition polled_outcome (R : Type) `{Deserialize R} (id : string) (cancelled : bool)
    (result : Result string) : Result (option R) :=
  if cancelled then Err (awaited_workflow_cancelled id)
  else match result with
       | Ok out => Some <$> decode_value R (Some out) (Some PORTABLE_NAME)
       | Err e => Err (other (error_to_string e))
       end.

(** What a poll finds in the row of a finished body. *)
Lemma poll_finished fuel (R : Type) `{Deserialize R, !SerdeJsonLaws HJ} id result now w r :
  workflow_status (w_db w) !! id = Some (finished_row Portable result now r) →
  wf_serialization r = Some PORTABLE_NAME →
  fst (poll_result (S fuel) R id w) =
  polled_outcome R id (bool_decide (wf_status r = status_str Cancelled)) result.
Proof.
  intros Hrow Hser. unfold finished_row, outcome_row in Hrow. case_bool_decide as Hc.
  - assert (workflow_status (w_db w) !! id = Some r) as Hrow' by (rewrite Hrow; by destruct result).
    by erewrite poll_result_terminal; [|exact Hrow'|by cbn; rewrite Hc].
  - destruct result as [out|e]; simpl in Hrow.
    + erewrite poll_result_terminal; [|exact Hrow|done]. simpl. by rewrite Hser.
    + erewrite poll_result_terminal; [|exact Hrow|done].
      cbn [outcome_result wf_serialization wf_error]. by rewrite Hser, stored_error_portable.
Qed.

(** However the task came to be. *)
Lemma task_polled fuel (R : Type) `{Deserialize R, !SerdeJsonLaws HJ} t entry result w w1 r :
  registry inner !! t_name t = Some entry → t_format t = Portable →
  re_handler entry (mkContext (mkState (t_workflow_id t) (t_state t) (t_auth t)) false)
    (t_input t) (t_format t) w = (result, w1) →
  workflow_status (w_db w1) !! t_workflow_id t = Some r → wf_serialization r = Some PORTABLE_NAME →
  ∃ w2, run_task inner t w = (Ok tt, w2) ∧
    fst (get_result (S fuel) R (mkHandle (t_workflow_id t) Polling) w2) =
    polled_outcome R (t_workflow_id t) (bool_decide (wf_status r = status_str Cancelled)) result.
Proof.
  intros He Hf Hh Hr Hser.
  assert (∃ w2, run_task inner t w = (Ok tt, w2) ∧ workflow_status (w_db w2) =
    alter (finished_row Portable result (clock (w_reads w1))) (t_workflow_id t) (workflow_status (w_db w1)))
    as (w2 & Hrun & Hd).
  { destruct (t_origin t) as [ch|key] eqn:Ho.
    - eexists. split; [by eapply run_task_run|]. by rewrite Hf.
    - unfold run_task. destruct result as [out|e]; eexists; (split;
        [eapply run_bind; [unfold lookup_entry; by rewrite He|];
         eapply run_bind; [unfold attempt; rewrite Hh; reflexivity|]; rewrite Ho, Hf; unfold ignore; run_M; reflexivity|reflexivity]). }
  exists w2. split; [done|]. apply (poll_finished _ _ _ _ (clock (w_reads w1))); [|done]. by rewrite Hd, lookup_alter_eq, Hr.
Qed.

Lemma task_results fuel (R : Type) `{Deserialize R, !SerdeJsonLaws HJ} t ch entry result w w1 r :
  registry inner !! t_name t = Some entry → t_origin t = Started ch → t_format t = Portable →
  re_handler entry (mkContext (mkState (t_workflow_id t) (t_state t) (t_auth t)) false)
    (t_input t) (t_format t) w = (result, w1) →
  workflow_status (w_db w1) !! t_workflow_id t = Some r →
  wf_serialization r = Some PORTABLE_NAME →
  let id := t_workflow_id t in
  let cancelled := bool_decide (wf_status r = status_str Cancelled) in
  ∃ w2, run_task inner t w = (Ok tt, w2) ∧
    (cancelled = true → workflow_status (w_db w2) !! id = Some r) ∧
    (ch ∉ w_taken w1 →
     fst (get_result (S fuel) R (mkHandle id (Owned ch)) w2) = owned_outcome R result) ∧
    fst (get_result (S fuel) R (mkHandle id Polling) w2) = polled_outcome R id cancelled result.
Proof.
  intros He Ho Hf Hh Hr Hser id cancelled. pose proof (run_task_run _ _ _ _ _ _ He Ho Hh) as Hrun.
  rewrite Hf in Hrun. eexists. split; [exact Hrun|]. set (w2 := _ <| w_channels ::= _ |>).
  assert (workflow_status (w_db w2) !! id =
          Some (finished_row Portable result (clock (w_reads w1)) r)) as Hrow.
  { simpl. by rewrite lookup_alter_eq, Hr. }
  assert (w_channels w2 !! ch = Some result) as Hchan by apply lookup_insert_eq.
  assert (ch ∉ w_taken w1 → fst (get_result (S fuel) R (mkHandle id (Owned ch)) w2) = owned_outcome R result)
    as Hown' by (intros Htaken; by apply owned_result).
  clearbody w2.
  change (get_result _ _ (mkHandle id Polling) w2) with (poll_result (S fuel) R id w2).
  split_and!; [|done|by eapply poll_finished].
  intros Hc%bool_decide_eq_true. rewrite Hrow. unfold finished_row, outcome_row. simpl.
  rewrite bool_decide_eq_true_2 by done. by destruct result.
Qed.

(** C36: the result of a workflow is the same whoever asks.  When the body's
    task has run, the owned handle (through its channel) and any polling
    handle (through the row) give the same value, decoded by the same rules;
    an error keeps its text but not its code in the polled result.  A
    workflow cancelled meanwhile keeps its row, so polling handles report
    the cancellation although the owned handle has the body's result. *)
Theorem handles_agree fuel (R : Type) `{Deserialize R, !SerdeJsonLaws HJ} t ch entry result w w1 r :
  registry inner !! t_name t = Some entry → t_origin t = Started ch → t_format t = Portable →
  re_handler entry (mkContext (mkState (t_workflow_id t) (t_state t) (t_auth t)) false)
    (t_input t) (t_format t) w = (result, w1) →
  workflow_status (w_db w1) !! t_workflow_id t = Some r →
  wf_serialization r = Some PORTABLE_NAME → ch ∉ w_taken w1 →
  let id := t_workflow_id t in
  ∃ w2, run_task inner t w = (Ok tt, w2) ∧
    let owned := fst (get_result (S fuel) R (mkHandle id (Owned ch)) w2) in
    let polled := fst (get_result (S fuel) R (mkHandle id Polling) w2) in
    if decide (wf_status r = status_str Cancelled) then
      workflow_status (w_db w2) !! id = Some r ∧ polled = Err (awaited_workflow_cancelled id)
    else
      match result with
      | Ok out => owned = polled ∧ owned = Some <$> decode_value R (Some out) (Some PORTABLE_NAME)
      | Err e => owned = Err e ∧ polled = Err (other (error_to_string e))
      end.
Proof.
  intros He Ho Hf Hh Hr Hser Hch id.
  destruct (task_results fuel R t ch entry result w w1 r) as (w2 & Hrun & Hkeep & Hown & Hpoll); [done..|].
  exists w2. split; [done|]. cbv zeta. fold id in Hown, Hpoll, Hkeep. rewrite (Hown Hch), Hpoll.
  case_decide as Hc.
  - rewrite (bool_decide_eq_true_2 _ Hc) in *. split; [auto | done].
  - rewrite bool_decide_eq_false_2 by done. by destruct result.
Qed.
End workflow_properties.
