(* ===== verification/ReplayChild.v ===== *)
(** * Replay of child workflows

    Starting a child is an operation of its parent like the others: what it
    leaves alone, and that it replays ([replays] of [Replay]). *)
From S2P Require Import Prelude Errors Json Serialize Database World Status Steps Context.
From S2P Require Import Replay Workflow.

Local Open Scope string_scope.
Local Open Scope Z_scope.
Local Open Scope list_scope.
Local Open Scope dbos_scope.

Section frames.
Context `{HE : Env, HJ : SerdeJson, HB : Base64Engine} (id : string) (k : nat).

(** A new state gets a counter of its own. *)
Lemma frame_state_new P wid auth : frame id k P (WorkflowState_new wid auth).
Proof.
  intros w r w1 [c Hc] [= <- <-]. split; [|done]. simpl. apply lookup_insert_ne.
  intros Heq. pose proof (is_fresh (dom (w_counters w))) as Hf. rewrite Heq in Hf.
  by eapply Hf, elem_of_dom_2.
Qed.

Lemma frame_new_channel P : frame id k P new_channel.
Proof. by intros w r w1 _ [= <- <-]. Qed.

Lemma frame_spawn P t : frame id k P (spawn t).
Proof. unfold spawn. solve_frame. Qed.

Lemma frame_upsert P i : frame id k P (upsert_workflow_status i).
Proof. unfold upsert_workflow_status. solve_frame. Qed.

Lemma frame_insert_status P i mr : frame id k P (insert_workflow_status i mr).
Proof.
  unfold insert_workflow_status. apply frame_bind; [apply frame_upsert|]. intros row.
  case_match; [solve_frame|]. apply frame_bind; [repeat case_match; solve_frame|]. solve_frame.
Qed.

Lemma frame_start_tx (P : Z → Prop) i mr p s :
  st_workflow_id p = id → P s → frame id k P (start_tx i mr (Some (p, s))).
Proof.
  intros Hp HP. unfold start_tx, commit. apply frame_bind; [apply frame_insert_status|]. intros res.
  case_match; [solve_frame|]. apply frame_bind; [|solve_frame].
  unfold record_child_workflow. rewrite Hp. by apply frame_record.
Qed.

Lemma frame_start_child (P : Z → Prop) inner name enc opts p s fmt is_recovery :
  st_workflow_id p = id → P s →
  frame id k P (start_workflow inner name enc opts (Some (p, s)) fmt is_recovery).
Proof.
  intros Hp HP. unfold start_workflow, lookup_entry. apply frame_bind; [solve_frame|]. intros entry.
  apply frame_bind; [unfold choose_id; solve_frame|]. intros wid.
  apply frame_bind; [solve_frame|]. intros now. apply frame_bind; [solve_frame|]. intros owner.
  apply frame_bind; [apply frame_transaction; by apply frame_start_tx|]. intros res.
  case_match; [solve_frame|]. apply frame_bind; [apply frame_state_new|]. intros st.
  apply frame_bind; [apply frame_new_channel|]. intros ch. apply frame_bind; [apply frame_spawn|]. solve_frame.
Qed.

(** A start that fails records nothing. *)
Lemma start_tx_failed i mr p s w e w1 fid :
  is_Some (w_counters w !! k) →
  transaction (start_tx i mr (Some (p, s))) w = (Err e, w1) → ops id w1 fid = ops id w fid.
Proof.
  intros Hk Hrun. unfold transaction in Hrun.
  destruct (start_tx _ _ _ _) as [[[r|r]|e'] w2] eqn:E; [|by injection Hrun as _ <-..].
  injection Hrun as -> <-. unfold start_tx in E. apply M_bind_Ok in E as (ir & w3 & Hi & E).
  destruct (frame_insert_status (λ _, False) i mr _ _ _ Hk Hi) as [_ Ho].
  destruct (ir_dlq_triggered ir).
  - injection E as _ <-. apply Ho. tauto.
  - apply M_bind_Ok in E as (u & w4 & _ & E). discriminate E.
Qed.

Lemma start_child_failed inner name enc opts p s fmt is_recovery w e w1 fid :
  is_Some (w_counters w !! k) →
  start_workflow inner name enc opts (Some (p, s)) fmt is_recovery w = (Err e, w1) →
  ops id w1 fid = ops id w fid.
Proof.
  intros Hk. unfold start_workflow, lookup_entry, lift, choose_id.
  intros [[= _ <-]|(entry & w2 & [= _ <-] & H)]%M_bind_Err; [done|].
  assert (∃ wid w3, w_db w3 = w_db w ∧ w_counters w3 = w_counters w ∧
    (now ← now_epoch_ms; owner_xid ← uuid_v4;
     let input := start_input inner name wid entry enc opts (Some (p, s)) fmt is_recovery now owner_xid in
     res ← transaction (start_tx input (re_max_retries entry) (Some (p, s)));
     if should_skip res owner_xid is_recovery then mret (polling_from_inner wid)
     else
       state ← WorkflowState_new wid (resolve_auth opts (Some (p, s)));
       ch ← new_channel;
       spawn (mkTask wid name enc fmt (st_step_id state) (st_auth state) (Started ch));;
       mret (mkHandle wid (Owned ch))) w3 = (Err e, w1)) as (wid & w3 & Hd & Hc & H3).
  { apply M_bind_Err in H as [H|(wid & w3 & Hw & H)]; [by destruct (wo_workflow_id opts)|].
    exists wid, w3. split_and!; [..|exact H]; by destruct (wo_workflow_id opts); injection Hw as _ <-. }
  clear H. apply M_bind_Err in H3 as [[=]|(now & w4 & [= _ <-] & H3)].
  apply M_bind_Err in H3 as [[=]|(owner & w5 & [= _ <-] & H3)]. cbv zeta in H3.
  apply M_bind_Err in H3 as [H3|(res & w6 & _ & H3)].
  - apply (start_tx_failed _ _ _ _ _ _ _ fid) in H3; [|by simpl; rewrite Hc].
    rewrite H3. unfold ops. simpl. by rewrite Hd.
  - destruct (should_skip _ _ _); [done|].
    by repeat (apply M_bind_Err in H3 as [[=]|(? & ? & _ & H3)]).
Qed.
End frames.

(** Starting a child, as the id of the child. *)
Definition start_child `{Env, SerdeJson, Base64Engine} {P : Type} `{Serialize P} (inner : DbosInner)
    (ctx : WorkflowContext) (name : string) (input : P) (opts : WorkflowOptions) : M string :=
  h_id <$> run_child_workflow inner ctx name input opts.

Section replay.
Context `{HE : Env, HJ : SerdeJson, !SerdeJsonLaws HJ, HB : Base64Engine, !Base64Laws HB, HS : PgScan}.
Context (id : string) (k k' : nat) (Hsw : single_writer id) (ctx ctx' : WorkflowContext).
Context (Hid : workflow_id ctx = id) (Hid' : workflow_id ctx' = id).
Context (Hk : st_step_id (ctx_state ctx) = k) (Hk' : st_step_id (ctx_state ctx') = k').

(** The part after the step id has been taken. *)
Definition start_child_at {P : Type} `{Serialize P} (inner : DbosInner) (c : WorkflowContext)
    (name : string) (input : P) (opts : WorkflowOptions) (s : Z) : M string :=
  h_id <$> (child ← check_child_workflow id s;
            match child with
            | Some child_id => mret (polling_from_inner child_id)
            | None =>
                encoded ← lift (encode_input input Portable);
                start_workflow inner name (Some encoded) opts (Some (ctx_state c, s)) Portable false
            end).

Lemma start_child_split {P : Type} `{Serialize P} inner c name (input : P) opts w :
  ctx_within_step c = false → workflow_id c = id →
  start_child inner c name input opts w =
  (s ← next_step_id (ctx_state c); start_child_at inner c name input opts s) w.
Proof.
  intros Hw Hc. unfold start_child, run_child_workflow, start_child_at. rewrite Hw, Hc.
  unfold fmap, M_fmap. by rewrite M_bind_assoc.
Qed.

Lemma frame_start_child_at {P : Type} `{Serialize P} inner name (input : P) opts s :
  frame id k (.= s) (start_child_at inner ctx name input opts s).
Proof.
  unfold start_child_at, fmap, M_fmap. apply frame_bind; [|solve_frame].
  apply frame_bind; [unfold check_child_workflow, gets_db; solve_frame|]. intros [child|]; [solve_frame|].
  apply frame_bind; [solve_frame|]. intros enc. by apply frame_start_child.
Qed.

(** What a start that recorded its step returned. *)
Lemma start_child_at_inv {P : Type} `{Serialize P} inner name (input : P) opts s w r w1 o :
  is_Some (w_counters w !! k) → start_child_at inner ctx name input opts s w = (r, w1) →
  ops id w s = None → ops id w1 s = Some o →
  ∃ child, r = Ok child ∧ op_child_workflow_id o = Some child.
Proof.
  intros Hk0 Hrun Hn Ho. unfold start_child_at, fmap, M_fmap in Hrun. rewrite M_bind_assoc in Hrun.
  unfold check_child_workflow, gets_db in Hrun. unfold mbind at 1, M_bind at 1, gets, compose in Hrun.
  unfold ops in Hn. rewrite Hn in Hrun. cbn [mbind option_bind] in Hrun.
  destruct (encode_input input Portable) as [enc|e].
  - unfold mbind, M_bind, lift in Hrun.
    destruct (start_workflow _ _ _ _ _ _ _ w) as [[h|e] w2] eqn:E.
    + injection Hrun as <- <-. destruct (start_child_recorded _ _ _ _ _ _ _ _ _ _ _ E) as (o' & Ho' & Hc).
      exists (h_id h). split; [done|]. unfold ops in Ho. change (st_workflow_id (ctx_state ctx)) with (workflow_id ctx) in Ho'.
      rewrite Hid in Ho'. congruence.
    + injection Hrun as _ <-. apply (start_child_failed id k _ _ _ _ _ _ _ _ _ _ _ s) in E; [|done].
      unfold ops in *. congruence.
  - injection Hrun as _ <-. unfold ops in Ho. congruence.
Qed.

(** Whatever a replay asks for, it gets the child that was started. *)
Lemma replays_start_child {P P' : Type} `{Serialize P, Serialize P'} inner inner' name name' (x : P) (x' : P')
    opts opts' :
  ctx_within_step ctx = false → ctx_within_step ctx' = false →
  replays id k k' 1 (start_child inner ctx name x opts) (start_child inner' ctx' name' x' opts').
Proof.
  intros Hw Hw'.
  eapply replays_ext; [intros w; by apply start_child_split..|].
  apply replays_one; [done..| |]; intros s; [apply frame_start_child_at|].
  intros w r w1 o Hk0 Hn Hrun Ho w' Hl Hw0.
  destruct (start_child_at_inv _ _ _ _ _ _ _ _ _ Hk0 Hrun Hn Ho) as (child & -> & Hc).
  exists (Ok child), w'. split_and!; [|done|done|apply rtc_refl].
  unfold start_child_at, fmap, M_fmap. rewrite M_bind_assoc.
  unfold check_child_workflow, gets_db, mbind, M_bind, gets, compose, ops in *.
  rewrite Hw0. cbn. by rewrite Hc.
Qed.
End replay.
