(* ===== verification/Program.v ===== *)
(** * Workflow programs

    A workflow body as the sequence of context operations it performs: each
    operation yields a [Result] the rest of the body may depend on.  Running a
    body can stop at any operation, as a crash does; the theorems say that
    running it again resumes where it stopped. *)
From S2P Require Import Prelude Errors Json Serialize Database World Status Steps Notifications.
From S2P Require Import Streams Step Context Replay Workflow ReplayChild.

Local Open Scope string_scope.
Local Open Scope Z_scope.
Local Open Scope list_scope.
Local Open Scope dbos_scope.

Inductive op `{Env} : Type → Type :=
  | OStep {R} `{Serialize R, Deserialize R} (name : string) (f : WorkflowContext → M R) : op R
  | OStepWith {R} `{Serialize R, Deserialize R} (name : string) (opts : StepOptions)
      (f : WorkflowContext → M R) : op R
  | OSend {T} `{Serialize T} (destination_id : string) (message : T) (topic : option string) : op unit
  | OSetEvent {T} `{Serialize T} (key : string) (value : T) : op unit
  | OWriteStream {T} `{Serialize T} (key : string) (value : T) : op unit
  | OCloseStream (key : string) : op unit
  | OSleep (duration : Duration.t) : op unit
  | ORecv {T} `{Deserialize T} (topic : option string) (timeout : Duration.t) : op (option T)
  | OGetEvent {T} `{Deserialize T} (target key : string) (timeout : Duration.t) : op (option T)
  | OChild {P} `{Serialize P} (inner : DbosInner) (name : string) (input : P) (opts : WorkflowOptions)
      : op string.

Inductive prog `{Env} (A : Type) : Type :=
  | Return (r : Result A)
  | Do {B} (o : op B) (rest : Result B → prog A).
Arguments Return {_ _} _.
Arguments Do {_ _ _} _ _.

Section programs.
Context `{HE : Env, HJ : SerdeJson, HB : Base64Engine, HS : PgScan}.

(** One operation; [None] is a wait that [fuel] turns did not end, or a step
    that panicked: the body is left there. *)
Definition exec_op {B} (fuel : nat) (ctx : WorkflowContext) (o : op B) : M (option B) :=
  match o in op B return M (option B) with
  | OStep name f => Some <$> run_step ctx name f
  | OStepWith name opts f => run_step_with ctx name opts f
  | OSend dest msg topic => Some <$> send ctx dest msg topic
  | OSetEvent key value => Some <$> set_event ctx key value
  | OWriteStream key value => Some <$> write_stream ctx key value
  | OCloseStream key => Some <$> close_stream ctx key
  | OSleep d => Some <$> (sleep ctx d;; mret tt)
  | @ORecv _ T _ topic d => recv fuel T ctx topic d
  | @OGetEvent _ T _ target key d => get_event fuel T ctx target key d
  | OChild inner name input opts => Some <$> start_child inner ctx name input opts
  end.

(** A body run for at most [budget] operations: what is left of it, or its
    result. *)
Fixpoint run_prog {A} (fuel budget : nat) (p : prog A) (ctx : WorkflowContext) : M (prog A + Result A) :=
  match p, budget with
  | Return r, _ => mret (inr r)
  | Do _ _, O => mret (inl p)
  | Do o rest, S budget =>
      r ← attempt (exec_op fuel ctx o);
      match r with
      | Ok None => mret (inl p)
      | Ok (Some b) => run_prog fuel budget (rest (Ok b)) ctx
      | Err e => run_prog fuel budget (rest (Err e)) ctx
      end
  end.

(** The step ids an operation takes, and those of the operations a run
    completes. *)
Definition op_ids {B} (o : op B) : Z :=
  match o with
  | ORecv _ _ | OGetEvent _ _ _ => 2
  | OWriteStream _ value => match encode_value value Portable with Ok _ => 1 | Err _ => 0 end
  | _ => 1
  end.

Fixpoint ids_taken {A} (fuel budget : nat) (p : prog A) (ctx : WorkflowContext) (w : World) : Z :=
  match p, budget with
  | Do o rest, S budget =>
      match exec_op fuel ctx o w with
      | (Ok None, _) => 0
      | (Ok (Some b), w2) => op_ids o + ids_taken fuel budget (rest (Ok b)) ctx w2
      | (Err e, w2) => op_ids o + ids_taken fuel budget (rest (Err e)) ctx w2
      end
  | _, _ => 0
  end.

(** What a run left: a finished body has only its result left. *)
Definition remains {A} (out : prog A + Result A) : prog A :=
  match out with inl p => p | inr r => Return r end.

(** Whether a body starts with a wait, which may leave its deadline recorded
    under its second id while its first has no record yet. *)
Definition awaits {A} (p : prog A) : Prop :=
  match p with Return _ => False | Do o _ => op_ids o = 2 end.

Lemma op_ids_range {B} (o : op B) : 0 ≤ op_ids o ≤ 2.
Proof. destruct o; simpl; try lia. destruct (encode_value _ _); lia. Qed.

Lemma ids_taken_nonneg {A} fuel budget (p : prog A) ctx w : 0 ≤ ids_taken fuel budget p ctx w.
Proof.
  revert p w. induction budget as [|budget IH]; intros [r|B o rest] w; simpl; try done.
  pose proof (op_ids_range o) as Ho. destruct (exec_op fuel ctx o w) as [[[b|]|e] w2];
    [specialize (IH (rest (Ok b)) w2)| |specialize (IH (rest (Err e)) w2)]; lia.
Qed.

(** ** Programs that differ only in what a replay does not use *)

Section same.
Context (id : string).

(** A set of executions of the workflow: their step counters and contexts. *)
Definition executions : Type := nat → WorkflowContext → Prop.
Implicit Types (I : executions).

(** The step bodies leave the workflow's records alone in those executions. *)
Definition steps_ok {R} `{Serialize R, Deserialize R} I (f : WorkflowContext → M R) : Prop :=
  ∀ k ctx, I k ctx → step_body_ok id k (f (step_ctx ctx)).

(** The same operation in the executions [I] and [I']: the bodies of steps,
    what is sent or published, what is started and how long is waited may all
    differ, as none of them is used in a replay. *)
Inductive same_op I I' : ∀ {B}, op B → op B → Prop :=
  | same_Step {R} `{Serialize R, Deserialize R} name f f' :
      steps_ok I f → steps_ok I' f' → same_op I I' (OStep (R:=R) name f) (OStep name f')
  | same_StepWith {R} `{Serialize R, Deserialize R} name opts opts' f f' :
      steps_ok I f → steps_ok I' f' →
      same_op I I' (OStepWith (R:=R) name opts f) (OStepWith name opts' f')
  | same_Send {T} `{Serialize T} dest dest' (m m' : T) topic topic' :
      same_op I I' (OSend dest m topic) (OSend dest' m' topic')
  | same_SetEvent {T} `{Serialize T} key key' (v v' : T) :
      same_op I I' (OSetEvent key v) (OSetEvent key' v')
  | same_WriteStream {T} `{Serialize T} key key' (v : T) :
      same_op I I' (OWriteStream key v) (OWriteStream key' v)
  | same_CloseStream key key' : same_op I I' (OCloseStream key) (OCloseStream key')
  | same_Sleep d d' : same_op I I' (OSleep d) (OSleep d')
  | same_Recv {T} `{Deserialize T} topic topic' d d' :
      same_op I I' (ORecv (T:=T) topic d) (ORecv topic' d')
  | same_GetEvent {T} `{Deserialize T} target target' key key' d d' :
      same_op I I' (OGetEvent (T:=T) target key d) (OGetEvent target' key' d')
  | same_Child {P P'} `{Serialize P, Serialize P'} inner inner' name name' (x : P) (x' : P') opts opts' :
      same_op I I' (OChild inner name x opts) (OChild inner' name' x' opts').

(** Two bodies that perform the same operations as long as they see the
    same results, errors being compared by their text. *)
Inductive same_prog {A} I I' : prog A → prog A → Prop :=
  | same_Return (r r' : Result A) : r ≡ r' → same_prog I I' (Return r) (Return r')
  | same_Do {B} (o o' : op B) rest rest' :
      same_op I I' o o' → (∀ r r', r ≡ r' → same_prog I I' (rest r) (rest' r')) →
      same_prog I I' (Do o rest) (Do o' rest').

Lemma same_op_ids {B} I I' (o o' : op B) : same_op I I' o o' → op_ids o = op_ids o'.
Proof. by destruct 1. Qed.

Lemma same_prog_awaits {A} I I' (p p' : prog A) : same_prog I I' p p' → awaits p → awaits p'.
Proof. intros [|B o o' rest rest' Ho _]; [done|]. simpl. by rewrite (same_op_ids _ _ _ _ Ho). Qed.

(** What is like a given operation or body, by its form. *)
Definition like_op I I' {B} (o : op B) : op B → Prop :=
  match o in op B return op B → Prop with
  | @OStep _ R HSer HDes name f => λ o', ∃ f', o' = @OStep _ R HSer HDes name f' ∧ steps_ok I f ∧ steps_ok I' f'
  | @OStepWith _ R HSer HDes name opts f => λ o',
      ∃ opts' f', o' = @OStepWith _ R HSer HDes name opts' f' ∧ steps_ok I f ∧ steps_ok I' f'
  | @OSend _ T HSer _ _ _ => λ o', ∃ dest m topic, o' = @OSend _ T HSer dest m topic
  | @OSetEvent _ T HSer _ _ => λ o', ∃ key v, o' = @OSetEvent _ T HSer key v
  | @OWriteStream _ T HSer _ v => λ o', ∃ key, o' = @OWriteStream _ T HSer key v
  | OCloseStream _ => λ o', ∃ key, o' = OCloseStream key
  | OSleep _ => λ o', ∃ d, o' = OSleep d
  | @ORecv _ T HDes _ _ => λ o', ∃ topic d, o' = @ORecv _ T HDes topic d
  | @OGetEvent _ T HDes _ _ _ => λ o', ∃ target key d, o' = @OGetEvent _ T HDes target key d
  | OChild _ _ _ _ => λ o',
      ∃ P (HSer : Serialize P) inner name (x : P) opts, o' = OChild inner name x opts
  end.

Lemma same_op_like {B} I I' (o o' : op B) : same_op I I' o o' → like_op I I' o o'.
Proof. destruct 1; simpl; eauto 10. Qed.

Definition like_prog {A} I I' (p : prog A) : prog A → Prop :=
  match p with
  | Return r => λ p', ∃ r', p' = Return r' ∧ r ≡ r'
  | Do o rest => λ p', ∃ o' rest', p' = Do o' rest' ∧ same_op I I' o o' ∧
                       ∀ r r', r ≡ r' → same_prog I I' (rest r) (rest' r')
  end.

Lemma same_prog_like {A} I I' (p p' : prog A) : same_prog I I' p p' → like_prog I I' p p'.
Proof. destruct 1; simpl; eauto. Qed.

(** Two operations or bodies like a third are like each other. *)
Lemma same_op_eucl {B} I I1 I2 (o o1 o2 : op B) :
  same_op I I1 o o1 → same_op I I2 o o2 → same_op I1 I2 o1 o2.
Proof.
  intros H1%same_op_like H2%same_op_like.
  destruct o; simpl in *; naive_solver (by constructor).
Qed.

Lemma same_prog_eucl {A} I I1 I2 (p p1 p2 : prog A) :
  same_prog I I1 p p1 → same_prog I I2 p p2 → same_prog I1 I2 p1 p2.
Proof.
  intros H1. revert p2. induction H1 as [r r1 Hr|B o o1 rest rest1 Ho _ IH]; intros p2 H2%same_prog_like.
  - destruct H2 as (r2 & -> & Hr2). constructor. by rewrite <- Hr.
  - destruct H2 as (o2 & rest2 & -> & Ho2 & Hrest). constructor; [by eapply same_op_eucl|].
    intros r r' Hr. eapply IH; [done|]. auto.
Qed.
End same.
End programs.

(** ** Executions among others

    One execution of a body, one operation at a time.  Between any two of
    them the rest of the process may act, and other processes. *)
Section traces.
Context `{HE : Env, HJ : SerdeJson, HB : Base64Engine, HS : PgScan}.
Context (id : string) (k : nat) (ctx : WorkflowContext).

(** The result of an operation that was not left waiting. *)
Definition completed {B} (r : Result B) : Result (option B) := Some <$> r.

(** What others do meanwhile: anything that leaves the step counter and the
    records of the execution alone, and does not end the workflow. *)
Record aside (w w' : World) : Prop := {
  aside_counter : w_counters w' !! k = w_counters w !! k;
  aside_live : live id (w_db w) → live id (w_db w');
  aside_ops fid : ops id w' fid = ops id w fid;
}.

(** From [p] at [w] the execution gets to [q] at [w'], completing operations
    that take [n] step ids: it is stopped there, left waiting, or panicked. *)
Inductive trace {A} : prog A → World → prog A → World → Z → Prop :=
  | trace_stop p w : trace p w p w 0
  | trace_wait {B} fuel (o : op B) rest w w1 :
      exec_op fuel ctx o w = (Ok None, w1) → trace (Do o rest) w (Do o rest) w1 0
  | trace_op {B} fuel (o : op B) rest b w w1 w2 q w' n :
      exec_op fuel ctx o w = (completed b, w1) → aside w1 w2 → trace (rest b) w2 q w' n →
      trace (Do o rest) w q w' (op_ids o + n).

Lemma trace_nonneg {A} (p q : prog A) w w' n : trace p w q w' n → 0 ≤ n.
Proof. induction 1 as [| |B fuel o rest b w w1 w2 q w' n _ _ _ IH]; [done..|]. pose proof (op_ids_range o). lia. Qed.

Lemma trace_inv {A} (p q : prog A) w w' n :
  trace p w q w' n →
  (q = p ∧ w' = w ∧ n = 0) ∨
  match p with
  | Return _ => False
  | Do o rest =>
      (∃ fuel, exec_op fuel ctx o w = (Ok None, w')) ∨
      ∃ fuel b w1 w2 m, exec_op fuel ctx o w = (completed b, w1) ∧ aside w1 w2 ∧
        trace (rest b) w2 q w' m ∧ n = op_ids o + m
  end.
Proof. destruct 1; [by left|right; eauto|right; right; eauto 10]. Qed.

Lemma aside_refl w : aside w w.
Proof. by split. Qed.

Lemma exec_op_cases {B} (r : Result (option B)) : r = Ok None ∨ ∃ b, r = completed b.
Proof. destruct r as [[b|]|e]; [right; by exists (Ok b) | by left | right; by exists (Err e)]. Qed.

(** An undisturbed run is one of them. *)
Lemma run_prog_trace {A} fuel budget (p : prog A) w out w1 :
  run_prog fuel budget p ctx w = (Ok out, w1) →
  trace p w (remains out) w1 (ids_taken fuel budget p ctx w).
Proof.
  revert p w. induction budget as [|budget IH]; intros [r|B o rest] w; cbn [run_prog ids_taken];
    try (intros [= <- <-]; constructor).
  unfold mbind, M_bind, attempt. destruct (exec_op fuel ctx o w) as [ro w2] eqn:Hop.
  destruct (exec_op_cases ro) as [->|[b ->]]; [intros [= <- <-]; by eapply trace_wait|].
  intros Hrun. assert (run_prog fuel budget (rest b) ctx w2 = (Ok out, w1)) as Hb by by destruct b.
  pose proof (trace_op fuel o rest b w w2 w2 _ _ _ Hop (aside_refl w2) (IH _ _ Hb)) as Ht. by destruct b.
Qed.
End traces.

(** ** Running a body again *)

Section reruns.
Context `{HE : Env, HJ : SerdeJson, HB : Base64Engine, HS : PgScan}.
Context (id : string) (k' : nat) (Hsw : single_writer id) (ctx' : WorkflowContext) (I I' : executions).

(** The step ids [c + 1 .. c + n] are recorded in [w]. *)
Definition recorded (c n : Z) (w : World) : Prop :=
  ∀ fid, c < fid ≤ c + n → is_Some (ops id w fid).

(** Beyond [c] nothing is recorded, except the deadline of a wait [p] starts
    with. *)
Definition clear_after {A} (c : Z) (p : prog A) (w : World) : Prop :=
  ∀ fid, c < fid → is_Some (ops id w fid) → fid = c + 2 ∧ awaits p.

Lemma clear_first {A} c (p : prog A) w : clear_after c p w → ops id w (c + 1) = None.
Proof.
  intros Hcl. destruct (ops id w (c + 1)) eqn:Ho; [|done].
  destruct (Hcl (c + 1)) as [? _]; [lia|eauto|lia].
Qed.

(** Running [p'] from [w'] gets in [j] operations, which take [n] ids, to
    [q'] at [w'']; on the way, wherever it is stopped, it writes nothing. *)
Definition catches_up {A} (fuel' j : nat) (n : Z) (p' q' : prog A) (w' w'' : World) : Prop :=
  (∀ b, (b ≤ j)%nat → ∃ p1 w1, run_prog fuel' b p' ctx' w' = (Ok p1, w1) ∧ idle (w_db w') (w_db w1) ∧
                               ((b < j)%nat → ∃ p2, p1 = inl p2)) ∧
  ∀ m, run_prog fuel' (j + m) p' ctx' w' = run_prog fuel' m q' ctx' w'' ∧
       ids_taken fuel' (j + m) p' ctx' w' = n + ids_taken fuel' m q' ctx' w''.

(** Running [p'] over the records of [w1] gets, without writing anything, to
    [q] at step id [c + n], whatever budget is left then. *)
Definition resumes {A} (c n : Z) (w1 : World) (p' : prog A) (q : prog A) : Prop :=
  ∀ fuel' w', restart id k' c w' → (∀ fid, c < fid ≤ c + n → ops id w' fid = ops id w1 fid) →
  ∃ j q' w'', same_prog id I I' q q' ∧ restart id k' (c + n) w'' ∧ idle (w_db w') (w_db w'') ∧
    catches_up fuel' j n p' q' w' w''.

Lemma run_prog_none {A} fuel (p : prog A) (x : WorkflowContext) w :
  ∃ out, run_prog fuel 0 p x w = (Ok out, w) ∧ remains out = p.
Proof. destruct p; by eexists. Qed.

(** Nothing was completed: the body starts again where it is. *)
Lemma resumes_here {A} c w1 (p' q : prog A) : same_prog id I I' q p' → resumes c 0 w1 p' q.
Proof.
  intros Hs fuel' w' Hw0 _. exists 0%nat, p', w'. rewrite Z.add_0_r.
  split_and!; [done|done|apply rtc_refl|]. split; [|done].
  intros b Hb. assert (b = 0%nat) as -> by lia. destruct (run_prog_none fuel' p' ctx' w') as (out & Hout & _).
  exists out, w'. split_and!; [done|apply rtc_refl|lia].
Qed.

Lemma completed_equiv {B} (b : Result B) r' : completed b ≡ r' → ∃ b', r' = completed b' ∧ b ≡ b'.
Proof.
  destruct b as [b|e], r' as [ob|e']; unfold equiv; simpl; try done.
  - intros <-. by exists (Ok b).
  - intros He. by exists (Err e').
Qed.

Lemma run_prog_do {A B} fuel budget (o : op B) rest b w w2 (x : WorkflowContext) :
  exec_op fuel x o w = (completed b, w2) →
  run_prog (A:=A) fuel (S budget) (Do o rest) x w = run_prog fuel budget (rest b) x w2 ∧
  ids_taken (A:=A) fuel (S budget) (Do o rest) x w = op_ids o + ids_taken fuel budget (rest b) x w2.
Proof.
  intros Ho. cbn [run_prog ids_taken]. unfold mbind, M_bind, attempt. rewrite Ho. by destruct b.
Qed.

Lemma catches_up_do {A B} fuel' j n (o' : op B) (rest' : Result B → prog A) b' q' w' w3 w'' :
  exec_op fuel' ctx' o' w' = (completed b', w3) → idle (w_db w') (w_db w3) →
  catches_up fuel' j n (rest' b') q' w3 w'' →
  catches_up fuel' (S j) (op_ids o' + n) (Do o' rest') q' w' w''.
Proof.
  intros Ho Hidle [Hpre Hpost]. split.
  - intros [|b] Hb; [exists (inl (Do o' rest')), w'; split_and!; [done|apply rtc_refl|eauto]|].
    destruct (Hpre b) as (p1 & w1 & Hrun & Hi & Hin); [lia|]. exists p1, w1.
    destruct (run_prog_do fuel' b o' rest' b' w' w3 ctx' Ho) as [-> _].
    split_and!; [done|by etrans|]. intros. apply Hin. lia.
  - intros m. rewrite Nat.add_succ_l. destruct (run_prog_do fuel' (j + m) o' rest' b' w' w3 ctx' Ho) as [-> ->].
    destruct (Hpost m) as [-> ->]. split; [done|lia].
Qed.

(** The same, operation by operation: over the records of [w1], in whatever
    worlds it performs them, the operations of [p'] from step id [c] on give
    the recorded results without writing anything, up to [q] at [c + n]. *)
Inductive replaying {A} (w1 : World) (q : prog A) : Z → Z → prog A → Prop :=
  | replaying_here c p' : same_prog id I I' q p' → replaying w1 q c 0 p'
  | replaying_op {B} c n (o' : op B) rest' (b : Result B) :
      (∀ fuel' w', restart id k' c w' → (∀ fid, c < fid ≤ c + op_ids o' → ops id w' fid = ops id w1 fid) →
       ∃ b' w'', exec_op fuel' ctx' o' w' = (completed b', w'') ∧ b ≡ b' ∧
         restart id k' (c + op_ids o') w'' ∧ idle (w_db w') (w_db w'')) →
      (∀ b', b ≡ b' → replaying w1 q (c + op_ids o') n (rest' b')) →
      replaying w1 q c (op_ids o' + n) (Do o' rest').

Lemma replaying_nonneg {A} w1 (q p' : prog A) c n : replaying w1 q c n p' → 0 ≤ n.
Proof.
  induction 1 as [|B c n o' rest' b _ _ IH]; [done|]. specialize (IH b (reflexivity b)).
  pose proof (op_ids_range o'). lia.
Qed.

Lemma idle_records w w' fid : idle (w_db w) (w_db w') → ops id w' fid = ops id w fid.
Proof. apply (idle_ops id Hsw). Qed.

Lemma replaying_resumes {A} w1 (q p' : prog A) c n : replaying w1 q c n p' → resumes c n w1 p' q.
Proof.
  induction 1 as [c p' Hs|B c n o' rest' b Hop Hnext IH]; [by apply resumes_here|].
  intros fuel' w' Hw0 Hsame. pose proof (op_ids_range o') as Hids.
  pose proof (replaying_nonneg _ _ _ _ _ (Hnext b (reflexivity b))) as Hn.
  destruct (Hop fuel' w' Hw0) as (b' & w3 & Hb' & Hb & Hw3 & Hidle); [intros; apply Hsame; lia|].
  destruct (IH b' Hb fuel' w3 Hw3) as (j & q' & w'' & Hq & Hw'' & Hidle' & Hcatch).
  { intros fid Hfid. rewrite (idle_records _ _ _ Hidle). apply Hsame. lia. }
  exists (S j), q', w''. rewrite Z.add_assoc. split_and!; [done|done|by etrans|]. by eapply catches_up_do.
Qed.

(** Only the records count. *)
Lemma replaying_same {A} w1 w2 (q p' : prog A) c n :
  replaying w1 q c n p' → (∀ fid, c < fid ≤ c + n → ops id w2 fid = ops id w1 fid) → replaying w2 q c n p'.
Proof.
  induction 1 as [c p' Hs|B c n o' rest' b Hop Hnext IH]; intros Hsame; [by apply replaying_here|].
  pose proof (op_ids_range o') as Hids.
  pose proof (replaying_nonneg _ _ _ _ _ (Hnext b (reflexivity b))) as Hn.
  apply (replaying_op _ _ _ _ _ _ b).
  - intros fuel' w' Hw0 Hag. apply (Hop fuel' w' Hw0). intros fid Hfid. rewrite <- Hsame by lia. by apply Hag.
  - intros b' Hb. apply IH; [done|]. intros fid Hfid. apply Hsame. lia.
Qed.

(** Replays in two stages. *)
Lemma replaying_trans {A} w1 (q1 q2 p' : prog A) c n1 n2 :
  replaying w1 q1 c n1 p' →
  (∀ p2, same_prog id I I' q1 p2 → replaying w1 q2 (c + n1) n2 p2) → replaying w1 q2 c (n1 + n2) p'.
Proof.
  induction 1 as [c p' Hs|B c n o' rest' b Hop Hnext IH]; intros H2.
  - rewrite Z.add_0_l. rewrite Z.add_0_r in H2. auto.
  - rewrite <- Z.add_assoc. apply (replaying_op _ _ _ _ _ _ b); [done|]. intros b' Hb.
    apply IH; [done|]. by rewrite <- Z.add_assoc.
Qed.

(** An execution over the records, among others, is stopped before it has
    recorded anything, or gets to [q] and goes on from there. *)
Lemma replaying_trace {A} w1 (q p' : prog A) c n w out w' m :
  replaying w1 q c n p' → trace id k' ctx' p' w out w' m → restart id k' c w →
  (∀ fid, c < fid ≤ c + n → ops id w fid = ops id w1 fid) →
  (∀ fid, ops id w' fid = ops id w fid) ∨
  ∃ q' w2 m2, same_prog id I I' q q' ∧ restart id k' (c + n) w2 ∧ (∀ fid, ops id w2 fid = ops id w fid) ∧
    trace id k' ctx' q' w2 out w' m2 ∧ m = n + m2.
Proof.
  intros Hrep. revert w m. induction Hrep as [c p' Hs|B c n o' rest' b Hop Hnext IH]; intros w m Ht Hst Hsame.
  { right. exists p', w, m. rewrite Z.add_0_r. by split_and!. }
  pose proof (op_ids_range o') as Hids.
  pose proof (replaying_nonneg _ _ _ _ _ (Hnext b (reflexivity b))) as Hn.
  destruct (trace_inv _ _ _ _ _ _ _ _ Ht)
    as [(_ & -> & _)|[(fuel & Hwait)|(fuel & b1 & w3 & w4 & m1 & Hop1 & Has & Ht1 & ->)]]; [by left| |].
  - destruct (Hop fuel w Hst) as (b' & w'' & Hb' & _); [intros; apply Hsame; lia|].
    rewrite Hwait in Hb'. by destruct b'.
  - destruct (Hop fuel w Hst) as (b' & w'' & Hb' & Hb & [Hc3 Hl3] & Hidle); [intros; apply Hsame; lia|].
    rewrite Hop1 in Hb'. assert (b' = b1 ∧ w'' = w3) as [-> ->] by (destruct b', b1; by simplify_eq/=).
    assert (∀ fid, ops id w4 fid = ops id w fid) as Hops.
    { intros fid. rewrite (aside_ops _ _ _ _ Has). by apply idle_records. }
    destruct (IH b1 Hb w4 m1 Ht1) as [Hl|(q' & w2 & m2 & Hq & Hw2 & Ho2 & Ht2 & ->)].
    + split; [by rewrite (aside_counter _ _ _ _ Has)|by apply (aside_live _ _ _ _ Has)].
    + intros fid Hfid. rewrite Hops. apply Hsame. lia.
    + left. intros fid. by rewrite Hl, Hops.
    + right. exists q', w2, m2. rewrite Z.add_assoc. split_and!; [done|done| |done|lia].
      intros fid. by rewrite Ho2, Hops.
Qed.
End reruns.

Section replay_programs.
Context `{HE : Env, HJ : SerdeJson, !SerdeJsonLaws HJ, HB : Base64Engine, !Base64Laws HB, HS : PgScan}.
Context (id : string) (k k' : nat) (Hsw : single_writer id) (ctx ctx' : WorkflowContext).
Context (Hid : workflow_id ctx = id) (Hid' : workflow_id ctx' = id).
Context (Hk : st_step_id (ctx_state ctx) = k) (Hk' : st_step_id (ctx_state ctx') = k').
Context (Hw : ctx_within_step ctx = false) (Hw' : ctx_within_step ctx' = false).
Context (I I' : executions) (HI : I k ctx).

Lemma replays_fmap {A B} n (f : A → B) (m m' : M A) :
  replays id k k' n m m' → replays id k k' n (f <$> m) (f <$> m').
Proof.
  intros Hm w r w1 c Hc Hc1 Hfresh Hrun Hlt.
  assert (∃ r0, m w = (r0, w1) ∧ r = f <$> r0) as (r0 & Hr0 & ->).
  { unfold fmap, M_fmap, mbind, M_bind in Hrun. destruct (m w) as [[a|e] w0]; injection Hrun as <- <-; eauto. }
  destruct (Hm _ _ _ _ Hc Hc1 Hfresh Hr0 Hlt) as (? & ? & Hrep). split_and!; [done..|].
  intros Hrec w' Hw0 Hs. destruct (Hrep Hrec w' Hw0 Hs) as (r' & w'' & Hr' & Heq & ? & ?).
  exists (f <$> r'), w''. split_and!; [|by apply Result_fmap_equiv|done..].
  unfold fmap at 1, M_fmap, mbind, M_bind. rewrite Hr'. by destruct r'.
Qed.

Lemma replays_write_stream {T} `{Serialize T} key key' (v : T) :
  replays id k k' (op_ids (OWriteStream key v)) (write_stream ctx key v) (write_stream ctx' key' v).
Proof.
  cbn [op_ids]. destruct (encode_value v Portable) as [enc|e] eqn:E.
  - apply (replays_ext id k k' 1 _ (write_stream_raw ctx key "DBOS.writeStream" enc (Some PORTABLE_NAME))
             _ (write_stream_raw ctx' key' "DBOS.writeStream" enc (Some PORTABLE_NAME)));
      [intros w; by eapply run_bind; [unfold lift; by rewrite E|]..|].
    unfold write_stream_raw. rewrite Hw, Hw'. apply replays_durable_write; [done..|].
    intros. apply quiet_frame. unfold quiet. apply frame_write_stream.
  - apply (replays_ext id k k' 0 _ (lift (Err e)) _ (lift (Err e)));
      [intros w; by apply run_bind_err; unfold lift; rewrite E..|]. by apply replays_lift.
Qed.

Lemma same_op_replays {B} fuel fuel' (o o' : op B) :
  same_op id I I' o o' → replays id k k' (op_ids o) (exec_op fuel ctx o) (exec_op fuel' ctx' o').
Proof.
  intros Ho. destruct Ho as [??? name f f' Hf _|??? name opts opts' f f' Hf _| | | | | | | |]; simpl;
    try apply replays_fmap.
  - unfold run_step. rewrite Hw, Hw'. by apply replays_checkpointed, Hf.
  - apply replays_step_with; [done..|]. by apply Hf.
  - unfold send. rewrite Hw, Hw'. apply replays_durable_write; [done..|].
    intros. apply frame_insert_notification.
  - unfold set_event. rewrite Hw, Hw'. apply replays_durable_write; [done..|].
    intros. apply frame_set_event.
  - apply replays_write_stream.
  - unfold close_stream, write_stream_raw. rewrite Hw, Hw'. apply replays_durable_write; [done..|].
    intros. apply frame_write_stream.
  - by apply replays_sleep.
  - by apply replays_recv.
  - by apply replays_get_event.
  - by apply replays_start_child.
Qed.

(** An operation left where it is, waiting or panicking, has not recorded its
    result. *)
Lemma exec_op_waiting {B} fuel (o o' : op B) w w1 c :
  same_op id I I' o o' →
  w_counters w !! k = Some c → -1 ≤ c → c + 2 < 2 ^ 31 → ops id w (c + 1) = None →
  exec_op fuel ctx o w = (Ok None, w1) → ops id w1 (c + 1) = None.
Proof.
  intros Ho Hc Hc1 Hlt Hn. destruct Ho as [|??? name opts opts' f f' Hf _| | | | | | | |]; simpl;
    unfold recv, get_event; rewrite ?Hw; intros Hrun;
    try by apply M_bind_Ok in Hrun as (? & ? & _ & ?).
  - eapply (step_with_panicked id k Hsw ctx ctx' Hid Hid' Hk); [done|by apply (Hf k ctx)|done..|lia|done|exact Hrun].
  - eapply (receive_waiting id k k ctx ctx Hid Hk Hk); [|exact Hc|done..|exact Hrun].
    by apply live_inv_recv.
  - eapply (receive_waiting id k k ctx ctx Hid Hk Hk); [|exact Hc|done..|exact Hrun].
    by apply live_inv_get_event.
Qed.

(** What an execution leaves: the records up to [c] as they were, nothing
    beyond what it completed, and records to replay it by. *)
Lemma trace_replaying {A} (p p' q : prog A) w w1 c n :
  same_prog id I I' p p' → trace id k ctx p w q w1 n →
  w_counters w !! k = Some c → -1 ≤ c → clear_after id c p w → c + n + 2 < 2 ^ 31 →
  (∀ fid, fid ≤ c → ops id w1 fid = ops id w fid) ∧ clear_after id (c + n) q w1 ∧
  (recorded id c n w1 → replaying id k' ctx' I I' w1 q c n p').
Proof.
  intros Hp Ht. revert c p' Hp.
  induction Ht as [p w|B fuel o rest w w1 Hop|B fuel o rest b w w2 w3 q w1 n Hop Has Ht IH];
    intros c p' Hp Hc Hc1 Hclear Hlt; pose proof (clear_first _ _ _ _ Hclear) as Hfirst.
  { rewrite Z.add_0_r. split_and!; [done..|]. intros _. by apply replaying_here. }
  { rewrite Z.add_0_r. pose proof (same_prog_like _ _ _ _ _ Hp) as (o' & rest' & -> & Ho & _).
    pose proof (exec_op_waiting _ _ _ _ _ _ Ho Hc Hc1 ltac:(lia) Hfirst Hop) as Hnone.
    pose proof (op_ids_range o) as Hids.
    destruct (same_op_replays fuel fuel o o' Ho _ _ _ _ Hc Hc1 Hfirst Hop) as (_ & Hf & _); [lia|].
    split_and!; [intros; apply Hf; lia| |intros _; by apply replaying_here].
    intros fid Hfid Hsome. destruct (decide (fid = c + 1)) as [->|]; [by rewrite Hnone in Hsome; destruct Hsome|].
    destruct (decide (c + op_ids o < fid)) as [|Hle]; [|split; [lia|simpl; lia]].
    rewrite Hf in Hsome by lia. by apply (Hclear fid ltac:(lia)). }
  pose proof (op_ids_range o) as Hids. pose proof (trace_nonneg _ _ _ _ _ _ _ _ Ht) as Hn.
  apply same_prog_like in Hp as (o' & rest' & -> & Ho & Hrest).
  destruct (same_op_replays fuel fuel o o' Ho _ _ _ _ Hc Hc1 Hfirst Hop) as (Hcnt & Hf & _); [lia|].
  assert (∀ b', b ≡ b' → (∀ fid, fid ≤ c + op_ids o → ops id w1 fid = ops id w3 fid) ∧
    clear_after id (c + op_ids o + n) q w1 ∧
    (recorded id (c + op_ids o) n w1 → replaying id k' ctx' I I' w1 q (c + op_ids o) n (rest' b'))) as Hnext.
  { intros b' Hb. apply IH; [auto|by rewrite (aside_counter _ _ _ _ Has)|lia| |lia].
    intros fid Hfid Hsome. rewrite (aside_ops _ _ _ _ Has), Hf in Hsome by lia.
    destruct (Hclear fid ltac:(lia) Hsome) as [-> Htwo]. simpl in Htwo. lia. }
  destruct (Hnext b (reflexivity b)) as (Hlow & Hcl & _). rewrite Z.add_assoc.
  assert (∀ fid, fid ≤ c + op_ids o → ops id w1 fid = ops id w2 fid) as Hlow2.
  { intros fid Hfid. by rewrite Hlow, (aside_ops _ _ _ _ Has). }
  split_and!; [intros fid Hfid; rewrite Hlow2, Hf by lia; done|done|].
  intros Hrec. rewrite (same_op_ids _ _ _ _ _ Ho) in *. apply (replaying_op _ _ _ _ _ _ _ _ _ _ _ b).
  - intros fuel' w' Hw0 Hsame.
    destruct (same_op_replays fuel fuel' o o' Ho _ _ _ _ Hc Hc1 Hfirst Hop) as (_ & _ & Hrep);
      rewrite (same_op_ids _ _ _ _ _ Ho) in *; [lia|].
    destruct (Hrep) with (w' := w') as (r' & w'' & Hr' & (b' & -> & Hb)%completed_equiv & Hw'' & Hidle); [|done|..].
    + intros fid Hfid. rewrite <- Hlow2 by lia. apply Hrec. lia.
    + intros fid Hfid. rewrite <- Hlow2 by lia. by apply Hsame.
    + exists b', w''. by split_and!.
  - intros b' Hb. apply Hnext; [done|]. intros fid Hfid. apply Hrec. lia.
Qed.

(** An undisturbed run. *)
Lemma run_prog_resumes {A} fuel budget (p p' : prog A) w out w1 c :
  same_prog id I I' p p' → w_counters w !! k = Some c → -1 ≤ c → clear_after id c p w →
  run_prog fuel budget p ctx w = (Ok out, w1) →
  let n := ids_taken fuel budget p ctx w in
  c + n + 2 < 2 ^ 31 → recorded id c n w1 → resumes id k' ctx' I I' c n w1 p' (remains out).
Proof.
  intros Hp Hc Hc1 Hclear Hrun n Hlt Hrec. apply run_prog_trace with (id := id) (k := k) in Hrun.
  apply (replaying_resumes id k' Hsw). by eapply trace_replaying.
Qed.

(** C5: crash recovery.  A body was run from step id [c] until it finished,
    crashed or was left waiting, and the operations it completed are
    recorded.  Running it again from [c], with any step bodies, messages and
    durations, gets back to where the first run stopped (at the same step id,
    with the same rest of the body) without running a step, starting a child,
    writing a row or waiting for anything but recorded sleeps, also when it
    is stopped again on the way; there it goes on like the first run would
    have. *)
Theorem crash_recovery_resumes {A} fuel fuel' budget (p p' : prog A) w out w1 c w' :
  same_prog id I I' p p' → w_counters w !! k = Some c → -1 ≤ c → clear_after id c p w →
  run_prog fuel budget p ctx w = (Ok out, w1) →
  let n := ids_taken fuel budget p ctx w in
  c + n + 2 < 2 ^ 31 → recorded id c n w1 →
  restart id k' c w' → (∀ fid, c < fid ≤ c + n → ops id w' fid = ops id w1 fid) →
  ∃ j q' w'', same_prog id I I' (remains out) q' ∧ restart id k' (c + n) w'' ∧
    idle (w_db w') (w_db w'') ∧ catches_up ctx' fuel' j n p' q' w' w''.
Proof.
  intros Hp Hc Hc1 Hclear Hrun n Hlt Hrec Hw0 Hsame.
  by apply (run_prog_resumes fuel budget p p' w out w1 c).
Qed.

(** Replay is deterministic.  A body that finished, run again over its
    recorded operations, finishes with the same result (an error with the
    same text), whatever its steps would do now, and writes nothing. *)
Theorem replay_deterministic {A} fuel fuel' budget (p p' : prog A) w r w1 c w' :
  same_prog id I I' p p' → w_counters w !! k = Some c → -1 ≤ c → clear_after id c p w →
  run_prog fuel budget p ctx w = (Ok (inr r), w1) →
  let n := ids_taken fuel budget p ctx w in
  c + n + 2 < 2 ^ 31 → recorded id c n w1 →
  restart id k' c w' → (∀ fid, c < fid ≤ c + n → ops id w' fid = ops id w1 fid) →
  ∃ budget' r' w'', r ≡ r' ∧ idle (w_db w') (w_db w'') ∧
    ∀ m, run_prog fuel' (budget' + m) p' ctx' w' = (Ok (inr r'), w'').
Proof.
  intros Hp Hc Hc1 Hclear Hrun n Hlt Hrec Hw0 Hsame.
  destruct (run_prog_resumes fuel budget p p' w _ w1 c Hp Hc Hc1 Hclear Hrun Hlt Hrec fuel' w' Hw0 Hsame) as (j & q' & w'' & Hs & _ & Hidle & [_ Hpost]).
  apply same_prog_like in Hs as (r' & -> & Heq). exists j, r', w''. split_and!; [done|done|].
  intros m. destruct (Hpost m) as [-> _]. by destruct m.
Qed.
End replay_programs.
