(* ===== verification/Recovery.v ===== *)
(** * Crash recovery (runtime/recovery.rs)

    Re-running the [PENDING] workflows of an executor: queued ones go back to
    their queue, the others are started again with the identity they had. *)
From S2P Require Import Prelude Errors Json Serialize Database World Status QueueDb Context.
From S2P Require Import Workflow.

Local Open Scope string_scope.
Local Open Scope Z_scope.
Local Open Scope list_scope.
Local Open Scope dbos_scope.

Section recovery.
Context `{Env, SerdeJson, Base64Engine, PgScan} (inner : DbosInner).

(** The options that re-attach the original identity. *)
Definition recovery_options (wf : RecoverableWorkflow) : WorkflowOptions :=
  {| wo_workflow_id := Some (rw_id wf);
     wo_application_version := None;
     wo_authenticated_user := rw_authenticated_user wf;
     wo_assumed_role := rw_assumed_role wf;
     wo_authenticated_roles :=
       s ← rw_authenticated_roles wf; result_ok (from_str (list string) s) |}.

(** One turn of the loop; whether the id is pushed on [recovered]. *)
Definition recover_one (wf : RecoverableWorkflow) : M bool :=
  match rw_queue_name wf with
  | Some _ =>
      res ← attempt (clear_queue_assignment (rw_id wf));
      mret (match res with Ok moved => moved | Err _ => false end)
  | None =>
      match registry inner !! rw_name wf with
      | None => mret false
      | Some _ =>
          res ← attempt (start_workflow inner (rw_name wf) (rw_inputs wf) (recovery_options wf) None
                           (from_name (rw_serialization wf)) true);
          mret (match res with Ok _ => true | Err _ => false end)
      end
  end.

Fixpoint recover_all (pending : list RecoverableWorkflow) : M (list string) :=
  match pending with
  | [] => mret []
  | wf :: pending =>
      again ← recover_one wf;
      rest ← recover_all pending;
      mret (if (again : bool) then rw_id wf :: rest else rest)
  end.

Definition recover_pending_workflows (executor_ids : list string) : M (list string) :=
  pending ← list_pending_for_recovery executor_ids (application_version inner);
  recover_all pending.
End recovery.

(** ** What one recovery does to its workflow *)

Definition listed_as (id : string) (r : wf_row) : RecoverableWorkflow :=
  mkRecoverable id (wf_name r) (wf_inputs r) (wf_serialization r) (wf_queue_name r)
    (wf_authenticated_user r) (wf_assumed_role r) (wf_authenticated_roles r) (wf_config_name r).

Section outcome.
Context `{Env, SerdeJson, Base64Engine} (inner : DbosInner).

(** The row [r] of a pending workflow becomes [r'], [ts] are the bodies
    spawned for it, and the flag says whether its id is reported. *)
Inductive recovers (id : string) (r : wf_row) : wf_row → list task → bool → Prop :=
  | requeued q :
      wf_queue_name r = Some q →
      recovers id r (r <| wf_status := "ENQUEUED" |> <| wf_started_at_epoch_ms := None |>) [] true
  | unregistered :
      wf_queue_name r = None → registry inner !! wf_name r = None → recovers id r r [] false
  | dead_lettered entry r' :
      wf_queue_name r = None → registry inner !! wf_name r = Some entry →
      exceeds_attempts (wf_status r) (wf_recovery_attempts r + 1) (re_max_retries entry) = true →
      same_work r r' → wf_status r' = status_str MaxRecoveryAttemptsExceeded →
      recovers id r r' [] false
  | restarted entry r' t ch :
      wf_queue_name r = None → registry inner !! wf_name r = Some entry →
      exceeds_attempts (wf_status r) (wf_recovery_attempts r + 1) (re_max_retries entry) = false →
      same_work r r' → wf_status r' = status_str Pending →
      wf_queue_name r' = None → wf_recovery_attempts r' = wf_recovery_attempts r + 1 →
      wf_executor_id r' = Some (executor_id inner) →
      t_workflow_id t = id → t_name t = wf_name r → t_input t = wf_inputs r →
      t_format t = from_name (wf_serialization r) →
      t_auth t = resolve_auth (recovery_options (listed_as id r)) None →
      t_origin t = Started ch →
      recovers id r r' [t] true.

(** The world after a recovery of [id] that ended so. *)
Definition recovered_world (id : string) (r' : wf_row) (ts : list task) (w w' : World) : Prop :=
  w_db w' = (w_db w) <| workflow_status ::= <[id := r']> |> ∧ w_tasks w' = w_tasks w ++ ts ∧
  counters_begin ts w w'.

Lemma recover_one_queued id r q w :
  workflow_status (w_db w) !! id = Some r → wf_status r = status_str Pending →
  wf_queue_name r = Some q →
  recover_one inner (listed_as id r) w =
  (Ok true, w <| w_db ::= set_field workflow_status <[id := clear_row r]> |>).
Proof.
  intros Hr Hs Hq. unfold recover_one, clear_queue_assignment. cbn [rw_queue_name rw_id listed_as].
  rewrite Hq. run_M. unfold select_key. rewrite Hr. simpl. unfold queue_assigned.
  by rewrite Hq, Hs, !bool_decide_eq_true_2 by done.
Qed.

Lemma recover_one_started id r entry w :
  workflow_status (w_db w) !! id = Some r → wf_status r = status_str Pending →
  wf_queue_name r = None → registry inner !! wf_name r = Some entry →
  ∃ again w' r' ts, recover_one inner (listed_as id r) w = (Ok again, w') ∧
    recovers id r r' ts again ∧ recovered_world id r' ts w w'.
Proof.
  intros Hr Hs Hq He. unfold recover_one. cbn [rw_queue_name rw_name listed_as]. rewrite Hq, He.
  unfold attempt, mbind, M_bind.
  rewrite (start_workflow_prefix _ _ _ _ _ _ _ _ _ id He) by done. cbv zeta.
  set (i := start_input _ _ _ _ _ _ _ _ _ _ _).
  assert (wf_recovery_attempts (on_conflict_row i r) = wf_recovery_attempts r + 1) as Hatt by done.
  unfold mbind, M_bind. rewrite (start_tx_existing i _ _ r) by done. rewrite Hatt.
  destruct (exceeds_attempts _ _ _) eqn:Hdlq.
  - eexists false, _, (dead_letter_row (on_conflict_row i r)), []. split; [done|].
    split; [|split_and!; [done | by rewrite app_nil_r | by apply counters_begin_none]].
    eapply dead_lettered; try done.
    + etrans; [apply on_conflict_same_work | apply dead_letter_same_work].
    + unfold dead_letter_row. by rewrite decide_True.
  - unfold should_skip. cbn [ir_status]. rewrite Hs. simpl.
    eexists true, _, (on_conflict_row i r), [_]. split; [done|].
    split; [|split; [done|]; split; [done|]; split]; [by eapply restarted| |].
    + simpl. apply insert_subseteq, not_elem_of_dom, is_fresh.
    + intros t ->%list_elem_of_singleton. apply lookup_insert_eq.
Qed.

Lemma recover_one_spec id r w :
  workflow_status (w_db w) !! id = Some r → wf_status r = status_str Pending →
  ∃ again w' r' ts, recover_one inner (listed_as id r) w = (Ok again, w') ∧
    recovers id r r' ts again ∧ recovered_world id r' ts w w'.
Proof.
  intros Hr Hs. destruct (wf_queue_name r) as [q|] eqn:Hq.
  - rewrite (recover_one_queued _ _ q) by done. do 4 eexists. split; [done|].
    split; [by eapply requeued|]. split_and!; [done | by rewrite app_nil_r | by apply counters_begin_none].
  - destruct (registry inner !! wf_name r) as [entry|] eqn:He; [by eapply recover_one_started|].
    exists false, w, r, []. split_and!.
    + unfold recover_one. cbn [rw_queue_name rw_name listed_as]. by rewrite Hq, He.
    + by apply unregistered.
    + split_and!; [|by rewrite app_nil_r|by apply counters_begin_none]. destruct (w_db w). simpl in *. f_equal.
      symmetry. by apply insert_id.
Qed.
End outcome.

(** ** Recovering all of them *)

Section properties.
Context `{HE : Env, HJ : SerdeJson, HB : Base64Engine} (inner : DbosInner).

Lemma recovers_task_ids id r r' ts again t :
  recovers inner id r r' ts again → t ∈ ts → t_workflow_id t = id.
Proof.
  intros Hrec Hin. destruct Hrec; try by apply not_elem_of_nil in Hin.
  apply list_elem_of_singleton in Hin as ->. done.
Qed.

(** The ids [pending] lists are recovered, each with its own effect, and all
    others are left alone. *)
Definition all_recovered (pending : list RecoverableWorkflow) (w w' : World) (recovered : list string)
    (new : list task) : Prop :=
  w_tasks w' = w_tasks w ++ new ∧ counters_begin new w w' ∧
  w_db w' = (w_db w) <| workflow_status := workflow_status (w_db w') |> ∧
  (∀ id, id ∉ rw_id <$> pending →
     workflow_status (w_db w') !! id = workflow_status (w_db w) !! id ∧
     tasks_of id new = [] ∧ (id ∉ recovered)) ∧
  (∀ id, id ∈ rw_id <$> pending → ∃ r r',
     workflow_status (w_db w) !! id = Some r ∧ workflow_status (w_db w') !! id = Some r' ∧
     recovers inner id r r' (tasks_of id new) (bool_decide (id ∈ recovered))).

Definition listed_in (w : World) (wf : RecoverableWorkflow) : Prop :=
  ∃ r, workflow_status (w_db w) !! rw_id wf = Some r ∧ wf_status r = status_str Pending ∧
       wf = listed_as (rw_id wf) r.

Lemma recover_all_spec pending w :
  Forall (listed_in w) pending → NoDup (rw_id <$> pending) →
  ∃ recovered new w', recover_all inner pending w = (Ok recovered, w') ∧
    all_recovered pending w w' recovered new.
Proof.
  revert w. induction pending as [|wf pending IH]; intros w.
  { intros _ _. exists [], [], w. split; [done|]. unfold all_recovered. rewrite app_nil_r.
    split_and!; [done | by apply counters_begin_none | by destruct (w_db w) | | ].
    - intros id _. split_and!; [done..|apply not_elem_of_nil].
    - intros id Hid. by apply not_elem_of_nil in Hid. }
  intros [(r & Hr & Hs & Hwf) Hall]%Forall_cons. rewrite fmap_cons.
  intros [Hnin Hnd]%NoDup_cons. set (id := rw_id wf) in *.
  destruct (recover_one_spec inner id r w Hr Hs) as (again & w1 & r1 & ts & Hone & Hrec & Hd1 & Ht1 & Hc1).
  assert (∀ k, k ≠ id → workflow_status (w_db w1) !! k = workflow_status (w_db w) !! k) as Hoth.
  { intros k Hk. rewrite Hd1. simpl. by apply lookup_insert_ne. }
  destruct (IH w1) as (rest & new & w' & Hrun & Ht & Hc & Hd & Hout & Hin); [|done|].
  { rewrite Forall_forall in *. intros wf' Hwf'. destruct (Hall wf' Hwf') as (r' & Hr' & ?).
    exists r'. rewrite Hoth; [done|]. intros E. apply Hnin. rewrite <- E. by apply list_elem_of_fmap_2. }
  destruct (Hout id Hnin) as (Hid & Htid & Hnrest).
  assert (∀ t, t ∈ ts → t_workflow_id t = id) as Hts by (intros; by eapply recovers_task_ids).
  exists (if again then id :: rest else rest), (ts ++ new), w'.
  split.
  { cbn [recover_all]. eapply run_bind; [rewrite Hwf; exact Hone|].
    eapply run_bind; [exact Hrun|]. done. }
  assert (∀ k, k ≠ id → tasks_of k (ts ++ new) = tasks_of k new) as Htk.
  { intros k Hk. unfold tasks_of. rewrite filter_app. fold (tasks_of k ts).
    rewrite tasks_of_other; [done|]. intros t Hin'. rewrite (Hts _ Hin'). done. }
  assert (∀ k, k ≠ id → k ∈ (if again then id :: rest else rest) ↔ k ∈ rest) as Hmem.
  { intros k Hk. destruct again; [|done]. rewrite elem_of_cons. naive_solver. }
  split_and!.
  - by rewrite Ht, Ht1, <- (assoc_L (++)).
  - by eapply counters_begin_app.
  - rewrite Hd, Hd1. done.
  - intros k Hk. rewrite fmap_cons, not_elem_of_cons in Hk. destruct Hk as [Hk Hk'].
    destruct (Hout k Hk') as (-> & ? & ?). rewrite Hmem, Htk, Hoth by done. done.
  - intros k. rewrite fmap_cons. intros [->|Hk]%elem_of_cons.
    + fold id. exists r, r1. split_and!; [done| rewrite Hid, Hd1; apply lookup_insert_eq |].
      unfold tasks_of. rewrite filter_app. fold (tasks_of id ts) (tasks_of id new).
      rewrite Htid, app_nil_r, tasks_of_own by done.
      destruct again; [rewrite bool_decide_eq_true_2 by (by left) | rewrite bool_decide_eq_false_2 by done];
        done.
    + assert (k ≠ id) as Hne by (by intros ->).
      destruct (Hin k Hk) as (r' & r'' & Hr' & Hr'' & Hrk). exists r', r''.
      rewrite <- Hoth, Htk by done. split_and!; [done..|].
      erewrite bool_decide_ext; [exact Hrk|]. by apply Hmem.
Qed.

Lemma listed_pending `{HS : PgScan, !PgScanLaws HS} executors version w l :
  list_pending_for_recovery executors version w = (Ok l, w) →
  Forall (listed_in w) l ∧ NoDup (rw_id <$> l) ∧
  ∀ id, id ∈ rw_id <$> l ↔
    ∃ r, workflow_status (w_db w) !! id = Some r ∧ recoverable executors version r = true.
Proof.
  intros [= <-]. rewrite <- list_fmap_compose. change (rw_id ∘ _) with (@fst string wf_row).
  split_and!; [|apply select_where_nodup|].
  - apply Forall_forall. intros wf ([k r] & -> & Hin)%list_elem_of_fmap.
    apply (elem_of_select_where (λ _, recoverable executors version)) in Hin as [Hr Hp].
    exists r. split_and!; [done| |done].
    unfold recoverable in Hp. rewrite !andb_true_iff, bool_decide_eq_true in Hp. naive_solver.
  - intros id. rewrite list_elem_of_fmap. split.
    + intros ([k r] & -> & Hin). exists r. by apply (elem_of_select_where (λ _, recoverable executors version)) in Hin.
    + intros (r & Hr & Hp). exists (id, r). split; [done|].
      by apply (elem_of_select_where (λ _, recoverable executors version)).
Qed.

Lemma recover_pending_run `{HS : PgScan, !PgScanLaws HS} executors w :
  ∃ l recovered new w', recover_pending_workflows inner executors w = (Ok recovered, w') ∧
    all_recovered l w w' recovered new ∧
    ∀ id, id ∈ rw_id <$> l ↔
      ∃ r, workflow_status (w_db w) !! id = Some r ∧
           recoverable executors (application_version inner) r = true.
Proof.
  destruct (listed_pending executors (application_version inner) w _ eq_refl) as (Hall & Hnd & Hin).
  destruct (recover_all_spec _ w Hall Hnd) as (recovered & new & w' & Hrun & Hrec).
  eexists _, recovered, new, w'. split_and!; [|exact Hrec|exact Hin].
  unfold recover_pending_workflows. eapply run_bind; [reflexivity|exact Hrun].
Qed.

Lemma recover_pending_total `{HS : PgScan, !PgScanLaws HS} executors w :
  ∃ recovered w', recover_pending_workflows inner executors w = (Ok recovered, w').
Proof. destruct (recover_pending_run executors w) as (l & recovered & new & w' & Hrun & _). eauto. Qed.

(** What a recovery does to one of the listed workflows. *)
Lemma recover_pending_row `{HS : PgScan, !PgScanLaws HS} executors w id r :
  workflow_status (w_db w) !! id = Some r →
  recoverable executors (application_version inner) r = true →
  ∃ recovered new w' r', recover_pending_workflows inner executors w = (Ok recovered, w') ∧
    w_tasks w' = w_tasks w ++ new ∧ (∀ t, t ∈ new → w_counters w' !! t_state t = Some (-1)) ∧
    w_db w' = (w_db w) <| workflow_status := workflow_status (w_db w') |> ∧
    workflow_status (w_db w') !! id = Some r' ∧
    recovers inner id r r' (tasks_of id new) (bool_decide (id ∈ recovered)).
Proof.
  intros Hr Hp. destruct (recover_pending_run executors w) as (l & rec & new & w' & Hrun & Hall & Hin).
  destruct Hall as (Ht & [_ Hc] & Hd & _ & Hrec). destruct (Hrec id) as (r0 & r' & Hr0 & Hr' & Hrr); [apply Hin; eauto|].
  rewrite Hr in Hr0. simplify_eq. exists rec, new, w', r'. by split_and!.
Qed.

(** C7: recovery always completes, and treats every pending workflow of the
    given executors at this version independently of the others.  A queued
    one is put back [ENQUEUED]; a registered one within its attempts limit
    gets exactly one new body, with its own name, input, format and identity,
    one more attempt, and this executor as its owner; one over the limit goes
    to the dead-letter status and is not run; one that is not registered is
    left as it is.  Those reported are the requeued and the restarted ones.
    All other rows, and all other tables, are unchanged. *)
Theorem recovery_spec `{HS : PgScan, !PgScanLaws HS} executors w :
  let pending r := wf_status r = "PENDING" ∧
    (∃ e, wf_executor_id r = Some e ∧ e ∈ executors) ∧
    wf_application_version r = Some (application_version inner) in
  ∃ recovered new w', recover_pending_workflows inner executors w = (Ok recovered, w') ∧
    w_tasks w' = w_tasks w ++ new ∧
    w_db w' = (w_db w) <| workflow_status := workflow_status (w_db w') |> ∧
    ∀ id,
      match workflow_status (w_db w) !! id with
      | Some r =>
          ∃ r', workflow_status (w_db w') !! id = Some r' ∧
            (pending r → recovers inner id r r' (tasks_of id new) (bool_decide (id ∈ recovered))) ∧
            (¬ pending r → r' = r ∧ tasks_of id new = [] ∧ (id ∉ recovered))
      | None => workflow_status (w_db w') !! id = None ∧ tasks_of id new = [] ∧ (id ∉ recovered)
      end.
Proof.
  intros pending.
  assert (∀ r, recoverable executors (application_version inner) r = true ↔ pending r) as Hpending
    by (intros r; apply recoverable_spec).
  destruct (recover_pending_run executors w) as (l & rec & new & w' & Hrun & (Ht & _ & Hd & Hout & Hrec) & Hin).
  exists rec, new, w'. split; [done|]. split_and!; [done..|]. intros id.
  destruct (decide (id ∈ rw_id <$> l)) as [Hid|Hid].
  - destruct (Hrec id Hid) as (r & r' & Hr & -> & Hrr). apply Hin in Hid as (r0 & Hr0 & Hp%Hpending).
    rewrite Hr in *. simplify_eq. exists r'. by split_and!.
  - destruct (Hout id Hid) as (-> & Hts & Hnr).
    destruct (workflow_status (w_db w) !! id) as [r|] eqn:Hr; [|done]. exists r.
    split_and!; [done| |done]. intros Hp%Hpending. destruct Hid. apply Hin. eauto.
Qed.
End properties.
