(* ===== verification/Conductor.v ===== *)
(** * The conductor client (runtime/conductor.rs)

    The websocket address, the dispatch of request messages and their replies,
    and the specification of the dispatch: what each request asks for, does and
    gets as fields of its reply ([serves]).  The connection that brings the texts to [handle_message] is in
    [ConductorLoop]. *)
From S2P Require Import Prelude Errors Json Serialize Database World Status QueueDb Management.
From S2P Require Import Wire Config Context Workflow Recovery.

Local Open Scope string_scope.
Local Open Scope Z_scope.
Local Open Scope list_scope.
Local Open Scope dbos_scope.

(** ** Configuration *)

Definition DEFAULT_DOMAIN : string := "cloud.dbos.dev".
(** [CARGO_PKG_VERSION]. *)
Definition DBOS_VERSION : string := "0.1.0".

Record ConductorConfig := mkConductorConfig {
  cc_url : string;
  cc_api_key : string;
  cc_app_name : string;
  cc_executor_metadata : option Object;
}.

Definition config_from (env : SystemEnv) (api_key url : option string) (app_name : string)
    (metadata : option Object) : option ConductorConfig :=
  api_key ← non_empty api_key;
  let url := match non_empty url with
             | Some u => u
             | None => "wss://" +:+ default DEFAULT_DOMAIN (env_get env "DBOS_DOMAIN")
                       +:+ "/conductor/v1alpha1"
             end in
  Some (mkConductorConfig url api_key app_name metadata).

(** [{b:02X}]. *)
Definition hex_upper (n : nat) : ascii :=
  Ascii.ascii_of_nat (if decide (n < 10)%nat then 48 + n else 55 + n)%nat.

Definition unreserved (b : ascii) : bool :=
  is_alphanumeric b || bool_decide (b ∈ ["-"; "."; "_"; "~"]%char).

Definition encode_byte (b : ascii) : string :=
  if unreserved b then String b ""
  else String "%" (String (hex_upper (Ascii.nat_of_ascii b / 16))
                  (String (hex_upper (Ascii.nat_of_ascii b mod 16)) "")).

Fixpoint encode_segment (s : string) : string :=
  match s with "" => "" | String b rest => encode_byte b +:+ encode_segment rest end.

Definition websocket_url (config : ConductorConfig) : string :=
  let base := trim_end_by (λ c, bool_decide (c = "/"%char)) (cc_url config) in
  base +:+ "/websocket/" +:+ encode_segment (cc_app_name config) +:+ "/"
  +:+ encode_segment (cc_api_key config).

(** ** Request fields *)

(** A field that is one string or an array of strings. *)
Definition string_list (v : option Value) : list string :=
  match v with
  | Some (VString s) => [s]
  | Some (VArray a) => omap as_str a
  | _ => []
  end.

Definition array_or_none (v : option Value) : option (list string) :=
  match string_list v with [] => None | l => Some l end.

Definition first_string (v : option Value) : option string := head (string_list v).

Definition status_list (v : option Value) : option (list WorkflowStatusType) :=
  match string_list v with
  | [] => None
  | names => Some (omap status_from_str names)
  end.

Definition iso_to_ms `{Rfc3339} (v : option Value) : option Z :=
  s ← v ≫= as_str; parse_from_rfc3339 s.

Definition coalesce_ids (msg : Value) : list string :=
  match array_or_none (value_get "workflow_ids" msg) with
  | Some v => v
  | None => match get_str "workflow_id" msg with Some s => [s] | None => [] end
  end.

Definition parse_list_filter `{Rfc3339} (body : option Value) (queues_only : bool)
    : ListWorkflowsFilter :=
  let b := default VNull body in
  {| lf_workflow_ids := array_or_none (value_get "workflow_uuids" b);
     lf_status := status_list (value_get "status" b);
     lf_workflow_name := first_string (value_get "workflow_name" b);
     lf_queue_name := first_string (value_get "queue_name" b);
     lf_queues_only := queues_only || default false (get_bool "queues_only" b);
     lf_application_version := first_string (value_get "application_version" b);
     lf_executor_ids := array_or_none (value_get "executor_id" b);
     lf_start_time := iso_to_ms (value_get "start_time" b);
     lf_end_time := iso_to_ms (value_get "end_time" b);
     lf_limit := get_i64 "limit" b;
     lf_offset := get_i64 "offset" b;
     lf_sort_desc := default false (get_bool "sort_desc" b) |}.

(** ** Response bodies *)

Section conductor.
Context `{Env, SerdeJson, Base64Engine, PgScan, Rfc3339}.

Definition conductor_workflow_to_wire (w : WorkflowStatus) : Value :=
  let o := [] in
  let o := map_insert "WorkflowUUID" (VString (ws_id w)) o in
  let o := map_insert "Status" (VString (status_str (ws_status w))) o in
  let o := map_insert "WorkflowName" (VString (ws_name w)) o in
  let o := map_insert "CreatedAt" (json_decimal (ws_created_at w)) o in
  let o := map_insert "UpdatedAt" (json_decimal (ws_updated_at w)) o in
  let o := map_insert "Priority" (json_decimal (ws_priority w)) o in
  let o := map_insert "WasForkedFrom" (VBool (ws_was_forked_from w)) o in
  let o := insert_opt "QueueName" (VString <$> ws_queue_name w) o in
  let o := insert_opt "ExecutorID" (VString <$> ws_executor_id w) o in
  let o := insert_opt "ApplicationVersion" (VString <$> ws_application_version w) o in
  let o := insert_opt "ParentWorkflowID" (VString <$> ws_parent_workflow_id w) o in
  let o := insert_opt "ForkedFrom" (VString <$> ws_forked_from w) o in
  let o := insert_opt "DeduplicationID" (VString <$> ws_deduplication_id w) o in
  let o := insert_opt "WorkflowConfigName" (VString <$> ws_config_name w) o in
  let o := insert_opt "Error" (VString <$> ws_error w) o in
  let o := insert_opt "CompletedAt" (json_decimal <$> ws_completed_at w) o in
  let o := insert_opt "Input" ((VString ∘ json_print) <$> ws_input w) o in
  let o := insert_opt "Output" ((VString ∘ json_print) <$> ws_output w) o in
  let o := if decide (ws_status w = Pending)
           then insert_opt "DequeuedAt" (json_decimal <$> ws_started_at w) o else o in
  VObject o.

Definition conductor_step_to_wire (s : StepInfo) : Value :=
  let o := [] in
  let o := map_insert "function_id" (json_int (si_step_id s)) o in
  let o := map_insert "function_name" (VString (si_step_name s)) o in
  let o := insert_opt "output" ((VString ∘ json_print) <$> si_output s) o in
  let o := insert_opt "error" (VString <$> si_error s) o in
  let o := insert_opt "child_workflow_id" (VString <$> si_child_workflow_id s) o in
  let o := insert_opt "started_at_epoch_ms" (json_decimal <$> si_started_at s) o in
  let o := insert_opt "completed_at_epoch_ms" (json_decimal <$> si_completed_at s) o in
  VObject o.

Definition error_message (e : DbosError) : Value := VString (error_to_string e).

Definition set_output (resp : Object) (r : Result Value) : Object :=
  match r with
  | Ok v => map_insert "output" v resp
  | Err e => map_insert "error_message" (error_message e) resp
  end.

Definition set_success (resp : Object) (r : Result unit) : Object :=
  match r with
  | Ok _ => map_insert "success" (VBool true) resp
  | Err e => map_insert "error_message" (error_message e) (map_insert "success" (VBool false) resp)
  end.

Definition list_to_wire (filter : ListWorkflowsFilter) : M Value :=
  wfs ← list_workflows filter;
  mret (VArray (conductor_workflow_to_wire <$> wfs)).

(** ** Dispatch *)

Context (inner : DbosInner) (executor_metadata : option Object).
(** The process's [HOSTNAME]. *)
Context (hostname : option string).

Definition executor_info (resp : Object) : Object :=
  let resp := map_insert "executor_id" (VString (executor_id inner)) resp in
  let resp := map_insert "application_version" (VString (application_version inner)) resp in
  let resp := map_insert "language" (VString "rust") resp in
  let resp := map_insert "dbos_version" (VString DBOS_VERSION) resp in
  let resp := insert_opt "hostname" (VString <$> hostname) resp in
  insert_opt "executor_metadata" (VObject <$> executor_metadata) resp.

Definition fork_request (msg : Value) : ForkWorkflowInput :=
  let body := default VNull (value_get "body" msg) in
  {| fk_original_workflow_id := default "" (get_str "workflow_id" body);
     fk_forked_workflow_id := get_str "new_workflow_id" body;
     fk_start_step := wrap_i32 (default 0 (get_i64 "start_step" body));
     fk_application_version := get_str "application_version" body;
     fk_queue_name := get_str "queue_name" body;
     fk_queue_partition_key := get_str "queue_partition_key" body |}.

Definition by_id_filter (id : string) : ListWorkflowsFilter :=
  mkFilter (Some [id]) None None None false None None None None None None false.

Definition exist_pending_filter (msg : Value) : ListWorkflowsFilter :=
  mkFilter None (Some [Pending]) None None false
    (Some (default "" (get_str "application_version" msg)))
    (Some [default "" (get_str "executor_id" msg)]) None None (Some 1) None false.

Definition retention (msg : Value) : M unit :=
  let body := default VNull (value_get "body" msg) in
  let gc_cutoff := get_i64 "gc_cutoff_epoch_ms" body in
  let gc_rows := get_i64 "gc_rows_threshold" body in
  (if bool_decide (is_Some gc_cutoff) || bool_decide (is_Some gc_rows)
   then garbage_collect gc_cutoff gc_rows else mret tt);;
  match get_i64 "timeout_cutoff_epoch_ms" body with
  | Some tc => cancel_all_before tc
  | None => mret tt
  end.

(** A request answered with [set_success]. *)
Definition acknowledge {A} (op : M A) (resp : Object) : M Object :=
  r ← attempt op;
  mret (set_success resp ((λ _, tt) <$> r)).

(** A request answered with a field, or with an error. *)
Definition answer {A} (op : M A) (field : string) (wire : A → Value) (resp : Object) : M Object :=
  r ← attempt op;
  mret (match r with
        | Ok a => map_insert field (wire a) resp
        | Err e => map_insert "error_message" (error_message e) resp
        end).

Definition dispatch (msg_type : string) (msg : Value) (resp : Object) : M Object :=
  if decide (msg_type = "executor_info") then mret (executor_info resp)
  else if decide (msg_type = "recovery") then
    acknowledge (recover_pending_workflows inner (string_list (value_get "executor_ids" msg))) resp
  else if decide (msg_type = "cancel") then acknowledge (cancel_workflows (coalesce_ids msg)) resp
  else if decide (msg_type = "resume") then
    acknowledge (resume_workflows (coalesce_ids msg)
                   (default INTERNAL_QUEUE_NAME (get_str "queue_name" msg))) resp
  else if decide (msg_type = "list_workflows") then
    r ← attempt (list_to_wire (parse_list_filter (value_get "body" msg) false));
    mret (set_output resp r)
  else if decide (msg_type = "list_queued_workflows") then
    r ← attempt (list_to_wire (parse_list_filter (value_get "body" msg) true));
    mret (set_output resp r)
  else if decide (msg_type = "get_workflow") then
    answer (list_workflows (by_id_filter (default "" (get_str "workflow_id" msg)))) "output"
      (λ wfs, match head wfs with Some w => conductor_workflow_to_wire w | None => VNull end) resp
  else if decide (msg_type = "list_steps") then
    answer (get_workflow_steps (default "" (get_str "workflow_id" msg))) "output"
      (λ steps, VArray (conductor_step_to_wire <$> steps)) resp
  else if decide (msg_type = "fork_workflow") then
    answer (fork_workflow (fork_request msg)) "new_workflow_id" VString resp
  else if decide (msg_type = "exist_pending_workflows") then
    answer (list_workflows (exist_pending_filter msg)) "exist"
      (λ wfs, VBool (negb (bool_decide (wfs = [])))) resp
  else if decide (msg_type = "retention") then acknowledge (retention msg) resp
  else if decide (msg_type = "delete") then acknowledge (delete_workflows (coalesce_ids msg)) resp
  else mret (map_insert "error_message" (VString "Unknown message type") resp).

Definition handle_message (text : string) : M (option string) :=
  match from_str Value text with
  | Err _ => mret None
  | Ok msg =>
      let msg_type := default "" (get_str "type" msg) in
      let request_id := default "" (get_str "request_id" msg) in
      let resp := map_insert "request_id" (VString request_id)
                    (map_insert "type" (VString msg_type) []) in
      resp ← dispatch msg_type msg resp;
      mret (Some (json_print (VObject resp)))
  end.
End conductor.

(** ** The address *)

(** Reading a percent-encoded segment. *)
Definition hex_value (c : ascii) : option nat :=
  let n := Ascii.nat_of_ascii c in
  if decide (48 ≤ n ≤ 57)%nat then Some (n - 48)%nat
  else if decide (65 ≤ n ≤ 70)%nat then Some (n - 55)%nat else None.

Fixpoint percent_decode (s : string) : option string :=
  match s with
  | "" => Some ""
  | String c rest =>
      if decide (c = "%"%char) then
        match rest with
        | String h (String l rest) =>
            h ← hex_value h; l ← hex_value l; decoded ← percent_decode rest;
            Some (String (Ascii.ascii_of_nat (16 * h + l)) decoded)
        | _ => None
        end
      else decoded ← percent_decode rest; Some (String c decoded)
  end.

Definition segment_char (c : ascii) : bool := unreserved c || bool_decide (c = "%"%char).

Lemma percent_decode_byte b rest :
  percent_decode (encode_byte b +:+ rest) = decoded ← percent_decode rest; Some (String b decoded).
Proof.
  unfold encode_byte. destruct (unreserved b) eqn:Hb.
  - change (String b "" +:+ rest) with (String b rest). cbn [percent_decode].
    rewrite decide_False; [done|]. by intros ->.
  - rewrite !str_app_cons. change ("" +:+ rest) with rest. cbn [percent_decode].
    rewrite decide_True by done.
    set (p := λ c, bool_decide ((
      h ← hex_value (hex_upper (Ascii.nat_of_ascii c / 16));
      l ← hex_value (hex_upper (Ascii.nat_of_ascii c mod 16));
      Some (Ascii.ascii_of_nat (16 * h + l))) = Some c)).
    assert (p b = true) as Hp by (apply forall_ascii; vm_compute; reflexivity).
    unfold p in Hp. apply bool_decide_eq_true in Hp.
    destruct (hex_value (hex_upper (_ / 16))) as [h|]; simpl in Hp; [|done]. simpl.
    destruct (hex_value _) as [l|]; simpl in Hp; [|done]. simpl. by injection Hp as ->.
Qed.

Lemma encode_segment_decode s : percent_decode (encode_segment s) = Some s.
Proof.
  induction s as [|b s IH]; [done|]. cbn [encode_segment]. by rewrite percent_decode_byte, IH.
Qed.

Lemma encode_segment_chars s : str_all segment_char (encode_segment s) = true.
Proof.
  induction s as [|b s IH]; [done|]. cbn [encode_segment]. rewrite str_all_app, IH, andb_true_r.
  set (p := λ c, str_all segment_char (encode_byte c)).
  assert (p b = true) as Hp by (apply forall_ascii; vm_compute; reflexivity). exact Hp.
Qed.

(** The websocket address has exactly two segments after [/websocket],
    made of unreserved characters and escapes only, and they decode to the
    application name and the API key, whatever these hold; so neither can
    change the path, or add a query or a fragment. *)
Theorem websocket_url_segments config :
  ∃ base app key, websocket_url config = base +:+ "/websocket/" +:+ app +:+ "/" +:+ key ∧
    base = trim_end_by (λ c, bool_decide (c = "/"%char)) (cc_url config) ∧
    percent_decode app = Some (cc_app_name config) ∧
    percent_decode key = Some (cc_api_key config) ∧
    str_all segment_char app = true ∧ str_all segment_char key = true ∧
    segment_char "/" = false ∧ segment_char "?" = false ∧ segment_char "#" = false.
Proof.
  eexists _, _, _. split; [reflexivity|].
  split_and!; auto using encode_segment_decode, encode_segment_chars.
Qed.

(** ** Replies *)

Section replies.
Context `{HE : Env, HJ : SerdeJson, HB : Base64Engine, HS : PgScan, HR : Rfc3339}.
Context (inner : DbosInner) (executor_metadata : option Object) (hostname : option string).

(** A request for a status the crate does not know lists every workflow: the
    unknown name is dropped and the empty list that is left is no condition. *)
Lemma unknown_status_lists_all name id r :
  status_from_str name = None →
  filter_matches (parse_list_filter (Some (VObject [("status", VString name)])) false) id r = true.
Proof.
  intros Hn. unfold filter_matches, parse_list_filter, status_list. simpl. by rewrite Hn.
Qed.

(** *** What a request asks for *)

Definition body_of (msg : Value) : Value :=
  match value_get "body" msg with Some body => body | None => VNull end.

(** The listing a request asks for; [queued] is that of the queued workflows
    only. *)
Definition asks_for (queued : bool) (msg : Value) (f : ListWorkflowsFilter) : Prop :=
  let body := body_of msg in
  let names k := names_in (value_get k body) in
  (∃ l, names "workflow_uuids" l ∧ lf_workflow_ids f = match l with [] => None | _ => Some l end) ∧
  (∃ l sts, names "status" l ∧ statuses_of l sts ∧
    lf_status f = match l with [] => None | _ => Some sts end) ∧
  (∃ l, names "workflow_name" l ∧ lf_workflow_name f = head l) ∧
  (∃ l, names "queue_name" l ∧ lf_queue_name f = head l) ∧
  (∃ l, names "application_version" l ∧ lf_application_version f = head l) ∧
  (∃ l, names "executor_id" l ∧ lf_executor_ids f = match l with [] => None | _ => Some l end) ∧
  (lf_queues_only f = true ↔ queued = true ∨ flag_set "queues_only" body) ∧
  lf_start_time f = time_field "start_time" body ∧ lf_end_time f = time_field "end_time" body ∧
  lf_limit f = int_field "limit" body ∧ lf_offset f = int_field "offset" body ∧
  (lf_sort_desc f = true ↔ flag_set "sort_desc" body).

(** The workflows a request is about. *)
Definition targets (msg : Value) (ids : list string) : Prop :=
  ∃ l, names_in (value_get "workflow_ids" msg) l ∧
    ids = match l with
          | [] => match text_field "workflow_id" msg with Some id => [id] | None => [] end
          | _ => l
          end.

Definition or_empty (s : option string) : string := match s with Some s => s | None => "" end.

Definition asks_fork (msg : Value) (input : ForkWorkflowInput) : Prop :=
  let body := body_of msg in
  fk_original_workflow_id input = or_empty (text_field "workflow_id" body) ∧
  fk_forked_workflow_id input = text_field "new_workflow_id" body ∧
  fk_start_step input = wrap_i32 (match int_field "start_step" body with Some n => n | None => 0 end) ∧
  fk_application_version input = text_field "application_version" body ∧
  fk_queue_name input = text_field "queue_name" body ∧
  fk_queue_partition_key input = text_field "queue_partition_key" body.

(** The retention request: garbage collection when it gives a cutoff or a
    number of rows, then the cancellations when it gives a timeout; the first
    failure ends it. *)
Definition retained (msg : Value) (w : World) (r : Result unit) (w' : World) : Prop :=
  let body := body_of msg in
  ∃ r1 w1,
    match int_field "gc_cutoff_epoch_ms" body, int_field "gc_rows_threshold" body with
    | None, None => r1 = Ok tt ∧ w1 = w
    | cutoff, rows => garbage_collect cutoff rows w = (r1, w1)
    end ∧
    match r1, int_field "timeout_cutoff_epoch_ms" body with
    | Err e, _ => r = Err e ∧ w' = w1
    | Ok _, None => r = Ok tt ∧ w' = w1
    | Ok _, Some cutoff => cancel_all_before cutoff w1 = (r, w')
    end.

(** *** What a reply shows *)

(** One workflow: numbers are decimal texts, values JSON texts, and what the
    workflow does not have is left out. *)
Definition shows_workflow (ws : WorkflowStatus) (v : Value) : Prop :=
  ∃ o, v = VObject o ∧ carries o
    [("WorkflowUUID", Some (VString (ws_id ws)));
     ("Status", Some (VString (status_str (ws_status ws))));
     ("WorkflowName", Some (VString (ws_name ws)));
     ("CreatedAt", Some (VString (pretty (ws_created_at ws))));
     ("UpdatedAt", Some (VString (pretty (ws_updated_at ws))));
     ("Priority", Some (VString (pretty (ws_priority ws))));
     ("WasForkedFrom", Some (VBool (ws_was_forked_from ws)));
     ("QueueName", VString <$> ws_queue_name ws);
     ("ExecutorID", VString <$> ws_executor_id ws);
     ("ApplicationVersion", VString <$> ws_application_version ws);
     ("ParentWorkflowID", VString <$> ws_parent_workflow_id ws);
     ("ForkedFrom", VString <$> ws_forked_from ws);
     ("DeduplicationID", VString <$> ws_deduplication_id ws);
     ("WorkflowConfigName", VString <$> ws_config_name ws);
     ("Error", VString <$> ws_error ws);
     ("CompletedAt", (λ z, VString (pretty z)) <$> ws_completed_at ws);
     ("Input", (λ v, VString (json_print v)) <$> ws_input ws);
     ("Output", (λ v, VString (json_print v)) <$> ws_output ws);
     ("DequeuedAt", match ws_status ws with
                    | Pending => (λ z, VString (pretty z)) <$> ws_started_at ws
                    | _ => None
                    end)].

Definition shows_step (st : StepInfo) (v : Value) : Prop :=
  ∃ o, v = VObject o ∧ carries o
    [("function_id", Some (VNumber (NInt (si_step_id st))));
     ("function_name", Some (VString (si_step_name st)));
     ("output", (λ v, VString (json_print v)) <$> si_output st);
     ("error", VString <$> si_error st);
     ("child_workflow_id", VString <$> si_child_workflow_id st);
     ("started_at_epoch_ms", (λ z, VString (pretty z)) <$> si_started_at st);
     ("completed_at_epoch_ms", (λ z, VString (pretty z)) <$> si_completed_at st)].

(** The fields that tell how an operation ended. *)
Definition acknowledged {A} (r : Result A) : Fields :=
  match r with
  | Ok _ => [("success", Some (VBool true))]
  | Err e => [("success", Some (VBool false)); ("error_message", Some (VString (error_to_string e)))]
  end.

Definition answered {A} (field : string) (shows : A → Value → Prop) (r : Result A) (fields : Fields) : Prop :=
  match r with
  | Ok a => ∃ v, fields = [(field, Some v)] ∧ shows a v
  | Err e => fields = [("error_message", Some (VString (error_to_string e)))]
  end.

Definition known_requests : list string :=
  ["executor_info"; "recovery"; "cancel"; "resume"; "list_workflows"; "list_queued_workflows";
   "get_workflow"; "list_steps"; "fork_workflow"; "exist_pending_workflows"; "retention"; "delete"].

(** What a request of a type does, and the fields of its reply. *)
Inductive serves (msg : Value) (w : World) : string → Fields → World → Prop :=
  | serves_info :
      serves msg w "executor_info"
        [("executor_id", Some (VString (executor_id inner)));
         ("application_version", Some (VString (application_version inner)));
         ("language", Some (VString "rust")); ("dbos_version", Some (VString "0.1.0"));
         ("hostname", VString <$> hostname); ("executor_metadata", VObject <$> executor_metadata)] w
  | serves_recovery ids r w' :
      names_in (value_get "executor_ids" msg) ids →
      recover_pending_workflows inner ids w = (r, w') → serves msg w "recovery" (acknowledged r) w'
  | serves_cancel ids r w' :
      targets msg ids → cancel_workflows ids w = (r, w') →
      serves msg w "cancel" (acknowledged r) w'
  | serves_resume ids r w' :
      targets msg ids →
      resume_workflows ids (match text_field "queue_name" msg with
                            | Some q => q
                            | None => "_dbos_internal_queue"
                            end) w = (r, w') →
      serves msg w "resume" (acknowledged r) w'
  | serves_list f r w' fields :
      asks_for false msg f → list_workflows f w = (r, w') →
      answered "output" (shows_all shows_workflow) r fields → serves msg w "list_workflows" fields w'
  | serves_queued f r w' fields :
      asks_for true msg f → list_workflows f w = (r, w') →
      answered "output" (shows_all shows_workflow) r fields → serves msg w "list_queued_workflows" fields w'
  | serves_workflow r w' fields :
      list_workflows (mkFilter (Some [or_empty (text_field "workflow_id" msg)]) None None None false
                        None None None None None None false) w = (r, w') →
      answered "output" (λ wfs v, match wfs with [] => v = VNull | ws :: _ => shows_workflow ws v end)
        r fields → serves msg w "get_workflow" fields w'
  | serves_steps r w' fields :
      get_workflow_steps (or_empty (text_field "workflow_id" msg)) w = (r, w') →
      answered "output" (shows_all shows_step) r fields → serves msg w "list_steps" fields w'
  | serves_fork input r w' fields :
      asks_fork msg input → fork_workflow input w = (r, w') →
      answered "new_workflow_id" (λ id v, v = VString id) r fields →
      serves msg w "fork_workflow" fields w'
  | serves_exist r w' fields :
      list_workflows (mkFilter None (Some [Pending]) None None false
                        (Some (or_empty (text_field "application_version" msg)))
                        (Some [or_empty (text_field "executor_id" msg)]) None None (Some 1) None false) w
        = (r, w') →
      answered "exist" (λ wfs v, v = VBool (match wfs with [] => false | _ => true end)) r fields →
      serves msg w "exist_pending_workflows" fields w'
  | serves_retention r w' :
      retained msg w r w' → serves msg w "retention" (acknowledged r) w'
  | serves_delete ids r w' :
      targets msg ids → delete_workflows ids w = (r, w') →
      serves msg w "delete" (acknowledged r) w'
  | serves_unknown ty :
      ty ∉ known_requests →
      serves msg w ty [("error_message", Some (VString "Unknown message type"))] w.

(** *** The helpers meet it *)

Lemma string_list_names v : names_in v (string_list v).
Proof.
  unfold string_list. destruct v as [[]|]; try (apply names_none; congruence).
  - apply names_text.
  - apply names_array, texts_of_omap.
Qed.

Lemma coalesce_targets msg : targets msg (coalesce_ids msg).
Proof.
  exists (string_list (value_get "workflow_ids" msg)). split; [apply string_list_names|].
  unfold coalesce_ids, array_or_none. rewrite get_str_field. by destruct (string_list _).
Qed.

Lemma parse_list_filter_asks msg queued : asks_for queued msg (parse_list_filter (value_get "body" msg) queued).
Proof.
  unfold asks_for, parse_list_filter, first_string, array_or_none, status_list, iso_to_ms. cbn.
  change (default VNull (value_get "body" msg)) with (body_of msg).
  rewrite !get_i64_field. split_and!; try done; try (eexists; split; [apply string_list_names|by destruct (string_list _)]).
  - exists (string_list (value_get "status" (body_of msg))). eexists.
    split; [apply string_list_names|]. split; [apply statuses_of_omap|]. by destruct (string_list _).
  - rewrite orb_true_iff, get_bool_field. done.
  - unfold time_field. by destruct (value_get "start_time" _) as [[]|].
  - unfold time_field. by destruct (value_get "end_time" _) as [[]|].
  - apply get_bool_field.
Qed.

Lemma fork_request_asks msg : asks_fork msg (fork_request msg).
Proof.
  unfold asks_fork, fork_request. cbn. change (default VNull (value_get "body" msg)) with (body_of msg).
  rewrite !get_str_field, !get_i64_field. done.
Qed.

Lemma retention_retained msg w r w' : retention msg w = (r, w') → retained msg w r w'.
Proof.
  unfold retention, retained. change (default VNull (value_get "body" msg)) with (body_of msg).
  rewrite M_bind_run. intros Hr. rewrite <- (get_i64_field "gc_cutoff_epoch_ms"),
    <- (get_i64_field "gc_rows_threshold"), <- (get_i64_field "timeout_cutoff_epoch_ms"). set (gc := if bool_decide _ || _ then _ else _) in Hr.
  exists (fst (gc w)), (snd (gc w)). split.
  - unfold gc. destruct (get_i64 "gc_cutoff_epoch_ms" _), (get_i64 "gc_rows_threshold" _);
      first [by split | apply surjective_pairing].
  - destruct (gc w) as [[[]|e] w1]; simpl; [|by injection Hr as <- <-].
    destruct (get_i64 "timeout_cutoff_epoch_ms" _); [done|by injection Hr as <- <-].
Qed.

Lemma wire_shows_workflow ws : shows_workflow ws (conductor_workflow_to_wire ws).
Proof.
  eexists. split; [reflexivity|]. destruct ws as [id st]. cbn. destruct st;
    match goal with |- carries _ ?fields => apply (set_fields_carries fields); distinct_keys end.
Qed.

Lemma wire_shows_step st : shows_step st (conductor_step_to_wire st).
Proof.
  eexists. split; [reflexivity|].
  match goal with |- carries _ ?fields => apply (set_fields_carries fields); distinct_keys end.
Qed.

Lemma acknowledge_run {A} (op : M A) resp w r w' :
  op w = (r, w') →
  ∃ resp', acknowledge op resp w = (Ok resp', w') ∧ extends resp resp' (acknowledged r).
Proof.
  intros Hop. unfold acknowledge. rewrite M_bind_run. unfold attempt. rewrite Hop.
  eexists. split; [reflexivity|].
  destruct r; (match goal with |- extends _ _ ?fields => apply (set_fields_extends fields); distinct_keys end).
Qed.

Lemma answer_run {A} (op : M A) field wire (shows : A → Value → Prop) resp w r w' :
  op w = (r, w') → (∀ a, shows a (wire a)) →
  ∃ resp' fields, answer op field wire resp w = (Ok resp', w') ∧ answered field shows r fields ∧
    extends resp resp' fields.
Proof.
  intros Hop Hs. unfold answer. rewrite M_bind_run. unfold attempt. rewrite Hop.
  destruct r as [a|e]; (do 2 eexists; split; [reflexivity|]).
  - split; [by exists (wire a)|]. apply (set_fields_extends [(field, Some (wire a))]), NoDup_singleton.
  - split; [done|].
    apply (set_fields_extends [("error_message", Some (error_message e))]), NoDup_singleton.
Qed.

Lemma list_run f resp w r w' :
  list_workflows f w = (r, w') →
  ∃ resp' fields, (r ← attempt (list_to_wire f); mret (set_output resp r)) w = (Ok resp', w') ∧
    answered "output" (shows_all shows_workflow) r fields ∧ extends resp resp' fields.
Proof.
  intros Hop.
  destruct (answer_run (list_workflows f) "output" (λ wfs, VArray (conductor_workflow_to_wire <$> wfs))
    (shows_all shows_workflow) resp w r w' Hop) as (resp' & fields & Hrun & Hf).
  { intros wfs. apply map_shows_all, wire_shows_workflow. }
  exists resp', fields. split; [|done]. rewrite <- Hrun. unfold list_to_wire, answer.
  rewrite !M_bind_run. unfold attempt. rewrite M_bind_run, Hop. by destruct r.
Qed.

(** Every request is served, whatever its type. *)
Lemma dispatch_serves ty msg resp w :
  ∃ resp' fields w', dispatch inner executor_metadata hostname ty msg resp w = (Ok resp', w') ∧
    serves msg w ty fields w' ∧ extends resp resp' fields.
Proof.
  assert (∀ {A} (op : M A), (∀ r w', op w = (r, w') → serves msg w ty (acknowledged r) w') →
    ∃ resp' fields w', acknowledge op resp w = (Ok resp', w') ∧ serves msg w ty fields w' ∧
      extends resp resp' fields) as Hack.
  { intros A op Hs. destruct (op w) as [r w'] eqn:E.
    destruct (acknowledge_run op resp w r w' E) as (resp' & Hrun & Hext).
    exists resp', (acknowledged r), w'. eauto. }
  assert (∀ {A} (op : M A) field wire (shows : A → Value → Prop), (∀ a, shows a (wire a)) →
    (∀ r w' fields, op w = (r, w') → answered field shows r fields → serves msg w ty fields w') →
    ∃ resp' fields w', answer op field wire resp w = (Ok resp', w') ∧ serves msg w ty fields w' ∧
      extends resp resp' fields) as Hans.
  { intros A op field wire shows Hshows Hs. destruct (op w) as [r w'] eqn:E.
    destruct (answer_run op field wire shows resp w r w' E Hshows) as (resp' & fields & Hrun & Hf & Hext).
    exists resp', fields, w'. eauto. }
  assert (∀ f, (∀ r w' fields, list_workflows f w = (r, w') →
      answered "output" (shows_all shows_workflow) r fields → serves msg w ty fields w') →
    ∃ resp' fields w', (r ← attempt (list_to_wire f); mret (set_output resp r)) w = (Ok resp', w') ∧
      serves msg w ty fields w' ∧ extends resp resp' fields) as Hlist.
  { intros f Hs. destruct (list_workflows f w) as [r w'] eqn:E.
    destruct (list_run f resp w r w' E) as (resp' & fields & Hrun & Hf & Hext).
    exists resp', fields, w'. eauto. }
  unfold dispatch.
  case_decide as H1; [subst|]. { eexists _, _, w. split; [reflexivity|]. split; [apply serves_info|].
    match goal with |- extends _ _ ?fields => apply (set_fields_extends fields); distinct_keys end. }
  case_decide as H2; [subst|]. { apply Hack. intros r w'. apply serves_recovery, string_list_names. }
  case_decide as H3; [subst|]. { apply Hack. intros r w'. apply serves_cancel, coalesce_targets. }
  case_decide as H4; [subst|].
  { apply Hack. intros r w'. rewrite get_str_field. apply serves_resume, coalesce_targets. }
  case_decide as H5; [subst|]. { apply Hlist. intros r w' fields. apply serves_list, parse_list_filter_asks. }
  case_decide as H6; [subst|]. { apply Hlist. intros r w' fields. apply serves_queued, parse_list_filter_asks. }
  case_decide as H7; [subst|].
  { apply Hans with (shows := λ wfs v, match wfs with [] => v = VNull | ws :: _ => shows_workflow ws v end).
    - intros [|ws wfs]; [done|apply wire_shows_workflow].
    - intros r w' fields. rewrite get_str_field. apply serves_workflow. }
  case_decide as H8; [subst|].
  { apply Hans with (shows := shows_all shows_step).
    - intros steps. apply map_shows_all, wire_shows_step.
    - intros r w' fields. rewrite get_str_field. apply serves_steps. }
  case_decide as H9; [subst|].
  { apply Hans with (shows := λ id v, v = VString id); [done|].
    intros r w' fields. apply serves_fork, fork_request_asks. }
  case_decide as H10; [subst|].
  { apply Hans with (shows := λ wfs v, v = VBool (match wfs with [] => false | _ => true end)).
    - by intros [].
    - intros r w' fields. unfold exist_pending_filter. rewrite !get_str_field. apply serves_exist. }
  case_decide as H11; [subst|].
  { apply Hack. intros r w' Hr. by apply serves_retention, retention_retained. }
  case_decide as H12; [subst|]. { apply Hack. intros r w'. apply serves_delete, coalesce_targets. }
  eexists _, _, w. split; [reflexivity|]. split; [apply serves_unknown; unfold known_requests; set_solver|].
  apply (set_fields_extends [("error_message", Some (VString "Unknown message type"))]), NoDup_singleton.
Qed.

(** The fields of a reply never collide with the two it repeats. *)
Lemma serves_keys msg w ty fields w' :
  serves msg w ty fields w' → map_get "type" fields = None ∧ map_get "request_id" fields = None.
Proof.
  assert (∀ {A} (r : Result A), map_get "type" (acknowledged r) = None ∧
    map_get "request_id" (acknowledged r) = None) as Hack by (by intros A []).
  assert (∀ {A} field (shows : A → Value → Prop) r fs, field ∉ ["type"; "request_id"] →
    answered field shows r fs → map_get "type" fs = None ∧ map_get "request_id" fs = None) as Hans.
  { intros A field shows [a|e] fs Hf; simpl; [intros (v & -> & _)|by intros ->].
    rewrite !not_elem_of_cons in Hf. simpl. by rewrite !decide_False by naive_solver. }
  destruct 1; try done; try apply Hack; by (eapply Hans; [|done]; set_solver).
Qed.

(** C22: every text from the conductor gets at most one reply, and never breaks
    the connection.  A text that is not JSON gets none and does nothing.  Any
    other gets one object with its type and request id and, apart from these,
    exactly the fields [serves] gives for that type: the request runs the
    operation it names, on the workflows, filter or fork its fields describe;
    the reply has [success] and the text of the error for the commands, and
    the listed workflows and steps, the new id or the answer for the queries,
    with the text of the error instead when they fail; the retention request
    collects garbage and cancels as asked.  A request of an unknown type does
    nothing and says so. *)
Theorem handle_message_replies text w :
  match from_str Value text with
  | Err _ => handle_message inner executor_metadata hostname text w = (Ok None, w)
  | Ok msg => ∃ resp fields w',
      let ty := or_empty (text_field "type" msg) in
      handle_message inner executor_metadata hostname text w
        = (Ok (Some (json_print (VObject resp))), w') ∧
      serves msg w ty fields w' ∧
      carries resp (("type", Some (VString ty)) ::
                    ("request_id", Some (VString (or_empty (text_field "request_id" msg)))) :: fields)
  end.
Proof.
  unfold handle_message. destruct (from_str Value text) as [msg|e]; [|done]. cbv zeta.
  rewrite (get_str_field "type"), (get_str_field "request_id"). change (default "") with or_empty.
  set (ty := or_empty (text_field "type" msg)). set (rid := or_empty (text_field "request_id" msg)).
  set (resp0 := map_insert "request_id" _ _).
  destruct (dispatch_serves ty msg resp0 w) as (resp & fields & w' & Hrun & Hs & Hext).
  exists resp, fields, w'. split; [by eapply run_bind|]. split; [done|].
  destruct (serves_keys _ _ _ _ _ Hs) as [Ht Hr].
  assert (extends [] resp0 [("type", Some (VString ty)); ("request_id", Some (VString rid))]) as Hbase
    by (apply (set_fields_extends [("type", Some (VString ty)); ("request_id", Some (VString rid))] []);
        distinct_keys).
  intros k. rewrite Hext, Hbase. cbn [map_get].
  destruct (decide (k = "type")) as [->|]; [by rewrite Ht|].
  destruct (decide (k = "request_id")) as [->|]; [by rewrite Hr|].
  by destruct (map_get k fields) as [[]|].
Qed.
End replies.

(** ** What the conductor reads back *)

Section wire.
Context `{HJ : SerdeJson, !SerdeJsonLaws HJ}.

(** The integers of a listed workflow are those of its columns, and its
    values are trees serde_json prints exactly. *)
Definition status_exact (w : WorkflowStatus) : Prop :=
  in_i64 (ws_created_at w) ∧ in_i64 (ws_updated_at w) ∧ in_i64 (ws_priority w) ∧
  (∀ z, ws_completed_at w = Some z → in_i64 z) ∧ (∀ z, ws_started_at w = Some z → in_i64 z) ∧
  (∀ v, ws_input w = Some v → json_safe v = true) ∧
  (∀ v, ws_output w = Some v → json_safe v = true).

Definition get_decimal (k : string) (v : Value) : option Z := get_str k v ≫= parse_i64.
Definition get_json (k : string) (v : Value) : option Value :=
  s ← get_str k v; match json_parse s with inr v => Some v | inl _ => None end.

Lemma fmap_parse (o : option Z) :
  (∀ z, o = Some z → in_i64 z) → ((json_decimal <$> o) ≫= as_str) ≫= parse_i64 = o.
Proof. destruct o as [z|]; simpl; [|done]. intros H. by rewrite parse_i64_pretty by auto. Qed.

Lemma fmap_json (o : option Value) :
  (∀ v, o = Some v → json_safe v = true) →
  (s ← ((VString ∘ json_print) <$> o) ≫= as_str;
   match json_parse s with inr v => Some v | inl _ => None end) = o.
Proof. destruct o as [v|]; simpl; [|done]. intros H. by rewrite json_parse_print by auto. Qed.

Lemma fmap_string (o : option string) : (VString <$> o) ≫= as_str = o.
Proof. by destruct o. Qed.

Lemma match_default {A} (o : option A) : match o with Some a => Some a | None => None end = o.
Proof. by destruct o. Qed.

(** The workflow body the conductor receives gives back the whole status:
    id, status, name, timestamps and priority from their decimal texts, and
    input and output from their JSON texts; the start time is given for
    pending workflows only. *)
Theorem conductor_workflow_roundtrip w :
  status_exact w →
  let v := conductor_workflow_to_wire w in
  get_str "WorkflowUUID" v = Some (ws_id w) ∧
  (get_str "Status" v ≫= status_from_str) = Some (ws_status w) ∧
  get_str "WorkflowName" v = Some (ws_name w) ∧
  get_decimal "CreatedAt" v = Some (ws_created_at w) ∧
  get_decimal "UpdatedAt" v = Some (ws_updated_at w) ∧
  get_decimal "Priority" v = Some (ws_priority w) ∧
  get_bool "WasForkedFrom" v = Some (ws_was_forked_from w) ∧
  get_str "QueueName" v = ws_queue_name w ∧ get_str "ExecutorID" v = ws_executor_id w ∧
  get_str "ApplicationVersion" v = ws_application_version w ∧
  get_str "ParentWorkflowID" v = ws_parent_workflow_id w ∧
  get_str "ForkedFrom" v = ws_forked_from w ∧
  get_str "DeduplicationID" v = ws_deduplication_id w ∧
  get_str "WorkflowConfigName" v = ws_config_name w ∧ get_str "Error" v = ws_error w ∧
  get_decimal "CompletedAt" v = ws_completed_at w ∧
  get_json "Input" v = ws_input w ∧ get_json "Output" v = ws_output w ∧
  get_decimal "DequeuedAt" v = (if decide (ws_status w = Pending) then ws_started_at w else None).
Proof.
  intros (Hc&Hu&Hp&Hcomp&Hst&Hin&Hout) v.
  unfold v, conductor_workflow_to_wire, get_decimal, get_json, get_str, get_bool, value_get. clear v.
  destruct (decide (ws_status w = Pending)).
  all: split_and!; map_get_insert; cbn [map_get];
    rewrite ?match_default, ?fmap_string, ?fmap_parse, ?fmap_json by done; try done.
  all: simpl; first [by rewrite parse_i64_pretty | apply status_from_str_str].
Qed.
End wire.
