(* ===== verification/ConductorLoop.v ===== *)
(** * The conductor's connection (runtime/conductor.rs)

    [connect_and_serve], one websocket connection, and [run_conductor], the
    loop that reconnects with backoff, around [handle_message] of [Conductor]. *)
From S2P Require Import Prelude Errors Json Serialize Database World Status QueueDb Management.
From S2P Require Import Wire Config Context Workflow Recovery Conductor.

Local Open Scope string_scope.
Local Open Scope Z_scope.
Local Open Scope list_scope.
Local Open Scope dbos_scope.

Definition PING_INTERVAL : Duration.t := Duration.from_secs 20.
Definition READ_TIMEOUT : Duration.t := Duration.from_secs 30.
Definition INITIAL_RECONNECT_WAIT : Duration.t := Duration.from_secs 1.
Definition MAX_RECONNECT_WAIT : Duration.t := Duration.from_secs 30.
Definition HANDSHAKE_TIMEOUT : Duration.t := Duration.from_secs 10.

(** ** One connection *)

(** Frames, sent or received. *)
Inductive Message :=
  | Text (text : string)
  | Binary (payload : string)
  | Ping (payload : string)
  | Pong (payload : string)
  | Close.

(** What [timeout(READ_TIMEOUT, stream.next())] gives. *)
Inductive Next :=
  | Elapsed
  | Ended
  | Failed (error : string)
  | Got (msg : Message).

(** The branch a [select!] completes with. *)
Inductive Select :=
  | Cancelled
  | Ping_tick
  | Read (next : Next).

(** How connecting ends. *)
Inductive Handshake :=
  | Handshake_elapsed
  | Connect_refused (error : string)
  | Connected.

Section connection.
Context `{Env, SerdeJson, Base64Engine, PgScan, Rfc3339}.
Context (inner : DbosInner) (executor_metadata : option Object) (hostname : option string).

(** Whether the [n]-th write of the connection succeeds. *)
Context (sink_ok : nat → bool).

(** [sink.send(m).await.is_ok()], on the list of frames written so far. *)
Definition sink_send (m : Message) (sent : list Message) : list Message * bool :=
  (sent ++ [m], sink_ok (length sent)).

(** How the function ends: an error that triggers reconnection, or
    cancellation. *)
Definition Served : Type := (string + unit)%type.

(** One turn of the loop. *)
Definition serve_turn (sel : Select) (sent : list Message) : M (option Served * list Message) :=
  wait;;
  match sel with
  | Cancelled => mret (Some (inr tt), (sink_send Close sent).1)
  | Ping_tick =>
      let '(sent, ok) := sink_send (Ping "") sent in
      mret (if ok then None else Some (inl "ping write failed"), sent)
  | Read Elapsed => mret (Some (inl "read timeout"), sent)
  | Read Ended => mret (Some (inl "stream ended"), sent)
  | Read (Failed e) => mret (Some (inl ("read error: " +:+ e)), sent)
  | Read (Got (Text text)) =>
      reply ← handle_message inner executor_metadata hostname text;
      match reply with
      | Some reply =>
          let '(sent, ok) := sink_send (Text reply) sent in
          mret (if ok then None else Some (inl "response write failed"), sent)
      | None => mret (None, sent)
      end
  | Read (Got (Ping p)) => mret (None, (sink_send (Pong p) sent).1)
  | Read (Got Close) => mret (Some (inl "server closed"), sent)
  | Read (Got _) => mret (None, sent)
  end.

(** The loop on the branches its [select!]s complete with; [None] when it is
    still serving after these. *)
Fixpoint serve_connection (sels : list Select) (sent : list Message)
    : M (option Served * list Message) :=
  match sels with
  | [] => mret (None, sent)
  | sel :: sels =>
      turn ← serve_turn sel sent;
      let '(ended, sent) := turn in
      match ended with
      | Some r => mret (Some r, sent)
      | None => serve_connection sels sent
      end
  end.

Definition connect_and_serve (handshake : Handshake) (sels : list Select)
    : M (option Served * list Message) :=
  match handshake with
  | Handshake_elapsed => mret (Some (inl "handshake timeout"), [])
  | Connect_refused e => mret (Some (inl ("connect failed: " +:+ e)), [])
  | Connected => serve_connection sels []
  end.
End connection.

(** ** The loop of connections *)

(** One turn of [run_conductor]: what the token says at the top and after the
    connection, how the connection goes, and whether the token ends the sleep
    before the next. *)
Record Attempt := mkAttempt {
  at_cancelled : bool;
  at_handshake : Handshake;
  at_sink : nat → bool;
  at_selects : list Select;
  at_cancelled_after : bool;
  at_cancelled_asleep : bool;
}.

(** The frames of each connection made, the waits between them before jitter,
    and whether the client has returned. *)
Record Run := mkRun {
  rn_sent : list (list Message);
  rn_waits : list Duration.t;
  rn_returned : bool;
}.

Definition next_wait (wait : Duration.t) : Duration.t := (wait * 2) `min` MAX_RECONNECT_WAIT.

Section client.
Context `{Env, SerdeJson, Base64Engine, PgScan, Rfc3339}.
Context (inner : DbosInner) (executor_metadata : option Object) (hostname : option string).

Fixpoint run_conductor_loop (attempts : list Attempt) (delay : Duration.t) : M Run :=
  match attempts with
  | [] => mret (mkRun [] [] false)
  | a :: attempts =>
      if at_cancelled a then mret (mkRun [] [] true)
      else
        served ← connect_and_serve inner executor_metadata hostname (at_sink a) (at_handshake a) (at_selects a);
        let '(ended, sent) := served in
        match ended with
        | None => mret (mkRun [sent] [] false)
        | Some (inr _) => mret (mkRun [sent] [] true)
        | Some (inl _) =>
            if at_cancelled_after a then mret (mkRun [sent] [] true)
            else
              wait;;
              if at_cancelled_asleep a then mret (mkRun [sent] [delay] true)
              else
                rest ← run_conductor_loop attempts (next_wait delay);
                mret (mkRun (sent :: rn_sent rest) (delay :: rn_waits rest) (rn_returned rest))
        end
  end.

Definition run_conductor (attempts : list Attempt) : M Run :=
  run_conductor_loop attempts INITIAL_RECONNECT_WAIT.
End client.

(** ** Serving in order *)

Section serving.
Context `{HE : Env, HJ : SerdeJson, HB : Base64Engine, HS : PgScan, HR : Rfc3339}.
Context (inner : DbosInner) (executor_metadata : option Object) (hostname : option string).
Let handle := handle_message inner executor_metadata hostname.

Definition text_of (m : Message) : option string := match m with Text t => Some t | _ => None end.
Definition pong_of (m : Message) : option string := match m with Pong p => Some p | _ => None end.
Definition ping_of (sel : Select) : option string :=
  match sel with Read (Got (Ping p)) => Some p | _ => None end.

(** The branches that end a connection whose writes succeed. *)
Definition ending (sel : Select) : option Served :=
  match sel with
  | Cancelled => Some (inr tt)
  | Read Elapsed => Some (inl "read timeout")
  | Read Ended => Some (inl "stream ended")
  | Read (Failed e) => Some (inl ("read error: " +:+ e))
  | Read (Got Close) => Some (inl "server closed")
  | _ => None
  end.

(** The branches up to the first that ends the connection, and its result. *)
Fixpoint served (sels : list Select) : list Select :=
  match sels with
  | [] => []
  | sel :: sels => sel :: match ending sel with Some _ => [] | None => served sels end
  end.

Fixpoint first_end (sels : list Select) : option Served :=
  match sels with
  | [] => None
  | sel :: sels => match ending sel with Some r => Some r | None => first_end sels end
  end.

(** Waiting for a branch, and the request it brings. *)
Definition receive (sel : Select) : M (option string) :=
  wait;;
  match sel with Read (Got (Text text)) => handle text | _ => mret None end.

Lemma handle_message_total text w : ∃ reply w', handle text w = (Ok reply, w').
Proof.
  unfold handle, handle_message. destruct (from_str Value text) as [msg|e]; [|eauto]. cbv zeta.
  set (resp := map_insert "request_id" _ _).
  destruct (dispatch_serves inner executor_metadata hostname (default "" (get_str "type" msg)) msg resp w)
    as (resp'&_&w'&Hrun&_). eexists _, w'. by eapply run_bind.
Qed.

Lemma receive_total sel w : ∃ reply w', receive sel w = (Ok reply, w').
Proof.
  unfold receive, wait, mbind, M_bind.
  destruct sel as [| |[| | |[]]]; eauto using handle_message_total.
Qed.

(** One turn whose writes succeed. *)
Lemma serve_turn_run sel sent w reply w' :
  receive sel w = (Ok reply, w') →
  ∃ more, serve_turn inner executor_metadata hostname (λ _, true) sel sent w
      = (Ok (ending sel, sent ++ more), w') ∧
    omap text_of more = option_list reply ∧ omap pong_of more = option_list (ping_of sel) ∧
    (Close ∈ more ↔ ending sel = Some (inr tt)).
Proof.
  unfold receive, serve_turn, wait, sink_send, mbind, M_bind.
  destruct sel as [| |[| |e|[text|p|p|p|]]]; simpl;
    try (intros [= <- <-]; first [by exists []; rewrite app_nil_r; set_solver
      |eexists; split; [reflexivity|]; simpl; set_solver]).
  unfold handle. intros ->. destruct reply as [reply|]; simpl.
  - eexists. split; [reflexivity|]. simpl. set_solver.
  - exists []. rewrite app_nil_r. set_solver.
Qed.

(** A connection serves its requests one at a time and in order.  While
    writes succeed, it handles exactly the texts received before the first
    branch that ends it (cancellation, a read timeout or error, the end of the
    stream, a close frame), one after the other; the texts it sends are their
    replies, in order, pings are answered with their payload in order, the
    result is that of the branch that ended it, and a close frame is sent on
    cancellation only.  No request breaks the connection. *)
Theorem connection_serves_in_order sels w :
  ∃ replies sent w', mapM receive (served sels) w = (Ok replies, w') ∧
    serve_connection inner executor_metadata hostname (λ _, true) sels [] w
      = (Ok (first_end sels, sent), w') ∧
    omap text_of sent = omap id replies ∧
    omap pong_of sent = omap ping_of (served sels) ∧
    (Close ∈ sent ↔ first_end sels = Some (inr tt)).
Proof.
  enough (∀ sent, ∃ replies more w', mapM receive (served sels) w = (Ok replies, w') ∧
    serve_connection inner executor_metadata hostname (λ _, true) sels sent w
      = (Ok (first_end sels, sent ++ more), w') ∧
    omap text_of more = omap id replies ∧ omap pong_of more = omap ping_of (served sels) ∧
    (Close ∈ more ↔ first_end sels = Some (inr tt))) as H by apply (H []).
  revert w. induction sels as [|sel sels IH]; intros w sent.
  { exists [], [], w. rewrite app_nil_r. simpl. set_solver. }
  destruct (receive_total sel w) as (reply&w1&Hr).
  destruct (serve_turn_run sel sent w reply w1 Hr) as (more&Ht&Htext&Hpong&Hclose).
  cbn [served first_end serve_connection]. destruct (ending sel) as [r|] eqn:He.
  - exists [reply], more, w1. split_and!.
    + simpl. eapply run_bind; [exact Hr|]. done.
    + eapply run_bind; [exact Ht|]. done.
    + rewrite Htext. by destruct reply.
    + rewrite Hpong. simpl. by destruct (ping_of sel).
    + done.
  - destruct (IH w1 (sent ++ more)) as (replies&more'&w2&Hm&Hs&Htext'&Hpong'&Hclose').
    exists (reply :: replies), (more ++ more'), w2. split_and!.
    + simpl. eapply run_bind; [exact Hr|]. eapply run_bind; [exact Hm|done].
    + eapply run_bind; [exact Ht|]. by rewrite (assoc_L (++)).
    + rewrite omap_app, Htext, Htext'. by destruct reply.
    + rewrite omap_app, Hpong, Hpong'. simpl. by destruct (ping_of sel).
    + rewrite elem_of_app, Hclose, Hclose'. naive_solver.
Qed.
End serving.

(** ** Reconnecting *)

Section reconnecting.
Context `{HE : Env, HJ : SerdeJson, HB : Base64Engine, HS : PgScan, HR : Rfc3339}.
Context (inner : DbosInner) (executor_metadata : option Object) (hostname : option string).

(** The wait before the reconnection number [i]. *)
Definition backoff (i : nat) : Duration.t :=
  Duration.from_secs (2 ^ Z.of_nat i) `min` MAX_RECONNECT_WAIT.

Lemma backoff_0 : backoff 0 = INITIAL_RECONNECT_WAIT.
Proof. reflexivity. Qed.

Lemma backoff_next i : next_wait (backoff i) = backoff (S i).
Proof.
  unfold next_wait, backoff, MAX_RECONNECT_WAIT, Duration.from_secs.
  rewrite Nat2Z.inj_succ, Z.pow_succ_r by lia. lia.
Qed.

Lemma backoff_range i : INITIAL_RECONNECT_WAIT ≤ backoff i ≤ MAX_RECONNECT_WAIT.
Proof.
  unfold backoff, MAX_RECONNECT_WAIT, INITIAL_RECONNECT_WAIT, Duration.from_secs.
  pose proof (Z.pow_pos_nonneg 2 (Z.of_nat i)). lia.
Qed.

Lemma serve_connection_total ok sels sent w :
  ∃ res w', serve_connection inner executor_metadata hostname ok sels sent w = (Ok res, w').
Proof.
  revert sent w. induction sels as [|sel sels IH]; intros sent w; simpl; [by eexists _, _|].
  assert (∃ turn w', serve_turn inner executor_metadata hostname ok sel sent w = (Ok turn, w'))
    as ([[r|] sent']&w'&E).
  { unfold serve_turn, wait, mbind, M_bind.
    destruct sel as [| |[| |e|[text|p|p|p|]]]; simpl; try by eexists _, _.
    edestruct handle_message_total as (reply&w'&->). destruct reply; simpl; by eexists _, _. }
  - eexists _, w'. by eapply run_bind.
  - destruct (IH sent' w') as (res&w2&?). exists res, w2. by eapply run_bind.
Qed.

Lemma connect_and_serve_total ok h sels w :
  ∃ res w', connect_and_serve inner executor_metadata hostname ok h sels w = (Ok res, w').
Proof. destruct h; simpl; [by eexists _, _..|]. apply serve_connection_total. Qed.

(** Whether an attempt is cancelled: its connection, or the token around it. *)
Definition cancels (a : Attempt) : Prop :=
  at_cancelled a = true ∨ at_cancelled_after a = true ∨ at_cancelled_asleep a = true ∨
  Cancelled ∈ at_selects a.

Lemma cancelled_select ok sels sent w sent' w' :
  serve_connection inner executor_metadata hostname ok sels sent w = (Ok (Some (inr tt), sent'), w') →
  Cancelled ∈ sels.
Proof.
  revert sent w. induction sels as [|sel sels IH]; intros sent w; simpl; [done|].
  intros ([r sent1]&w1&Ht&Hs)%M_bind_Ok. destruct r as [r|]; [|right; by eapply IH].
  injection Hs as -> <- <-. destruct sel as [| |next]; [by left|exfalso|exfalso];
    unfold serve_turn, wait, sink_send, mbind, M_bind in Ht.
  - simpl in Ht. by destruct (ok _).
  - destruct next as [| |e|[text|p|p|p|]]; simpl in Ht; try done.
    destruct (handle_message _ _ _ _ _) as [[[]|] ?]; simpl in Ht; [by destruct (ok _)|done..].
Qed.

Lemma run_loop_waits attempts i w :
  ∃ r w', run_conductor_loop inner executor_metadata hostname attempts (backoff i) w = (Ok r, w') ∧
    rn_waits r = backoff <$> seq i (length (rn_waits r)) ∧
    (length (rn_waits r) ≤ length (rn_sent r) + 1)%nat ∧
    (rn_returned r = true → Exists cancels attempts).
Proof.
  revert i w. induction attempts as [|a attempts IH]; intros i w; simpl.
  { eexists _, w. split_and!; [reflexivity|done|simpl; lia|done]. }
  destruct (at_cancelled a) eqn:Hc.
  { eexists _, w. split_and!; [reflexivity|done|simpl; lia|]. intros _. left. by left. }
  destruct (connect_and_serve_total (at_sink a) (at_handshake a) (at_selects a) w)
    as ([ended sent]&w1&E).
  destruct ended as [[e|[]]|].
  - destruct (at_cancelled_after a) eqn:Ha.
    { eexists _, w1. split; [by eapply run_bind|]. split_and!; [done|simpl; lia|].
      intros _. left. right. by left. }
    destruct (at_cancelled_asleep a) eqn:Hz.
    { eexists _, _. split; [eapply run_bind; [exact E|reflexivity]|]. split_and!; [done|simpl; lia|].
      intros _. left. do 2 right. by left. }
    destruct (IH (S i) (wait w1).2) as (rest&w2&Hr&Hw&Hl&Hret). rewrite <-backoff_next in Hr.
    eexists _, w2. split.
    { eapply run_bind; [exact E|]. unfold wait, mbind, M_bind in *. simpl in *. by rewrite Hr. }
    simpl. split_and!; [by rewrite Hw at 1|lia|].
    intros Ht. right. by apply Hret.
  - eexists _, w1. split; [by eapply run_bind|]. split_and!; [done|simpl; lia|].
    intros _. destruct (at_handshake a); simplify_eq/=. apply cancelled_select in E.
    left. by do 3 right.
  - eexists _, w1. split; [by eapply run_bind|]. split_and!; [done|simpl; lia|done].
Qed.

(** The client reconnects until it is cancelled, and backs off.  Whatever
    connections it gets and however they end, it never fails; it returns only
    if the token was cancelled; and before jitter the [i]-th wait between two
    connections is [2^i] seconds, at most 30.  The wait is that of the number
    of connections made so far: one that served for long does not bring it
    back to a second. *)
Theorem conductor_backs_off attempts w :
  ∃ r w', run_conductor inner executor_metadata hostname attempts w = (Ok r, w') ∧
    (rn_returned r = true → Exists cancels attempts) ∧
    ∀ i d, rn_waits r !! i = Some d → d = Duration.from_secs (2 ^ Z.of_nat i `min` 30).
Proof.
  destruct (run_loop_waits attempts 0 w) as (r&w'&Hr&Hw&_&Hret). rewrite backoff_0 in Hr.
  exists r, w'. split_and!; [done..|]. intros i d Hi. rewrite Hw in Hi.
  apply list_lookup_fmap_Some in Hi as (j&->&[-> _]%lookup_seq).
  unfold backoff, MAX_RECONNECT_WAIT, Duration.from_secs. simpl. lia.
Qed.
End reconnecting.

(** ** The read timeout *)

(** The clock of a connection: when the current turn of the loop began, with
    a new [timeout(READ_TIMEOUT, ..)], and when the next ping is due. *)
Record Timer := mkTimer {
  tm_turn : Z;
  tm_ping : Z;
}.

(** The first tick of an interval is due at once. *)
Definition timer_start (now : Z) : Timer := mkTimer now now.

(** When a branch can complete, at the earliest. *)
Definition ready_at (t : Timer) (sel : Select) : Z :=
  match sel with
  | Ping_tick => tm_turn t `max` tm_ping t
  | Read Elapsed => tm_turn t + READ_TIMEOUT
  | _ => tm_turn t
  end.

(** A turn whose [select!] completes at [now]: not before its branch is
    ready, and, with [latency] the delay of the scheduler, not later than that
    after the ping is.  Serving the branch takes until the next turn; a tick
    makes the next one due a period later ([MissedTickBehavior::Delay]). *)
Inductive timed_turn (latency : Z) (t : Timer) : Select → Timer → Prop :=
  | Completes sel now next due :
      ready_at t sel ≤ now ≤ ready_at t Ping_tick + latency → now ≤ next →
      (match sel with Ping_tick => due ≤ now + PING_INTERVAL | _ => due = tm_ping t end) →
      timed_turn latency t sel (mkTimer next due).

Inductive timed (latency : Z) (t : Timer) : list Select → Timer → Prop :=
  | Timed_nil : timed latency t [] t
  | Timed_cons sel sels t1 t2 :
      timed_turn latency t sel t1 → timed latency t1 sels t2 → timed latency t (sel :: sels) t2.

(** A ping is due within a period of the beginning of each turn. *)
Definition ping_soon (t : Timer) : Prop := tm_ping t ≤ tm_turn t + PING_INTERVAL.

Lemma timed_turn_ping_soon latency t sel t' :
  timed_turn latency t sel t' → ping_soon t → ping_soon t'.
Proof.
  unfold ping_soon. intros [s now next due Hnow Hnext Hdue] Ht. simpl.
  assert (tm_turn t ≤ now); [|destruct s; lia].
  destruct s as [| |[]]; unfold ready_at, READ_TIMEOUT, Duration.from_secs in Hnow; lia.
Qed.

Lemma timed_no_timeout latency t sels t' :
  latency < READ_TIMEOUT - PING_INTERVAL → ping_soon t → timed latency t sels t' →
  Read Elapsed ∉ sels.
Proof.
  intros Hlat Ht Hrun. induction Hrun as [|t sel sels t1 t2 Hturn _ IH]; [by apply not_elem_of_nil|].
  apply not_elem_of_cons. split; [|by eauto using timed_turn_ping_soon].
  intros <-. inversion_clear Hturn as [? ? ? ? Hnow]. unfold ping_soon in Ht.
  unfold ready_at, READ_TIMEOUT, PING_INTERVAL, Duration.from_secs in *. lia.
Qed.

Lemma timed_pings latency now n :
  0 ≤ latency →
  timed latency (mkTimer now (now + PING_INTERVAL)) (replicate n Ping_tick)
    (mkTimer (now + Z.of_nat n * PING_INTERVAL) (now + Z.of_nat (S n) * PING_INTERVAL)).
Proof.
  intros Hlat. revert now. induction n as [|n IH]; intros now; cbn [replicate].
  { replace (now + Z.of_nat 0 * PING_INTERVAL) with now by lia.
    replace (now + Z.of_nat 1 * PING_INTERVAL) with (now + PING_INTERVAL) by lia. constructor. }
  econstructor.
  - apply (Completes _ _ _ (now + PING_INTERVAL) (now + PING_INTERVAL) (now + PING_INTERVAL + PING_INTERVAL));
      unfold ready_at, PING_INTERVAL, Duration.from_secs; simpl; lia.
  - specialize (IH (now + PING_INTERVAL)).
    replace (now + Z.of_nat (S n) * PING_INTERVAL)
      with (now + PING_INTERVAL + Z.of_nat n * PING_INTERVAL) by lia.
    replace (now + Z.of_nat (S (S n)) * PING_INTERVAL)
      with (now + PING_INTERVAL + Z.of_nat (S n) * PING_INTERVAL) by lia. done.
Qed.

Section read_timeout.
Context `{HE : Env, HJ : SerdeJson, HB : Base64Engine, HS : PgScan, HR : Rfc3339}.
Context (inner : DbosInner) (executor_metadata : option Object) (hostname : option string).

Lemma silent_pings sels sent w :
  Forall (λ sel, sel = Ping_tick) sels →
  ∃ w', serve_connection inner executor_metadata hostname (λ _, true) sels sent w
    = (Ok (None, sent ++ ((λ _, Ping "") <$> sels)), w').
Proof.
  intros Hall. revert sent w. induction Hall as [|sel sels -> _ IH]; intros sent w; simpl.
  { exists w. by rewrite app_nil_r. }
  destruct (IH (sent ++ [Ping ""]) (wait w).2) as (w'&Hs). exists w'.
  unfold mbind, M_bind, wait in *. simpl in *. rewrite Hs. by rewrite <-(assoc_L (++)).
Qed.

(** C28: the read timeout never fires.  Every ping tick starts a new turn of
    the loop, and with it a new timeout of 30 seconds, while a tick is due
    every 20: unless the scheduler delays the task by 10 seconds, no turn ends
    with it.  So a peer from which nothing comes any more is served pings for
    as long as they can be written: after any number of turns, lasting any
    time, the connection is still up. *)
Theorem read_timeout_never_fires latency now w :
  0 ≤ latency < Duration.from_secs 10 →
  (∀ sels t, timed latency (timer_start now) sels t → Read Elapsed ∉ sels) ∧
  ∀ n, ∃ t w', timed latency (timer_start now) (replicate (S n) Ping_tick) t ∧
    tm_turn t = now + Z.of_nat n * PING_INTERVAL ∧
    connect_and_serve inner executor_metadata hostname (λ _, true) Connected (replicate (S n) Ping_tick) w
      = (Ok (None, replicate (S n) (Ping "")), w').
Proof.
  intros [Hlat Hten]. split.
  - intros sels t. apply timed_no_timeout; [done|].
    unfold ping_soon, timer_start, PING_INTERVAL, Duration.from_secs. simpl. lia.
  - intros n. destruct (silent_pings (replicate (S n) Ping_tick) [] w) as [w' Hs].
    { by apply Forall_replicate. }
    exists (mkTimer (now + Z.of_nat n * PING_INTERVAL) (now + Z.of_nat (S n) * PING_INTERVAL)), w'.
    split_and!; [|reflexivity|].
    + econstructor; [|by apply timed_pings].
      apply (Completes _ _ _ now); unfold ready_at, timer_start; simpl; lia.
    + unfold connect_and_serve. by rewrite Hs, app_nil_l, fmap_replicate.
Qed.
End read_timeout.
