(* ===== verification/QueueRunner.v ===== *)
(** * The queue runner (runtime/queue.rs)

    The configuration of a queue, the in-process worker counts, one turn of a
    runner's poll loop, and the dispatch of claimed workflows. *)
From S2P Require Import Prelude Errors Json Serialize Database World Status QueueDb Context.
From S2P Require Import Workflow.
From Stdlib Require Import QArith_base.

Local Open Scope string_scope.
Local Open Scope Z_scope.
Local Open Scope list_scope.
Local Open Scope dbos_scope.

(** ** Configuration *)

Record RateLimiter := mkRateLimiter { rl_limit : Z; rl_period : Duration.t }.

Record WorkflowQueue := mkQueue {
  wq_name : string;
  wq_worker_concurrency : option Z;
  wq_global_concurrency : option Z;
  wq_priority_enabled : bool;
  wq_rate_limit : option RateLimiter;
  wq_max_tasks_per_iteration : Z;
  wq_partition_queue : bool;
  wq_base_polling : Duration.t;
  wq_max_polling : Duration.t;
}.

Definition DEFAULT_MAX_TASKS_PER_ITERATION : Z := 100.
Definition DEFAULT_BASE_POLLING : Duration.t := Duration.from_secs 1.
Definition DEFAULT_MAX_POLLING : Duration.t := Duration.from_secs 120.

Definition WorkflowQueue_new (name : string) : WorkflowQueue :=
  mkQueue name None None false None DEFAULT_MAX_TASKS_PER_ITERATION false
    DEFAULT_BASE_POLLING DEFAULT_MAX_POLLING.

(** The builder methods of a queue. *)
Module Queue_builder.
Definition worker_concurrency (n : Z) (q : WorkflowQueue) : WorkflowQueue :=
  mkQueue (wq_name q) (Some n) (wq_global_concurrency q) (wq_priority_enabled q) (wq_rate_limit q)
    (wq_max_tasks_per_iteration q) (wq_partition_queue q) (wq_base_polling q) (wq_max_polling q).
Definition global_concurrency (n : Z) (q : WorkflowQueue) : WorkflowQueue :=
  mkQueue (wq_name q) (wq_worker_concurrency q) (Some n) (wq_priority_enabled q) (wq_rate_limit q)
    (wq_max_tasks_per_iteration q) (wq_partition_queue q) (wq_base_polling q) (wq_max_polling q).
Definition priority_enabled (q : WorkflowQueue) : WorkflowQueue :=
  mkQueue (wq_name q) (wq_worker_concurrency q) (wq_global_concurrency q) true (wq_rate_limit q)
    (wq_max_tasks_per_iteration q) (wq_partition_queue q) (wq_base_polling q) (wq_max_polling q).
Definition rate_limit (limit : Z) (period : Duration.t) (q : WorkflowQueue) : WorkflowQueue :=
  mkQueue (wq_name q) (wq_worker_concurrency q) (wq_global_concurrency q) (wq_priority_enabled q)
    (Some (mkRateLimiter limit period)) (wq_max_tasks_per_iteration q) (wq_partition_queue q)
    (wq_base_polling q) (wq_max_polling q).
Definition partitioned (q : WorkflowQueue) : WorkflowQueue :=
  mkQueue (wq_name q) (wq_worker_concurrency q) (wq_global_concurrency q) (wq_priority_enabled q)
    (wq_rate_limit q) (wq_max_tasks_per_iteration q) true (wq_base_polling q) (wq_max_polling q).
Definition max_tasks_per_iteration (n : Z) (q : WorkflowQueue) : WorkflowQueue :=
  mkQueue (wq_name q) (wq_worker_concurrency q) (wq_global_concurrency q) (wq_priority_enabled q)
    (wq_rate_limit q) n (wq_partition_queue q) (wq_base_polling q) (wq_max_polling q).
Definition base_polling_interval (d : Duration.t) (q : WorkflowQueue) : WorkflowQueue :=
  mkQueue (wq_name q) (wq_worker_concurrency q) (wq_global_concurrency q) (wq_priority_enabled q)
    (wq_rate_limit q) (wq_max_tasks_per_iteration q) (wq_partition_queue q) d (wq_max_polling q).
Definition max_polling_interval (d : Duration.t) (q : WorkflowQueue) : WorkflowQueue :=
  mkQueue (wq_name q) (wq_worker_concurrency q) (wq_global_concurrency q) (wq_priority_enabled q)
    (wq_rate_limit q) (wq_max_tasks_per_iteration q) (wq_partition_queue q) (wq_base_polling q) d.
End Queue_builder.

(** [Duration::mul_f64], which is floating point, by a literal. *)
Class MulF64 := { mul_f64 : Duration.t → Q → Duration.t }.

(** By its documentation, the product rounded to the nearest nanosecond. *)
Class MulF64Laws (F : MulF64) : Prop := {
  mul_f64_grows d x : 0 ≤ d → (1 <= x)%Q → d ≤ mul_f64 d x;
  mul_f64_shrinks d x : 0 ≤ d → (0 <= x)%Q → (x <= 1)%Q → 0 ≤ mul_f64 d x ≤ d;
}.

(** ** Worker slots *)

Definition count_key (queue : string) (partition : option string) : string * string :=
  (queue, default "" partition).

Definition worker_count (queue : string) (partition : option string) : M Z :=
  gets (λ w, default 0 (w_worker_counts w !! count_key queue partition)).

Definition inc_worker (key : string * string) : M unit :=
  modify (λ w, w <| w_worker_counts ::= <[key := default 0 (w_worker_counts w !! key) + 1]> |>).

Section runner.
Context `{Env, SerdeJson, Base64Engine, RowLocks, PgScan} (inner : DbosInner).

(** ** Dispatch *)

Definition dispatch_dequeued (queue_name : string) (partition : option string)
    (wf : DequeuedWorkflow) : M unit :=
  match registry inner !! dw_name wf with
  | None => mret tt
  | Some _ =>
      let key := count_key queue_name partition in
      inc_worker key;;
      state ← WorkflowState_new (dw_id wf) AuthIdentity_default;
      spawn (mkTask (dw_id wf) (dw_name wf) (dw_inputs wf) (from_name (dw_serialization wf))
               (st_step_id state) (st_auth state) (Dequeued key))
  end.

Fixpoint dispatch_all (queue_name : string) (partition : option string)
    (wfs : list DequeuedWorkflow) : M unit :=
  match wfs with
  | [] => mret tt
  | wf :: wfs => dispatch_dequeued queue_name partition wf;; dispatch_all queue_name partition wfs
  end.

(** ** One turn *)

Definition dequeue_input (queue : WorkflowQueue) (partition : option string) (local : Z)
    : DequeueInput := {|
  dq_queue_name := wq_name queue;
  dq_executor_id := executor_id inner;
  dq_application_version := application_version inner;
  dq_partition_key := partition;
  dq_local_running_count := local;
  dq_worker_concurrency := wq_worker_concurrency queue;
  dq_global_concurrency := wq_global_concurrency queue;
  dq_max_tasks_per_iteration := wq_max_tasks_per_iteration queue;
  dq_rate_limit := (λ r, (rl_limit r, rl_period r)) <$> wq_rate_limit queue;
|}.

(** One partition; the flag is [had_backoff]. *)
Definition run_partition (queue : WorkflowQueue) (partition : option string) : M bool :=
  local ← worker_count (wq_name queue) partition;
  res ← attempt (dequeue_workflows (dequeue_input queue partition local));
  match res with
  | Ok workflows => dispatch_all (wq_name queue) partition workflows;; mret false
  | Err e => mret (is_db_contention e)
  end.

Fixpoint run_partitions (queue : WorkflowQueue) (partitions : list (option string)) : M bool :=
  match partitions with
  | [] => mret false
  | partition :: partitions =>
      backoff ← run_partition queue partition;
      rest ← run_partitions queue partitions;
      mret (backoff || rest)
  end.

(** A turn of the loop; the flag says whether the polling interval doubles. *)
Definition run_queue_turn (queue : WorkflowQueue) : M bool :=
  wait;;
  ignore transition_delayed_workflows;;
  partitions ← attempt (if wq_partition_queue queue then
                          keys ← get_queue_partitions (wq_name queue); mret (Some <$> keys)
                        else mret [None]);
  match partitions with
  | Ok partitions => run_partitions queue partitions
  | Err _ => mret true
  end.

Definition next_interval `{MulF64} (queue : WorkflowQueue) (backoff : bool) (interval : Duration.t)
    : Duration.t :=
  if backoff then mul_f64 interval 2 `min` wq_max_polling queue
  else mul_f64 interval (9 # 10) `max` wq_base_polling queue.

(** [n] turns, until the token is cancelled; the intervals slept, before
    jitter. *)
Fixpoint run_queue_loop `{MulF64} (n : nat) (queue : WorkflowQueue) (interval : Duration.t)
    : M (list Duration.t) :=
  match n with
  | O => mret []
  | S n =>
      backoff ← run_queue_turn queue;
      rest ← run_queue_loop n queue (next_interval queue backoff interval);
      mret (interval :: rest)
  end.

Definition run_queue `{MulF64} (n : nat) (queue : WorkflowQueue) : M (list Duration.t) :=
  run_queue_loop n queue (wq_base_polling queue).

(** ** The tracker's side *)

(** The [i]-th unfinished body runs to its end and leaves the tracker. *)
Definition finish_task (i : nat) : M unit :=
  t ← gets (λ w, w_tasks w !! i);
  match t with
  | None => mret tt
  | Some t => run_task inner t;; modify (λ w, w <| w_tasks ::= delete i |>)
  end.

(** The [i]-th unfinished body panics: its task unwinds and leaves the
    tracker, and what follows the handler (the outcome, the slot, the sender
    of the channel) is not run. *)
Definition panic_task (i : nat) : M unit := modify (λ w, w <| w_tasks ::= delete i |>).
End runner.

(** ** Lemmas *)

#[export] Instance task_origin_eq_dec : EqDecision task_origin.
Proof. solve_decision. Defined.

Section frames.
Context `{HE : Env, HL : RowLocks, HS : PgScan}.

#[export] Instance db_only_claim input now id : DbOnly (claim input now id).
Proof.
  unfold claim. apply db_only_bind; [apply _|]. intros t. destruct (select_key _ _ _); [|apply _].
  destruct (claimed_deadline now _); apply _.
Qed.

#[export] Instance db_only_claim_all input now recent ids acc :
  DbOnly (claim_all input now recent ids acc).
Proof.
  revert acc. induction ids as [|id ids IH]; intros acc; cbn [claim_all]; [apply _|].
  destruct (limit_reached _ _ _); apply _.
Qed.

#[export] Instance db_only_rate_gate input : DbOnly (rate_gate input).
Proof. unfold rate_gate. destruct (dq_rate_limit input) as [[]|]; apply _. Qed.

#[export] Instance db_only_dequeue input : DbOnly (dequeue_workflows input).
Proof.
  unfold dequeue_workflows, dequeue_tx, rows_locked. apply db_only_transaction.
  apply db_only_bind; [apply _|]. intros gate. apply db_only_bind; [apply _|]. intros t.
  cbv zeta. destruct (_ || _); apply _.
Qed.
End frames.

Section dispatch.
Context `{HE : Env, HJ : SerdeJson, HB : Base64Engine} (inner : DbosInner).

Definition known (wf : DequeuedWorkflow) : Prop := is_Some (registry inner !! dw_name wf).

(** [t] is the body of [wf], holding a slot of [key]. *)
Definition dispatched (key : string * string) (wf : DequeuedWorkflow) (t : task) : Prop :=
  t_workflow_id t = dw_id wf ∧ t_name t = dw_name wf ∧ t_input t = dw_inputs wf ∧
  t_format t = from_name (dw_serialization wf) ∧ t_auth t = AuthIdentity_default ∧
  t_origin t = Dequeued key.

(** [n] more slots of [key] are taken. *)
Definition take_slots (key : string * string) (n : nat) (w w' : World) : Prop :=
  ∀ k, default 0 (w_worker_counts w' !! k) =
       default 0 (w_worker_counts w !! k) + (if decide (k = key) then Z.of_nat n else 0).

Lemma dispatch_dequeued_run queue p wf w :
  ∃ w' new, dispatch_dequeued inner queue p wf w = (Ok tt, w') ∧
    w_db w' = w_db w ∧ w_tasks w' = w_tasks w ++ new ∧
    Forall2 (dispatched (count_key queue p)) (filter known [wf]) new ∧
    take_slots (count_key queue p) (length new) w w' ∧ counters_begin new w w'.
Proof.
  unfold dispatch_dequeued. rewrite filter_cons, filter_nil.
  destruct (decide (known wf)) as [[entry He]|Hno].
  - rewrite He. eexists _, [_]. split; [by do 2 (eapply run_bind; [done|])|].
    split_and!; [done..|by repeat constructor| |split].
    + intros k. simpl. destruct (decide (k = _)) as [->|Hk].
      * by rewrite lookup_insert_eq.
      * rewrite lookup_insert_ne by done. lia.
    + simpl. apply insert_subseteq, not_elem_of_dom, is_fresh.
    + intros t ->%list_elem_of_singleton. apply lookup_insert_eq.
  - apply eq_None_not_Some in Hno. rewrite Hno.
    exists w, []. rewrite app_nil_r. split_and!; [done..| |by apply counters_begin_none].
    intros k. case_decide; simpl; lia.
Qed.

Lemma dispatch_all_run queue p wfs w :
  ∃ w' new, dispatch_all inner queue p wfs w = (Ok tt, w') ∧
    w_db w' = w_db w ∧ w_tasks w' = w_tasks w ++ new ∧
    Forall2 (dispatched (count_key queue p)) (filter known wfs) new ∧
    take_slots (count_key queue p) (length new) w w' ∧ counters_begin new w w'.
Proof.
  revert w. induction wfs as [|wf wfs IH]; intros w.
  { exists w, []. rewrite app_nil_r. split_and!; [done..|constructor| |by apply counters_begin_none].
    intros k. case_decide; simpl; lia. }
  destruct (dispatch_dequeued_run queue p wf w) as (w1 & new1 & H1 & Hd1 & Ht1 & Hf1 & Hs1 & Hc1).
  destruct (IH w1) as (w2 & new2 & H2 & Hd2 & Ht2 & Hf2 & Hs2 & Hc2).
  exists w2, (new1 ++ new2). split; [by eapply run_bind|]. split_and!.
  - congruence.
  - by rewrite Ht2, Ht1, (assoc_L (++)).
  - change (wf :: wfs) with ([wf] ++ wfs). rewrite filter_app. by apply Forall2_app.
  - intros k. rewrite Hs2, Hs1, length_app. case_decide; lia.
  - by eapply counters_begin_app.
Qed.
End dispatch.

Section turns.
Context `{HE : Env, HJ : SerdeJson, HB : Base64Engine, HL : RowLocks, HS : PgScan, !PgScanLaws HS}.
Context (inner : DbosInner).
Implicit Types (queue : WorkflowQueue) (w : World).

Definition turn_input queue partition w : DequeueInput :=
  dequeue_input inner queue partition (default 0 (w_worker_counts w !! count_key (wq_name queue) partition)).

(** What a turn on one partition does, whatever the dequeue returned. *)
Lemma run_partition_run queue p w :
  ∃ b w' claimed new, run_partition inner queue p w = (Ok b, w') ∧
    iteration (turn_input queue p w) w claimed (w_db w') ∧
    w_tasks w' = w_tasks w ++ new ∧
    Forall2 (dispatched (count_key (wq_name queue) p)) (filter (known inner) claimed) new ∧
    take_slots (count_key (wq_name queue) p) (length new) w w' ∧ counters_begin new w w'.
Proof.
  assert (in_process (snd (dequeue_workflows (turn_input queue p w) w)) = in_process w) as Hin
    by apply db_only.
  destruct (dequeue_workflows (turn_input queue p w) w) as [[claimed|e] w1] eqn:Hdq.
  - injection Hin as Ht _ _ Hc Hk.
    destruct (dispatch_all_run inner (wq_name queue) p claimed w1) as (w2 & new & Hrun & Hd & Ht2 & Hf & Hs & Hcb).
    exists false, w2, claimed, new. split.
    { eapply run_bind; [done|].
      eapply (run_bind (attempt (dequeue_workflows (turn_input queue p w))));
        [unfold attempt; by rewrite Hdq|].
      by eapply run_bind. }
    split_and!; [|by rewrite Ht2, Ht|done| |].
    + rewrite Hd. by apply dequeue_ok.
    + intros k. by rewrite Hs, Hc.
    + unfold counters_begin in *. by rewrite <- Hk.
  - injection Hin as Ht _ _ Hc Hk. exists (is_db_contention e), w1, [], []. split.
    { eapply run_bind; [done|].
      eapply (run_bind (attempt (dequeue_workflows (turn_input queue p w))));
        [unfold attempt; by rewrite Hdq|]. done. }
    split_and!; [|by rewrite app_nil_r|constructor| |by apply counters_begin_none].
    + by eapply dequeue_failed.
    + intros k. rewrite Hc. case_decide; simpl; lia.
Qed.

Lemma run_partition_claims queue p w :
  ∃ b w' claimed new now, run_partition inner queue p w = (Ok b, w') ∧
    w_db w' = (w_db w) <| workflow_status ::= claims (turn_input queue p w) now (dw_id <$> claimed) |> ∧
    NoDup (dw_id <$> claimed) ∧
    Forall (λ dw, is_claimed now (workflow_status (w_db w)) (dw_id dw) dw ∧
                  is_enqueued (workflow_status (w_db w)) (dw_id dw)) claimed ∧
    w_tasks w' = w_tasks w ++ new ∧
    Forall2 (dispatched (count_key (wq_name queue) p)) (filter (known inner) claimed) new ∧
    take_slots (count_key (wq_name queue) p) (length new) w w' ∧ counters_begin new w w'.
Proof.
  destruct (run_partition_run queue p w) as (b & w' & claimed & new & Hrun & Hit & Ht & Hf & Hs & Hc).
  pose proof (iteration_keys _ _ _ _ Hit) as Hnd.
  destruct Hit as (recent & now & j & n & Hd & Hids & _ & Hall & _).
  exists b, w', claimed, new, now. split_and!; try done.
  rewrite Forall_forall in *. intros dw Hin. split; [by apply Hall|].
  pose proof (free_rows_enqueued (turn_input queue p w) (locked_rows j) (workflow_status (w_db w)) n) as Henq.
  rewrite fmap_take, <- Hids, Forall_forall in Henq. apply Henq. by apply list_elem_of_fmap_2.
Qed.
(** C17: a turn dispatches what it claims.  It always completes; each workflow
    the dequeue claimed (its row now [PENDING] on this executor) and whose
    name is registered gets exactly one new body, with its own name, input
    and format, under a worker slot of this queue and partition; a dequeue
    that failed or claimed nothing starts nothing and leaves the tables as
    they were. *)
Theorem turn_dispatches_claims queue p w :
  ∃ b w' claimed new now, run_partition inner queue p w = (Ok b, w') ∧
    w_db w' = (w_db w) <| workflow_status ::= claims (turn_input queue p w) now (dw_id <$> claimed) |> ∧
    NoDup (dw_id <$> claimed) ∧
    Forall (λ dw, is_claimed now (workflow_status (w_db w)) (dw_id dw) dw ∧
                  is_enqueued (workflow_status (w_db w)) (dw_id dw)) claimed ∧
    w_tasks w' = w_tasks w ++ new ∧
    Forall2 (dispatched (count_key (wq_name queue) p)) (filter (known inner) claimed) new ∧
    take_slots (count_key (wq_name queue) p) (length new) w w'.
Proof.
  destruct (run_partition_claims queue p w) as (b & w' & claimed & new & now & ? & ? & ? & ? & ? & ? & ? & _).
  exists b, w', claimed, new, now. by split_and!.
Qed.
End turns.

(** ** The polling interval *)

Section polling.
Context `{HE : Env, HJ : SerdeJson, HB : Base64Engine, HL : RowLocks, HS : PgScan}.
Context `{HF : MulF64, !MulF64Laws HF} (inner : DbosInner).

Lemma next_interval_bounds queue backoff interval :
  0 ≤ wq_base_polling queue ≤ wq_max_polling queue →
  wq_base_polling queue ≤ interval ≤ wq_max_polling queue →
  wq_base_polling queue ≤ next_interval queue backoff interval ≤ wq_max_polling queue.
Proof.
  intros Hq Hi. unfold next_interval. destruct backoff.
  - pose proof (mul_f64_grows interval 2 ltac:(lia) ltac:(done)). lia.
  - pose proof (mul_f64_shrinks interval (9 # 10) ltac:(lia) ltac:(done) ltac:(done)). lia.
Qed.

(** A queue whose intervals are in order never polls faster than its base
    interval nor slower than its maximum; with the base above the maximum, a
    single contention makes it poll at the maximum, faster than the base. *)
Theorem polling_interval_bounds n queue w intervals w' :
  0 ≤ wq_base_polling queue → run_queue inner n queue w = (Ok intervals, w') →
  (wq_base_polling queue ≤ wq_max_polling queue →
   Forall (λ i, wq_base_polling queue ≤ i ≤ wq_max_polling queue) intervals) ∧
  (wq_max_polling queue < wq_base_polling queue →
   next_interval queue true (wq_base_polling queue) = wq_max_polling queue).
Proof.
  intros H0 Hrun. split.
  - intros Hle. unfold run_queue in Hrun.
    enough (∀ interval, wq_base_polling queue ≤ interval ≤ wq_max_polling queue →
      run_queue_loop inner n queue interval w = (Ok intervals, w') →
      Forall (λ i, wq_base_polling queue ≤ i ≤ wq_max_polling queue) intervals) as Hgen
      by (apply (Hgen (wq_base_polling queue)); [lia|done]).
    clear Hrun. revert w intervals. induction n as [|n IH]; intros w intervals interval Hi; simpl.
    { intros [= <- _]. constructor. }
    intros (backoff&w1&_&(rest&w2&Hrest&[= <- <-])%M_bind_Ok)%M_bind_Ok.
    constructor; [done|]. eapply IH; [|exact Hrest]. by apply next_interval_bounds.
  - intros Hlt. unfold next_interval.
    pose proof (mul_f64_grows (wq_base_polling queue) 2 ltac:(lia) ltac:(done)). lia.
Qed.
End polling.
