(* ===== verification/WorkerSlots.v ===== *)
(** * Worker slots (runtime/queue.rs)

    The worker counts of a process as an invariant of everything that can
    happen in it, bodies that panic included. *)
From S2P Require Import Prelude Errors Json Serialize Database World Status QueueDb Context.
From S2P Require Import Workflow QueueRunner.

Local Open Scope string_scope.
Local Open Scope Z_scope.
Local Open Scope list_scope.
Local Open Scope dbos_scope.

Section worker_limits.
Context `{HE : Env, HJ : SerdeJson, HB : Base64Engine, HL : RowLocks, HS : PgScan, !PgScanLaws HS}.
Context (inner : DbosInner) (queues : list WorkflowQueue).

(** Bodies spawned while user code runs are started directly. *)
Definition only_starts (w w' : World) : Prop :=
  w_worker_counts w' = w_worker_counts w ∧
  ∃ new, w_tasks w' = w_tasks w ++ new ∧ Forall (λ t, ∃ ch, t_origin t = Started ch) new.

(** A body starts other workflows at most; it has no access to the counts. *)
Definition well_behaved : Prop :=
  ∀ name entry ctx input fmt w,
    registry inner !! name = Some entry → only_starts w (snd (re_handler entry ctx input fmt w)).

(** The tasks that hold or held a slot of [key]. *)
Definition slots (key : string * string) (ts : list task) : nat :=
  length (filter (λ t, t_origin t = Dequeued key) ts).

(** A process since its start: its world, and the tasks that have panicked. *)
Record Process := mkProcess { p_world : World; p_panicked : list task }.

(** The slots of [key] that are taken. *)
Definition held (key : string * string) (s : Process) : nat :=
  slots key (w_tasks (p_world s)) + slots key (p_panicked s).

(** What can happen in the process, one event at a time: a turn of one of
    the runners on one partition, the end of a body, the panic of a body
    (after whatever it has done so far, as [elsewhere]), and everything else
    (callers starting workflows, other executors, the clocks). *)
Inductive event : Process → Process → Prop :=
  | turn queue p w b w' ts :
      queue ∈ queues → run_partition inner queue p w = (b, w') → event (mkProcess w ts) (mkProcess w' ts)
  | finish i w r w' ts : finish_task inner i w = (r, w') → event (mkProcess w ts) (mkProcess w' ts)
  | panic i t w r w' ts :
      w_tasks w !! i = Some t → panic_task i w = (r, w') → event (mkProcess w ts) (mkProcess w' (t :: ts))
  | elsewhere w w' ts : only_starts w w' → event (mkProcess w ts) (mkProcess w' ts).

(** The counts are the slots taken, and no queue exceeds its limit. *)
Definition slots_ok (s : Process) : Prop :=
  ∀ key, default 0 (w_worker_counts (p_world s) !! key) = Z.of_nat (held key s).

Definition within_limits (s : Process) : Prop :=
  ∀ queue wc p, queue ∈ queues → wq_worker_concurrency queue = Some wc → 0 ≤ wc →
    Z.of_nat (held (count_key (wq_name queue) p) s) ≤ wc.

Lemma slots_app key ts1 ts2 : slots key (ts1 ++ ts2) = (slots key ts1 + slots key ts2)%nat.
Proof. unfold slots. by rewrite filter_app, length_app. Qed.

Lemma slots_started key ts : Forall (λ t, ∃ ch, t_origin t = Started ch) ts → slots key ts = 0%nat.
Proof.
  unfold slots. induction 1 as [|t ts [ch Ht] _ IH]; [done|]. rewrite filter_cons, decide_False; [done|].
  by rewrite Ht.
Qed.

Lemma slots_dispatched key k wfs ts :
  Forall2 (dispatched key) wfs ts → slots k ts = if decide (k = key) then length ts else 0%nat.
Proof.
  unfold slots. induction 1 as [|wf t wfs ts Ht _ IH]; [by case_decide|].
  destruct Ht as (_ & _ & _ & _ & _ & Ho). rewrite filter_cons, Ho. simpl.
  destruct (decide (k = key)) as [->|Hk].
  - rewrite decide_True by done. simpl. by rewrite IH.
  - by rewrite decide_False by congruence.
Qed.

Lemma slots_delete key ts i t :
  ts !! i = Some t →
  slots key ts = (slots key (delete i ts) + if decide (t_origin t = Dequeued key) then 1 else 0)%nat.
Proof.
  intros Ht. apply delete_Permutation in Ht as Hp. transitivity (slots key (t :: delete i ts)).
  - unfold slots. by apply Permutation_length, filter_Permutation.
  - unfold slots. rewrite filter_cons. case_decide; simpl; lia.
Qed.

Lemma only_starts_slots w w' key :
  only_starts w w' →
  slots key (w_tasks w') = slots key (w_tasks w) ∧ w_worker_counts w' = w_worker_counts w.
Proof.
  intros [Hc (new & -> & Hnew)]. split; [|done]. rewrite slots_app, (slots_started _ new) by done. lia.
Qed.

(** The bodies that end free their own slot and no other. *)
Lemma finish_task_slots i w r w' ts :
  well_behaved → finish_task inner i w = (r, w') → slots_ok (mkProcess w ts) →
  slots_ok (mkProcess w' ts) ∧ ∀ key, (slots key (w_tasks w') ≤ slots key (w_tasks w))%nat.
Proof.
  intros Hwb Hf Hok. unfold finish_task in Hf. destruct (w_tasks w !! i) as [t|] eqn:Ht;
    unfold mbind at 1, M_bind at 1, gets in Hf; rewrite Ht in Hf; [|by injection Hf as <- <-].
  unfold run_task, lookup_entry in Hf. destruct (registry inner !! t_name t) as [entry|] eqn:He;
    [|by injection Hf as <- <-]. revert Hf. run_M.
  destruct (re_handler entry _ _ _ w) as [res w1] eqn:Hh.
  pose proof (Hwb _ _ (mkContext (mkState (t_workflow_id t) (t_state t) (t_auth t)) false)
                (t_input t) (t_format t) w He) as Hst. rewrite Hh in Hst. simpl in Hst.
  destruct (outcome_of (t_format t) res) as [[status output] err].
  assert (w_tasks w1 !! i = Some t) as Ht1.
  { destruct Hst as [_ (new & -> & _)]. by apply lookup_app_l_Some. }
  assert (∀ key, slots key (delete i (w_tasks w1)) + (if decide (t_origin t = Dequeued key) then 1 else 0)
            = slots key (w_tasks w))%nat as Hdel.
  { intros key. rewrite <- slots_delete by done. by apply only_starts_slots. }
  assert (w_worker_counts w1 = w_worker_counts w) as Hc1 by apply Hst. unfold slots_ok, held in *. simpl in Hok.
  destruct (t_origin t) as [ch|k] eqn:Ho; simpl; intros [= <- <-]; simpl; (split; [|intros key; specialize (Hdel key); lia]);
    intros key; simpl; rewrite ?Hc1; specialize (Hdel key); specialize (Hok key).
  - rewrite decide_False in Hdel by done. rewrite Hok. lia.
  - destruct (decide (key = k)) as [->|Hk].
    + rewrite decide_True in Hdel by done. rewrite lookup_alter_eq.
      destruct (w_worker_counts w !! k); simpl in *; lia.
    + rewrite decide_False in Hdel by congruence. rewrite lookup_alter_ne by done. rewrite Hok. lia.
Qed.

(** A body that panics keeps its slot. *)
Lemma panic_task_held i t w r w' ts key :
  w_tasks w !! i = Some t → panic_task i w = (r, w') →
  held key (mkProcess w' (t :: ts)) = held key (mkProcess w ts) ∧ w_worker_counts w' = w_worker_counts w.
Proof.
  intros Ht [= _ <-]. split; [|done]. unfold held. simpl. rewrite (slots_delete key (w_tasks w) i t Ht).
  unfold slots. rewrite filter_cons. case_decide; simpl; lia.
Qed.

(** A turn takes slots of its own key, up to the limit. *)
Lemma run_partition_slots queue p w b w' ts :
  run_partition inner queue p w = (b, w') → slots_ok (mkProcess w ts) →
  slots_ok (mkProcess w' ts) ∧ ∀ key, held key (mkProcess w' ts) = held key (mkProcess w ts) ∨
    key = count_key (wq_name queue) p ∧
    ∀ wc, wq_worker_concurrency queue = Some wc → 0 ≤ wc →
      Z.of_nat (held key (mkProcess w' ts)) ≤ Z.of_nat (held key (mkProcess w ts)) `max` wc.
Proof.
  intros Hrun Hok.
  destruct (run_partition_run inner queue p w) as (b' & w2 & claimed & new & Hrun' & Hit & Ht & Hf & Hs & _).
  rewrite Hrun in Hrun'. injection Hrun' as -> <-.
  assert (∀ key, held key (mkProcess w' ts) = held key (mkProcess w ts) +
            if decide (key = count_key (wq_name queue) p) then length new else 0)%nat as Hsl.
  { intros key. unfold held. simpl. rewrite Ht, slots_app, (slots_dispatched _ _ _ _ Hf). lia. }
  split.
  { intros key. rewrite Hs, Hsl, Hok. case_decide; lia. }
  intros key. rewrite Hsl. case_decide as Hk; [right|left; lia]. split; [done|]. intros wc Hwc Hpos.
  assert (length new ≤ length claimed)%nat as Hnew.
  { rewrite <- (Forall2_length _ _ _ Hf). apply length_filter. }
  apply iteration_length in Hit. unfold task_budget, turn_input in Hit.
  cbn [dq_worker_concurrency dequeue_input dq_local_running_count] in Hit.
  rewrite <- Hk in Hit. specialize (Hok key). cbn [p_world] in Hok.
  rewrite Hok, Hwc in Hit. destruct (dq_global_concurrency _); lia.
Qed.

Lemma queue_by_name q1 q2 :
  NoDup (wq_name <$> queues) → q1 ∈ queues → q2 ∈ queues → wq_name q1 = wq_name q2 → q1 = q2.
Proof.
  induction queues as [|q qs IH]; [intros _ []%not_elem_of_nil|].
  rewrite fmap_cons. intros [Hq Hnd]%NoDup_cons.
  intros [->|H1]%elem_of_cons [->|H2]%elem_of_cons E; [done| | |by apply IH]; destruct Hq;
    [rewrite E | rewrite <- E]; by apply list_elem_of_fmap_2.
Qed.

Lemma event_preserves s s' :
  well_behaved → NoDup (wq_name <$> queues) → event s s' →
  slots_ok s ∧ within_limits s → slots_ok s' ∧ within_limits s'.
Proof.
  intros Hwb Hnd [q p w0 b w1 ts Hq Hrun | i w0 r w1 ts Hf | i t w0 r w1 ts Ht Hp | w0 w1 ts Hst] [Hok Hlim].
  - destruct (run_partition_slots _ _ _ _ _ _ Hrun Hok) as [Hok' Hsl]. split; [done|].
    intros queue wc p' Hin Hwc Hpos. specialize (Hlim _ _ p' Hin Hwc Hpos).
    destruct (Hsl (count_key (wq_name queue) p')) as [->|[Hk Hmax]]; [done|].
    injection Hk as Hname _. assert (queue = q) as -> by by apply queue_by_name.
    specialize (Hmax wc Hwc Hpos). lia.
  - destruct (finish_task_slots _ _ _ _ _ Hwb Hf Hok) as [Hok' Hsl]. split; [done|].
    intros queue wc p Hin Hwc Hpos. specialize (Hlim _ _ p Hin Hwc Hpos).
    specialize (Hsl (count_key (wq_name queue) p)). unfold held in *. simpl in *. lia.
  - split.
    + intros key. destruct (panic_task_held _ _ _ _ _ ts key Ht Hp) as [-> Hc]. simpl. rewrite Hc. apply Hok.
    + intros queue wc p Hin Hwc Hpos.
      destruct (panic_task_held _ _ _ _ _ ts (count_key (wq_name queue) p) Ht Hp) as [-> _]. by apply Hlim.
  - split.
    + intros key. unfold held. simpl. destruct (only_starts_slots _ _ key Hst) as [-> ->]. apply Hok.
    + intros queue wc p Hin Hwc Hpos. unfold held. simpl.
      destruct (only_starts_slots _ _ (count_key (wq_name queue) p) Hst) as [-> _].
      specialize (Hlim queue wc p Hin Hwc Hpos). exact Hlim.
Qed.

Lemma events_preserve s s' :
  well_behaved → NoDup (wq_name <$> queues) → rtc event s s' →
  slots_ok s ∧ within_limits s → slots_ok s' ∧ within_limits s'.
Proof. intros Hwb Hnd. induction 1 as [|s s1 s2 He _ IH]; [done|]. intros Hs. by eapply IH, event_preserves. Qed.

Lemma start_ok d : slots_ok (mkProcess (initial_world d) []) ∧ within_limits (mkProcess (initial_world d) []).
Proof. split; [intros key | intros queue wc p]; unfold held; simpl; [by rewrite lookup_empty|done]. Qed.

(** C11: in every reachable state the worker counts are exact and the worker
    limits hold.  However turns of the runners, ends and panics of bodies and
    all other activity interleave, the count kept for a queue and partition
    is the number of bodies dispatched for it that have not ended, those that
    panicked among them (it never underflows); and a queue with a worker
    limit never has more of them in this process, per partition, than the
    limit. *)
Theorem worker_limits_hold d s :
  well_behaved → NoDup (wq_name <$> queues) →
  rtc event (mkProcess (initial_world d) []) s → slots_ok s ∧ within_limits s.
Proof. intros Hwb Hnd Hr. eapply events_preserve; [done..|apply start_ok]. Qed.

(** ** Slots lost to panics *)

Lemma panicked_grow key s s' :
  rtc event s s' → (slots key (p_panicked s) ≤ slots key (p_panicked s'))%nat.
Proof.
  induction 1 as [|s s1 s2 He _ IH]; [done|]. etrans; [|exact IH].
  destruct He as [| |i t w r w' ts _ _|]; simpl; [done..| |done].
  unfold slots. rewrite filter_cons. case_decide; simpl; lia.
Qed.

(** A turn without free slots claims and starts nothing. *)
Lemma run_partition_full queue p w wc :
  wq_worker_concurrency queue = Some wc →
  wc ≤ default 0 (w_worker_counts w !! count_key (wq_name queue) p) →
  ∃ b w', run_partition inner queue p w = (Ok b, w') ∧ w_db w' = w_db w ∧ w_tasks w' = w_tasks w.
Proof.
  intros Hwc Hfull.
  destruct (run_partition_run inner queue p w) as (b & w' & claimed & new & Hrun & Hit & Ht & Hf & _).
  exists b, w'. split; [done|]. pose proof (iteration_length _ _ _ _ Hit) as Hlen.
  unfold task_budget, turn_input in Hlen.
  cbn [dq_worker_concurrency dequeue_input dq_local_running_count] in Hlen. rewrite Hwc in Hlen.
  assert (claimed = []) as -> by (apply nil_length_inv; destruct (dq_global_concurrency _); lia).
  apply Forall2_nil_inv_l in Hf as ->. rewrite app_nil_r in Ht. split; [|done].
  destruct Hit as (recent & now & j & n & -> & _). simpl. rewrite claims_nil. by destruct (w_db w).
Qed.

(** A slot lost to a panic never comes back.  Once as many bodies of a queue
    and partition have panicked as its worker limit allows, this process
    claims and starts nothing for them any more, whatever else happens. *)
Theorem panics_starve_queue d s s' queue wc p :
  well_behaved → NoDup (wq_name <$> queues) → rtc event (mkProcess (initial_world d) []) s →
  wq_worker_concurrency queue = Some wc →
  wc ≤ Z.of_nat (slots (count_key (wq_name queue) p) (p_panicked s)) → rtc event s s' →
  let w := p_world s' in
  ∃ b w', run_partition inner queue p w = (Ok b, w') ∧ w_db w' = w_db w ∧ w_tasks w' = w_tasks w.
Proof.
  intros Hwb Hnd Hr Hwc Hlost Hr' w. apply (run_partition_full _ _ _ wc Hwc).
  destruct (events_preserve _ s' Hwb Hnd (transitivity Hr Hr') (start_ok d)) as [Hok _].
  rewrite Hok. pose proof (panicked_grow (count_key (wq_name queue) p) _ _ Hr'). unfold held. lia.
Qed.
End worker_limits.
