(* ===== verification/Admin.v ===== *)
(** * The admin server (runtime/admin.rs)

    The routes, request parsing, handlers and response bodies, and the
    specification of the server: what each request reads from its body, does
    and is answered with ([handled]).  The HTTP transport (axum) is outside: a
    request is a method, the segments of its path and a body. *)
From S2P Require Import Prelude Errors Json Serialize Database World Status QueueDb Management.
From S2P Require Import Wire Context Workflow Recovery QueueRunner.

Local Open Scope string_scope.
Local Open Scope Z_scope.
Local Open Scope list_scope.
Local Open Scope dbos_scope.

(** ** Requests and responses *)

Record Response := mkResponse { rsp_status : Z; rsp_body : string }.

Definition OK_200 : Z := 200.
Definition NO_CONTENT : Z := 204.
Definition BAD_REQUEST : Z := 400.
Definition NOT_FOUND : Z := 404.
Definition INTERNAL_SERVER_ERROR : Z := 500.

Inductive Method := GET | POST.

Inductive Route :=
  | Healthz
  | RecoveryRoute (body : string)
  | Deactivate
  | ConductorProbe
  | QueuesMetadata
  | GarbageCollect (body : string)
  | GlobalTimeout (body : string)
  | ListWorkflows (body : string)
  | GetWorkflow (id : string)
  | ListSteps (id : string)
  | CancelRoute (id : string)
  | ResumeRoute (id : string)
  | ForkRoute (id body : string).

(** [router]: the segments of the path, and the method. *)
Definition router (method : Method) (path : list string) (body : string) : option Route :=
  match method, path with
  | GET, ["dbos-healthz"] => Some Healthz
  | POST, ["dbos-workflow-recovery"] => Some (RecoveryRoute body)
  | GET, ["deactivate"] => Some Deactivate
  | GET, ["conductor"] => Some ConductorProbe
  | GET, ["dbos-workflow-queues-metadata"] => Some QueuesMetadata
  | POST, ["dbos-garbage-collect"] => Some (GarbageCollect body)
  | POST, ["dbos-global-timeout"] => Some (GlobalTimeout body)
  | POST, ["workflows"] => Some (ListWorkflows body)
  | GET, ["workflows"; id] => Some (GetWorkflow id)
  | GET, ["workflows"; id; "steps"] => Some (ListSteps id)
  | POST, ["workflows"; id; "cancel"] => Some (CancelRoute id)
  | POST, ["workflows"; id; "resume"] => Some (ResumeRoute id)
  | POST, ["workflows"; id; "fork"] => Some (ForkRoute id body)
  | _, _ => None
  end.

(** ** Bodies *)

(** The fields of a derived [Deserialize], from an object or, in order, from
    an array. *)
Definition struct_fields {T} (names : list string) (build : list (string + option Value) → string + T)
    (t : Value) : string + T :=
  match t with
  | VObject m => build ((λ k, struct_field k m) <$> names)
  | VArray l => if decide (length l = length names) then build ((λ v, inr (Some v)) <$> l)
                else inl "invalid length"
  | _ => inl "invalid type: expected struct"
  end.

(** An [Option] field may be absent. *)
Definition optional {T} `{Deserialize T} (f : string + option Value) : string + option T :=
  defaulted (T := option T) None f.

Record RetentionReq := mkRetentionReq {
  rq_cutoff_epoch_timestamp_ms : option Z;
  rq_rows_threshold : option Z;
}.

#[export] Instance RetentionReq_Deserialize : Deserialize RetentionReq :=
  struct_fields ["cutoff_epoch_timestamp_ms"; "rows_threshold"] (λ fs,
    match fs with
    | [c; r] => cutoff ← optional c; rows ← optional r; inr (mkRetentionReq cutoff rows)
    | _ => inl "invalid length"
    end).

Definition RetentionReq_default : RetentionReq := mkRetentionReq None None.

Record GlobalTimeoutReq := mkGlobalTimeoutReq { gq_cutoff_epoch_timestamp_ms : Z }.

#[export] Instance GlobalTimeoutReq_Deserialize : Deserialize GlobalTimeoutReq :=
  struct_fields ["cutoff_epoch_timestamp_ms"] (λ fs,
    match fs with
    | [c] => cutoff ← required "cutoff_epoch_timestamp_ms" c; inr (mkGlobalTimeoutReq cutoff)
    | _ => inl "invalid length"
    end).

Record ForkReq := mkForkReq {
  fq_start_step : option Z;
  fq_new_workflow_id : option string;
  fq_application_version : option string;
}.

#[export] Instance ForkReq_Deserialize : Deserialize ForkReq :=
  struct_fields ["start_step"; "new_workflow_id"; "application_version"] (λ fs,
    match fs with
    | [s; i; v] =>
        start ← optional (T := I32) s; id ← optional i; version ← optional v;
        inr (mkForkReq (i32_value <$> start) id version)
    | _ => inl "invalid length"
    end).

Definition ForkReq_default : ForkReq := mkForkReq None None None.

Section admin.
Context `{Env, SerdeJson, Base64Engine, PgScan, Rfc3339}.

(** An empty body is the default. *)
Definition parse_or_default {T} `{Deserialize T} (default : T) (body : string) : option T :=
  if str_is_empty (str_trim body) then Some default else result_ok (from_str T body).

Definition parse_filter (body : string) (queues_only : bool) : option ListWorkflowsFilter :=
  v ← (if str_is_empty (str_trim body) then Some (VObject [])
       else result_ok (from_str Value body));
  let iso (k : string) : option Z := get_str k v ≫= parse_from_rfc3339 in
  let status : option (list WorkflowStatusType) :=
    s ← get_str "status" v; s ← status_from_str s; Some [s] in
  let status := if queues_only && bool_decide (status = None)
                then Some [Enqueued; Pending; Delayed] else status in
  Some {| lf_workflow_ids :=
            (λ a : list Value, omap as_str a) <$> (value_get "workflow_uuids" v ≫= as_array);
          lf_status := status;
          lf_workflow_name := get_str "workflow_name" v;
          lf_queue_name := get_str "queue_name" v;
          lf_queues_only := queues_only;
          lf_application_version := get_str "application_version" v;
          lf_executor_ids := None;
          lf_start_time := iso "start_time";
          lf_end_time := iso "end_time";
          lf_limit := get_i64 "limit" v;
          lf_offset := get_i64 "offset" v;
          lf_sort_desc := default false (get_bool "sort_desc" v) |}.

(** [Duration::as_secs_f64], as serde_json prints it. *)
Context (as_secs_f64 : Duration.t → Value).

Definition queue_to_wire (q : WorkflowQueue) : Value :=
  let o := [] in
  let o := map_insert "name" (VString (wq_name q)) o in
  let o := insert_opt "concurrency" (json_int <$> wq_global_concurrency q) o in
  let o := insert_opt "workerConcurrency" (json_int <$> wq_worker_concurrency q) o in
  let o := if wq_priority_enabled q then map_insert "priorityEnabled" (VBool true) o else o in
  let o := insert_opt "rateLimit"
             ((λ r, VObject (map_insert "Period" (as_secs_f64 (rl_period r))
                              (map_insert "Limit" (json_int (rl_limit r)) []))) <$> wq_rate_limit q) o in
  let o := map_insert "maxTasksPerIteration" (json_int (wq_max_tasks_per_iteration q)) o in
  let o := if wq_partition_queue q then map_insert "partitionQueue" (VBool true) o else o in
  VObject o.

(** The text of an optional value, empty when there is none. *)
Definition text_or_empty (v : option Value) : Value := VString (default "" (json_print <$> v)).

Definition admin_workflow_to_wire (w : WorkflowStatus) : Value :=
  let o := [] in
  let o := map_insert "WorkflowUUID" (VString (ws_id w)) o in
  let o := map_insert "Status" (VString (status_str (ws_status w))) o in
  let o := map_insert "WorkflowName" (VString (ws_name w)) o in
  let o := map_insert "Attempts" (json_int (ws_recovery_attempts w)) o in
  let o := map_insert "Priority" (json_int (ws_priority w)) o in
  let o := map_insert "CreatedAt" (json_decimal (ws_created_at w)) o in
  let o := map_insert "UpdatedAt" (json_decimal (ws_updated_at w)) o in
  let o := insert_opt "QueueName" (VString <$> ws_queue_name w) o in
  let o := insert_opt "ExecutorID" (VString <$> ws_executor_id w) o in
  let o := insert_opt "ApplicationVersion" (VString <$> ws_application_version w) o in
  let o := insert_opt "DeduplicationID" (VString <$> ws_deduplication_id w) o in
  let o := insert_opt "ParentWorkflowID" (VString <$> ws_parent_workflow_id w) o in
  let o := map_insert "Input" (text_or_empty (ws_input w)) o in
  let o := map_insert "Output" (text_or_empty (ws_output w)) o in
  let o := map_insert "Error" (text_or_empty (VString <$> ws_error w)) o in
  let o := insert_opt "CompletedAt" (json_decimal <$> ws_completed_at w) o in
  let o := if decide (ws_status w = Pending)
           then insert_opt "StartedAt" (json_decimal <$> ws_started_at w) o else o in
  VObject o.

Definition admin_step_to_wire (s : StepInfo) : Value :=
  let o := [] in
  let o := map_insert "function_id" (json_int (si_step_id s)) o in
  let o := map_insert "function_name" (VString (si_step_name s)) o in
  let o := map_insert "output" (text_or_empty (si_output s)) o in
  let o := insert_opt "child_workflow_id" (VString <$> si_child_workflow_id s) o in
  let o := insert_opt "started_at_epoch_ms" (json_int <$> si_started_at s) o in
  let o := insert_opt "completed_at_epoch_ms" (json_int <$> si_completed_at s) o in
  let o := insert_opt "error" ((VString ∘ json_print ∘ VString) <$> si_error s) o in
  VObject o.

(** ** Handlers *)

(** [deactivated], and whether [scheduler_cancel] has been cancelled. *)
Record AdminState := mkAdmin {
  ad_deactivated : bool;
  ad_scheduler_cancelled : bool;
}.

Definition Admin_new : AdminState := mkAdmin false false.

(** The registered queues, as [HashMap::values] iterates them. *)
Context (inner : DbosInner) (queues : list WorkflowQueue).

Definition json_response (v : Value) : Response := mkResponse OK_200 (json_print v).
Definition invalid_body (text : string) : Response := mkResponse BAD_REQUEST text.
Definition failed (text : string) : Response := mkResponse INTERNAL_SERVER_ERROR text.

(** Running an operation for its response. *)
Definition respond {A} (op : M A) (ok : A → Response) (err : DbosError → string) : M Response :=
  r ← attempt op;
  mret (match r with Ok a => ok a | Err e => failed (err e) end).

Definition no_content {A} (_ : A) : Response := mkResponse NO_CONTENT "".

Definition healthz : M Response :=
  mret (json_response (VObject [("status", VString "healthy")])).

Definition conductor_probe : M Response :=
  mret (json_response (VObject [("status", VBool true)])).

(** [deactivated.swap(true)]; the schedulers stop the first time. *)
Definition deactivate (s : AdminState) : Response * AdminState :=
  (mkResponse OK_200 "deactivated",
   mkAdmin true (if ad_deactivated s then ad_scheduler_cancelled s else true)).

Definition admin_recovery (body : string) : M Response :=
  match from_str (list string) body with
  | Err _ => mret (invalid_body "Invalid JSON body")
  | Ok executor_ids =>
      respond (recover_pending_workflows inner executor_ids)
        (λ ids, json_response (VArray (VString <$> ids)))
        (λ e, "Recovery failed: " +:+ error_to_string e)
  end.

Definition queues_metadata : M Response :=
  mret (json_response (VArray (queue_to_wire <$> queues))).

Definition admin_garbage_collect (body : string) : M Response :=
  match parse_or_default RetentionReq_default body with
  | None => mret (invalid_body "Invalid JSON body")
  | Some req =>
      respond (garbage_collect (rq_cutoff_epoch_timestamp_ms req) (rq_rows_threshold req))
        no_content (λ e, "GC failed: " +:+ error_to_string e)
  end.

Definition global_timeout (body : string) : M Response :=
  match from_str GlobalTimeoutReq body with
  | Err _ => mret (invalid_body "Invalid JSON body")
  | Ok req =>
      respond (cancel_all_before (gq_cutoff_epoch_timestamp_ms req))
        no_content (λ e, "Global timeout failed: " +:+ error_to_string e)
  end.

Definition admin_list_workflows (body : string) : M Response :=
  match parse_filter body false with
  | None => mret (invalid_body "Invalid JSON input")
  | Some filter =>
      respond (list_workflows filter)
        (λ wfs, json_response (VArray (admin_workflow_to_wire <$> wfs))) error_to_string
  end.

Definition workflow_id_filter (id : string) : ListWorkflowsFilter :=
  mkFilter (Some [id]) None None None false None None None None None None false.

Definition admin_get_workflow (id : string) : M Response :=
  respond (list_workflows (workflow_id_filter id))
    (λ wfs, match head wfs with
            | Some w => json_response (admin_workflow_to_wire w)
            | None => mkResponse NOT_FOUND "Workflow not found"
            end) error_to_string.

Definition admin_list_steps (id : string) : M Response :=
  respond (get_workflow_steps id)
    (λ steps, json_response (VArray (admin_step_to_wire <$> steps))) error_to_string.

Definition admin_cancel (id : string) : M Response :=
  respond (cancel_workflows [id]) no_content error_to_string.

Definition admin_resume (id : string) : M Response :=
  respond (resume_workflows [id] INTERNAL_QUEUE_NAME) no_content error_to_string.

Definition admin_fork_input (id : string) (req : ForkReq) : ForkWorkflowInput :=
  {| fk_original_workflow_id := id;
     fk_forked_workflow_id := fq_new_workflow_id req;
     fk_start_step := default 0 (fq_start_step req);
     fk_application_version := fq_application_version req;
     fk_queue_name := None;
     fk_queue_partition_key := None |}.

Definition admin_fork (id body : string) : M Response :=
  match parse_or_default ForkReq_default body with
  | None => mret (invalid_body "Invalid JSON input")
  | Some req =>
      respond (fork_workflow (admin_fork_input id req))
        (λ new_id, json_response (VObject [("workflow_id", VString new_id)])) error_to_string
  end.

(** One request to the server. *)
Definition serve (route : Route) (s : AdminState) : M (Response * AdminState) :=
  let same (m : M Response) : M (Response * AdminState) := r ← m; mret (r, s) in
  match route with
  | Healthz => same healthz
  | RecoveryRoute body => same (admin_recovery body)
  | Deactivate => mret (deactivate s)
  | ConductorProbe => same conductor_probe
  | QueuesMetadata => same queues_metadata
  | GarbageCollect body => same (admin_garbage_collect body)
  | GlobalTimeout body => same (global_timeout body)
  | ListWorkflows body => same (admin_list_workflows body)
  | GetWorkflow id => same (admin_get_workflow id)
  | ListSteps id => same (admin_list_steps id)
  | CancelRoute id => same (admin_cancel id)
  | ResumeRoute id => same (admin_resume id)
  | ForkRoute id body => same (admin_fork id body)
  end.
End admin.

(** ** Properties *)

Section properties.
Context `{HE : Env, HJ : SerdeJson, HB : Base64Engine, HS : PgScan, HR : Rfc3339}.
Context (as_secs_f64 : Duration.t → Value) (inner : DbosInner) (queues : list WorkflowQueue).

(** *** Reading a body *)

(** What a struct has for its [i]-th field [k]: an object by name, an array by
    position. *)
Inductive value_at (i : nat) (k : string) : Value → option Value → Prop :=
  | at_none m : (∀ v, (k, v) ∉ m) → value_at i k (VObject m) None
  | at_name m1 v m2 : (∀ v', (k, v') ∉ m1 ++ m2) → value_at i k (VObject (m1 ++ (k, v) :: m2)) (Some v)
  | at_position l v : l !! i = Some v → value_at i k (VArray l) (Some v).

Definition required_at {T} `{Deserialize T} (i : nat) (k : string) (t : Value) (x : T) : Prop :=
  ∃ v, value_at i k t (Some v) ∧ deserialize v = inr x.

Definition optional_at {T} `{Deserialize T} (i : nat) (k : string) (t : Value) (o : option T) : Prop :=
  ∃ ov, value_at i k t ov ∧
    match ov with
    | None | Some VNull => o = None
    | Some v => ∃ x, deserialize v = inr x ∧ o = Some x
    end.

(** A struct of [n] fields. *)
Definition struct_of (n : nat) (body : string) (t : Value) : Prop :=
  json_parse body = inr t ∧ ∀ l, t = VArray l → length l = n.

Definition blank (body : string) : Prop := str_trim body = "".

Definition reads_retention (body : string) (cutoff rows : option Z) : Prop :=
  blank body ∧ cutoff = None ∧ rows = None ∨
  ¬ blank body ∧ ∃ t, struct_of 2 body t ∧
    optional_at 0 "cutoff_epoch_timestamp_ms" t cutoff ∧ optional_at 1 "rows_threshold" t rows.

Definition reads_timeout (body : string) (cutoff : Z) : Prop :=
  ∃ t, struct_of 1 body t ∧ required_at 0 "cutoff_epoch_timestamp_ms" t cutoff.

Definition reads_fork (body : string) (start : option I32) (id version : option string) : Prop :=
  blank body ∧ start = None ∧ id = None ∧ version = None ∨
  ¬ blank body ∧ ∃ t, struct_of 3 body t ∧
    optional_at 0 "start_step" t start ∧ optional_at 1 "new_workflow_id" t id ∧
    optional_at 2 "application_version" t version.

(** The listing a body asks for. *)
Definition reads_listing (body : string) (f : ListWorkflowsFilter) : Prop :=
  ∃ v, (blank body ∧ v = VObject [] ∨ ¬ blank body ∧ from_str Value body = Ok v) ∧
    match value_get "workflow_uuids" v with
    | Some (VArray vs) => ∃ l, texts_of vs l ∧ lf_workflow_ids f = Some l
    | _ => lf_workflow_ids f = None
    end ∧
    match text_field "status" v with
    | Some name => ∃ l, statuses_of [name] l ∧ lf_status f = match l with [] => None | _ => Some l end
    | None => lf_status f = None
    end ∧
    lf_workflow_name f = text_field "workflow_name" v ∧ lf_queue_name f = text_field "queue_name" v ∧
    lf_queues_only f = false ∧ lf_application_version f = text_field "application_version" v ∧
    lf_executor_ids f = None ∧ lf_start_time f = time_field "start_time" v ∧
    lf_end_time f = time_field "end_time" v ∧ lf_limit f = int_field "limit" v ∧
    lf_offset f = int_field "offset" v ∧ (lf_sort_desc f = true ↔ flag_set "sort_desc" v).

(** *** What a response shows *)

Definition json_text (o : option Value) : Value :=
  VString (match o with Some v => json_print v | None => "" end).

Definition admin_shows_workflow (ws : WorkflowStatus) (v : Value) : Prop :=
  ∃ o, v = VObject o ∧ carries o
    [("WorkflowUUID", Some (VString (ws_id ws)));
     ("Status", Some (VString (status_str (ws_status ws))));
     ("WorkflowName", Some (VString (ws_name ws)));
     ("Attempts", Some (VNumber (NInt (ws_recovery_attempts ws))));
     ("Priority", Some (VNumber (NInt (ws_priority ws))));
     ("CreatedAt", Some (VString (pretty (ws_created_at ws))));
     ("UpdatedAt", Some (VString (pretty (ws_updated_at ws))));
     ("QueueName", VString <$> ws_queue_name ws);
     ("ExecutorID", VString <$> ws_executor_id ws);
     ("ApplicationVersion", VString <$> ws_application_version ws);
     ("DeduplicationID", VString <$> ws_deduplication_id ws);
     ("ParentWorkflowID", VString <$> ws_parent_workflow_id ws);
     ("Input", Some (json_text (ws_input ws)));
     ("Output", Some (json_text (ws_output ws)));
     ("Error", Some (json_text (VString <$> ws_error ws)));
     ("CompletedAt", (λ z, VString (pretty z)) <$> ws_completed_at ws);
     ("StartedAt", match ws_status ws with
                   | Pending => (λ z, VString (pretty z)) <$> ws_started_at ws
                   | _ => None
                   end)].

Definition admin_shows_step (st : StepInfo) (v : Value) : Prop :=
  ∃ o, v = VObject o ∧ carries o
    [("function_id", Some (VNumber (NInt (si_step_id st))));
     ("function_name", Some (VString (si_step_name st)));
     ("output", Some (json_text (si_output st)));
     ("child_workflow_id", VString <$> si_child_workflow_id st);
     ("started_at_epoch_ms", (λ z, VNumber (NInt z)) <$> si_started_at st);
     ("completed_at_epoch_ms", (λ z, VNumber (NInt z)) <$> si_completed_at st);
     ("error", (λ e, VString (json_print (VString e))) <$> si_error st)].

Definition admin_shows_queue (q : WorkflowQueue) (v : Value) : Prop :=
  ∃ o, v = VObject o ∧ carries o
    [("name", Some (VString (wq_name q)));
     ("concurrency", (λ n, VNumber (NInt n)) <$> wq_global_concurrency q);
     ("workerConcurrency", (λ n, VNumber (NInt n)) <$> wq_worker_concurrency q);
     ("priorityEnabled", if wq_priority_enabled q then Some (VBool true) else None);
     ("rateLimit", (λ r, VObject [("Limit", VNumber (NInt (rl_limit r))); ("Period", as_secs_f64 (rl_period r))])
                     <$> wq_rate_limit q);
     ("maxTasksPerIteration", Some (VNumber (NInt (wq_max_tasks_per_iteration q))));
     ("partitionQueue", if wq_partition_queue q then Some (VBool true) else None)].

(** How an operation that ended with [r] is reported. *)
Definition reported {A} (ok : A → Response → Prop) (prefix : string) (r : Result A) (rsp : Response) : Prop :=
  match r with
  | Ok a => ok a rsp
  | Err e => rsp = mkResponse 500 (prefix +:+ error_to_string e)
  end.

Definition in_json {A} (shows : A → Value → Prop) (a : A) (rsp : Response) : Prop :=
  ∃ v, shows a v ∧ rsp = mkResponse 200 (json_print v).

Definition empty_reply {A} (_ : A) (rsp : Response) : Prop := rsp = mkResponse 204 "".

(** What a request does, and its response. *)
Inductive handled (s : AdminState) (w : World) :
    Method → list string → string → Response → AdminState → World → Prop :=
  | handled_health body :
      handled s w GET ["dbos-healthz"] body
        (mkResponse 200 (json_print (VObject [("status", VString "healthy")]))) s w
  | handled_conductor body :
      handled s w GET ["conductor"] body
        (mkResponse 200 (json_print (VObject [("status", VBool true)]))) s w
  | handled_queues body rsp :
      in_json (shows_all admin_shows_queue) queues rsp →
      handled s w GET ["dbos-workflow-queues-metadata"] body rsp s w
  | handled_deactivate body :
      handled s w GET ["deactivate"] body (mkResponse 200 "deactivated")
        (if ad_deactivated s then s else mkAdmin true true) w
  | handled_recovery body ids r rsp w' :
      from_str (list string) body = Ok ids → recover_pending_workflows inner ids w = (r, w') →
      reported (in_json (λ ids v, v = VArray (VString <$> ids))) "Recovery failed: " r rsp →
      handled s w POST ["dbos-workflow-recovery"] body rsp s w'
  | handled_bad_recovery body e :
      from_str (list string) body = Err e →
      handled s w POST ["dbos-workflow-recovery"] body (mkResponse 400 "Invalid JSON body") s w
  | handled_collect body cutoff rows r rsp w' :
      reads_retention body cutoff rows → garbage_collect cutoff rows w = (r, w') →
      reported empty_reply "GC failed: " r rsp →
      handled s w POST ["dbos-garbage-collect"] body rsp s w'
  | handled_bad_collect body :
      (∀ cutoff rows, ¬ reads_retention body cutoff rows) →
      handled s w POST ["dbos-garbage-collect"] body (mkResponse 400 "Invalid JSON body") s w
  | handled_timeout body cutoff r rsp w' :
      reads_timeout body cutoff → cancel_all_before cutoff w = (r, w') →
      reported empty_reply "Global timeout failed: " r rsp →
      handled s w POST ["dbos-global-timeout"] body rsp s w'
  | handled_bad_timeout body :
      (∀ cutoff, ¬ reads_timeout body cutoff) →
      handled s w POST ["dbos-global-timeout"] body (mkResponse 400 "Invalid JSON body") s w
  | handled_list body f r rsp w' :
      reads_listing body f → list_workflows f w = (r, w') →
      reported (in_json (shows_all admin_shows_workflow)) "" r rsp →
      handled s w POST ["workflows"] body rsp s w'
  | handled_bad_list body :
      (∀ f, ¬ reads_listing body f) →
      handled s w POST ["workflows"] body (mkResponse 400 "Invalid JSON input") s w
  | handled_get id body r rsp w' :
      list_workflows (mkFilter (Some [id]) None None None false None None None None None None false) w
        = (r, w') →
      reported (λ wfs rsp, match wfs with
                           | [] => rsp = mkResponse 404 "Workflow not found"
                           | ws :: _ => in_json admin_shows_workflow ws rsp
                           end) "" r rsp →
      handled s w GET ["workflows"; id] body rsp s w'
  | handled_steps id body r rsp w' :
      get_workflow_steps id w = (r, w') →
      reported (in_json (shows_all admin_shows_step)) "" r rsp →
      handled s w GET ["workflows"; id; "steps"] body rsp s w'
  | handled_cancel id body r rsp w' :
      cancel_workflows [id] w = (r, w') → reported empty_reply "" r rsp →
      handled s w POST ["workflows"; id; "cancel"] body rsp s w'
  | handled_resume id body r rsp w' :
      resume_workflows [id] "_dbos_internal_queue" w = (r, w') → reported empty_reply "" r rsp →
      handled s w POST ["workflows"; id; "resume"] body rsp s w'
  | handled_fork id body start new version r rsp w' :
      reads_fork body start new version →
      fork_workflow (mkFork id new (match start with Some n => i32_value n | None => 0 end)
                       version None None) w = (r, w') →
      reported (in_json (λ new v, v = VObject [("workflow_id", VString new)])) "" r rsp →
      handled s w POST ["workflows"; id; "fork"] body rsp s w'
  | handled_bad_fork id body :
      (∀ start new version, ¬ reads_fork body start new version) →
      handled s w POST ["workflows"; id; "fork"] body (mkResponse 400 "Invalid JSON input") s w.

(** *** The parsers meet it *)

Lemma struct_field_value i k m ov : struct_field k m = inr ov ↔ value_at i k (VObject m) ov.
Proof.
  split.
  - revert ov. induction m as [|[k' v] m IH]; intros ov; simpl.
    { intros [= <-]. constructor. intros v. apply not_elem_of_nil. }
    destruct (struct_field k m) as [|[x|]]; [done| |].
    + case_decide as Hk; [done|]. intros [= <-]. specialize (IH _ eq_refl).
      inversion IH as [|m1 x' m2 Hn|]; simplify_eq. apply (at_name i k ((k', v) :: m1)). intros v'.
      rewrite <- app_comm_cons, not_elem_of_cons. split; [congruence|auto].
    + specialize (IH _ eq_refl). inversion IH as [m' Hn| |]; simplify_eq.
      case_decide as Hk; intros [= <-].
      * subst. apply (at_name i k' []). exact Hn.
      * constructor. intros v'. rewrite not_elem_of_cons. split; [congruence|auto].
  - assert (∀ m, (∀ v, (k, v) ∉ m) → struct_field k m = inr None) as Hnone.
    { clear m ov. induction m as [|[k' v] m IH]; intros Hn; simpl; [done|].
      rewrite IH by (intros v' Hin; apply (Hn v'); by right).
      rewrite decide_False; [done|]. intros ->. apply (Hn v). by left. }
    intros Hv. inversion Hv as [m' Hn|m1 v m2 Hn|]; simplify_eq; [by apply Hnone|].
    induction m1 as [|[k' v'] m1 IH]; simpl.
    + rewrite Hnone by exact Hn. by rewrite decide_True.
    + rewrite IH.
      * rewrite decide_False; [done|]. intros ->. apply (Hn v'). by left.
      * constructor. intros x Hx. apply (Hn x). by right.
      * intros x Hx. apply (Hn x). by right.
Qed.

Lemma optional_spec {T} `{Deserialize T} (f : string + option Value) (o : option T) :
  optional f = inr o ↔ ∃ ov, f = inr ov ∧
    match ov with
    | None | Some VNull => o = None
    | Some v => ∃ x, deserialize v = inr x ∧ o = Some x
    end.
Proof.
  unfold optional, defaulted. destruct f as [e|[v|]].
  - split; [done|]. by intros (? & [=] & _).
  - split.
    + intros Hd. exists (Some v). split; [done|]. unfold deserialize at 1, option_Deserialize in Hd.
      destruct v; [by injection Hd|..]; destruct (deserialize _) eqn:E; simplify_eq; eauto.
    + intros (? & [= <-] & Hd). unfold deserialize at 1, option_Deserialize.
      destruct v; [by subst|..]; destruct Hd as (x & -> & ->); done.
  - split; [intros [= <-]; by exists None|]. by intros (? & [= <-] & ->).
Qed.

(** The [i]-th field of a parsed body. *)
Definition field_of (i : nat) (k : string) (t : Value) : string + option Value :=
  match t with
  | VObject m => struct_field k m
  | VArray l => match l !! i with Some v => inr (Some v) | None => inl "invalid length" end
  | _ => inl "invalid type"
  end.

Lemma field_of_value i k t ov : field_of i k t = inr ov ↔ value_at i k t ov.
Proof.
  destruct t as [| | | |l|m]; simpl; try (split; [done|by inversion 1]).
  - destruct (l !! i) as [v|] eqn:E.
    + split; [intros [= <-]; by constructor|]. inversion 1; simplify_eq. done.
    + split; [done|]. inversion 1; simplify_eq.
  - apply struct_field_value.
Qed.

Lemma optional_field {T} `{Deserialize T} i k t (o : option T) :
  optional (field_of i k t) = inr o ↔ optional_at i k t o.
Proof.
  rewrite optional_spec. unfold optional_at. split; intros (ov & Hv & Ho); exists ov; split; try done;
    by apply field_of_value.
Qed.

Lemma required_field {T} `{Deserialize T} i k t (x : T) :
  required k (field_of i k t) = inr x ↔ required_at i k t x.
Proof.
  unfold required_at. split.
  - destruct (field_of i k t) as [|[v|]] eqn:E; simpl; [done| |done]. intros Hd. exists v.
    split; [by apply field_of_value|done].
  - intros (v & Hv%field_of_value & Hd). by rewrite Hv.
Qed.

Lemma value_at_struct i k t ov : value_at i k t ov → match t with VObject _ | VArray _ => True | _ => False end.
Proof. by destruct 1. Qed.

(** A derived [Deserialize] reads its fields in order. *)
Lemma struct_fields_inr {T} names (build : list (string + option Value) → string + T) t x :
  struct_fields names build t = inr x ↔
  match t with VObject _ | VArray _ => True | _ => False end ∧
  (∀ l, t = VArray l → length l = length names) ∧
  build (imap (λ i k, field_of i k t) names) = inr x.
Proof.
  unfold struct_fields. destruct t as [| | | |l|m]; try (split; [done|by intros (? & _)]).
  - case_decide as Hlen.
    + assert (((λ v, inr (Some v)) <$> l : list (string + option Value)) =
        imap (λ i k, field_of i k (VArray l)) names) as ->.
      { apply list_eq. intros i. rewrite list_lookup_fmap, list_lookup_imap. simpl.
        destruct (names !! i) as [k|] eqn:Hk; simpl.
        - apply lookup_lt_Some in Hk. rewrite <- Hlen in Hk.
          apply lookup_lt_is_Some_2 in Hk as [v Hv]. by rewrite Hv.
        - apply lookup_ge_None in Hk. rewrite lookup_ge_None_2 by lia. done. }
      split; [intros Hb; split_and!; [done|by intros ? [= <-]|done]|by intros (_ & _ & ?)].
    + split; [done|]. intros (_ & Hl & _). by destruct Hlen; apply Hl.
  - assert (((λ k, struct_field k m) <$> names) = imap (λ i k, field_of i k (VObject m)) names) as ->.
    { apply list_eq. intros i. by rewrite list_lookup_fmap, list_lookup_imap. }
    split; [intros Hb; by split_and!|by intros (_ & _ & ?)].
Qed.

Lemma bind_inr {A B} (r : string + A) (f : A → string + B) b :
  (r ≫= f) = inr b ↔ ∃ a, r = inr a ∧ f a = inr b.
Proof. destruct r; simpl; naive_solver. Qed.

Lemma from_str_inr T `{Deserialize T} body (x : T) :
  from_str T body = Ok x ↔ ∃ t, json_parse body = inr t ∧ deserialize t = inr x.
Proof.
  unfold from_str, from_value, lift_serde. destruct (json_parse body) as [|t]; simpl.
  - split; [done|]. by intros (? & [=] & _).
  - destruct (deserialize t) as [|y] eqn:E.
    + split; [done|]. intros (? & [= <-] & Hd). congruence.
    + split; [intros [= <-]; eauto|]. intros (? & [= <-] & Hd). congruence.
Qed.

Lemma parse_or_default_Some {T} `{Deserialize T} (d : T) body x :
  parse_or_default d body = Some x ↔
  blank body ∧ x = d ∨ ¬ blank body ∧ from_str T body = Ok x.
Proof.
  unfold parse_or_default, blank. destruct (str_trim body) as [|c s]; simpl.
  - split; [intros [= <-]; by left|]. intros [[_ ->]|[Hb _]]; [done|by destruct Hb].
  - destruct (from_str T body); simpl; split; try done.
    + intros [= <-]. by right.
    + intros [[Hb _]|[_ [= <-]]]; done.
    + by intros [[Hb _]|[_ ?]].
Qed.

Lemma or_iff_both (P P' Q Q' : Prop) : (P ↔ P') → (Q ↔ Q') → P ∨ Q ↔ P' ∨ Q'.
Proof. tauto. Qed.

Lemma reads_retention_spec body cutoff rows :
  parse_or_default RetentionReq_default body = Some (mkRetentionReq cutoff rows) ↔
  reads_retention body cutoff rows.
Proof.
  rewrite parse_or_default_Some, from_str_inr. unfold reads_retention, struct_of.
  apply or_iff_both; [split; [by intros [? [= -> ->]]|by intros (? & -> & ->)]|].
  apply and_iff_compat_l. split.
  - intros (t & Hp & Hd). apply struct_fields_inr in Hd as (_ & Hlen & Hb). exists t.
    cbn [imap] in Hb. apply bind_inr in Hb as (c & Hc%optional_field & Hb).
    apply bind_inr in Hb as (r & Hr%optional_field & [= -> ->]). by split_and!.
  - intros (t & [Hp Hlen] & Hc & Hr). exists t. split; [done|]. apply struct_fields_inr.
    split_and!; [by destruct Hc as (? & Hc%value_at_struct & _)|done|]. cbn [imap].
    apply bind_inr. exists cutoff. split; [by apply optional_field|]. apply bind_inr. exists rows.
    split; [by apply optional_field|done].
Qed.

Lemma reads_timeout_spec body cutoff :
  from_str GlobalTimeoutReq body = Ok (mkGlobalTimeoutReq cutoff) ↔ reads_timeout body cutoff.
Proof.
  rewrite from_str_inr. unfold reads_timeout, struct_of. split.
  - intros (t & Hp & Hd). apply struct_fields_inr in Hd as (_ & Hlen & Hb). exists t.
    cbn [imap] in Hb. apply bind_inr in Hb as (c & Hc%required_field & [= ->]). by split_and!.
  - intros (t & [Hp Hlen] & Hc). exists t. split; [done|]. apply struct_fields_inr.
    split_and!; [by destruct Hc as (? & Hc%value_at_struct & _)|done|]. cbn [imap].
    apply bind_inr. exists cutoff. split; [by apply required_field|done].
Qed.

Lemma reads_fork_spec body start new version :
  parse_or_default ForkReq_default body = Some (mkForkReq (i32_value <$> start) new version) ↔
  reads_fork body start new version.
Proof.
  rewrite parse_or_default_Some, from_str_inr. unfold reads_fork, struct_of. apply or_iff_both.
  { split; [|by intros (? & -> & -> & ->)]. unfold ForkReq_default.
    destruct start; [by intros [? [=]]|]. by intros [? [= -> ->]]. }
  apply and_iff_compat_l. split.
  - intros (t & Hp & Hd). apply struct_fields_inr in Hd as (_ & Hlen & Hb). exists t.
    cbn [imap] in Hb. apply bind_inr in Hb as (s & Hs & Hb).
    apply bind_inr in Hb as (i & Hi%optional_field & Hb).
    apply bind_inr in Hb as (v & Hv%optional_field & [= Hst -> ->]).
    assert (s = start) as ->.
    { destruct s as [[]|], start as [[]|]; simpl in Hst; by simplify_eq. }
    apply (optional_field (T := I32)) in Hs. by split_and!.
  - intros (t & [Hp Hlen] & Hs & Hi & Hv). exists t. split; [done|]. apply struct_fields_inr.
    split_and!; [by destruct Hs as (? & Hs%value_at_struct & _)|done|]. cbn [imap].
    apply bind_inr. exists start. split; [by apply (optional_field (T := I32))|].
    apply bind_inr. exists new. split; [by apply optional_field|].
    apply bind_inr. exists version. split; [by apply optional_field|done].
Qed.

(** The body of a listing as a value. *)
Lemma listing_value body v :
  (if str_is_empty (str_trim body) then Some (VObject []) else result_ok (from_str Value body)) = Some v ↔
  blank body ∧ v = VObject [] ∨ ¬ blank body ∧ from_str Value body = Ok v.
Proof.
  unfold blank. destruct (str_trim body) as [|c s]; simpl.
  - split; [intros [= <-]; by left|]. intros [[_ ->]|[Hb _]]; [done|by destruct Hb].
  - destruct (from_str Value body); simpl; split; try done.
    + intros [= <-]. by right.
    + intros [[Hb _]|[_ [= <-]]]; done.
    + by intros [[Hb _]|[_ ?]].
Qed.

Lemma parse_filter_reads body f : parse_filter body false = Some f → reads_listing body f.
Proof.
  unfold parse_filter. intros (v & Hv%listing_value & Hf)%bind_Some. exists v. split; [done|].
  cbn [andb] in Hf. injection Hf as <-.
  cbn [lf_workflow_ids lf_status lf_workflow_name lf_queue_name lf_queues_only lf_application_version
    lf_executor_ids lf_start_time lf_end_time lf_limit lf_offset lf_sort_desc].
  split_and!; try done; try apply get_str_field; try apply get_i64_field.
  - destruct (value_get "workflow_uuids" v) as [[]|]; simpl; try done. eauto using texts_of_omap.
  - change (get_str "status" v) with (text_field "status" v). destruct (text_field "status" v) as [name|]; simpl; [|done].
    exists (omap status_from_str [name]). split; [apply statuses_of_omap|]. simpl.
    by destruct (status_from_str name).
  - unfold time_field, get_str. by destruct (value_get "start_time" v) as [[]|].
  - unfold time_field, get_str. by destruct (value_get "end_time" v) as [[]|].
  - apply get_bool_field.
Qed.

Lemma parse_filter_none body f : parse_filter body false = None → ¬ reads_listing body f.
Proof.
  unfold parse_filter. intros Hn (v & Hv%listing_value & _). by rewrite Hv in Hn.
Qed.

Lemma text_or_empty_json o : text_or_empty o = json_text o.
Proof. by destruct o. Qed.

Lemma wire_shows_admin_workflow ws : admin_shows_workflow ws (admin_workflow_to_wire ws).
Proof.
  unfold admin_workflow_to_wire. rewrite !text_or_empty_json.
  eexists. split; [reflexivity|]. destruct ws as [id st]. cbn.
  destruct st; match goal with |- carries _ ?fields => apply (set_fields_carries fields); distinct_keys end.
Qed.

Lemma wire_shows_admin_step st : admin_shows_step st (admin_step_to_wire st).
Proof.
  unfold admin_step_to_wire. rewrite !text_or_empty_json. eexists. split; [reflexivity|].
  match goal with |- carries _ ?fields => apply (set_fields_carries fields); distinct_keys end.
Qed.

Lemma wire_shows_queue q : admin_shows_queue q (queue_to_wire as_secs_f64 q).
Proof.
  eexists. split; [reflexivity|]. unfold admin_shows_queue.
  destruct (wq_priority_enabled q), (wq_partition_queue q);
    match goal with |- carries _ ?fields => apply (set_fields_carries fields); distinct_keys end.
Qed.

(** *** Routing *)

Inductive routed : Method → list string → string → Route → Prop :=
  | routed_health body : routed GET ["dbos-healthz"] body Healthz
  | routed_recovery body : routed POST ["dbos-workflow-recovery"] body (RecoveryRoute body)
  | routed_deactivate body : routed GET ["deactivate"] body Deactivate
  | routed_conductor body : routed GET ["conductor"] body ConductorProbe
  | routed_queues body : routed GET ["dbos-workflow-queues-metadata"] body QueuesMetadata
  | routed_collect body : routed POST ["dbos-garbage-collect"] body (GarbageCollect body)
  | routed_timeout body : routed POST ["dbos-global-timeout"] body (GlobalTimeout body)
  | routed_list body : routed POST ["workflows"] body (ListWorkflows body)
  | routed_get id body : routed GET ["workflows"; id] body (GetWorkflow id)
  | routed_steps id body : routed GET ["workflows"; id; "steps"] body (ListSteps id)
  | routed_cancel id body : routed POST ["workflows"; id; "cancel"] body (CancelRoute id)
  | routed_resume id body : routed POST ["workflows"; id; "resume"] body (ResumeRoute id)
  | routed_fork id body : routed POST ["workflows"; id; "fork"] body (ForkRoute id body).

Lemma router_routed method path body route :
  router method path body = Some route → routed method path body route.
Proof.
  unfold router. destruct method; destruct path as [|x [|y [|z [|]]]];
    repeat (lazymatch goal with |- match ?x with _ => _ end = _ → _ => destruct x end; try discriminate);
    intros [= <-]; constructor.
Qed.

(** *** The handlers meet it *)

Lemma respond_run {A} (op : M A) ok err (okp : A → Response → Prop) prefix w r w' :
  op w = (r, w') → (∀ a, okp a (ok a)) → (∀ e, err e = prefix +:+ error_to_string e) →
  ∃ rsp, respond op ok err w = (Ok rsp, w') ∧ reported okp prefix r rsp.
Proof.
  intros Hop Hok Herr. unfold respond. rewrite M_bind_run. unfold attempt. rewrite Hop.
  destruct r; eexists; (split; [reflexivity|]); simpl; [apply Hok|by rewrite <- Herr].
Qed.

Lemma respond_handled {A} (op : M A) ok err (okp : A → Response → Prop) prefix s w method path body :
  (∀ a, okp a (ok a)) → (∀ e, err e = prefix +:+ error_to_string e) →
  (∀ r rsp w', op w = (r, w') → reported okp prefix r rsp → handled s w method path body rsp s w') →
  ∃ rsp w', respond op ok err w = (Ok rsp, w') ∧ handled s w method path body rsp s w'.
Proof.
  intros Hok Herr Hh. destruct (op w) as [r w'] eqn:E.
  destruct (respond_run op ok err okp prefix w r w' E Hok Herr) as (rsp & Hrun & Hr). eauto.
Qed.

Lemma in_json_all {A} (shows : A → Value → Prop) wire (l : list A) :
  (∀ a, shows a (wire a)) → in_json (shows_all shows) l (json_response (VArray (wire <$> l))).
Proof. intros Hs. eexists. split; [by apply map_shows_all|done]. Qed.

Lemma serve_handled method path body route s w :
  routed method path body route →
  ∃ rsp s' w', serve as_secs_f64 inner queues route s w = (Ok (rsp, s'), w') ∧
    handled s w method path body rsp s' w'.
Proof.
  assert (∀ m : M Response, (∃ rsp w', m w = (Ok rsp, w') ∧ handled s w method path body rsp s w') →
    ∃ rsp s' w', (rsp ← m; mret (rsp, s)) w = (Ok (rsp, s'), w') ∧
      handled s w method path body rsp s' w') as Hsame.
  { intros m (rsp & w' & Hm & Hh). exists rsp, s, w'. split; [by eapply run_bind|done]. }
  destruct 1; unfold serve; try apply Hsame.
  - eexists _, w. split; [reflexivity|]. constructor.
  - unfold admin_recovery. destruct (from_str (list string) body) as [ids|e] eqn:E.
    + apply (respond_handled _ _ _ (in_json (λ ids v, v = VArray (VString <$> ids))) "Recovery failed: ");
        [intros; by eexists|done|]. intros. by eapply handled_recovery.
    + eexists _, w. split; [reflexivity|]. by eapply handled_bad_recovery.
  - eexists _, _, w. split; [reflexivity|]. unfold deactivate. destruct s as [[] c]; constructor.
  - eexists _, w. split; [reflexivity|]. constructor.
  - eexists _, w. split; [reflexivity|]. apply handled_queues, in_json_all, wire_shows_queue.
  - unfold admin_garbage_collect.
    destruct (parse_or_default RetentionReq_default body) as [[cutoff rows]|] eqn:E.
    + apply reads_retention_spec in E.
      apply (respond_handled _ _ _ empty_reply "GC failed: "); [done..|]. intros. by eapply handled_collect.
    + eexists _, w. split; [reflexivity|]. apply handled_bad_collect.
      intros cutoff rows Hr%reads_retention_spec. congruence.
  - unfold global_timeout. destruct (from_str GlobalTimeoutReq body) as [[cutoff]|e] eqn:E.
    + apply reads_timeout_spec in E.
      apply (respond_handled _ _ _ empty_reply "Global timeout failed: "); [done..|].
      intros. by eapply handled_timeout.
    + eexists _, w. split; [reflexivity|]. apply handled_bad_timeout.
      intros cutoff Hr%reads_timeout_spec. congruence.
  - unfold admin_list_workflows. destruct (parse_filter body false) as [f|] eqn:E.
    + apply parse_filter_reads in E.
      apply (respond_handled _ _ _ (in_json (shows_all admin_shows_workflow)) "");
        [intros; by apply in_json_all, wire_shows_admin_workflow|done|]. intros. by eapply handled_list.
    + eexists _, w. split; [reflexivity|]. apply handled_bad_list. intros f. by apply parse_filter_none.
  - apply (respond_handled _ _ _ (λ wfs rsp, match wfs with
                           | [] => rsp = mkResponse 404 "Workflow not found"
                           | ws :: _ => in_json admin_shows_workflow ws rsp
                           end) ""); [|done|intros; by eapply handled_get].
    intros [|ws wfs]; [done|]. eexists. split; [apply wire_shows_admin_workflow|done].
  - apply (respond_handled _ _ _ (in_json (shows_all admin_shows_step)) "");
      [intros; by apply in_json_all, wire_shows_admin_step|done|]. intros. by eapply handled_steps.
  - apply (respond_handled _ _ _ empty_reply ""); [done..|]. intros. by eapply handled_cancel.
  - apply (respond_handled _ _ _ empty_reply ""); [done..|]. intros. by eapply handled_resume.
  - unfold admin_fork. destruct (parse_or_default ForkReq_default body) as [[start new version]|] eqn:E.
    + assert (∃ st, start = i32_value <$> st) as [st ->]
        by (destruct start as [z|]; [by exists (Some (mkI32 z))|by exists None]).
      apply reads_fork_spec in E.
      apply (respond_handled _ _ _ (in_json (λ new v, v = VObject [("workflow_id", VString new)])) "");
        [intros; by eexists|done|]. intros r rsp w' Hrun Hrep. eapply handled_fork; [done| |done].
      rewrite <- Hrun. by destruct st.
    + eexists _, w. split; [reflexivity|]. apply handled_bad_fork.
      intros start new version Hr%reads_fork_spec. congruence.
Qed.

Lemma handled_routed s w method path body rsp s' w' :
  handled s w method path body rsp s' w' → ∃ route, router method path body = Some route.
Proof. destruct 1; by eexists. Qed.

(** A sequence of requests, and the responses in order. *)
Fixpoint serve_all (routes : list Route) (s : AdminState) : M (list Response * AdminState) :=
  match routes with
  | [] => mret ([], s)
  | route :: routes =>
      '(rsp, s1) ← serve as_secs_f64 inner queues route s;
      '(rsps, s2) ← serve_all routes s1;
      mret (rsp :: rsps, s2)
  end.

Lemma serve_state route s w :
  ∃ rsp w', serve as_secs_f64 inner queues route s w
    = (Ok (rsp, match route with Deactivate => snd (deactivate s) | _ => s end), w').
Proof.
  assert (∀ m : M Response, (∀ v, ∃ rsp v', m v = (Ok rsp, v')) →
    ∃ rsp w', (rsp ← m; mret (rsp, s)) w = (Ok (rsp, s), w')) as Hsame.
  { intros m Hm. destruct (Hm w) as (rsp & w' & Hr). exists rsp, w'. by eapply run_bind. }
  assert (∀ {A} (op : M A) ok err v, ∃ rsp v', respond op ok err v = (Ok rsp, v')) as Hrespond.
  { intros A op ok err v. unfold respond. rewrite M_bind_run. unfold attempt. destruct (op v). by eexists _, _. }
  destruct route; unfold serve; try (apply Hsame; intros v).
  all: unfold healthz, conductor_probe, queues_metadata, admin_recovery, admin_garbage_collect, global_timeout,
    admin_list_workflows, admin_get_workflow, admin_list_steps, admin_cancel, admin_resume, admin_fork;
    try case_match; try apply Hrespond; by eexists _, _.
Qed.

Definition is_deactivate (route : Route) : bool :=
  match route with Deactivate => true | _ => false end.

Lemma serve_all_state routes b w :
  ∃ rsps w', serve_all routes (mkAdmin b b) w =
    (Ok (rsps, mkAdmin (b || existsb is_deactivate routes) (b || existsb is_deactivate routes)), w') ∧
    length rsps = length routes.
Proof.
  revert b w. induction routes as [|route routes IH]; intros b w; simpl.
  { exists [], w. by rewrite orb_false_r. }
  destruct (serve_state route (mkAdmin b b) w) as (rsp&w1&Hrun).
  assert (match route with Deactivate => snd (deactivate (mkAdmin b b)) | _ => mkAdmin b b end
    = mkAdmin (b || is_deactivate route) (b || is_deactivate route)) as Hst.
  { destruct route; simpl; rewrite ?orb_false_r; try done. by destruct b. }
  rewrite Hst in Hrun. destruct (IH (b || is_deactivate route) w1) as (rsps&w2&Hall&Hlen).
  exists (rsp :: rsps), w2. split; [|simpl; by rewrite Hlen].
  eapply run_bind; [exact Hrun|]. cbn beta iota. eapply run_bind; [exact Hall|].
  cbn beta iota. by rewrite orb_assoc.
Qed.

(** The requests that reach a handler. *)
Definition route_of (req : Method * list string * string) : option Route :=
  router req.1.1 req.1.2 req.2.

Lemma deactivations reqs :
  existsb is_deactivate (omap route_of reqs) = true ↔ ∃ body, (GET, ["deactivate"], body) ∈ reqs.
Proof.
  rewrite existsb_exists. split.
  - intros (route & Hin & Hd). destruct route; try done.
    apply list_elem_of_In, list_elem_of_omap in Hin as ([[m p] body] & Hin & Hr%router_routed).
    cbn [fst snd] in Hr. inversion Hr; subst. by exists body.
  - intros (body & Hin). exists Deactivate. split; [|done]. apply list_elem_of_In, list_elem_of_omap.
    by exists (GET, ["deactivate"], body).
Qed.

(** C23: every request to a known method and path is answered, as [handled]
    says: it runs the operation of its path on what its body or path names
    and is answered 200 with what the operation returned, 204, 404 when the
    one workflow asked for is not listed, 500 with the text of the error, or,
    when its body cannot be read, 400 without doing anything; a method and
    path [handled] does not know reach no handler.  In every sequence of
    requests each gets one response, and the schedulers have been stopped
    exactly when one of them was [GET /deactivate]. *)
Theorem admin_server_spec :
  (∀ method path body s w,
    match router method path body with
    | Some route => ∃ rsp s' w', serve as_secs_f64 inner queues route s w = (Ok (rsp, s'), w') ∧
                                 handled s w method path body rsp s' w'
    | None => ∀ rsp s' w', ¬ handled s w method path body rsp s' w'
    end) ∧
  ∀ reqs w, ∃ rsps s w', serve_all (omap route_of reqs) Admin_new w = (Ok (rsps, s), w') ∧
    length rsps = length (omap route_of reqs) ∧
    (ad_scheduler_cancelled s = true ↔ ∃ body, (GET, ["deactivate"], body) ∈ reqs).
Proof.
  split.
  - intros method path body s w. destruct (router method path body) as [route|] eqn:E.
    + by apply serve_handled, router_routed.
    + intros rsp s' w' (route & Hr)%handled_routed. congruence.
  - intros reqs w. destruct (serve_all_state (omap route_of reqs) false w) as (rsps & w' & Hall & Hlen).
    eexists rsps, _, w'. split; [exact Hall|]. split; [done|]. apply deactivations.
Qed.
End properties.
