(* ===== verification/Runtime.v ===== *)
(** * The runtime's API (runtime/mod.rs)

    The builder and its registrations, the type-erased handlers, and the
    operations of [Dbos].  [launch] is in [Launch], [read_stream_async] in
    [LiveStream]. *)
From S2P Require Import Prelude Errors Json Serialize Database World Status Steps Streams QueueDb.
From S2P Require Import Management Context Workflow Recovery QueueRunner.

Local Open Scope string_scope.
Local Open Scope Z_scope.
Local Open Scope list_scope.
Local Open Scope dbos_scope.

(** ** Registration *)

Definition DEFAULT_MAX_RECOVERY_ATTEMPTS : Z := 100.

Record RegistrationOptions := mkRegistration { ro_max_retries : Z }.
Definition RegistrationOptions_default : RegistrationOptions :=
  mkRegistration DEFAULT_MAX_RECOVERY_ATTEMPTS.

(** The configuration is left out; [b_queues] and [b_registry] are the
    builder's maps. *)
Record DbosBuilder := mkBuilder {
  b_registry : Registry;
  b_queues : gmap string WorkflowQueue;
  b_schedules : list (string * string);
  b_registration_error : option DbosError;
}.

Definition DbosBuilder_new : DbosBuilder := mkBuilder ∅ ∅ [] None.

(** The first registration error is kept. *)
Definition registration_conflict (b : DbosBuilder) (name : string) : DbosBuilder :=
  mkBuilder (b_registry b) (b_queues b) (b_schedules b)
    (Some (default (conflicting_registration name) (b_registration_error b))).

Definition register_queue (b : DbosBuilder) (queue : WorkflowQueue) : DbosBuilder :=
  match b_queues b !! wq_name queue with
  | Some _ => registration_conflict b (wq_name queue)
  | None => mkBuilder (b_registry b) (<[wq_name queue := queue]> (b_queues b)) (b_schedules b)
              (b_registration_error b)
  end.

Section handlers.
Context `{SerdeJson, Base64Engine}.

(** The erased handler of a typed workflow function. *)
Definition erase {P R : Type} `{Deserialize P, Serialize R} (f : WorkflowContext → P → M R)
    (ctx : WorkflowContext) (input : option string) (fmt : Format) : M string :=
  p ← lift (decode_input P input (Some (format_name fmt)));
  r ← f ctx p;
  lift (encode_value r fmt).

Definition register_workflow_with_options {P R : Type} `{Deserialize P, Serialize R}
    (b : DbosBuilder) (name : string) (opts : RegistrationOptions) (f : WorkflowContext → P → M R) : DbosBuilder :=
  match b_registry b !! name with
  | Some _ => registration_conflict b name
  | None =>
      mkBuilder (<[name := mkEntry (erase f) (ro_max_retries opts) name None None]> (b_registry b))
        (b_queues b) (b_schedules b) (b_registration_error b)
  end.

Definition register_workflow {P R : Type} `{Deserialize P, Serialize R}
    (b : DbosBuilder) (name : string) (f : WorkflowContext → P → M R) : DbosBuilder :=
  register_workflow_with_options b name RegistrationOptions_default f.

(** [P] is [ScheduledWorkflowInput] here. *)
Definition register_scheduled {P : Type} `{Deserialize P} (b : DbosBuilder) (name cron : string)
    (f : WorkflowContext → P → M unit) : DbosBuilder :=
  register_workflow
    (mkBuilder (b_registry b) (b_queues b) (b_schedules b ++ [(name, cron)]) (b_registration_error b))
    name f.
End handlers.

(** ** The operations of [Dbos] *)

Section dbos.
Context `{Env, SerdeJson, Base64Engine, PgScan}.

Context (inner : DbosInner).

Definition run_workflow {P : Type} `{Serialize P} (name : string) (input : P)
    (opts : WorkflowOptions) : M WorkflowHandle :=
  encoded ← lift (encode_input input Portable);
  start_workflow inner name (Some encoded) opts None Portable false.

Definition enqueue {P : Type} `{Serialize P} (queue_name workflow_name : string) (input : P)
    (opts : EnqueueOptions) : M WorkflowHandle :=
  encoded ← lift (encode_input input Portable);
  enqueue_workflow inner queue_name workflow_name (Some encoded) opts.

Definition retrieve_workflow (id : string) : WorkflowHandle := polling_from_inner id.

Definition dbos_list_workflows (filter : ListWorkflowsFilter) : M (list WorkflowStatus) :=
  list_workflows filter.

Definition dbos_list_workflow_steps (id : string) : M (list StepInfo) := get_workflow_steps id.

Definition recover_workflows (executor_ids : list string) : M (list string) :=
  recover_pending_workflows inner executor_ids.

Definition recover_own_workflows : M (list string) :=
  recover_pending_workflows inner [executor_id inner].

Definition cancel_workflow (id : string) : M unit :=
  found ← cancel_workflows [id];
  if bool_decide (found = []) then raise (non_existent_workflow id) else mret tt.

Definition dbos_cancel_workflows (ids : list string) : M (list string) := cancel_workflows ids.

Definition resume_workflow (id : string) : M WorkflowHandle :=
  found ← resume_workflows [id] INTERNAL_QUEUE_NAME;
  if bool_decide (found = []) then raise (non_existent_workflow id)
  else mret (retrieve_workflow id).

Definition dbos_fork_workflow (input : ForkWorkflowInput) : M WorkflowHandle :=
  new_id ← fork_workflow input;
  mret (retrieve_workflow new_id).

Definition dbos_garbage_collect (cutoff_epoch_ms rows_threshold : option Z) : M unit :=
  garbage_collect cutoff_epoch_ms rows_threshold.

(** The registered waiter only ends the reader's waits early. *)
Definition read_stream_from (fuel : nat) (T : Type) `{Deserialize T} (workflow_id key : string)
    (from_offset : Z) (snapshot : bool) : M (option (list T * bool)) :=
  read_stream_blocking T fuel workflow_id key from_offset snapshot.

Definition read_stream (fuel : nat) (T : Type) `{Deserialize T} (workflow_id key : string)
    : M (option (list T * bool)) :=
  read_stream_from fuel T workflow_id key 0 false.

(** A snapshot takes one turn of the reader. *)
Definition read_stream_snapshot (T : Type) `{Deserialize T} (workflow_id key : string)
    (from_offset : Z) : M (option (list T * bool)) :=
  read_stream_from 1 T workflow_id key from_offset true.
End dbos.

(** ** Properties *)

(** A name is registered once.  The first function under a name stays, a
    second registration changes nothing but the recorded error, which is that
    of the first conflict. *)
Theorem registered_once `{HJ : SerdeJson, HB : Base64Engine}
    {P R P' R'} `{Deserialize P, Serialize R, Deserialize P', Serialize R'}
    b name mr mr' (f : WorkflowContext → P → M R) (g : WorkflowContext → P' → M R') :
  let b1 := register_workflow_with_options b name mr f in
  let b2 := register_workflow_with_options b1 name mr' g in
  is_Some (b_registry b1 !! name) ∧
  (b_registry b !! name = None → b_registry b1 !! name = Some (mkEntry (erase f) (ro_max_retries mr) name None None)) ∧
  b_registry b2 = b_registry b1 ∧ b_queues b2 = b_queues b1 ∧ b_schedules b2 = b_schedules b1 ∧
  ∃ e, b_registration_error b2 = Some e ∧
    (b_registration_error b1 = None → e = conflicting_registration name) ∧
    (∀ e1, b_registration_error b1 = Some e1 → e = e1).
Proof.
  intros b1 b2. assert (is_Some (b_registry b1 !! name)) as [entry He].
  { unfold b1, register_workflow_with_options. destruct (b_registry b !! name) as [entry|] eqn:E;
      [by exists entry|]. eexists. apply lookup_insert_eq. }
  assert (b2 = registration_conflict b1 name) as ->.
  { unfold b2, register_workflow_with_options at 1. by rewrite He. }
  split; [by exists entry|]. split.
  { intros Hn. unfold b1, register_workflow_with_options. rewrite Hn. apply lookup_insert_eq. }
  split_and!; [done..|]. eexists. split; [done|]. split; [by intros -> | by intros e1 ->].
Qed.

(** A snapshot never waits, and changes nothing. *)
Lemma read_stream_snapshot_returns `{HE : Env, HJ : SerdeJson, HB : Base64Engine} T `{Deserialize T}
    id key from w :
  ∃ r, read_stream_snapshot T id key from w = (r, w) ∧ r ≠ Ok None.
Proof.
  unfold read_stream_snapshot, read_stream_from, read_stream_blocking. simpl.
  unfold read_stream_turn, read_stream_entries. run_M. destruct (until_sentinel _) as [es closed]. simpl.
  destruct (decode_entries T es from []) as [st|e]; simpl; [|by exists (Err e)].
  by destruct closed; eexists.
Qed.

Section end_to_end.
Context `{HE : Env, HJ : SerdeJson, !SerdeJsonLaws HJ, HB : Base64Engine, !Base64Laws HB}.
Context (inner : DbosInner) {P R : Type} `{Serialize P, Deserialize P, Serialize R, Deserialize R}.

(** The erased handler passes on the stored input, and stores the result. *)
Lemma erase_run (f : WorkflowContext → P → M R) ctx x enc w res w' :
  decode_input P (Some enc) (Some (format_name Portable)) = Ok x → f ctx x w = (res, w') →
  erase f ctx (Some enc) Portable w = (r ← res; encode_value r Portable, w').
Proof.
  intros Hd Hf. unfold erase. eapply run_bind; [unfold lift; by rewrite Hd|].
  unfold mbind, M_bind. rewrite Hf. by destruct res.
Qed.

Lemma encode_input_stored (x : P) :
  serde_faithful 125 x →
  ∃ enc, encode_input x Portable = Ok enc ∧ decode_input P (Some enc) (Some (format_name Portable)) = Ok x.
Proof. apply (input_stored x Portable). Qed.

(** C6: a workflow returns what its function returns.  Running a registered
    function under a new id spawns one body; whenever that body runs, the
    function gets exactly the caller's input, and if it returns a value, both
    the caller's handle and any other handle on the id give exactly that
    value; if it fails, the caller gets its error, and other handles an error
    with its text. *)
Theorem run_workflow_returns name mr (f : WorkflowContext → P → M R) (x : P) opts w id :
  registry inner !! name = Some (mkEntry (erase f) mr name None None) →
  wo_workflow_id opts = Some id → workflow_status (w_db w) !! id = None →
  mr < 2 ^ 63 - 1 → serde_faithful 125 x →
  ∃ ch t w1, run_workflow inner name x opts w = (Ok (mkHandle id (Owned ch)), w1) ∧
    w_tasks w1 = w_tasks w ++ [t] ∧
    let ctx := mkContext (mkState id (t_state t) (t_auth t)) false in
    ∀ w2 res w3 row,
      f ctx x w2 = (res, w3) → workflow_status (w_db w3) !! id = Some row →
      wf_serialization row = Some PORTABLE_NAME → wf_status row ≠ status_str Cancelled →
      ch ∉ w_taken w3 → (∀ y, res = Ok y → serde_faithful 127 y) →
      ∃ w4, run_task inner t w2 = (Ok tt, w4) ∧
        let owned := fst (get_result 1 R (mkHandle id (Owned ch)) w4) in
        let polled := fst (get_result 1 R (mkHandle id Polling) w4) in
        match res with
        | Ok y => owned = Ok (Some y) ∧ polled = Ok (Some y)
        | Err e => owned = Err e ∧ polled = Err (other (error_to_string e))
        end.
Proof.
  intros He Hid Hn Hmr Hx. destruct (encode_input_stored x Hx) as (enc & Henc & Hdec).
  destruct (start_fresh_run inner name (Some enc) opts Portable w _ id He Hid Hn Hmr)
    as (w1 & Hrun & Hd & Ht & Hc). set (ch := fresh (channels_of w)) in *.
  set (t := fresh_task _ _ _ _ _ _ _ _) in *. exists ch, t, w1.
  split; [unfold run_workflow; eapply run_bind; [unfold lift; by rewrite Henc | exact Hrun]|].
  split; [done|]. intros ctx w2 res w3 row Hf Hrow Hser Hcan Hch Hres.
  pose proof (erase_run f ctx x enc w2 res w3 Hdec Hf) as Her.
  destruct (task_results inner 0 R t ch _ _ w2 w3 row He eq_refl eq_refl Her Hrow Hser)
    as (w4 & Htask & _ & Hown & Hpoll). exists w4. split; [exact Htask|]. cbv zeta.
  change (t_workflow_id t) with id in *. rewrite (Hown Hch), Hpoll, bool_decide_eq_false_2 by done.
  destruct res as [y|e]; [|done].
  destruct (encode_stored y Portable (Hres y eq_refl)) as (out & Hout & Hst). simpl. rewrite Hout. simpl.
  unfold stored_as in Hst. simpl in Hst. by rewrite Hst.
Qed.
End end_to_end.
