(* ===== verification/Durability.v ===== *)
(** * Workflows survive crashes

    The start, the body, its replay and the recovery put together: the
    history of one workflow, however often its executor crashes and recovers
    it, and what every recovery then does with it. *)
From S2P Require Import Prelude Errors Json Serialize Database World Status Steps Context Replay.
From S2P Require Import Workflow ReplayChild Program Recovery Runtime.

Local Open Scope string_scope.
Local Open Scope Z_scope.
Local Open Scope list_scope.
Local Open Scope dbos_scope.

(** The executions of a workflow's body. *)
Definition execution_of (id : string) : executions := λ k ctx,
  workflow_id ctx = id ∧ st_step_id (ctx_state ctx) = k ∧ ctx_within_step ctx = false.

(** The same row and the same recorded operations. *)
Definition same_workflow `{Env} (id : string) (w w' : World) : Prop :=
  workflow_status (w_db w') !! id = workflow_status (w_db w) !! id ∧ ∀ fid, ops id w' fid = ops id w fid.

#[export] Instance same_workflow_trans `{Env} id : Transitive (same_workflow id).
Proof. intros w1 w2 w3 [Hr1 Ho1] [Hr2 Ho2]. split; [congruence|]. intros. by rewrite Ho2. Qed.

(** A crash loses the process, not the tables. *)
Lemma same_workflow_crash `{Env} id w : same_workflow id w (initial_world (w_db w)).
Proof. by split. Qed.

(** ** The progress of a body *)

Section progress.
Context `{HE : Env, HJ : SerdeJson, !SerdeJsonLaws HJ, HB : Base64Engine, !Base64Laws HB, HS : PgScan}.
Context (id : string) (Hsw : single_writer id) {R : Type} (p : prog R).
Context (Hp : same_prog id (execution_of id) (execution_of id) p p).

(** The first [n] operations of [p] are recorded, no other one is, and
    whoever runs [p] again gets over them to [q]. *)
Record progress (n : Z) (q : prog R) (w : World) : Prop := {
  progress_nonneg : 0 ≤ n;
  progress_recorded : recorded id (-1) n w;
  progress_clear : clear_after id (-1 + n) q w;
  progress_replays k ctx : execution_of id k ctx →
    replaying id k ctx (execution_of id) (execution_of id) w q (-1) n p;
}.

Lemma progress_none w : (∀ fid, ops id w fid = None) → progress 0 p w.
Proof.
  intros Hn. split; [done| | |].
  - intros fid ?. lia.
  - intros fid _ Hs. rewrite Hn in Hs. by destruct Hs.
  - intros k ctx (Hid & Hk & Hw). by apply replaying_here.
Qed.

Lemma progress_same n q w w' : (∀ fid, ops id w' fid = ops id w fid) → progress n q w → progress n q w'.
Proof.
  intros Ho [Hn Hrec Hcl Hres]. split; [done| | |].
  - intros fid Hfid. rewrite Ho. by apply Hrec.
  - intros fid Hfid. rewrite Ho. by apply Hcl.
  - intros k ctx Hx. by eapply replaying_same; [by apply Hres|].
Qed.

(** An execution of the body, from its start to wherever it was stopped and
    whatever else happened meanwhile, keeps what was recorded and may get
    further. *)
Lemma progress_trace n q w k ctx out w' total :
  progress n q w → execution_of id k ctx → restart id k (-1) w →
  trace id k ctx p w out w' total → recorded id (-1) total w' → total + 1 < 2 ^ 31 →
  ∃ n' q', n ≤ n' ∧ progress n' q' w'.
Proof.
  intros Hpr Hx Hw0 Ht Htotal Hlt. pose proof Hpr as [Hn Hrec Hcl Hrep].
  destruct (replaying_trace id k Hsw ctx _ _ w q p (-1) n w out w' total (Hrep k ctx Hx) Ht Hw0)
    as [Hsame|(q1 & w2 & m2 & Hq1 & [Hc2 Hl2] & Ho2 & Ht2 & ->)]; [done| |].
  { exists n, q. split; [done|]. by eapply progress_same. }
  pose proof (trace_nonneg _ _ _ _ _ _ _ _ Ht2) as Hm2.
  assert (∀ k' ctx' q2, execution_of id k' ctx' →
    same_prog id (execution_of id) (execution_of id) q1 q2 →
    (∀ fid, fid ≤ -1 + n → ops id w' fid = ops id w2 fid) ∧ clear_after id (-1 + n + m2) out w' ∧
    (recorded id (-1 + n) m2 w' →
     replaying id k' ctx' (execution_of id) (execution_of id) w' out (-1 + n) m2 q2)) as Hgo.
  { intros k' ctx' q2 (Hid' & Hk' & Hw') Hs. destruct Hx as (Hid & Hk & Hw).
    apply (trace_replaying id k k' Hsw ctx ctx' Hid Hid' Hk Hk' Hw Hw' _ _ (conj Hid (conj Hk Hw)) q1 q2 out w2);
      [done|done|done|lia| |lia].
    intros fid Hfid Hsome. rewrite Ho2 in Hsome. destruct (Hcl fid Hfid Hsome) as [-> Haw].
    split; [done|]. by eapply same_prog_awaits. }
  destruct (Hgo k ctx q1 Hx (same_prog_eucl id _ _ _ _ _ _ Hq1 Hq1)) as (Hlow & Hclear & _).
  exists (n + m2), out. split; [lia|]. split; [lia|done|by rewrite Z.add_assoc|].
  intros k' ctx' Hx'. eapply replaying_trans.
  - eapply replaying_same; [by apply Hrep|]. intros fid Hfid. rewrite Hlow by lia. apply Ho2.
  - intros p2 Hp2. apply Hgo; [done|by eapply same_prog_eucl|]. intros fid Hfid. apply Htotal. lia.
Qed.
End progress.

(** ** The result of a body *)

Section result.
Context `{HE : Env, HJ : SerdeJson, !SerdeJsonLaws HJ, HB : Base64Engine, !Base64Laws HB, HS : PgScan}.
Context (inner : DbosInner) {P R : Type} `{Serialize P, Deserialize P, Serialize R, Deserialize R}.
Context (name : string) (mr : Z) (f : WorkflowContext → P → M R) (p : P → prog R) (x : P).
Context (Hname : registry inner !! name = Some (mkEntry (erase f) mr name None None)).

(** The function [f] performs the operations of [p]. *)
Definition performs : Prop := ∀ fuel budget ctx w r w',
  run_prog fuel budget (p x) ctx w = (Ok (inr r), w') → f ctx x w = (r, w').

(** A task that holds the input [x] for [name]. *)
Record runs_body (id : string) (t : task) : Prop := {
  rb_id : t_workflow_id t = id;
  rb_name : t_name t = name;
  rb_input : ∃ enc, t_input t = Some enc ∧ encode_input x Portable = Ok enc;
  rb_format : t_format t = Portable;
}.

Definition context_of (t : task) : WorkflowContext :=
  mkContext (mkState (t_workflow_id t) (t_state t) (t_auth t)) false.

Lemma context_execution id t : runs_body id t → execution_of id (t_state t) (context_of t).
Proof. by intros [Hid _ _ _]. Qed.

(** What everyone is told who asks for the result. *)
Definition reported (r : Result R) : Result (option R) :=
  match r with Ok y => Ok (Some y) | Err e => Err (other (error_to_string e)) end.

Lemma body_result id t fuel budget r w w' row :
  performs → serde_faithful 125 x → runs_body id t →
  run_prog fuel budget (p x) (context_of t) w = (Ok (inr r), w') →
  workflow_status (w_db w') !! id = Some row → wf_status row ≠ status_str Cancelled →
  wf_serialization row = Some PORTABLE_NAME → (∀ y, r = Ok y → serde_faithful 127 y) →
  ∃ w2, run_task inner t w = (Ok tt, w2) ∧ fst (get_result 1 R (mkHandle id Polling) w2) = reported r.
Proof.
  intros Hperf Hx [Hid Hn (enc & Hin & Henc) Hf] Hbody%Hperf Hrow Hs Hser Hfaith.
  destruct (encode_input_stored x Hx) as (enc' & Henc' & Hdec). rewrite Henc in Henc'. injection Henc' as <-.
  pose proof (erase_run f (context_of t) x enc w r w' Hdec Hbody) as Her.
  destruct (task_polled inner 0 R t (mkEntry (erase f) mr name None None) (y ← r; encode_value y Portable)
    w w' row) as (w2 & Htask & Hpoll); [by rewrite Hn|done|by rewrite Hin, Hf|by rewrite Hid|done|].
  exists w2. split; [done|]. rewrite Hid in Hpoll. rewrite Hpoll, bool_decide_eq_false_2 by done.
  destruct r as [y|e]; [|done]. destruct (encode_stored y Portable (Hfaith y eq_refl)) as (out & Hout & Hst).
  simpl. rewrite Hout. simpl. unfold stored_as in Hst. simpl in Hst. by rewrite Hst.
Qed.

(** From [w1] on, whenever the task [t] starts its body: undisturbed, it gets
    over [n] recorded operations, to [q], without performing any of them again
    and without writing anything; with anything else happening between its
    operations, it is stopped before it has recorded anything or gets to [q]
    over the same records; and when it finishes, everyone who asks gets its
    result. *)
Definition picks_up (id : string) (t : task) (n : Z) (q : prog R) (w1 : World) : Prop :=
  ∀ w2, same_workflow id w1 w2 → w_counters w2 !! t_state t = Some (-1) →
    (∀ fuel, ∃ j q' w3, same_prog id (execution_of id) (execution_of id) q q' ∧
       restart id (t_state t) (-1 + n) w3 ∧ idle (w_db w2) (w_db w3) ∧
       catches_up (context_of t) fuel j n (p x) q' w2 w3) ∧
    (∀ out w4 m, trace id (t_state t) (context_of t) (p x) w2 out w4 m →
       (∀ fid, ops id w4 fid = ops id w2 fid) ∨
       ∃ q' w3 m', same_prog id (execution_of id) (execution_of id) q q' ∧
         restart id (t_state t) (-1 + n) w3 ∧ (∀ fid, ops id w3 fid = ops id w2 fid) ∧
         trace id (t_state t) (context_of t) q' w3 out w4 m' ∧ m = n + m') ∧
    ∀ fuel budget r w4, run_prog fuel budget (p x) (context_of t) w2 = (Ok (inr r), w4) →
      workflow_status (w_db w4) !! id = workflow_status (w_db w2) !! id →
      (∀ y, r = Ok y → serde_faithful 127 y) →
      ∃ w5, run_task inner t w2 = (Ok tt, w5) ∧ fst (get_result 1 R (mkHandle id Polling) w5) = reported r.

Lemma progress_picks_up id t n q w w1 row :
  single_writer id → performs → serde_faithful 125 x → runs_body id t → progress id (p x) n q w →
  (∀ fid, ops id w1 fid = ops id w fid) → workflow_status (w_db w1) !! id = Some row →
  wf_status row ≠ status_str Cancelled → wf_serialization row = Some PORTABLE_NAME → picks_up id t n q w1.
Proof.
  intros Hsw Hperf Hx Hbody Hpr Ho Hr Hs Hser w2 [Hrow2 Hops2] Hk. rewrite Hr in Hrow2.
  pose proof (progress_replays _ _ _ _ _ Hpr _ _ (context_execution _ _ Hbody)) as Hrep.
  assert (restart id (t_state t) (-1) w2) as Hw2 by (split; [done|by exists row]).
  assert (∀ fid, ops id w2 fid = ops id w fid) as Hops by (intros fid; by rewrite Hops2).
  split; [|split].
  - intros fuel. by apply (replaying_resumes id _ Hsw _ _ _ _ _ _ _ _ Hrep fuel w2).
  - intros out w4 m Ht. by eapply (replaying_trace id _ Hsw).
  - intros fuel budget r w4 Hrun4 Hrow4 Hfaith. rewrite Hrow2 in Hrow4. by eapply body_result.
Qed.
End result.

(** ** The history of a workflow *)

Section history.
Context `{HE : Env, HJ : SerdeJson, !SerdeJsonLaws HJ, HB : Base64Engine, !Base64Laws HB}.
Context `{HS : PgScan, !PgScanLaws HS} (inner : DbosInner).
Context {P R : Type} `{Serialize P, Deserialize P, Serialize R, Deserialize R}.
Context (name : string) (mr : Z) (f : WorkflowContext → P → M R) (p : P → prog R) (x : P).
Context (Hname : registry inner !! name = Some (mkEntry (erase f) mr name None None)).
Context (id : string) (opts : WorkflowOptions) (Hsw : single_writer id).

(** The row while the body has not finished, on attempt [a]. *)
Record unfinished (enc : string) (a : Z) (r : wf_row) : Prop := {
  un_status : wf_status r = status_str Pending;
  un_name : wf_name r = name;
  un_inputs : wf_inputs r = Some enc;
  un_serialization : wf_serialization r = Some PORTABLE_NAME;
  un_queue : wf_queue_name r = None;
  un_executor : wf_executor_id r = Some (executor_id inner);
  un_version : wf_application_version r = Some (application_version inner);
  un_attempts : wf_recovery_attempts r = a;
}.

(** The worlds seen by the executor from the start of the workflow on, before
    its body has been seen to its end: after running the body up to any
    operation, among whatever else the process does, after a crash, after
    whatever else happens that leaves its row and its recorded operations
    alone, after a recovery.  The counter is the number of attempts. *)
Inductive history : Z → World → Prop :=
  | began w w' h :
      workflow_status (w_db w) !! id = None → (∀ fid, ops id w fid = None) →
      run_workflow inner name x opts w = (Ok h, w') → history 1 w'
  | elsewhere a w w' : history a w → same_workflow id w w' → history a w'
  | ran a w k auth out w' total :
      history a w → w_counters w !! k = Some (-1) →
      trace id k (mkContext (mkState id k auth) false) (p x) w out w' total →
      recorded id (-1) total w' → total + 1 < 2 ^ 31 →
      workflow_status (w_db w') !! id = workflow_status (w_db w) !! id → history a w'
  | recovered a w ids w' :
      history a w → exceeds_attempts (status_str Pending) (a + 1) mr = false →
      recover_pending_workflows inner [executor_id inner] w = (Ok ids, w') → history (a + 1) w'.

(** What a recovery does to it. *)
Lemma unfinished_recoverable enc a r :
  unfinished enc a r → recoverable [executor_id inner] (application_version inner) r = true.
Proof.
  intros [Hs _ _ _ _ Hx Hv _]. unfold recoverable, sql_any, sql_eq. rewrite Hs, Hx, Hv. simpl.
  by rewrite !bool_decide_eq_true_2 by (done || set_solver).
Qed.

Lemma recover_unfinished enc a r w :
  workflow_status (w_db w) !! id = Some r → unfinished enc a r →
  exceeds_attempts (status_str Pending) (a + 1) mr = false →
  ∃ ids new t ch w' r', recover_pending_workflows inner [executor_id inner] w = (Ok ids, w') ∧
    w_tasks w' = w_tasks w ++ new ∧ tasks_of id new = [t] ∧ id ∈ ids ∧
    t_workflow_id t = id ∧ t_name t = name ∧ t_input t = Some enc ∧ t_format t = Portable ∧
    t_origin t = Started ch ∧ w_counters w' !! t_state t = Some (-1) ∧
    (∀ fid, ops id w' fid = ops id w fid) ∧
    workflow_status (w_db w') !! id = Some r' ∧ unfinished enc (a + 1) r'.
Proof.
  intros Hr Hun Hdlq. pose proof (unfinished_recoverable _ _ _ Hun) as Hrec.
  destruct (recover_pending_row inner _ w id r Hr Hrec) as (ids & new & w' & r' & Hrun & Ht & Hc & Hd & Hr' & Hrr).
  destruct Hun as [Hs Hn Hi Hser Hq Hx Hv Ha].
  remember (tasks_of id new) as ts eqn:Hts. remember (bool_decide (id ∈ ids)) as again eqn:Hagain.
  destruct Hrr as [q Hq'|Hq' He|entry r' _ He Hex|entry r' t ch _ He Hex Hsame Hs' Hq' Ha' Hx' Hid' Hn' Hi' Hf' _ Ho'].
  - congruence.
  - congruence.
  - rewrite Hn, Hname in He. injection He as <-. rewrite Hs, Ha in Hex. cbn [re_max_retries] in Hex. congruence.
  - exists ids, new, t, ch, w', r'. split_and!; [done..| |done|congruence|congruence| |done| | |done|].
    + by eapply bool_decide_eq_true.
    + by rewrite Hf', Hser.
    + apply Hc. apply (list_elem_of_filter (λ t, t_workflow_id t = id) new). fold (tasks_of id new). rewrite <- Hts. left.
    + intros fid. unfold ops. by rewrite Hd.
    + destruct r, r'. injection Hsame. simpl in *. intros. split; simpl; congruence.
Qed.

(** The start of it. *)
Lemma began_unfinished enc w w' h :
  wo_workflow_id opts = Some id → wo_application_version opts = None → mr < 2 ^ 63 - 1 →
  encode_input x Portable = Ok enc → workflow_status (w_db w) !! id = None →
  run_workflow inner name x opts w = (Ok h, w') →
  (∃ r, workflow_status (w_db w') !! id = Some r ∧ unfinished enc 1 r) ∧ ∀ fid, ops id w' fid = ops id w fid.
Proof.
  intros Hid Hver Hmr Henc Hn Hrun.
  destruct (start_fresh_run inner name (Some enc) opts Portable w _ id Hname Hid Hn Hmr)
    as (w1 & Hrun1 & Hd & _). unfold run_workflow in Hrun. rewrite Henc in Hrun.
  unfold mbind, M_bind, lift in Hrun. rewrite Hrun1 in Hrun. injection Hrun as _ <-.
  split; [|intros fid; unfold ops; by rewrite Hd].
  eexists. rewrite Hd. split; [apply lookup_insert_eq|]. split; try done.
  simpl. by rewrite Hver.
Qed.

Section state.
Context (enc : string) (Hid : wo_workflow_id opts = Some id) (Hver : wo_application_version opts = None).
Context (Hmr : mr < 2 ^ 63 - 1) (Henc : encode_input x Portable = Ok enc).
Context (Hdet : same_prog id (execution_of id) (execution_of id) (p x) (p x)).

Lemma unfinished_live a r w : workflow_status (w_db w) !! id = Some r → unfinished enc a r → live id (w_db w).
Proof. intros Hr Hun. exists r. split; [done|]. by rewrite (un_status _ _ _ Hun). Qed.

(** All along the row says what is to be run, and the records are those of
    the body's first operations. *)
Lemma history_state a w : history a w →
  (∃ r, workflow_status (w_db w) !! id = Some r ∧ unfinished enc a r) ∧ ∃ n q, progress id (p x) n q w.
Proof.
  induction 1 as [w w' h Hn Hops Hrun|a w w' _ IH [Hrow Hops]|a w k auth out w' total _ IH Hk Ht Htot Hlt Hrow
    |a w ids w' _ IH Hdlq Hrun].
  - destruct (began_unfinished enc w w' h) as [Hr Ho]; [done..|]. split; [done|].
    exists 0, (p x). apply progress_none; [done|]. intros fid. by rewrite Ho.
  - rewrite Hrow. destruct IH as (Hr & n & q & Hpr). split; [done|]. exists n, q. by eapply progress_same.
  - rewrite Hrow. destruct IH as ((r & Hr & Hun) & n & q & Hpr). split; [eauto|].
    destruct (progress_trace id Hsw (p x) n q w k (mkContext (mkState id k auth) false) out w' total Hpr)
      as (n' & q' & _ & Hpr');
      [by split_and!|split; [done|by eapply unfinished_live]|done..|eauto].
  - destruct IH as ((r & Hr & Hun) & n & q & Hpr).
    destruct (recover_unfinished enc a r w Hr Hun Hdlq)
      as (ids1 & new & t & ch & w1 & r' & Hrun1 & _ & _ & _ & _ & _ & _ & _ & _ & _ & Ho & Hr' & Hun').
    rewrite Hrun in Hrun1. injection Hrun1 as -> ->. split; [eauto|]. exists n, q. by eapply progress_same.
Qed.
End state.

(** C3: workflows survive crashes.  A workflow has been started, run, with
    anything else the process does between its operations, crashed and
    recovered any number of times within its attempts limit, at any of its
    operations.  The next recovery by its executor always succeeds and starts
    its body exactly once.  Whenever that body runs, it first gets over
    exactly the operations recorded so far, without performing any of them
    again and without writing anything, also with other things happening in
    between, and goes on with the first one that is not recorded; and when it
    finishes, the workflow has its result:
    everyone who asks for it gets the value the function returned, or an
    error with the text of its error. *)
Theorem workflow_survives_crashes a w :
  performs f p x → same_prog id (execution_of id) (execution_of id) (p x) (p x) →
  wo_workflow_id opts = Some id → wo_application_version opts = None → mr < 2 ^ 63 - 1 →
  serde_faithful 125 x → history a w → exceeds_attempts (status_str Pending) (a + 1) mr = false →
  ∃ ids new t w1 n q, recover_pending_workflows inner [executor_id inner] w = (Ok ids, w1) ∧
    w_tasks w1 = w_tasks w ++ new ∧ tasks_of id new = [t] ∧ runs_body name x id t ∧
    w_counters w1 !! t_state t = Some (-1) ∧ recorded id (-1) n w ∧ clear_after id (-1 + n) q w ∧
    picks_up inner p x id t n q w1.
Proof.
  intros Hperf Hdet Hid Hver Hmr Hx Hhist Hdlq.
  destruct (encode_input_stored x Hx) as (enc & Henc & Hdec).
  destruct (history_state enc Hid Hver Hmr Henc Hdet a w Hhist) as ((r & Hr & Hun) & n & q & Hpr).
  destruct (recover_unfinished enc a r w Hr Hun Hdlq)
    as (ids & new & t & ch & w1 & r' & Hrun & Ht & Hnew & _ & Htid & Htn & Hti & Htf & Hto & Hc & Ho & Hr' & Hun').
  assert (runs_body name x id t) as Hbody by (split; eauto).
  exists ids, new, t, w1, n, q. split_and!; [done..|apply Hpr|apply Hpr|].
  eapply progress_picks_up; [done..| |by apply (un_serialization _ _ _ Hun')].
  by rewrite (un_status _ _ _ Hun').
Qed.
End history.
