(* ===== verification/QueueDurability.v ===== *)
(** * Queued workflows survive crashes

    The same for a workflow that was enqueued: a turn of its queue's runner
    claims and dispatches it, a recovery puts it back on its queue. *)
From S2P Require Import Prelude Errors Json Serialize Database World Status Steps QueueDb Context Replay.
From S2P Require Import Workflow ReplayChild Program Recovery QueueRunner Runtime Durability.

Local Open Scope string_scope.
Local Open Scope Z_scope.
Local Open Scope list_scope.
Local Open Scope dbos_scope.

(** ** The bodies of a turn, by workflow *)

Section tasks.
Context `{HE : Env, HJ : SerdeJson, HB : Base64Engine} (inner : DbosInner) (key : string * string).

Lemma dispatched_none wfs ts id :
  Forall2 (dispatched key) wfs ts → id ∉ dw_id <$> wfs → tasks_of id ts = [].
Proof.
  induction 1 as [|wf t wfs ts Ht _ IH]; [done|]. rewrite fmap_cons, not_elem_of_cons. intros [Hne Hn].
  unfold tasks_of in *. rewrite filter_cons, decide_False; [by apply IH|].
  destruct Ht as (-> & _). auto.
Qed.

Lemma dispatched_one wfs ts wf :
  Forall2 (dispatched key) wfs ts → NoDup (dw_id <$> wfs) → wf ∈ wfs →
  ∃ t, tasks_of (dw_id wf) ts = [t] ∧ dispatched key wf t.
Proof.
  induction 1 as [|wf' t wfs ts Ht Hall IH]; [intros _ Hin; by apply not_elem_of_nil in Hin|].
  rewrite fmap_cons. intros [Hn Hnd]%NoDup_cons [->|Hin]%elem_of_cons.
  - exists t. split; [|done]. pose proof Ht as (Hid & _). unfold tasks_of.
    rewrite filter_cons, decide_True by done. f_equal. by apply (dispatched_none wfs).
  - destruct (IH Hnd Hin) as (t' & Htasks & Ht'). exists t'. split; [|done].
    unfold tasks_of in *. rewrite filter_cons, decide_False; [done|].
    destruct Ht as (-> & _). intros E. apply Hn. rewrite E. by apply list_elem_of_fmap_2.
Qed.
End tasks.

Lemma filter_nodup_ids inner wfs :
  NoDup (dw_id <$> wfs) → NoDup (dw_id <$> filter (known inner) wfs).
Proof. intros Hnd. eapply sublist_NoDup; [exact Hnd|]. apply fmap_sublist, sublist_filter. Qed.

Section queued.
Context `{HE : Env, HJ : SerdeJson, !SerdeJsonLaws HJ, HB : Base64Engine, !Base64Laws HB}.
Context `{HS : PgScan, !PgScanLaws HS, HL : RowLocks} (inner : DbosInner).
Context {P R : Type} `{Serialize P, Deserialize P, Serialize R, Deserialize R}.
Context (name : string) (mr : Z) (f : WorkflowContext → P → M R) (p : P → prog R) (x : P).
Context (Hname : registry inner !! name = Some (mkEntry (erase f) mr name None None)).
Context (id : string) (queue : WorkflowQueue) (opts : EnqueueOptions) (Hsw : single_writer id).

(** The row while the body has not finished: waiting in the queue, or
    claimed. *)
Record queued (enc : string) (claimed : bool) (r : wf_row) : Prop := {
  qd_status : wf_status r = status_str (if claimed then Pending else Enqueued);
  qd_name : wf_name r = name;
  qd_inputs : wf_inputs r = Some enc;
  qd_serialization : wf_serialization r = Some PORTABLE_NAME;
  qd_queue : wf_queue_name r = Some (wq_name queue);
  qd_executor : wf_executor_id r = Some (executor_id inner);
  qd_version : wf_application_version r = Some (application_version inner);
}.

(** The worlds seen by the executor from the enqueueing on, before the body
    has been seen to its end: after a turn of the runner, after running the
    body up to any operation, among whatever else the process does, after a
    crash or whatever else leaves its row and its recorded operations alone,
    after a recovery. *)
Inductive queue_history : World → Prop :=
  | put w w' h :
      workflow_status (w_db w) !! id = None → (∀ fid, ops id w fid = None) →
      enqueue inner (wq_name queue) name x opts w = (Ok h, w') → queue_history w'
  | meanwhile w w' : queue_history w → same_workflow id w w' → queue_history w'
  | turned w partition b w' :
      queue_history w → run_partition inner queue partition w = (b, w') → queue_history w'
  | run_on w k auth out w' total :
      queue_history w → w_counters w !! k = Some (-1) →
      trace id k (mkContext (mkState id k auth) false) (p x) w out w' total →
      recorded id (-1) total w' → total + 1 < 2 ^ 31 →
      workflow_status (w_db w') !! id = workflow_status (w_db w) !! id → queue_history w'
  | put_back w ids w' :
      queue_history w → recover_pending_workflows inner [executor_id inner] w = (Ok ids, w') →
      queue_history w'.

Lemma queued_live enc c r w : workflow_status (w_db w) !! id = Some r → queued enc c r → live id (w_db w).
Proof. intros Hr Hq. exists r. split; [done|]. rewrite (qd_status _ _ _ Hq). by destruct c. Qed.

(** A recovery puts it back on its queue. *)
Lemma recover_queued enc c r w :
  workflow_status (w_db w) !! id = Some r → queued enc c r →
  ∃ ids new w' r', recover_pending_workflows inner [executor_id inner] w = (Ok ids, w') ∧
    w_tasks w' = w_tasks w ++ new ∧ tasks_of id new = [] ∧ (id ∈ ids ↔ c = true) ∧
    (∀ fid, ops id w' fid = ops id w fid) ∧
    workflow_status (w_db w') !! id = Some r' ∧ queued enc false r'.
Proof.
  intros Hr Hq. pose proof Hq as [Hs Hn Hi Hser Hqn Hx Hv].
  destruct (recover_pending_run inner [executor_id inner] w)
    as (l & ids & new & w' & Hrun & (Ht & _ & Hd & Hout & Hrec) & Hin).
  assert (∀ fid, ops id w' fid = ops id w fid) as Hops by (intros fid; unfold ops; by rewrite Hd).
  assert (id ∈ rw_id <$> l ↔ c = true) as Hl.
  { rewrite Hin, Hr. split.
    - intros (r0 & [= <-] & Hp). unfold recoverable in Hp. rewrite !andb_true_iff, bool_decide_eq_true in Hp.
      destruct Hp as [[Hp _] _]. rewrite Hs in Hp. by destruct c.
    - intros ->. exists r. split; [done|]. unfold recoverable, sql_any, sql_eq. rewrite Hs, Hx, Hv. simpl.
      by rewrite !bool_decide_eq_true_2 by (done || set_solver). }
  destruct (decide (id ∈ rw_id <$> l)) as [Hid|Hid].
  - assert (c = true) as -> by by apply Hl.
    destruct (Hrec id Hid) as (r0 & r' & Hr0 & Hr' & Hrr). rewrite Hr in Hr0. injection Hr0 as <-.
    exists ids, new, w', r'. remember (tasks_of id new) as ts eqn:Hts.
    remember (bool_decide (id ∈ ids)) as again eqn:Hagain. destruct Hrr; try congruence.
    split_and!; [done..| |done|done|by split].
    split; [done|]. intros _. by eapply bool_decide_eq_true.
  - destruct (Hout id Hid) as (Hr' & Htasks & Hn'). exists ids, new, w', r.
    destruct c; [by destruct Hid; apply Hl|]. split_and!; [done..|by rewrite Hr'|done].
Qed.

(** A turn that changes it has claimed and dispatched it. *)
Lemma turn_queued enc c r partition w :
  workflow_status (w_db w) !! id = Some r → queued enc c r → encode_input x Portable = Ok enc →
  ∃ b w' new r', run_partition inner queue partition w = (Ok b, w') ∧ w_tasks w' = w_tasks w ++ new ∧
    (∀ fid, ops id w' fid = ops id w fid) ∧ workflow_status (w_db w') !! id = Some r' ∧
    (r' = r ∧ tasks_of id new = [] ∨
     c = false ∧ queued enc true r' ∧ ∃ t, tasks_of id new = [t] ∧ runs_body name x id t ∧
       t_origin t = Dequeued (count_key (wq_name queue) partition) ∧ w_counters w' !! t_state t = Some (-1)).
Proof.
  intros Hr Hq Henc. destruct (run_partition_claims inner queue partition w)
    as (b & w' & claimed & new & now & Hrun & Hd & Hnd & Hall & Ht & Hf & _ & [_ Hc]).
  set (input := turn_input inner queue partition w) in *.
  assert (workflow_status (w_db w') !! id =
    Some (if bool_decide (id ∈ dw_id <$> claimed)
          then claimed_row input now (default None (claimed_deadline now r)) r else r)) as Hr'.
  { rewrite Hd. simpl. unfold claims. by rewrite lookup_update_where, Hr. }
  exists b, w', new. eexists. split_and!; [done..| |exact Hr'|].
  { intros fid. unfold ops. by rewrite Hd. }
  case_bool_decide as Hin.
  - right. destruct Hq as [Hs Hn Hi Hser Hqn Hx Hv]. split_and!.
    + apply list_elem_of_fmap in Hin as (dw & -> & Hin). rewrite Forall_forall in Hall.
      destruct (Hall dw Hin) as [_ (r0 & Hr0 & Henq)]. rewrite Hr in Hr0. injection Hr0 as <-.
      rewrite Hs in Henq. by destruct c.
    + by split.
    + apply list_elem_of_fmap in Hin as (dw & -> & Hin). rewrite Forall_forall in Hall.
      destruct (Hall dw Hin) as [(r0 & Hr0 & _ & Hdw) _]. rewrite Hr in Hr0. injection Hr0 as <-.
      assert (dw ∈ filter (known inner) claimed) as Hk.
      { apply list_elem_of_filter. split; [|done]. exists (mkEntry (erase f) mr name None None).
        rewrite Hdw. simpl. by rewrite Hn. }
      destruct (dispatched_one _ _ _ _ Hf (filter_nodup_ids _ _ Hnd) Hk) as (t & Htasks & Hdt).
      exists t. destruct Hdt as (Hid & Htn & Hti & Htf & _ & Hto). rewrite Hdw in Htn, Hti, Htf.
      simpl in Htn, Hti, Htf. split_and!; [done| |done|].
      * split; [done|by rewrite Htn|exists enc; by rewrite Hti|by rewrite Htf, Hser].
      * apply Hc. apply (list_elem_of_filter (λ t, t_workflow_id t = dw_id dw) new).
        fold (tasks_of (dw_id dw) new). rewrite Htasks. left.
  - left. split; [done|]. apply (dispatched_none _ _ _ _ Hf). intros Hin'. apply Hin.
    apply list_elem_of_fmap in Hin' as (dw & -> & [_ Hin']%list_elem_of_filter).
    by apply list_elem_of_fmap_2.
Qed.

(** The enqueueing. *)
Lemma put_queued enc w w' h :
  eo_workflow_id opts = Some id → eo_application_version opts = None → eo_delay opts = None →
  mr < 2 ^ 63 - 1 → encode_input x Portable = Ok enc → workflow_status (w_db w) !! id = None →
  enqueue inner (wq_name queue) name x opts w = (Ok h, w') →
  (∃ r, workflow_status (w_db w') !! id = Some r ∧ queued enc false r) ∧ ∀ fid, ops id w' fid = ops id w fid.
Proof.
  intros Hid Hver Hdelay Hmr Henc Hn Hrun. unfold enqueue in Hrun. rewrite Henc in Hrun.
  unfold mbind, M_bind, lift in Hrun. rewrite (enqueue_new inner _ _ _ _ _ _ _ Hname Hid Hn Hmr) in Hrun.
  destruct (dedup_clash _ _ _); [done|]. injection Hrun as _ <-. split; [|done].
  eexists. split; [apply lookup_insert_eq|]. unfold enqueued_row. split; simpl; rewrite ?Hver, ?Hdelay; done.
Qed.

Section state.
Context (enc : string) (Hid : eo_workflow_id opts = Some id) (Hver : eo_application_version opts = None).
Context (Hdelay : eo_delay opts = None) (Hmr : mr < 2 ^ 63 - 1) (Henc : encode_input x Portable = Ok enc).
Context (Hdet : same_prog id (execution_of id) (execution_of id) (p x) (p x)).

Lemma queue_history_state w : queue_history w →
  (∃ c r, workflow_status (w_db w) !! id = Some r ∧ queued enc c r) ∧ ∃ n q, progress id (p x) n q w.
Proof.
  induction 1 as [w w' h Hn Hops Hrun|w w' _ IH [Hrow Hops]|w partition b w' _ IH Hrun
    |w k auth out w' total _ IH Hk Ht Htot Hlt Hrow|w ids w' _ IH Hrun].
  - destruct (put_queued enc w w' h) as [(r & Hr & Hq) Ho]; [done..|]. split; [eauto|].
    exists 0, (p x). apply progress_none; [done|]. intros fid. by rewrite Ho.
  - rewrite Hrow. destruct IH as (Hr & n & q & Hpr). split; [done|]. exists n, q. by eapply progress_same.
  - destruct IH as ((c & r & Hr & Hq) & n & q & Hpr).
    destruct (turn_queued enc c r partition w Hr Hq Henc) as (b' & w1 & new & r' & Hrun' & _ & Ho & Hr' & Hcase).
    rewrite Hrun in Hrun'. injection Hrun' as _ ->. split.
    + destruct Hcase as [[-> _]|(_ & Hq' & _)]; eauto.
    + exists n, q. by eapply progress_same.
  - rewrite Hrow. destruct IH as ((c & r & Hr & Hq) & n & q & Hpr). split; [eauto|].
    destruct (progress_trace id Hsw (p x) n q w k (mkContext (mkState id k auth) false) out w' total Hpr)
      as (n' & q' & _ & Hpr');
      [by split_and!|split; [done|by eapply queued_live]|done..|eauto].
  - destruct IH as ((c & r & Hr & Hq) & n & q & Hpr).
    destruct (recover_queued enc c r w Hr Hq) as (ids' & new & w1 & r' & Hrun' & _ & _ & _ & Ho & Hr' & Hq').
    rewrite Hrun in Hrun'. injection Hrun' as -> ->. split; [eauto|]. exists n, q. by eapply progress_same.
Qed.
End state.

(** C4: queued workflows survive crashes.  A workflow has been enqueued,
    claimed, run, crashed and put back any number of times, at any of its
    operations.  A recovery by its executor always succeeds, starts nothing
    for it and leaves it in its queue.  A turn of its queue's runner always
    completes, and either leaves it alone or starts its body exactly once, on
    a worker slot of the queue.  That body gets over exactly the operations
    recorded so far, without performing any of them again and without writing
    anything, and goes on with the first one that is not recorded; and when
    it finishes, everyone who asks gets its result. *)
Theorem queued_workflow_survives_crashes w :
  performs f p x → same_prog id (execution_of id) (execution_of id) (p x) (p x) →
  eo_workflow_id opts = Some id → eo_application_version opts = None → eo_delay opts = None →
  mr < 2 ^ 63 - 1 → serde_faithful 125 x → queue_history w →
  (∃ ids new w1 r, recover_pending_workflows inner [executor_id inner] w = (Ok ids, w1) ∧
     w_tasks w1 = w_tasks w ++ new ∧ tasks_of id new = [] ∧
     workflow_status (w_db w1) !! id = Some r ∧ wf_status r = status_str Enqueued ∧
     wf_queue_name r = Some (wq_name queue)) ∧
  ∀ partition, ∃ b new w1, run_partition inner queue partition w = (Ok b, w1) ∧
    w_tasks w1 = w_tasks w ++ new ∧
    (workflow_status (w_db w1) !! id = workflow_status (w_db w) !! id ∧ tasks_of id new = [] ∨
     ∃ t n q, tasks_of id new = [t] ∧ runs_body name x id t ∧
       t_origin t = Dequeued (count_key (wq_name queue) partition) ∧
       w_counters w1 !! t_state t = Some (-1) ∧ recorded id (-1) n w ∧ clear_after id (-1 + n) q w ∧
       picks_up inner p x id t n q w1).
Proof.
  intros Hperf Hdet Hid Hver Hdelay Hmr Hx Hhist.
  destruct (encode_input_stored x Hx) as (enc & Henc & _).
  destruct (queue_history_state enc Hid Hver Hdelay Hmr Henc Hdet w Hhist) as ((c & r & Hr & Hq) & n & q & Hpr).
  split.
  - destruct (recover_queued enc c r w Hr Hq) as (ids & new & w1 & r' & Hrun & Ht & Htasks & _ & _ & Hr' & Hq').
    exists ids, new, w1, r'. split_and!; [done..| |]; apply Hq'.
  - intros partition. destruct (turn_queued enc c r partition w Hr Hq Henc)
      as (b & w1 & new & r' & Hrun & Ht & Ho & Hr' & Hcase).
    exists b, new, w1. split_and!; [done..|].
    destruct Hcase as [[-> Htasks]|(_ & Hq' & t & Htasks & Hbody & Hto & Hc)]; [left; by rewrite Hr, Hr' | right].
    exists t, n, q. split_and!; [done..|apply Hpr|apply Hpr|].
    eapply progress_picks_up; [done..| |by apply (qd_serialization _ _ _ Hq')].
    by rewrite (qd_status _ _ _ Hq').
Qed.
End queued.
