(* ===== verification/Launch.v ===== *)
(** * Launching (runtime/mod.rs, db/mod.rs)

    [DbosBuilder::launch]: from a builder and its configuration to a running
    process, through the configuration, the connection, the migrations,
    recovery, and the background loops that are spawned. *)
From S2P Require Import Prelude Errors Migrate Json Config Serialize Database World Status Steps.
From S2P Require Import QueueDb Management Wire Context Workflow Recovery QueueRunner Conductor Runtime.

Local Open Scope string_scope.
Local Open Scope Z_scope.
Local Open Scope list_scope.
Local Open Scope dbos_scope.

(** The loops spawned on [workflow_tasks]. *)
Inductive Background :=
  | Run_listener
  | Run_queue (queue : WorkflowQueue)
  | Run_scheduler (name cron : string)
  | Run_conductor (config : ConductorConfig)
  | Run_admin_server (port : Z).

Section launch.
(** The operating system's environment and files, the SQL
    files, and [PgPoolOptions::connect]. *)
Context {Pool : Type} (os : SystemEnv) `{HostFiles, Sha256}.
Context {Catalog : Type} `{Server Catalog} (include_str : string → string).
Context (pool_connect : Z → string → sqlx_error + Pool).
Context `{Env, SerdeJson, Base64Engine, PgScan}.

(** The server's schemas, the tables of the system schema with the state of
    the process, and the loops spawned so far. *)
Record Host := mkHost {
  h_pg : Pg Catalog;
  h_world : World;
  h_spawned : list Background;
}.

(** A computation on the host. *)
Definition HostM (A : Type) : Type := Host → Result A * Host.

#[export] Instance HostM_ret : MRet HostM := λ A a h, (Ok a, h).
#[export] Instance HostM_bind : MBind HostM := λ A B f m h,
  match m h with
  | (Ok a, h') => f a h'
  | (Err e, h') => (Err e, h')
  end.

Definition try {A} (r : Result A) : HostM A := λ h, (r, h).
Definition on_server {A} (m : PgM A) : HostM A := λ h,
  let '(r, pg) := m (h_pg h) in (r, mkHost pg (h_world h) (h_spawned h)).
Definition in_world {A} (m : M A) : HostM A := λ h,
  let '(r, w) := m (h_world h) in (r, mkHost (h_pg h) w (h_spawned h)).
(** [workflow_tasks.spawn], for each of a list. *)
Definition spawn_all (loops : list Background) : HostM unit := λ h,
  (Ok tt, mkHost (h_pg h) (h_world h) (h_spawned h ++ loops)).

Definition connect (database_url : string) (max_connections : Z) : Result Pool :=
  match pool_connect max_connections database_url with
  | inl e => Err (from_sqlx e)
  | inr pool => Ok pool
  end.

(** The internal queue always has a runner. *)
Definition with_internal_queue (queues : gmap string WorkflowQueue) : gmap string WorkflowQueue :=
  match queues !! INTERNAL_QUEUE_NAME with
  | Some _ => queues
  | None => <[INTERNAL_QUEUE_NAME := WorkflowQueue_new INTERNAL_QUEUE_NAME]> queues
  end.

Definition inner_of (pc : ProcessedConfig Pool) (registry : Registry) : DbosInner :=
  mkInner (pc_executor_id pc) (pc_application_version pc)
    (if str_is_empty (pc_application_id pc) then None else Some (pc_application_id pc)) registry.

(** The [inner] of the runtime, with its queues. *)
Definition launch (b : DbosBuilder) (cfg : Config Pool) : HostM (DbosInner * gmap string WorkflowQueue) :=
  match b_registration_error b with
  | Some e => try (Err e)
  | None =>
      pc ← try (process_config os cfg);
      let conductor_cfg := config_from os (pc_conductor_api_key pc) (pc_conductor_url pc)
                             (pc_app_name pc) (pc_conductor_executor_metadata pc) in
      _ ← try (match pc_system_db_pool pc with
               | Some pool => Ok pool
               | None => connect (default "" (pc_database_url pc)) 20
               end);
      _ ← on_server (run_migrations include_str (pc_database_schema pc));
      let queues := with_internal_queue (b_queues b) in
      let inner := inner_of pc (b_registry b) in
      _ ← spawn_all [Run_listener];
      _ ← in_world (recover_pending_workflows inner [executor_id inner]);
      _ ← spawn_all (Run_queue <$> (map_to_list queues).*2);
      _ ← spawn_all ((λ nc, Run_scheduler nc.1 nc.2) <$> b_schedules b);
      _ ← spawn_all (match conductor_cfg with Some cc => [Run_conductor cc] | None => [] end);
      _ ← spawn_all (if pc_admin_server pc then [Run_admin_server (pc_admin_server_port pc)] else []);
      mret (inner, queues)
  end.

(** ** Steps of a launch *)

Lemma run_host {A B} (m : HostM A) (f : A → HostM B) h a h1 res :
  m h = (Ok a, h1) → f a h1 = res → (m ≫= f) h = res.
Proof. unfold mbind, HostM_bind. by intros ->. Qed.

Lemma run_host_err {A B} (m : HostM A) (f : A → HostM B) h e h1 :
  m h = (Err e, h1) → (m ≫= f) h = (Err e, h1).
Proof. unfold mbind, HostM_bind. by intros ->. Qed.

(** The configuration and the pool, without which nothing is touched. *)
Definition settled (b : DbosBuilder) (cfg : Config Pool) : Result (ProcessedConfig Pool) :=
  match b_registration_error b with
  | Some e => Err e
  | None =>
      pc ← process_config os cfg;
      _ ← (match pc_system_db_pool pc with
           | Some pool => Ok pool
           | None => connect (default "" (pc_database_url pc)) 20
           end);
      Ok pc
  end.

(** The loops of a launched process. *)
Definition loops (b : DbosBuilder) (pc : ProcessedConfig Pool) : list Background :=
  Run_listener :: (Run_queue <$> (map_to_list (with_internal_queue (b_queues b))).*2)
  ++ ((λ nc, Run_scheduler nc.1 nc.2) <$> b_schedules b)
  ++ match config_from os (pc_conductor_api_key pc) (pc_conductor_url pc) (pc_app_name pc)
             (pc_conductor_executor_metadata pc) with Some cc => [Run_conductor cc] | None => [] end
  ++ (if pc_admin_server pc then [Run_admin_server (pc_admin_server_port pc)] else []).

Lemma launch_unsettled b cfg h e : settled b cfg = Err e → launch b cfg h = (Err e, h).
Proof.
  unfold settled, launch. destruct (b_registration_error b) as [e0|]; [by intros [= ->]|].
  destruct (process_config os cfg) as [pc|e1]; simpl; [|intros [= ->]; by apply run_host_err].
  intros Hp. eapply run_host; [done|]. apply run_host_err. unfold try. cbv zeta.
  destruct (pc_system_db_pool pc); simpl in Hp; [done|].
  by destruct (connect _ _); simplify_eq/=.
Qed.

Lemma launch_settled b cfg pc h r pg :
  settled b cfg = Ok pc → run_migrations include_str (pc_database_schema pc) (h_pg h) = (r, pg) →
  launch b cfg h =
  match r with
  | Err e => (Err e, mkHost pg (h_world h) (h_spawned h))
  | Ok _ =>
      let inner := inner_of pc (b_registry b) in
      let '(r, w) := recover_pending_workflows inner [executor_id inner] (h_world h) in
      match r with
      | Err e => (Err e, mkHost pg w (h_spawned h ++ [Run_listener]))
      | Ok _ => (Ok (inner, with_internal_queue (b_queues b)), mkHost pg w (h_spawned h ++ loops b pc))
      end
  end.
Proof.
  unfold settled, launch. destruct (b_registration_error b) as [e0|]; [done|].
  destruct (process_config os cfg) as [pc'|e1]; simpl; [|done].
  destruct (match pc_system_db_pool pc' with Some _ => _ | None => _ end) as [pool|e2] eqn:Ep; simpl; [|done].
  intros [= ->] Hm. eapply run_host; [done|]. cbv zeta.
  eapply run_host; [unfold try; by rewrite Ep|]. unfold on_server.
  destruct r as [[]|e]; [|apply run_host_err; by rewrite Hm].
  eapply run_host; [by rewrite Hm|]. eapply run_host; [reflexivity|]. unfold in_world. simpl.
  destruct (recover_pending_workflows _ _ (h_world h)) as [[recovered|e] w] eqn:Er;
    [|apply run_host_err; simpl; by rewrite Er].
  eapply run_host; [simpl; by rewrite Er|].
  repeat (eapply run_host; [reflexivity|]). unfold loops. cbn [h_spawned h_pg h_world].
  unfold mret, HostM_ret. do 2 f_equal. by rewrite <-!(assoc_L (++)).
Qed.

(** ** What a launch does *)

Definition queue_of (l : Background) : option WorkflowQueue :=
  match l with Run_queue q => Some q | _ => None end.
Definition schedule_of (l : Background) : option (string * string) :=
  match l with Run_scheduler name cron => Some (name, cron) | _ => None end.
Definition conductor_of (l : Background) : option ConductorConfig :=
  match l with Run_conductor cc => Some cc | _ => None end.
Definition port_of (l : Background) : option Z :=
  match l with Run_admin_server port => Some port | _ => None end.

(** The loops of each kind. *)
Lemma omap_all {A B} (f : A → option B) (g : B → A) (l : list B) :
  (∀ b, f (g b) = Some b) → omap f (g <$> l) = l.
Proof. intros Hf. induction l as [|b l IH]; [done|]. csimpl. by rewrite Hf, IH. Qed.

Lemma omap_none {A B C} (f : A → option B) (g : C → A) (l : list C) :
  (∀ c, f (g c) = None) → omap f (g <$> l) = [].
Proof. intros Hf. induction l as [|b l IH]; [done|]. csimpl. by rewrite Hf, IH. Qed.

Lemma loops_by_kind b pc :
  omap queue_of (loops b pc) = (map_to_list (with_internal_queue (b_queues b))).*2 ∧
  omap schedule_of (loops b pc) = b_schedules b ∧
  omap conductor_of (loops b pc) = option_list (config_from os (pc_conductor_api_key pc)
    (pc_conductor_url pc) (pc_app_name pc) (pc_conductor_executor_metadata pc)) ∧
  omap port_of (loops b pc) = if pc_admin_server pc then [pc_admin_server_port pc] else [].
Proof.
  unfold loops. simpl. rewrite !omap_app.
  split_and!; rewrite ?(omap_all _ Run_queue), ?(omap_none _ Run_queue) by done;
    rewrite ?(omap_all schedule_of), ?(omap_none _ (λ nc, Run_scheduler nc.1 nc.2)) by (done || by intros []);
    repeat case_match; simpl; by rewrite ?app_nil_r.
Qed.

Lemma with_internal_queue_spec queues :
  queues ⊆ with_internal_queue queues ∧ is_Some (with_internal_queue queues !! INTERNAL_QUEUE_NAME).
Proof.
  unfold with_internal_queue. destruct (queues !! INTERNAL_QUEUE_NAME) as [q|] eqn:Hq; [eauto|].
  split; [by apply insert_subseteq|]. rewrite lookup_insert_eq. eauto.
Qed.

(** C26: a launch starts a complete process or nothing.  A registration
    conflict, a refused configuration and a failed connection, in this order,
    end it before anything is touched; a failed migration, before any loop is
    spawned and with other schemas and all workflows left alone.  Otherwise,
    the database not being lost during recovery, it succeeds: the schema is at the crate's version or a later one, exactly
    the recovery of this executor has run, and the loops are the listener,
    one runner for each registered queue and for the internal one, one
    scheduler for each schedule in order of registration, a conductor client
    exactly when a key is configured, and the admin server exactly when it is
    enabled, on its port. *)
Theorem launch_all_or_nothing `{HL : !PgScanLaws _} b cfg h :
  match settled b cfg with
  | Err e => launch b cfg h = (Err e, h)
  | Ok pc =>
      ∀ v, let schema := pc_database_schema pc in
      records schema (pg_schemas (h_pg h)) v →
      let '(r, h') := launch b cfg h in
      delete schema (pg_schemas (h_pg h')) = delete schema (pg_schemas (h_pg h)) ∧
      match r with
      | Err e => (run_migrations include_str schema (h_pg h)).1 = Err e ∧
          h_world h' = h_world h ∧ h_spawned h' = h_spawned h
      | Ok (inner, queues) =>
          inner = inner_of pc (b_registry b) ∧
          (∃ v', SCHEMA_VERSION ≤ v' ∧ records schema (pg_schemas (h_pg h')) v') ∧
          (∃ recovered, recover_pending_workflows inner [pc_executor_id pc] (h_world h)
             = (Ok recovered, h_world h')) ∧
          b_queues b ⊆ queues ∧ is_Some (queues !! INTERNAL_QUEUE_NAME) ∧
          ∃ new, h_spawned h' = h_spawned h ++ new ∧ head new = Some Run_listener ∧
            omap queue_of new = (map_to_list queues).*2 ∧
            omap schedule_of new = b_schedules b ∧
            omap conductor_of new = option_list (config_from os (pc_conductor_api_key pc)
              (pc_conductor_url pc) (pc_app_name pc) (pc_conductor_executor_metadata pc)) ∧
            omap port_of new = if pc_admin_server pc then [pc_admin_server_port pc] else []
      end
  end.
Proof.
  destruct (settled b cfg) as [pc|e] eqn:Hs; [|by apply launch_unsettled].
  intros v schema Hv.
  destruct (run_migrations include_str schema (h_pg h)) as [r pg] eqn:Em.
  rewrite (launch_settled b cfg pc h r pg Hs Em). cbv zeta.
  destruct (run_migrations_upgrades _ _ _ _ _ v false Hv Em) as (t&u&_&Hrec&_&Hdel&Hver).
  destruct r as [[]|e]; [|done].
  destruct (recover_pending_total (inner_of pc (b_registry b)) [executor_id (inner_of pc (b_registry b))]
    (h_world h)) as (recovered&w&Er). rewrite Er.
  pose proof (with_internal_queue_spec (b_queues b)) as [Hsub Hint].
  pose proof (loops_by_kind b pc) as (Hq&Hsch&Hcc&Hport). cbn [h_pg h_world h_spawned].
  split_and!; [done..|by eexists; split; [apply Hver|]|by exists recovered|done|done|].
  exists (loops b pc). by split_and!.
Qed.
End launch.
Arguments Host Catalog : clear implicits.
