(* ===== verification/Shutdown.v ===== *)
(** * Shutting down ([shutdown] of runtime/mod.rs)

    The loops are told to stop, the tasks in flight are waited for up to a
    timeout, and the pool is closed. *)
From S2P Require Import Prelude Errors Json Serialize Database World Status QueueDb Context.
From S2P Require Import Workflow QueueRunner WorkerSlots Launch.

Local Open Scope string_scope.
Local Open Scope Z_scope.
Local Open Scope list_scope.
Local Open Scope dbos_scope.

(** A running process: its world with the unfinished bodies, the other tasks
    of the tracker (background loops, and live readers by workflow and key),
    the bodies that have panicked, and the states of the token (which the
    schedulers' token follows), of the tracker and of the pool. *)
Record Running := mkRunning {
  rn_world : World;
  rn_loops : list Background;
  rn_readers : list (string * string);
  rn_panicked : list task;
  rn_cancelled : bool;
  rn_closed : bool;
  rn_pool_closed : bool;
}.

(** After a launch. *)
Definition running_of {Catalog} (h : Host Catalog) : Running :=
  mkRunning (h_world h) (h_spawned h) [] [] false false false.

Definition cancel (s : Running) : Running :=
  mkRunning (rn_world s) (rn_loops s) (rn_readers s) (rn_panicked s) true (rn_closed s) (rn_pool_closed s).
Definition close_tracker (s : Running) : Running :=
  mkRunning (rn_world s) (rn_loops s) (rn_readers s) (rn_panicked s) (rn_cancelled s) true (rn_pool_closed s).
Definition close_pool (s : Running) : Running :=
  mkRunning (rn_world s) (rn_loops s) (rn_readers s) (rn_panicked s) (rn_cancelled s) (rn_closed s) true.

(** The next task of the tracker that ends. *)
Inductive ending :=
  | Body_ends (i : nat)
  | Body_panics (i : nat)
  | Loop_ends (i : nat)
  | Reader_ends (i : nat).

Section shutdown.
Context `{HE : Env, HJ : SerdeJson, HB : Base64Engine} (inner : DbosInner).

(** A loop ends only when its token is cancelled. *)
Definition ends (e : ending) (s : Running) : Running :=
  match e with
  | Body_ends i =>
      mkRunning (snd (finish_task inner i (rn_world s))) (rn_loops s) (rn_readers s) (rn_panicked s)
        (rn_cancelled s) (rn_closed s) (rn_pool_closed s)
  | Body_panics i =>
      mkRunning (snd (panic_task i (rn_world s))) (rn_loops s) (rn_readers s)
        (option_list (w_tasks (rn_world s) !! i) ++ rn_panicked s)
        (rn_cancelled s) (rn_closed s) (rn_pool_closed s)
  | Loop_ends i =>
      if rn_cancelled s then
        mkRunning (rn_world s) (delete i (rn_loops s)) (rn_readers s) (rn_panicked s)
          (rn_cancelled s) (rn_closed s) (rn_pool_closed s)
      else s
  | Reader_ends i =>
      mkRunning (rn_world s) (rn_loops s) (delete i (rn_readers s)) (rn_panicked s)
        (rn_cancelled s) (rn_closed s) (rn_pool_closed s)
  end.

(** [TaskTracker::wait] is over when the tracker is closed and empty. *)
Definition tracker_done (s : Running) : bool :=
  rn_closed s && bool_decide (w_tasks (rn_world s) = []) && bool_decide (rn_loops s = []) &&
  bool_decide (rn_readers s = []).

(** The wait under its timeout: [evs] are the tasks that would end in time. *)
Fixpoint wait_drained (evs : list ending) (s : Running) : Running :=
  if tracker_done s then s
  else match evs with [] => s | e :: evs => wait_drained evs (ends e s) end.

Definition shutdown (evs : list ending) (s : Running) : Running :=
  close_pool (wait_drained evs (close_tracker (cancel s))).

(** ** What is left *)

Definition process_of (s : Running) : Process := mkProcess (rn_world s) (rn_panicked s).

(** No body starts another workflow. *)
Definition starts_nothing : Prop :=
  ∀ name entry ctx input fmt w,
    registry inner !! name = Some entry → w_tasks (snd (re_handler entry ctx input fmt w)) = w_tasks w.

(** The tasks of a state, and an order in which they end. *)
Definition in_flight (s : Running) : nat :=
  length (w_tasks (rn_world s)) + length (rn_loops s) + length (rn_readers s).

Definition one_by_one (s : Running) : list ending :=
  replicate (length (w_tasks (rn_world s))) (Body_ends 0) ++
  replicate (length (rn_loops s)) (Loop_ends 0) ++ replicate (length (rn_readers s)) (Reader_ends 0).

Lemma finish_head t ts w entry :
  starts_nothing → w_tasks w = t :: ts → registry inner !! t_name t = Some entry →
  w_tasks (snd (finish_task inner 0 w)) = ts.
Proof.
  intros Hsn Ht He. unfold finish_task, mbind at 1, M_bind at 1, gets. rewrite Ht. cbn [lookup list_lookup].
  unfold run_task, lookup_entry. rewrite He. run_M.
  destruct (re_handler entry _ _ _ w) as [res w1] eqn:Hh.
  pose proof (Hsn _ _ (mkContext (mkState (t_workflow_id t) (t_state t) (t_auth t)) false)
                (t_input t) (t_format t) w He) as Hst. rewrite Hh, Ht in Hst. simpl in Hst.
  destruct (outcome_of (t_format t) res) as [[status output] err].
  destruct (t_origin t); simpl; by rewrite Hst.
Qed.

(** Unless everything has ended, there is a task to end next. *)
Lemma one_by_one_step s :
  starts_nothing → Forall (λ t, is_Some (registry inner !! t_name t)) (w_tasks (rn_world s)) →
  rn_cancelled s = true → rn_closed s = true → tracker_done s = false →
  ∃ e, one_by_one s = e :: one_by_one (ends e s) ∧
    Forall (λ t, is_Some (registry inner !! t_name t)) (w_tasks (rn_world (ends e s))) ∧
    rn_cancelled (ends e s) = true ∧ rn_closed (ends e s) = true.
Proof.
  intros Hsn Hall Hc Hcl Hd. destruct s as [w ls rs ps c cl pc]. simpl in *. subst c cl.
  destruct (w_tasks w) as [|t ts] eqn:Ht.
  - unfold tracker_done in Hd. simpl in Hd. rewrite Ht in Hd. unfold one_by_one. simpl. rewrite Ht.
    destruct ls as [|l ls]; [destruct rs as [|r rs]; [done|]|].
    + exists (Reader_ends 0). simpl. rewrite Ht. by split_and!.
    + exists (Loop_ends 0). simpl. rewrite Ht. by split_and!.
  - apply Forall_cons in Hall as [[entry He] Hall]. exists (Body_ends 0).
    pose proof (finish_head t ts w entry Hsn Ht He) as Hf. unfold one_by_one. simpl. rewrite Ht, Hf. by split_and!.
Qed.

Lemma one_by_one_drains s :
  starts_nothing → Forall (λ t, is_Some (registry inner !! t_name t)) (w_tasks (rn_world s)) →
  rn_cancelled s = true → rn_closed s = true → tracker_done (wait_drained (one_by_one s) s) = true.
Proof.
  intros Hsn. remember (one_by_one s) as evs eqn:Hevs. revert s Hevs.
  induction evs as [|e evs IH]; intros s Hevs Hall Hc Hcl; destruct (tracker_done s) eqn:Hd;
    cbn [wait_drained]; rewrite ?Hd; try done;
    destruct (one_by_one_step s Hsn Hall Hc Hcl Hd) as (e' & He' & Hall' & Hc' & Hcl'); rewrite <- Hevs in He';
    simplify_eq. by apply IH.
Qed.

Lemma list_delete_none {A} (l : list A) i : l !! i = None → delete i l = l.
Proof. revert i. induction l as [|a l IH]; intros [|i]; simpl; [done..|]. intros Hi. f_equal. by apply IH. Qed.

Section process.
Context `{HL : RowLocks, HS : PgScan} (queues : list WorkflowQueue).

(** What ends, ends as it does at any other time. *)
Lemma ends_event e s : rtc (event inner queues) (process_of s) (process_of (ends e s)).
Proof.
  destruct s as [w ls rs ps c cl pc], e as [i|i|i|i]; unfold process_of; simpl; [| |by destruct c|done].
  - eapply rtc_once, (finish _ _ i). apply surjective_pairing.
  - destruct (w_tasks w !! i) as [t|] eqn:Ht; simpl.
    + eapply rtc_once, (panic _ _ i); [done|]. apply surjective_pairing.
    + eapply rtc_once, elsewhere. split; [done|]. exists []. simpl. rewrite app_nil_r.
      split; [|constructor]. by apply list_delete_none.
Qed.

Lemma wait_event evs s : rtc (event inner queues) (process_of s) (process_of (wait_drained evs s)).
Proof.
  revert s. induction evs as [|e evs IH]; intros s; cbn [wait_drained]; destruct (tracker_done s); try done.
  etrans; [apply ends_event|apply IH].
Qed.

Lemma wait_flags evs s :
  rn_cancelled s = true → rn_closed s = true →
  let s' := wait_drained evs s in
  rn_cancelled s' = true ∧ rn_closed s' = true ∧ (tracker_done s' = false → s' = foldl (flip ends) s evs).
Proof.
  revert s. induction evs as [|e evs IH]; intros s Hc Hcl; cbn [wait_drained]; destruct (tracker_done s) eqn:Hd;
    try by rewrite Hd.
  apply IH; destruct e; simpl; by rewrite ?Hc.
Qed.

(** A shutdown stops the process in order.  The loops are told to stop, no
    wait for the tracker can be missed, and the pool is closed, in any case.
    Either every task has ended, no body is left, and the worker slots still
    taken are those of bodies that panicked; or the timeout passed, and
    exactly the tasks that ended in time have.  Until then what happens is
    what happens in a running process. *)
Theorem shutdown_spec `{!PgScanLaws HS} evs s :
  let s' := shutdown evs s in
  rn_cancelled s' = true ∧ rn_closed s' = true ∧ rn_pool_closed s' = true ∧
  rtc (event inner queues) (process_of s) (process_of s') ∧
  if tracker_done s' then
    w_tasks (rn_world s') = [] ∧ rn_loops s' = [] ∧ rn_readers s' = [] ∧
    (well_behaved inner → NoDup (wq_name <$> queues) →
     slots_ok (process_of s) ∧ within_limits queues (process_of s) →
     ∀ key, default 0 (w_worker_counts (rn_world s') !! key) = Z.of_nat (slots key (rn_panicked s')))
  else s' = close_pool (foldl (flip ends) (close_tracker (cancel s)) evs).
Proof.
  intros s'. destruct (wait_flags evs (close_tracker (cancel s)) eq_refl eq_refl) as (Hc & Hcl & Hout).
  pose proof (wait_event evs (close_tracker (cancel s))) as Hev.
  change (process_of (close_tracker (cancel s))) with (process_of s) in Hev.
  set (s1 := wait_drained evs (close_tracker (cancel s))) in *.
  change s' with (close_pool s1). change (process_of (close_pool s1)) with (process_of s1).
  split_and!; [done..|]. change (tracker_done (close_pool s1)) with (tracker_done s1).
  destruct (tracker_done s1) eqn:Hd; [|by rewrite <- Hout].
  unfold tracker_done in Hd. rewrite !andb_true_iff, !bool_decide_eq_true in Hd. destruct Hd as [[[_ Ht] Hl] Hr].
  split_and!; [done..|]. intros Hwb Hnd Hok key.
  destruct (events_preserve inner queues _ _ Hwb Hnd Hev Hok) as [Hs _].
  etrans; [apply (Hs key)|]. unfold held. simpl in *. by rewrite Ht.
Qed.

(** It can be waited out: when the bodies start no others, there is an order
    for the tasks in flight to end in after which it is over. *)
Theorem shutdown_drains s :
  starts_nothing → Forall (λ t, is_Some (registry inner !! t_name t)) (w_tasks (rn_world s)) →
  ∃ evs, length evs = in_flight s ∧ tracker_done (shutdown evs s) = true.
Proof.
  intros Hsn Hall. exists (one_by_one (close_tracker (cancel s))). split.
  - unfold one_by_one, in_flight. rewrite !length_app, !length_replicate. simpl. lia.
  - by apply (one_by_one_drains (close_tracker (cancel s))).
Qed.
End process.
End shutdown.
