(* ===== verification/Client.v ===== *)
(** * The client (client.rs)

    Enqueueing, sending and managing workflows from outside an application: no
    registry, no tasks, only the database.  The connection pool is left out. *)
From S2P Require Import Prelude Errors Json Serialize Database World Status.
From S2P Require Import Notifications Streams QueueDb Management Context Workflow Runtime.

Local Open Scope string_scope.
Local Open Scope Z_scope.
Local Open Scope list_scope.
Local Open Scope dbos_scope.

(** [Client::connect], over [PgPoolOptions::connect] with its bound. *)
Record Client (Pool : Type) := mkClient {
  cl_pool : Pool;
  cl_schema : string;
  cl_poll_interval : Duration.t;
}.
Arguments mkClient {Pool} _ _ _.

Definition client_connect {Pool} (pool_connect : Z → string → sqlx_error + Pool)
    (database_url schema : string) : Result (Client Pool) :=
  match pool_connect 10 database_url with
  | inl e => Err (from_sqlx e)
  | inr pool => Ok (mkClient pool schema (Duration.from_secs 1))
  end.

Section client.
Context `{Env, SerdeJson, Base64Engine, PgScan}.

(** [Client::handle]. *)
Definition client_handle (id : string) : WorkflowHandle := polling id.

(** The row of [Client::enqueue]; the fields of [InsertWorkflowInput::default]
    are empty. *)
Definition client_row (queue_name workflow_name workflow_id encoded : string)
    (opts : EnqueueOptions) (now : Z) (owner_xid : string) : InsertWorkflowInput := {|
  in_workflow_id := workflow_id;
  in_status := match eo_delay opts with Some _ => status_str Delayed | None => status_str Enqueued end;
  in_name := workflow_name;
  in_queue_name := Some queue_name;
  in_authenticated_user := None;
  in_assumed_role := None;
  in_authenticated_roles := None;
  in_executor_id := "";
  in_application_version := eo_application_version opts;
  in_application_id := None;
  in_created_at := now;
  in_updated_at := now;
  in_recovery_attempts := 0;
  in_workflow_timeout_ms := None;
  in_workflow_deadline_epoch_ms := None;
  in_inputs := Some encoded;
  in_deduplication_id := eo_deduplication_id opts;
  in_priority := default 0 (eo_priority opts);
  in_queue_partition_key := eo_queue_partition_key opts;
  in_owner_xid := owner_xid;
  in_parent_workflow_id := None;
  in_class_name := None;
  in_config_name := None;
  in_serialization := Some PORTABLE_NAME;
  in_delay_until_epoch_ms := (λ d, wrap_i64 (now + wrap_i64 (Duration.as_millis d))) <$> eo_delay opts;
  in_increment := 0;
|}.

Definition client_enqueue {P : Type} `{Serialize P} (queue_name workflow_name : string) (input : P)
    (opts : EnqueueOptions) : M WorkflowHandle :=
  encoded ← lift (encode_input input Portable);
  workflow_id ← match eo_workflow_id opts with Some id => mret id | None => uuid_v4 end;
  now ← now_epoch_ms;
  owner_xid ← uuid_v4;
  transaction (
    res ← attempt (insert_workflow_status
                     (client_row queue_name workflow_name workflow_id encoded opts now owner_xid) 100);
    mret (match res with
          | Ok _ => Commit (Ok (client_handle workflow_id))
          | Err e =>
              Rollback (Err (if is_db_unique_violation e
                             then queue_deduplicated workflow_id queue_name
                                    (default "" (eo_deduplication_id opts))
                             else e))
          end)).

Definition client_send {T : Type} `{Serialize T} (destination_id : string) (message : T)
    (topic : option string) : M unit :=
  let topic := topic_or_null topic in
  encoded ← lift (encode_value message Portable);
  insert_notification destination_id topic encoded PORTABLE_NAME.

Definition client_retrieve_workflow (workflow_id : string) : WorkflowHandle := client_handle workflow_id.

Definition client_list_workflows (filter : ListWorkflowsFilter) : M (list WorkflowStatus) :=
  list_workflows filter.

Definition client_list_workflow_steps (workflow_id : string) : M (list StepInfo) :=
  get_workflow_steps workflow_id.

Definition client_cancel_workflow (workflow_id : string) : M unit :=
  found ← cancel_workflows [workflow_id];
  if bool_decide (found = []) then raise (non_existent_workflow workflow_id) else mret tt.

Definition client_cancel_workflows (workflow_ids : list string) : M (list string) :=
  cancel_workflows workflow_ids.

Definition client_resume_workflow (workflow_id : string) : M WorkflowHandle :=
  found ← resume_workflows [workflow_id] INTERNAL_QUEUE_NAME;
  if bool_decide (found = []) then raise (non_existent_workflow workflow_id)
  else mret (client_handle workflow_id).

Definition client_fork_workflow (input : ForkWorkflowInput) : M WorkflowHandle :=
  new_id ← fork_workflow input;
  mret (client_handle new_id).

Definition client_garbage_collect (cutoff_epoch_ms rows_threshold : option Z) : M unit :=
  garbage_collect cutoff_epoch_ms rows_threshold.

(** Without a listener: the wait is a poll. *)
Definition client_read_stream (fuel : nat) (T : Type) `{Deserialize T} (workflow_id key : string)
    : M (option (list T * bool)) :=
  read_stream_blocking T fuel workflow_id key 0 false.
End client.

(** ** Properties *)

Section properties.
Context `{HE : Env, HJ : SerdeJson, HB : Base64Engine, HS : PgScan, !PgScanLaws HS}.

(** What a client's row does not say: who runs it, and under what version. *)
Definition anonymous (version : option string) (r : wf_row) : wf_row :=
  r <| wf_executor_id := Some "" |> <| wf_application_version := version |>
    <| wf_application_id := None |> <| wf_class_name := None |> <| wf_config_name := None |>.

Lemma client_enqueue_new {P : Type} `{Serialize P} queue name (input : P) enc opts w id :
  encode_input input Portable = Ok enc → eo_workflow_id opts = Some id →
  workflow_status (w_db w) !! id = None →
  client_enqueue queue name input opts w =
  if dedup_clash (workflow_status (w_db w)) (Some queue) (eo_deduplication_id opts)
  then (Err (queue_deduplicated id queue (default "" (eo_deduplication_id opts))), started_at w)
  else (Ok (mkHandle id Polling),
        (started_at w) <| w_db ::= set_field workflow_status
           <[id := inserted_row (client_row queue name id enc opts (clock (w_reads w)) (new_v4 (w_uuids w)))]> |>).
Proof.
  intros He Hid Hn. unfold client_enqueue. eapply run_bind; [unfold lift; by rewrite He|].
  rewrite Hid. do 3 (eapply run_bind; [done|]).
  unfold transaction, mbind, M_bind, attempt. rewrite insert_new_effect by done.
  cbn [in_queue_name in_deduplication_id client_row].
  change (workflow_status (w_db _)) with (workflow_status (w_db w)).
  destruct (dedup_clash _ _ _); [done|]. cbv zeta.
  change (in_recovery_attempts _) with 0. by rewrite exceeds_attempts_fresh by lia.
Qed.

(** C21: A client's enqueue does what the application's own enqueue of a
    registered workflow does, with the same handle or deduplication error and
    the same row, except that the row names no executor and no version but
    the one asked for; so without a delay any runner of its queue, and with no
    version asked for one of any version, may claim it. *)
Theorem client_enqueue_agrees {P : Type} `{Serialize P} inner queue name (input : P) opts w id entry :
  registry inner !! name = Some entry → re_max_retries entry < 2 ^ 63 - 1 →
  eo_workflow_id opts = Some id → workflow_status (w_db w) !! id = None →
  let '(res, w1) := enqueue inner queue name input opts w in
  let '(res', w1') := client_enqueue queue name input opts w in
  res' = res ∧ w_tasks w1' = w_tasks w ∧
  match res with
  | Ok h => h = mkHandle id Polling ∧ ∃ r, workflow_status (w_db w1) !! id = Some r ∧
      w_db w1' = (w_db w1) <| workflow_status ::= <[id := anonymous (eo_application_version opts) r]> |> ∧
      (eo_delay opts = None → ∀ dq, dq_queue_name dq = queue →
         (∀ v, eo_application_version opts = Some v → dq_application_version dq = v) →
         (∀ pk, dq_partition_key dq = Some pk → eo_queue_partition_key opts = Some pk) →
         claimable dq (anonymous (eo_application_version opts) r) = true)
  | Err _ => w_db w1' = w_db w ∧ w_db w1 = w_db w
  end.
Proof.
  intros He Hmr Hid Hn. unfold enqueue.
  destruct (encode_input input Portable) as [enc|e] eqn:Henc.
  2: { unfold client_enqueue, mbind, M_bind, lift. by rewrite Henc. }
  rewrite (client_enqueue_new _ _ _ _ _ _ _ Henc Hid Hn).
  unfold mbind at 1, M_bind at 1, lift at 1. rewrite (enqueue_new _ _ _ _ _ _ _ _ He Hid Hn Hmr).
  destruct (dedup_clash _ _ _); [done|]. split_and!; [done..|].
  exists (enqueued_row inner queue name id entry (Some enc) opts w).
  split; [apply lookup_insert_eq|]. split.
  - unfold started_at. simpl. by rewrite insert_insert_eq.
  - intros Hd dq Hq Hv Hp. unfold claimable, version_matches, partition_clause. simpl.
    rewrite Hq, Hd. unfold sql_eq. rewrite !bool_decide_eq_true_2 by done. simpl.
    destruct (eo_application_version opts) as [v|]; simpl.
    + rewrite bool_decide_eq_true_2 by (symmetry; auto). simpl.
      destruct (dq_partition_key dq) as [pk|]; [|done]. by rewrite (Hp pk), bool_decide_eq_true_2.
    + destruct (dq_partition_key dq) as [pk|]; [|done]. by rewrite (Hp pk), bool_decide_eq_true_2.
Qed.

(** The client's management calls are the runtime's. *)
Lemma client_management_agrees id :
  client_cancel_workflow id = cancel_workflow id ∧
  client_resume_workflow id = resume_workflow id.
Proof. done. Qed.
End properties.
