(* ===== verification/Scheduler.v ===== *)
(** * Cron scheduling (runtime/scheduler.rs)

    The loop that starts a workflow at every tick of its schedule, under an id
    made of its name and the tick.  The cron and chrono crates are classes
    with the laws the loop relies on; times are epoch milliseconds. *)
From S2P Require Import Prelude Errors Json Serialize Database World Status Context Workflow.
From S2P Require Import Runtime.

Local Open Scope string_scope.
Local Open Scope Z_scope.
Local Open Scope list_scope.
Local Open Scope dbos_scope.

(** ** The crates *)

(** [cron::Schedule]: parsing, and the first tick after a time. *)
Class CronCrate := {
  Schedule : Type;
  schedule_from_str : string → option Schedule;
  schedule_after : Schedule → Z → option Z;
}.

(** Ticks are whole seconds, later than the time asked for, in the years that
    chrono prints with four digits. *)
Definition whole_second (t : Z) : Prop := t `mod` 1000 = 0 ∧ 0 ≤ t < 253402300800000.

Class CronLaws (C : CronCrate) : Prop := {
  after_later s t t' : schedule_after s t = Some t' → t < t';
  after_whole s t t' : schedule_after s t = Some t' → whole_second t';
}.

(** [DateTime<Utc>]: [to_rfc3339_opts(SecondsFormat::Secs, true)], and its
    serde form. *)
Class Chrono := {
  to_rfc3339_secs : Z → string;
  datetime_value : Z → Value;
}.

Class ChronoLaws (C : Chrono) : Prop := {
  rfc3339_length t : whole_second t → String.length (to_rfc3339_secs t) = 20%nat;
  rfc3339_inj t t' : whole_second t → whole_second t' →
    to_rfc3339_secs t = to_rfc3339_secs t' → t = t';
}.

(** ** Definitions *)

Record ScheduledWorkflowInput := mkScheduled { scheduled_time : Z }.

#[export] Instance ScheduledWorkflowInput_serialize `{Chrono} : Serialize ScheduledWorkflowInput :=
  λ i, inr (VObject [("scheduled_time", datetime_value (scheduled_time i))]).

(** [str::split_whitespace().count()]: the number of words, where [inside]
    says that the last character was part of one. *)
Fixpoint count_words (inside : bool) (s : string) : nat :=
  match s with
  | "" => 0
  | String c rest =>
      if is_whitespace c then count_words false rest
      else (if inside then 0 else 1) + count_words true rest
  end.

Definition normalize_cron (cron : string) : string :=
  if decide (count_words false cron = 5%nat) then "0 " +:+ cron else cron.

Section scheduler.
Context `{Env, SerdeJson, Base64Engine, CronCrate, Chrono} (inner : DbosInner).

(** The id of the run at a tick. *)
Definition tick_id (name : string) (next : Z) : string := name +:+ "-" +:+ to_rfc3339_secs next.

Definition tick_options (name : string) (next : Z) : WorkflowOptions := {|
  wo_workflow_id := Some (tick_id name next);
  wo_application_version := None;
  wo_authenticated_user := None;
  wo_assumed_role := None;
  wo_authenticated_roles := None;
|}.

(** Firing the workflow; errors are logged. *)
Definition fire (name : string) (next : Z) : M unit :=
  match encode_input (mkScheduled next) Portable with
  | Err _ => mret tt
  | Ok encoded =>
      ignore (start_workflow inner name (Some encoded) (tick_options name next) None Portable false)
  end.

(** The loop from the tick [last] on.  [cancelled] is the token at each wait;
    the wait is the sleep until the tick.  [None] is a loop still running. *)
Fixpoint scheduler_loop (cancelled : nat → bool) (fuel : nat) (schedule : Schedule)
    (name : string) (last : Z) : M (option unit) :=
  match fuel with
  | O => mret None
  | S fuel =>
      match schedule_after schedule last with
      | None => mret (Some tt)
      | Some next =>
          _ ← now_epoch_ms;
          n ← gets w_waits;
          wait;;
          if cancelled n then mret (Some tt)
          else fire name next;; scheduler_loop cancelled fuel schedule name next
      end
  end.

Definition run_scheduler (cancelled : nat → bool) (fuel : nat) (name cron : string) : M (option unit) :=
  match schedule_from_str (normalize_cron cron) with
  | None => mret (Some tt)
  | Some schedule =>
      last ← now_epoch_ms;
      scheduler_loop cancelled fuel schedule name last
  end.
End scheduler.

(** ** Cron expressions *)

(** The loop hands the cron crate six fields when it was given five, and
    anything else as it is. *)
Lemma normalize_cron_fields cron :
  (count_words false cron = 5%nat → count_words false (normalize_cron cron) = 6%nat) ∧
  (count_words false cron ≠ 5%nat → normalize_cron cron = cron).
Proof.
  unfold normalize_cron. case_decide as Hc; [|done]. split; [|done]. intros _.
  change ("0 " +:+ cron) with (String "0" (String " " cron)). simpl. by rewrite Hc.
Qed.

(** ** Ids *)

Section ids.
Context `{HC : CronCrate, HD : Chrono, !ChronoLaws HD}.

Lemma str_app_inj_length a b c d :
  String.length b = String.length d → a +:+ b = c +:+ d → a = c ∧ b = d.
Proof.
  intros Hl. revert c. induction a as [|x a IH]; intros [|y c] He.
  - done.
  - change ("" +:+ b) with b in He. subst b. rewrite str_app_cons in Hl. simpl in Hl.
    rewrite str_length_app in Hl. lia.
  - change ("" +:+ d) with d in He. subst d. rewrite str_app_cons in Hl. simpl in Hl.
    rewrite str_length_app in Hl. lia.
  - rewrite !str_app_cons in He. injection He as -> He. destruct (IH c He) as [-> ->]. done.
Qed.

(** Two runs share an id only when they are of one name and one tick. *)
Lemma tick_id_inj name name' t t' :
  whole_second t → whole_second t' → tick_id name t = tick_id name' t' → name = name' ∧ t = t'.
Proof.
  intros Ht Ht' He. unfold tick_id in He.
  apply str_app_inj_length in He as [-> He]; [|by rewrite !str_length_app, !rfc3339_length].
  split; [done|]. apply (str_app_inj_length "-" _ "-" _) in He as [_ He];
    [by apply rfc3339_inj|by rewrite !rfc3339_length].
Qed.
End ids.

(** ** What a firing spawns *)

Section starts.
Context `{HE : Env, HJ : SerdeJson, HB : Base64Engine} (inner : DbosInner).

#[export] Instance db_only_insert i mr : DbOnly (insert_workflow_status i mr).
Proof.
  assert (DbOnly (upsert_workflow_status i)) as Hu.
  { unfold upsert_workflow_status, gets_db. apply db_only_bind; [apply _|]. intros t.
    destruct (t !! _); [|destruct (dedup_clash _ _ _)]; apply _. }
  unfold insert_workflow_status. apply db_only_bind; [done|]. intros row.
  destruct (_ && _); [apply _|]. cbv zeta. repeat (apply db_only_bind; [|intros]); try apply _.
  - destruct (in_queue_name i), (wf_queue_name row); try apply _. destruct (decide _); apply _.
  - destruct (exceeds_attempts _ _ _); apply _.
Qed.

Lemma insert_owner i mr w res w' r :
  workflow_status (w_db w) !! in_workflow_id i = Some r →
  insert_workflow_status i mr w = (Ok res, w') → ir_owner_xid res = wf_owner_xid r.
Proof.
  intros Hr. unfold insert_workflow_status, upsert_workflow_status. run_M. rewrite Hr.
  repeat (case_match; simpl); intros; by simplify_eq/=.
Qed.

(** A start under an id spawns one body or none; none when the row under the
    id was there before, with an owner of its own. *)
Lemma start_spawns name enc opts fmt w res w' id :
  wo_workflow_id opts = Some id →
  start_workflow inner name enc opts None fmt false w = (res, w') →
  w_tasks w' = w_tasks w ∨
  ∃ t, w_tasks w' = w_tasks w ++ [t] ∧ t_workflow_id t = id ∧ t_name t = name ∧ t_input t = enc ∧
    ∀ r, workflow_status (w_db w) !! id = Some r → wf_owner_xid r = Some (new_v4 (w_uuids w)).
Proof.
  intros Hid. destruct (registry inner !! name) as [entry|] eqn:He.
  2: { unfold start_workflow, mbind, M_bind, lookup_entry. rewrite He. simpl. intros; simplify_eq. by left. }
  rewrite (start_workflow_prefix inner _ _ _ _ _ _ _ _ _ He Hid). cbv zeta.
  set (i := start_input _ _ _ _ _ _ _ _ _ _ _). unfold mbind at 1, M_bind at 1.
  destruct (transaction _ _) as [r1 w1] eqn:E1.
  assert (w_tasks w1 = w_tasks w) as Ht1.
  { assert (DbOnly (transaction (start_tx i (re_max_retries entry) None))) as Hd.
    { unfold start_tx. apply _ || (apply db_only_transaction, db_only_bind; [apply _|];
        intros ir; destruct (ir_dlq_triggered ir); apply _). }
    specialize (Hd (started_at w)). rewrite E1 in Hd. by injection Hd. }
  destruct r1 as [ir|e]; [|intros; simplify_eq; by left].
  destruct (should_skip ir _ false) eqn:Hskip;
    [unfold mret, M_ret; intros; simplify_eq; by left|].
  intros E. right. run_M. simplify_eq/=. rewrite Ht1. eexists. split_and!; try done.
  intros r Hr. unfold should_skip in Hskip. rewrite !orb_false_iff in Hskip.
  destruct Hskip as [_ Hown]. simpl in Hown. apply bool_decide_eq_false in Hown.
  unfold transaction in E1. destruct (start_tx _ _ _ _) as [[[r2|r2]|] w2] eqn:E2; simplify_eq/=.
  - unfold start_tx, mbind, M_bind in E2.
    destruct (insert_workflow_status i _ _) as [[ir2|] w3] eqn:E3; [|done].
    rewrite <-(insert_owner i _ (started_at w) ir2 w3 r Hr E3).
    destruct (ir_dlq_triggered ir2); unfold commit, mret, M_ret in E2; simplify_eq/=.
    destruct (decide (ir_owner_xid ir = Some (new_v4 (w_uuids w)))); [done|by destruct Hown].
  - unfold start_tx, mbind, M_bind in E2.
    destruct (insert_workflow_status i _ _) as [[ir2|] w3] eqn:E3; [|done].
    destruct (ir_dlq_triggered ir2); unfold commit, mret, M_ret in E2; simplify_eq/=.
Qed.
End starts.

Section properties.
Context `{HE : Env, HJ : SerdeJson, HB : Base64Engine, HC : CronCrate, HD : Chrono}.
Context `{!CronLaws HC, !ChronoLaws HD} (inner : DbosInner).

(** The body of the run of [name] at [t]. *)
Definition tick_task (name : string) (t : Z) (tk : task) : Prop :=
  t_workflow_id tk = tick_id name t ∧ t_name tk = name ∧
  ∃ enc, t_input tk = Some enc ∧ encode_input (mkScheduled t) Portable = Ok enc.

Lemma fire_spawns name t w r w' :
  fire inner name t w = (r, w') →
  r = Ok tt ∧
  (w_tasks w' = w_tasks w ∨ ∃ tk, w_tasks w' = w_tasks w ++ [tk] ∧ tick_task name t tk ∧
     ∀ row, workflow_status (w_db w) !! tick_id name t = Some row →
       wf_owner_xid row = Some (new_v4 (w_uuids w))).
Proof.
  unfold fire. destruct (encode_input _ _) as [enc|] eqn:Henc; [|intros [= <- <-]; auto].
  unfold ignore, mbind, M_bind, attempt.
  destruct (start_workflow _ _ _ _ _ _ _ _) as [res w1] eqn:E. intros [= <- <-]. split; [done|].
  apply (start_spawns inner _ _ _ _ _ _ _ (tick_id name t)) in E as [|(tk&?&?&?&?&?)];
    [by left|right|done].
  exists tk. split; [done|]. split; [|done]. split_and!; [done..|by exists enc].
Qed.

(** The ticks of a schedule after [last]. *)
Inductive ticks (s : Schedule) : Z → list Z → Prop :=
  | ticks_nil last : ticks s last []
  | ticks_cons last t ts : schedule_after s last = Some t → ticks s t ts → ticks s last (t :: ts).

Lemma ticks_later s last ts t : ticks s last ts → t ∈ ts → last < t ∧ whole_second t.
Proof.
  intros Hts. revert t. induction Hts as [|last t0 ts Ht _ IH]; intros t Hin.
  - by apply not_elem_of_nil in Hin.
  - pose proof (after_later _ _ _ Ht). apply elem_of_cons in Hin as [->|Hin].
    + split; [done|by eapply after_whole].
    + destruct (IH _ Hin). split; [lia|done].
Qed.

Lemma ticks_nodup s last ts : ticks s last ts → NoDup ts.
Proof.
  induction 1 as [|last t ts Ht Hts IH]; constructor; [|done].
  intros Hin. apply (ticks_later _ _ _ _ Hts) in Hin as [? _]. lia.
Qed.

(** What the loop spawns: bodies of a sublist of the ticks. *)
Definition spawned_for (name : string) (w w' : World) (ts : list Z) : Prop :=
  ∃ new fired, w_tasks w' = w_tasks w ++ new ∧ fired `sublist_of` ts ∧
    Forall2 (tick_task name) fired new.

Lemma loop_spawns cancelled fuel s name last w res w' :
  scheduler_loop inner cancelled fuel s name last w = (res, w') →
  ∃ ts, ticks s last ts ∧ spawned_for name w w' ts ∧
    (res = Ok (Some tt) ∨ res = Ok None ∧ length ts = fuel).
Proof.
  revert last w. induction fuel as [|fuel IH]; intros last w; simpl.
  { intros [= <- <-]. exists []. split_and!; [constructor| |by right].
    exists [], []. by rewrite app_nil_r. }
  destruct (schedule_after s last) as [next|] eqn:Hnext.
  2: { intros [= <- <-]. exists []. split_and!; [constructor| |by left].
       exists [], []. by rewrite app_nil_r. }
  unfold mbind, M_bind. simpl.
  destruct (cancelled (w_waits w)).
  { unfold mret, M_ret. intros [= <- <-]. exists []. split_and!; [constructor| |by left].
    exists [], []. by rewrite app_nil_r. }
  match goal with |- context [fire inner name next ?w0] => set (w2 := w0) end.
  destruct (fire inner name next w2) as [r w3] eqn:Ef.
  apply fire_spawns in Ef as [-> Hsp]. change (w_tasks w2) with (w_tasks w) in Hsp.
  intros (ts&Hts&(new&fired&Hnew&Hsub&Hall)&Hres)%IH.
  exists (next :: ts). split; [by econstructor|]. split.
  - destruct Hsp as [Heq|(tk&Heq&Htk&_)].
    + exists new, fired. rewrite Hnew, Heq. split_and!; [done|by constructor|done].
    + exists (tk :: new), (next :: fired). rewrite Hnew, Heq, <-app_assoc.
      split_and!; [done|by constructor|by constructor].
  - destruct Hres as [|[-> <-]]; [by left|right]. done.
Qed.

Lemma tick_tasks_nodup name fired new :
  Forall whole_second fired → NoDup fired → Forall2 (tick_task name) fired new →
  NoDup (t_workflow_id <$> new).
Proof.
  intros Hw Hnd Hall. induction Hall as [|t tk fired new Htk Hall IH]; simpl; [constructor|].
  apply Forall_cons in Hw as [Hwt Hw]. apply NoDup_cons in Hnd as [Hnot Hnd].
  constructor; [|by apply IH]. intros (tk'&Heq&Hin)%list_elem_of_fmap.
  apply list_elem_of_lookup in Hin as [j Hj].
  destruct (Forall2_lookup_r _ _ _ _ _ Hall Hj) as (t'&Ht'&Htk').
  apply list_elem_of_lookup_2 in Ht'. rewrite Forall_forall in Hw.
  destruct Htk as (E1&_), Htk' as (E2&_). rewrite E1, E2 in Heq.
  apply tick_id_inj in Heq as [_ ->]; [done|done|by apply Hw].
Qed.

(** C10: A scheduled workflow runs once per tick.  However long the loop runs,
    the bodies it spawns are of distinct ticks of the schedule after its start,
    each under the id of that tick with the tick as its input; the loop ends
    only with the schedule or the token.  Firing a tick that has no row yet
    records it and spawns its one body; firing a tick that this or any other
    process has recorded already spawns nothing. *)
Theorem scheduler_once_per_tick cancelled fuel name cron schedule w res w' :
  schedule_from_str (normalize_cron cron) = Some schedule →
  run_scheduler inner cancelled fuel name cron w = (res, w') →
  (∃ ts fired new, ticks schedule (clock (w_reads w)) ts ∧ fired `sublist_of` ts ∧
     w_tasks w' = w_tasks w ++ new ∧ Forall2 (tick_task name) fired new ∧
     NoDup (t_workflow_id <$> new) ∧ (res = Ok (Some tt) ∨ res = Ok None ∧ length ts = fuel)) ∧
  (∀ t v entry enc, encode_input (mkScheduled t) Portable = Ok enc →
     registry inner !! name = Some entry → re_max_retries entry < 2 ^ 63 - 1 →
     workflow_status (w_db v) !! tick_id name t = None →
     let v' := snd (fire inner name t v) in
     (∃ tk, w_tasks v' = w_tasks v ++ [tk] ∧ tick_task name t tk) ∧
     is_Some (workflow_status (w_db v') !! tick_id name t)) ∧
  (∀ t v row, workflow_status (w_db v) !! tick_id name t = Some row →
     wf_owner_xid row ≠ Some (new_v4 (w_uuids v)) →
     w_tasks (snd (fire inner name t v)) = w_tasks v).
Proof.
  intros Hs E. split; [|split].
  - unfold run_scheduler in E. rewrite Hs in E. unfold mbind, M_bind in E. simpl in E.
    destruct (loop_spawns _ _ _ _ _ _ _ _ E) as (ts&Hts&(new&fired&Hnew&Hsub&Hall)&Hres).
    exists ts, fired, new. split_and!; try done.
    apply (tick_tasks_nodup name fired); [|by eapply sublist_NoDup; [eapply ticks_nodup|]|done].
    apply Forall_forall. intros t Hin. eapply (ticks_later _ _ ts); [done|]. by eapply sublist_subseteq.
  - intros t v entry enc Henc He Hmr Hn v'.
    destruct (start_fresh_run inner name (Some enc) (tick_options name t) Portable v entry
      (tick_id name t)) as (v1&Hrun&Hdb&Htasks&_); [done..|].
    assert (v' = v1) as ->.
    { unfold v', fire. rewrite Henc. unfold ignore, mbind, M_bind, attempt. by rewrite Hrun. }
    rewrite Hdb, Htasks. split; [|simpl; rewrite lookup_insert_eq; by eexists].
    eexists. split; [done|]. split_and!; [done..|by exists enc].
  - intros t v row Hrow Hown. destruct (fire inner name t v) as [r v'] eqn:Ef.
    apply fire_spawns in Ef as [_ [|(tk&_&_&Ho)]]; [done|]. by specialize (Ho row Hrow).
Qed.
End properties.
