(* ===== verification/System.v ===== *)
(** * The whole system keeps the tables well-formed

    Every operation of the runtime, its background loops, the admin server,
    the conductor client and the client takes the database through steps of
    the life cycle only, as long as the registered bodies and the other
    processes do.  What follows for the states the system can reach is stated
    at the end. *)
From S2P Require Import Prelude Errors Json Serialize Database World Status Lifecycle.
From S2P Require Import Steps Notifications Streams LiveStream QueueDb Management Evolution Wire.
From S2P Require Import Step Context Replay Workflow ReplayChild Program Recovery Conductor ConductorLoop.
From S2P Require Import QueueRunner Shutdown Admin Runtime Client Scheduler.

Local Open Scope string_scope.
Local Open Scope Z_scope.
Local Open Scope list_scope.
Local Open Scope dbos_scope.

(** ** The surroundings *)

(** The other processes run the same program. *)
Class OthersEvolve (D : Deletable) (E : Env) : Prop := others_evolve n d : db_ok d → evolves d (others n d).

#[export] Instance evolves_wait `{D : Deletable, E : Env, !OthersEvolve D E} : Evolves wait.
Proof. intros w Hok. by apply others_evolve. Qed.

(** The registered bodies change the tables through the crate only. *)
Class BodiesEvolve `{Deletable} (inner : DbosInner) : Prop :=
  bodies_evolve name entry : registry inner !! name = Some entry →
    ∀ ctx input fmt, Evolves (re_handler entry ctx input fmt).

#[export] Hint Opaque await_workflow_result get_status execute_step_with_retry retry_loop
  WorkflowState_new next_step_id replay_step record_step run_checkpointed run_step run_step_with
  durable_write send set_event write_stream_raw write_stream close_stream sleep_deadline
  record_sleep sleep with_waiter wait_until await_durably consume_and_record recv_live recv
  get_event new_channel spawn start_tx start_workflow dec_worker run_task enqueue_workflow
  run_child_workflow poll_result get_result recover_one recover_all recover_pending_workflows
  inc_worker dispatch_dequeued dispatch_all run_partition run_partitions run_queue_turn run_queue_loop
  finish_task serve respond dispatch handle_message acknowledge answer retention
  client_enqueue fire scheduler_loop run_scheduler read_stream_turn read_stream_loop
  read_stream_blocking read_stream_async_turn read_stream_async_loop read_stream_async
  serve_turn serve_connection connect_and_serve run_conductor_loop run_conductor start_child exec_op
  run_prog erase
  : typeclass_instances.

(** Case analysis on what a computation branches on, then the instances. *)
Ltac evolve :=
  repeat lazymatch goal with
  | |- ∀ _, _ => intros ?
  | |- Evolves (mbind _ _) => apply evolves_bind
  | |- Evolves (match ?x with _ => _ end) => destruct x
  | |- Evolves (let _ := _ in _) => cbv zeta
  | |- Evolves (attempt _) => apply evolves_attempt
  | |- _ => apply _
  end.

(** ** Polling, streams and steps *)

Section operations.
Context `{D : Deletable, E : Env, !OthersEvolve D E, HJ : SerdeJson, HB : Base64Engine, HS : PgScan}.

(** What garbage collection removes depends on the tables. *)
Lemma evolves_gc cutoff rows : (∀ id, may_delete id) → Evolves (garbage_collect cutoff rows).
Proof.
  intros Hall. unfold garbage_collect, gc_cutoff. apply evolves_bind; [unfold gets_db; evolve|].
  intros [c|]; [|apply _]. apply evolves_modify_db. intros d _. by apply rtc_once, Delete.
Qed.

#[export] Instance evolves_get_status id : Evolves (get_status id).
Proof. unfold get_status, gets_db. apply _. Qed.

#[export] Instance evolves_await fuel id : Evolves (await_workflow_result fuel id).
Proof. induction fuel as [|fuel IH]; cbn [await_workflow_result]; unfold gets_db; evolve. Qed.

#[export] Instance evolves_stream_turn T `{Deserialize T} id key cur vals snap :
  Evolves (read_stream_turn T id key cur vals snap).
Proof. unfold read_stream_turn. evolve. Qed.

#[export] Instance evolves_stream_loop T `{Deserialize T} fuel id key cur vals snap :
  Evolves (read_stream_loop T fuel id key cur vals snap).
Proof.
  revert cur vals. induction fuel as [|fuel IH]; intros cur vals; cbn [read_stream_loop]; evolve.
Qed.

#[export] Instance evolves_stream T `{Deserialize T} fuel id key from snap :
  Evolves (read_stream_blocking T fuel id key from snap).
Proof. unfold read_stream_blocking. apply _. Qed.

#[export] Instance evolves_async_turn T `{Deserialize T} id key cur c :
  Evolves (read_stream_async_turn T id key cur c).
Proof. unfold read_stream_async_turn. evolve. Qed.

#[export] Instance evolves_async_loop T `{Deserialize T} fuel id key cur c :
  Evolves (read_stream_async_loop T fuel id key cur c).
Proof.
  revert cur c. induction fuel as [|fuel IH]; intros cur c; cbn [read_stream_async_loop]; evolve.
Qed.

#[export] Instance evolves_async T `{Deserialize T} fuel id key takes :
  Evolves (read_stream_async T fuel id key takes).
Proof. unfold read_stream_async. apply _. Qed.

#[export] Instance evolves_retry_loop {R} opts n retry (run : M R) errors :
  Evolves run → Evolves (retry_loop opts n retry run errors).
Proof. intros Hrun. revert retry errors. induction n as [|n IH]; intros retry errors; cbn [retry_loop]; evolve. Qed.

#[export] Instance evolves_retry {R} opts name id (run : M R) :
  Evolves run → Evolves (execute_step_with_retry opts name id run).
Proof. intros Hrun. unfold execute_step_with_retry. evolve. Qed.

(** ** The context of a body *)

#[export] Instance evolves_next_id st : Evolves (next_step_id st).
Proof. by apply evolves_still. Qed.

#[export] Instance evolves_state id auth : Evolves (WorkflowState_new id auth).
Proof. by apply evolves_still. Qed.

#[export] Instance evolves_replay R `{Deserialize R} ctx s name : Evolves (replay_step R ctx s name).
Proof. unfold replay_step. evolve. Qed.

#[export] Instance evolves_record_step {R} `{Serialize R} ctx s name (r : Result R) :
  Evolves (record_step ctx s name r).
Proof. unfold record_step. evolve. Qed.

#[export] Instance evolves_checkpointed {R} `{Serialize R, Deserialize R} ctx name (body : M R) :
  Evolves body → Evolves (run_checkpointed ctx name body).
Proof. intros Hb. unfold run_checkpointed. evolve. Qed.

#[export] Instance evolves_run_step {R} `{Serialize R, Deserialize R} ctx name (f : WorkflowContext → M R) :
  (∀ c, Evolves (f c)) → Evolves (run_step ctx name f).
Proof. intros Hf. unfold run_step. evolve. Qed.

#[export] Instance evolves_run_step_with {R} `{Serialize R, Deserialize R} ctx name opts
    (f : WorkflowContext → M R) :
  (∀ c, Evolves (f c)) → Evolves (run_step_with ctx name opts f).
Proof. intros Hf. unfold run_step_with. evolve. Qed.

#[export] Instance evolves_durable_write ctx name prepare write :
  (∀ s e, Evolves (write s e)) → Evolves (durable_write ctx name prepare write).
Proof. intros Hw. unfold durable_write, commit. evolve. Qed.

#[export] Instance evolves_send {T} `{Serialize T} ctx dest (m : T) topic : Evolves (send ctx dest m topic).
Proof. unfold send. evolve. Qed.

#[export] Instance evolves_set_event {T} `{Serialize T} ctx key (v : T) : Evolves (set_event ctx key v).
Proof. unfold set_event. evolve. Qed.

#[export] Instance evolves_write_raw ctx key name v ser : Evolves (write_stream_raw ctx key name v ser).
Proof. unfold write_stream_raw. evolve. Qed.

#[export] Instance evolves_stream_write {T} `{Serialize T} ctx key (v : T) : Evolves (write_stream ctx key v).
Proof. unfold write_stream. evolve. Qed.

#[export] Instance evolves_close ctx key : Evolves (close_stream ctx key).
Proof. unfold close_stream. apply _. Qed.

#[export] Instance evolves_deadline ctx s d : Evolves (sleep_deadline ctx s d).
Proof. unfold sleep_deadline. evolve. Qed.

#[export] Instance evolves_record_sleep ctx s d skip : Evolves (record_sleep ctx s d skip).
Proof. unfold record_sleep. evolve. Qed.

#[export] Instance evolves_sleep ctx d : Evolves (sleep ctx d).
Proof. unfold sleep. evolve. Qed.

#[export] Instance evolves_waiter {A} payload (body : M A) : Evolves body → Evolves (with_waiter payload body).
Proof.
  intros Hb. unfold with_waiter. apply evolves_bind; [by apply evolves_modify|]. intros _.
  apply evolves_bind; [apply _|]. intros r. apply evolves_bind; [by apply evolves_modify|apply _].
Qed.

#[export] Instance evolves_wait_until {A} fuel deadline (ready : M (option A)) :
  Evolves ready → Evolves (wait_until fuel deadline ready).
Proof. intros Hr. induction fuel as [|fuel IH]; cbn [wait_until]; evolve. Qed.

#[export] Instance evolves_await_durably {A} fuel ctx s d (ready : M (option A)) :
  Evolves ready → Evolves (await_durably fuel ctx s d ready).
Proof. intros Hr. unfold await_durably. evolve. Qed.

#[export] Instance evolves_consume_record ctx s topic : Evolves (consume_and_record ctx s topic).
Proof. unfold consume_and_record, commit. apply evolves_transaction. evolve. Qed.

#[export] Instance evolves_recv_live fuel T `{Deserialize T} ctx s1 s2 topic d :
  Evolves (recv_live fuel T ctx s1 s2 topic d).
Proof.
  unfold recv_live, notification_exists_unconsumed, gets_db. apply evolves_bind; [apply _|].
  intros waiters. destruct (bool_decide _); [apply _|]. apply evolves_waiter. evolve.
Qed.

#[export] Instance evolves_recv fuel T `{Deserialize T} ctx topic d : Evolves (recv fuel T ctx topic d).
Proof. unfold recv. evolve. Qed.

#[export] Instance evolves_get_event fuel T `{Deserialize T} ctx target key d :
  Evolves (get_event fuel T ctx target key d).
Proof. unfold get_event, get_event_live, select_workflow_event, gets_db. evolve. Qed.
End operations.

(** ** Starting and enqueueing *)

Lemma created_row r phase :
  wf_status r = status_str phase → phase = Pending ∨ phase = Enqueued ∨ phase = Delayed →
  life_ok (mkLife phase (wf_queue_name r) (wf_deduplication_id r) (is_set (wf_started_at_epoch_ms r))
    (is_set (wf_completed_at r)) (is_set (wf_delay_until_epoch_ms r)) (wf_output r) (wf_error r)) →
  created r.
Proof. intros Hs Hp Hok. eexists. split; [by apply life_of_status|]. by split. Qed.

Section starting.
Context `{D : Deletable, E : Env, !OthersEvolve D E, HJ : SerdeJson, HB : Base64Engine, HS : PgScan}.
Context (inner : DbosInner).

#[export] Instance evolves_start_tx i mr parent : created (inserted_row i) → Evolves (start_tx i mr parent).
Proof.
  intros Hc. unfold start_tx, commit. apply evolves_bind; [by apply evolves_insert|]. evolve.
Qed.

#[export] Instance evolves_start name enc opts parent fmt is_recovery :
  Evolves (start_workflow inner name enc opts parent fmt is_recovery).
Proof.
  unfold start_workflow, lookup_entry, choose_id. apply evolves_bind; [apply _|]. intros entry.
  apply evolves_bind; [evolve|]. intros id. apply evolves_bind; [apply _|]. intros now.
  apply evolves_bind; [apply _|]. intros owner. cbv zeta. apply evolves_bind.
  - apply evolves_transaction, evolves_start_tx. eapply created_row; [done|auto|].
    split; [done|]. by intros [].
  - intros res. destruct (should_skip _ _ _); [apply _|]. apply evolves_bind; [apply _|]. intros st.
    apply evolves_bind; [by apply evolves_still|]. intros ch.
    apply evolves_bind; [by apply evolves_modify|apply _].
Qed.

(** A row for a queue. *)
Lemma created_queued i queue delay :
  in_queue_name i = Some queue →
  in_status i = match delay with Some _ => status_str Delayed | None => status_str Enqueued end →
  (is_Some (A:=Duration.t) delay → is_Some (in_delay_until_epoch_ms i)) → created (inserted_row i).
Proof.
  intros Hq Hs Hd. destruct delay as [d|].
  - eapply (created_row _ Delayed); [done|auto|]. simpl. rewrite Hq.
    split_and!; [done..|by eexists|done|]. simpl. unfold is_set. apply bool_decide_eq_true. eauto.
  - eapply (created_row _ Enqueued); [done|auto|]. simpl. rewrite Hq. split_and!; [done..|by eexists|done].
Qed.

#[export] Instance evolves_enqueue queue name enc opts : Evolves (enqueue_workflow inner queue name enc opts).
Proof.
  unfold enqueue_workflow, lookup_entry. apply evolves_bind; [apply _|]. intros entry.
  apply evolves_bind; [evolve|]. intros id. apply evolves_bind; [apply _|]. intros now.
  apply evolves_bind; [apply _|]. intros owner. apply evolves_transaction, evolves_bind; [|evolve].
  apply evolves_attempt, evolves_insert. eapply created_queued; [done..|]. simpl.
  destruct (eo_delay opts); [by eexists|by intros []].
Qed.

#[export] Instance evolves_child {P} `{Serialize P} ctx name (x : P) opts :
  Evolves (run_child_workflow inner ctx name x opts).
Proof. unfold run_child_workflow. evolve. Qed.

#[export] Instance evolves_start_child {P} `{Serialize P} ctx name (x : P) opts :
  Evolves (start_child inner ctx name x opts).
Proof. unfold start_child, fmap, M_fmap. evolve. Qed.
End starting.

(** ** Bodies *)

Section bodies.
Context `{D : Deletable, E : Env, !OthersEvolve D E, HJ : SerdeJson, HB : Base64Engine, HS : PgScan}.

(** A body is any sequence of context operations; what its steps run must
    itself leave the tables to the crate. *)
Definition op_evolves {B} (o : op B) : Prop :=
  match o with
  | OStep _ f | OStepWith _ _ f => ∀ ctx, Evolves (f ctx)
  | _ => True
  end.

Inductive prog_evolves {A} : prog A → Prop :=
  | Return_evolves r : prog_evolves (Return r)
  | Do_evolves {B} (o : op B) rest :
      op_evolves o → (∀ r, prog_evolves (rest r)) → prog_evolves (Do o rest).

Lemma exec_op_evolves {B} fuel ctx (o : op B) : op_evolves o → Evolves (exec_op fuel ctx o).
Proof. intros Ho. destruct o; cbn [op_evolves exec_op] in *; evolve. Qed.

Lemma run_prog_evolves {A} fuel budget (p : prog A) ctx : prog_evolves p → Evolves (run_prog fuel budget p ctx).
Proof.
  intros Hp. revert budget. induction Hp as [r|B o rest Ho _ IH]; intros [|budget]; cbn [run_prog];
    try apply _.
  apply evolves_bind; [apply evolves_attempt; by apply exec_op_evolves|]. evolve.
Qed.

Lemma erase_evolves {P R} `{Deserialize P, Serialize R} (f : WorkflowContext → P → M R) ctx input fmt :
  (∀ c x, Evolves (f c x)) → Evolves (erase f ctx input fmt).
Proof. intros Hf. unfold erase. evolve. Qed.

(** Registering such a function keeps the bodies evolving. *)
Lemma register_evolves {P R} `{Deserialize P, Serialize R} b name mr (f : WorkflowContext → P → M R)
    exe ver app :
  (∀ c x, Evolves (f c x)) → BodiesEvolve (mkInner exe ver app (b_registry b)) →
  BodiesEvolve (mkInner exe ver app (b_registry (register_workflow_with_options b name mr f))).
Proof.
  intros Hf Hb n entry. unfold register_workflow_with_options.
  destruct (b_registry b !! name) eqn:Hn; [by apply Hb|]. simpl.
  intros [[<- <-]|[_ He]]%lookup_insert_Some ctx input fmt; [by apply erase_evolves | by eapply Hb].
Qed.
End bodies.

(** ** Running, recovering, dispatching *)

Section runtime.
Context `{D : Deletable, E : Env, !OthersEvolve D E, HJ : SerdeJson, HB : Base64Engine, HS : PgScan}.
Context (inner : DbosInner) (Hbodies : BodiesEvolve inner).

#[export] Instance evolves_get_result fuel R `{Deserialize R} h : Evolves (get_result fuel R h).
Proof.
  unfold get_result, poll_result. destruct (h_kind h); [|evolve]. apply evolves_bind; [apply _|].
  intros taken. destruct (bool_decide _); [evolve|]. apply evolves_bind; [by apply evolves_modify|]. evolve.
Qed.

#[export] Instance evolves_run_task t : Evolves (run_task inner t).
Proof.
  unfold run_task, lookup_entry. intros w Hok. unfold mbind at 1, M_bind at 1, lift.
  destruct (registry inner !! t_name t) as [entry|] eqn:He; [|reflexivity]. cbn [ok_or].
  revert w Hok. change (Evolves (A := unit) ?m) with (Evolves m).
  cut (∀ ctx, Evolves (result ← attempt (re_handler entry ctx (t_input t) (t_format t));
    let '(status, output, err_str) := outcome_of (t_format t) result in
    ignore (update_workflow_outcome (t_workflow_id t) status output err_str);;
    match t_origin t with
    | Started ch => modify (λ w, w <| w_channels ::= <[ch := result]> |>)
    | Dequeued key => dec_worker key
    end)); [intros Hm; apply Hm|].
  intros ctx. apply evolves_bind; [by apply evolves_attempt, (bodies_evolve (t_name t))|]. intros result.
  assert (∃ s o e, outcome_of (t_format t) result = (s, o, e) ∧ outcome_kind s o e) as (s & o & e & -> & Hk).
  { destruct result as [out|err]; eexists _, _, _; (split; [done|]); [left | right]; split_and!; eauto. }
  apply evolves_bind; [by apply evolves_ignore, evolves_outcome|]. intros _.
  destruct (t_origin t); by apply evolves_modify.
Qed.

(** *** Recovery *)

#[export] Instance evolves_recover_one `{!PgScan} wf : Evolves (recover_one inner wf).
Proof. unfold recover_one. evolve. Qed.

#[export] Instance evolves_recover_all pending : Evolves (recover_all inner pending).
Proof. induction pending as [|wf pending IH]; cbn [recover_all]; evolve. Qed.

#[export] Instance evolves_recover ids : Evolves (recover_pending_workflows inner ids).
Proof. unfold recover_pending_workflows. evolve. Qed.

(** *** The queue runner *)

Section queue_runner.
Context `{RowLocks}.

#[export] Instance evolves_dispatch queue p wf : Evolves (dispatch_dequeued inner queue p wf).
Proof.
  unfold dispatch_dequeued. destruct (registry inner !! _); [|apply _]. cbv zeta.
  apply evolves_bind; [by apply evolves_modify|]. intros _. apply evolves_bind; [apply _|]. intros st.
  by apply evolves_modify.
Qed.

#[export] Instance evolves_dispatch_all queue p wfs : Evolves (dispatch_all inner queue p wfs).
Proof. induction wfs as [|wf wfs IH]; cbn [dispatch_all]; evolve. Qed.

#[export] Instance evolves_partition queue p : Evolves (run_partition inner queue p).
Proof. unfold run_partition, worker_count. evolve. Qed.

#[export] Instance evolves_run_partitions queue ps : Evolves (run_partitions inner queue ps).
Proof. induction ps as [|p ps IH]; cbn [run_partitions]; evolve. Qed.

#[export] Instance evolves_turn queue : Evolves (run_queue_turn inner queue).
Proof. unfold run_queue_turn. evolve. Qed.

#[export] Instance evolves_queue_loop `{MulF64} n queue interval : Evolves (run_queue_loop inner n queue interval).
Proof. revert interval. induction n as [|n IH]; intros interval; cbn [run_queue_loop]; evolve. Qed.
End queue_runner.

#[export] Instance evolves_finish i : Evolves (finish_task inner i).
Proof.
  unfold finish_task. apply evolves_bind; [apply _|]. intros [t|]; [|apply _].
  apply evolves_bind; [apply _|]. intros _. by apply evolves_modify.
Qed.

#[export] Instance evolves_panic i : Evolves (panic_task i).
Proof. by apply evolves_modify. Qed.
End runtime.

(** ** The servers, the client and the scheduler *)

Section outer.
Context `{D : Deletable, E : Env, !OthersEvolve D E, HJ : SerdeJson, HB : Base64Engine, HS : PgScan}.
Context (inner : DbosInner).

#[export] Instance evolves_respond {A} (op : M A) ok err : Evolves op → Evolves (respond op ok err).
Proof. intros Ho. unfold respond. evolve. Qed.

(** The requests that delete, and what they ask for. *)
Definition route_allowed (route : Route) : Prop :=
  match route with GarbageCollect _ => ∀ id, may_delete id | _ => True end.

Definition message_allowed (msg_type : string) (msg : Value) : Prop :=
  (msg_type = "retention" → ∀ id, may_delete id) ∧
  (msg_type = "delete" → ∀ id, id ∈ coalesce_ids msg → may_delete id).

Definition text_allowed (text : string) : Prop :=
  match from_str Value text with
  | Ok msg => message_allowed (default "" (get_str "type" msg)) msg
  | Err _ => True
  end.

Lemma evolves_serve `{Rfc3339} as_secs queues route s :
  route_allowed route → Evolves (serve as_secs inner queues route s).
Proof.
  intros Hr. unfold serve. destruct route; unfold healthz, conductor_probe, queues_metadata, admin_recovery,
    admin_garbage_collect, global_timeout, admin_list_workflows, admin_get_workflow, admin_list_steps,
    admin_cancel, admin_resume, admin_fork; evolve.
  by apply evolves_respond, evolves_gc.
Qed.

#[export] Instance evolves_acknowledge {A} (op : M A) resp : Evolves op → Evolves (acknowledge op resp).
Proof. intros Ho. unfold acknowledge. evolve. Qed.

#[export] Instance evolves_answer {A} (op : M A) field wire resp :
  Evolves op → Evolves (answer op field wire resp).
Proof. intros Ho. unfold answer. evolve. Qed.

Lemma evolves_retention msg : (∀ id, may_delete id) → Evolves (retention msg).
Proof. intros Hall. unfold retention. evolve. by apply evolves_gc. Qed.

Lemma evolves_dispatch_request `{Rfc3339} meta hostname ty msg resp :
  message_allowed ty msg → Evolves (dispatch inner meta hostname ty msg resp).
Proof.
  intros [Hret Hdel]. unfold dispatch, list_to_wire. repeat case_decide; try solve [evolve].
  - by apply evolves_acknowledge, evolves_retention, Hret.
  - by apply evolves_acknowledge, evolves_delete, Hdel.
Qed.

Lemma evolves_handle_message `{Rfc3339} meta hostname text :
  text_allowed text → Evolves (handle_message inner meta hostname text).
Proof.
  unfold handle_message, text_allowed. destruct (from_str Value text) as [msg|]; [|intros; evolve].
  intros Hm. apply evolves_bind; [by apply evolves_dispatch_request|]. evolve.
Qed.

(** The texts a connection, or all of them, may bring. *)
Definition select_allowed (sel : Select) : Prop :=
  match sel with Read (Got (Text text)) => text_allowed text | _ => True end.
Definition attempt_allowed (a : Attempt) : Prop := Forall select_allowed (at_selects a).

Lemma evolves_serve_turn `{Rfc3339} meta hostname ok sel sent :
  select_allowed sel → Evolves (serve_turn inner meta hostname ok sel sent).
Proof.
  intros Hs. unfold serve_turn. apply evolves_bind; [apply _|intros _].
  destruct sel as [| |[| |e|[text|p|p|p|]]]; try by evolve.
  apply evolves_bind; [by apply evolves_handle_message|]. evolve.
Qed.

Lemma evolves_serve_connection `{Rfc3339} meta hostname ok sels sent :
  Forall select_allowed sels → Evolves (serve_connection inner meta hostname ok sels sent).
Proof.
  intros Hall. revert sent. induction Hall as [|sel sels Hs _ IH]; intros sent; cbn [serve_connection]; [evolve|].
  apply evolves_bind; [by apply evolves_serve_turn|]. evolve.
Qed.

Lemma evolves_run_conductor `{Rfc3339} meta hostname attempts :
  Forall attempt_allowed attempts → Evolves (run_conductor inner meta hostname attempts).
Proof.
  unfold run_conductor. generalize INITIAL_RECONNECT_WAIT as delay. intros delay Hall. revert delay.
  induction Hall as [|a attempts Ha _ IH]; intros delay; cbn [run_conductor_loop]; [evolve|].
  destruct (at_cancelled a); [evolve|]. apply evolves_bind; [|evolve].
  unfold connect_and_serve. destruct (at_handshake a); [evolve..|by apply evolves_serve_connection].
Qed.

#[export] Instance evolves_client_enqueue {P} `{Serialize P} queue name (x : P) opts :
  Evolves (client_enqueue queue name x opts).
Proof.
  unfold client_enqueue. apply evolves_bind; [apply _|]. intros enc. apply evolves_bind; [evolve|].
  intros id. apply evolves_bind; [apply _|]. intros now. apply evolves_bind; [apply _|]. intros owner.
  apply evolves_transaction, evolves_bind; [|evolve].
  apply evolves_attempt, evolves_insert. eapply created_queued; [done..|]. simpl.
  destruct (eo_delay opts); [by eexists|by intros []].
Qed.

#[export] Instance evolves_fire `{CronCrate, Chrono} name next : Evolves (fire inner name next).
Proof. unfold fire. evolve. Qed.

#[export] Instance evolves_scheduler `{CronCrate, Chrono} cancelled fuel name cron :
  Evolves (run_scheduler inner cancelled fuel name cron).
Proof.
  unfold run_scheduler. destruct (schedule_from_str _); [|apply _].
  apply evolves_bind; [apply _|]. intros last. revert last.
  induction fuel as [|fuel IH]; intros last; cbn [scheduler_loop]; evolve.
Qed.
End outer.

(** ** What the system does *)

Section system.
Context `{D : Deletable, E : Env, !OthersEvolve D E, HJ : SerdeJson, HB : Base64Engine, HS : PgScan}.
Context `{HL : RowLocks, HR : Rfc3339, HC : CronCrate, HT : Chrono, HF : MulF64}.
Context (as_secs_f64 : Duration.t → Value) (hostname : option string) (executor_metadata : option Object).
Context (inner : DbosInner) (queues : list WorkflowQueue).

(** The entry points of a process: the operations of [Dbos], of its handles
    and of the context, the background loops, one request to the admin server
    or from the conductor, the connections of the conductor client, and the operations of a [Client]. *)
Inductive entry_point : ∀ {A}, M A → Prop :=
  | Run_workflow {P} `{Serialize P} name (x : P) opts : entry_point (run_workflow inner name x opts)
  | Enqueue {P} `{Serialize P} queue name (x : P) opts : entry_point (enqueue inner queue name x opts)
  | Recover ids : entry_point (recover_workflows inner ids)
  | Cancel id : entry_point (cancel_workflow id)
  | Resume id : entry_point (resume_workflow id)
  | Fork input : entry_point (fork_workflow input)
  | List filter : entry_point (list_workflows filter)
  | Collect cutoff rows : (∀ id, may_delete id) → entry_point (garbage_collect cutoff rows)
  | Delete_workflows ids : (∀ id, id ∈ ids → may_delete id) → entry_point (delete_workflows ids)
  | Get_result {R} `{Deserialize R} fuel h : entry_point (get_result fuel R h)
  | Read_stream {T} `{Deserialize T} fuel id key from snapshot :
      entry_point (read_stream_blocking T fuel id key from snapshot)
  | Follow_stream {T} `{Deserialize T} fuel id key takes :
      entry_point (read_stream_async T fuel id key takes)
  | Run_child {P} `{Serialize P} ctx name (x : P) opts :
      entry_point (run_child_workflow inner ctx name x opts)
  | Run_body {A} fuel budget (p : prog A) ctx : prog_evolves p → entry_point (run_prog fuel budget p ctx)
  | Run_task i : entry_point (finish_task inner i)
  | Panic_task i : entry_point (panic_task i)
  | Queue_turn queue : entry_point (run_queue_turn inner queue)
  | Queue_runner n queue : entry_point (run_queue inner n queue)
  | Scheduler cancelled fuel name cron : entry_point (run_scheduler inner cancelled fuel name cron)
  | Admin_request route s : route_allowed route → entry_point (serve as_secs_f64 inner queues route s)
  | Conductor_request text : text_allowed text →
      entry_point (handle_message inner executor_metadata hostname text)
  | Conductor attempts : Forall attempt_allowed attempts →
      entry_point (run_conductor inner executor_metadata hostname attempts)
  | Client_enqueue {P} `{Serialize P} queue name (x : P) opts : entry_point (client_enqueue queue name x opts)
  | Client_send {T} `{Serialize T} dest (m : T) topic : entry_point (client_send dest m topic)
  | Client_fork input : entry_point (client_fork_workflow input).

(** A crash: the process is gone, the database and the outside world stay. *)
Definition crashed (w : World) : World :=
  mkWorld (w_db w) (w_reads w) (w_uuids w) (w_waits w) ∅ [] ∅ ∅ ∅ ∅.

Inductive performs (w : World) : World → Prop :=
  | Performs {A} (m : M A) : entry_point m → performs w (snd (m w))
  | Restarts : performs w (crashed w).

Definition reachable (w : World) : Prop := rtc performs (initial_world empty_db) w.

Lemma entry_point_evolves {A} (m : M A) : BodiesEvolve inner → entry_point m → Evolves m.
Proof.
  intros Hb []; unfold run_workflow, enqueue, recover_workflows, cancel_workflow, resume_workflow, run_queue,
    client_send, client_fork_workflow; evolve.
  - by apply evolves_gc.
  - by apply evolves_delete.
  - by apply run_prog_evolves.
  - by apply evolves_serve.
  - by apply evolves_handle_message.
  - by apply evolves_run_conductor.
Qed.

Lemma performs_evolves w w' :
  BodiesEvolve inner → performs w w' → db_ok (w_db w) → evolves (w_db w) (w_db w').
Proof. intros Hb [A m Hm|] Hok; [by apply entry_point_evolves|reflexivity]. Qed.

Lemma run_evolves w w' :
  BodiesEvolve inner → rtc performs w w' → db_ok (w_db w) → evolves (w_db w) (w_db w').
Proof.
  intros Hb. induction 1 as [|w w1 w2 Hp _ IH]; intros Hok; [reflexivity|].
  pose proof (performs_evolves w w1 Hb Hp Hok) as H1. etrans; [done|]. apply IH. by eapply evolves_ok.
Qed.

(** A shutdown is such a run. *)
Lemma shutdown_performs evs s : rtc performs (rn_world s) (rn_world (shutdown inner evs s)).
Proof.
  assert (∀ e s0, rtc performs (rn_world s0) (rn_world (ends inner e s0))) as He.
  { intros [i|i|i|i] s0; simpl; [| |by destruct (rn_cancelled s0)|done].
    - eapply rtc_once, (Performs _ (finish_task inner i)). constructor.
    - eapply rtc_once, (Performs _ (panic_task i)). constructor. }
  unfold shutdown. change (rn_world s) with (rn_world (close_tracker (cancel s))).
  generalize (close_tracker (cancel s)) as s0. induction evs as [|e evs IH]; intros s0; cbn [wait_drained];
    destruct (tracker_done s0); try done. etrans; [apply He|apply IH].
Qed.

(** C2: the schema's types hold.  In every state the system can reach from
    empty tables, by any sequence of its entry points, of background turns
    and of crashes, every row is in a well-formed state of its life cycle (a
    known status; queued work has a queue and no start time, a pending row of a
    queue has one; results, errors and completion times are there exactly when
    the status says so; a finished row holds no deduplication id), no two
    rows hold the same deduplication id of a queue, every row of the other
    tables belongs to an existing workflow, and stream offsets count from
    zero. *)
Theorem reachable_tables_ok w : BodiesEvolve inner → reachable w → db_ok (w_db w).
Proof.
  intros Hb Hw. eapply evolves_ok; [|apply empty_db_ok].
  by apply (run_evolves (initial_world empty_db) w Hb Hw), empty_db_ok.
Qed.

(** C1: the system refines the life cycle of workflows.  From well-formed
    tables on, whatever the entry points of the system, its background turns
    and its crashes do, a workflow that nobody deletes stays the same work: its
    row goes through the transitions of the life cycle only, each operation it
    has recorded stays recorded as it was, and once it has a result (SUCCESS
    or ERROR) it always has one and is never queued or pending again. *)
Theorem system_refines_lifecycle w w' id r :
  BodiesEvolve inner → ¬ may_delete id → db_ok (w_db w) → rtc performs w w' →
  workflow_status (w_db w) !! id = Some r →
  ∃ r', workflow_status (w_db w') !! id = Some r' ∧ origin r' = origin r ∧
    (∃ l l', life_of r = Some l ∧ life_of r' = Some l' ∧ life_ok l' ∧
       rtc life_step l l' ∧ (decided l → decided l')) ∧
    ∀ fid o, operation_outputs (w_db w) !! (id, fid) = Some o →
      operation_outputs (w_db w') !! (id, fid) = Some o.
Proof.
  intros Hb Hid Hok Hrun Hr.
  pose proof (run_evolves w w' Hb Hrun Hok) as Hev. pose proof (evolves_ok _ _ Hev Hok) as Hok'.
  destruct (evolves_continues id _ _ Hev Hok Hid r Hr) as (r' & Hr' & Ho & (l & l' & Hl & Hl' & Hsteps) & Hops).
  exists r'. split_and!; [done..| |done]. exists l, l'.
  apply db_rows in Hr' as (l1 & Hl1 & Hlok'); [|done].
  rewrite Hl' in Hl1. injection Hl1 as <-. split_and!; [done..|]. by apply decided_steps.
Qed.
End system.
