(* ===== verification/Witnesses.v ===== *)
(** * The theorems at concrete inputs

    A sample environment, sample rows and small databases, and for each theorem
    with hypotheses an instance whose hypotheses hold. *)
From S2P Require Import Prelude Errors Json JsonText Serialize Codec Database World Status Steps.
From S2P Require Import Notifications Streams QueueDb Management Step Context Replay Program.
From S2P Require Import Workflow Recovery QueueRunner WorkerSlots Runtime Durability QueueDurability.
From S2P Require Import Launch Shutdown.

Local Open Scope string_scope.
Local Open Scope Z_scope.
Local Open Scope list_scope.
Local Open Scope dbos_scope.

(** ** The environment *)

Fixpoint bars (n : nat) : string := match n with O => "" | S n => String "|" (bars n) end.

(** A clock that ticks at each reading, UUIDs in order, and no other process. *)
#[export] Instance sample_env : Env := {|
  clock n := Z.of_nat n;
  instant n := Z.of_nat n;
  new_v4 n := "uuid-" +:+ bars n;
  others _ d := d;
|}.

(** The same with a stopped clock, which satisfies the laws for ever. *)
Definition steady_env : Env := {|
  clock _ := 1000; instant := instant; new_v4 := new_v4; others := others |}.

#[export] Instance steady_env_laws : EnvLaws steady_env.
Proof.
  split; simpl.
  - intros n. lia.
  - intros n m ?. lia.
  - intros n m ?. lia.
  - intros n m E. apply (inj (String.append "uuid-")) in E. revert m E.
    induction n as [|n IH]; intros [|m]; intros [=]; auto.
Qed.

#[export] Instance sample_scan : PgScan := key_order_scan.
#[export] Instance sample_scan_laws : PgScanLaws sample_scan := key_order_scan_laws.
#[export] Instance no_locks : RowLocks := λ _, ∅.

(** ** Rows and worlds *)

Definition sample_input (id name status : string) (queue : option string) : InsertWorkflowInput := {|
  in_workflow_id := id;
  in_status := status;
  in_name := name;
  in_queue_name := queue;
  in_authenticated_user := None;
  in_assumed_role := None;
  in_authenticated_roles := None;
  in_executor_id := "local";
  in_application_version := Some "v1";
  in_application_id := None;
  in_created_at := 500;
  in_updated_at := 500;
  in_recovery_attempts := 1;
  in_workflow_timeout_ms := None;
  in_workflow_deadline_epoch_ms := None;
  in_inputs := Some "input";
  in_deduplication_id := None;
  in_priority := 0;
  in_queue_partition_key := None;
  in_owner_xid := "owner";
  in_parent_workflow_id := None;
  in_class_name := None;
  in_config_name := None;
  in_serialization := Some PORTABLE_NAME;
  in_delay_until_epoch_ms := None;
  in_increment := 1;
|}.

Definition sample_row (status : string) (queue : option string) : wf_row :=
  inserted_row (sample_input "wf-1" "greet" status queue).

Definition pending_row : wf_row := sample_row "PENDING" None.
Definition queued_row : wf_row := sample_row "ENQUEUED" (Some "q").

Definition db_with (rows : list (string * wf_row)) : Db :=
  empty_db <| workflow_status := list_to_map rows |>.
Definition world_with (rows : list (string * wf_row)) : World := initial_world (db_with rows).

Definition pending_world : World := world_with [("wf-1", pending_row)].

(** A closed computation. *)
Ltac here := solve [repeat split; vm_compute; reflexivity].

(** ** Status *)

Lemma insert_preserves_work_witness :
  ∃ r', workflow_status (w_db (snd (insert_workflow_status
          (sample_input "wf-1" "greet" "PENDING" None) 5 pending_world)))
        = <["wf-1" := r']> (workflow_status (w_db pending_world)) ∧ same_work pending_row r'.
Proof.
  destruct (insert_preserves_work (sample_input "wf-1" "greet" "PENDING" None) 5 pending_world pending_row
    _ _ eq_refl (surjective_pairing _)) as (r' & H & Hs & _). exists r'. by split.
Defined.

(** Two recoveries of a workflow allowed two, and the one too many. *)
Lemma dead_letter_threshold_witness :
  ∃ w' r', reinsert 2 (sample_input "wf-1" "greet" "PENDING" None) 2 pending_world = (Ok tt, w') ∧
    workflow_status (w_db w') !! "wf-1" = Some r' ∧ wf_recovery_attempts r' = 3 ∧
    ∃ ir w'', insert_workflow_status (sample_input "wf-1" "greet" "PENDING" None) 2 w' = (Ok ir, w'') ∧
              ir_dlq_triggered ir = true.
Proof.
  destruct (dead_letter_threshold (sample_input "wf-1" "greet" "PENDING" None) 2 pending_world pending_row 2)
    as (w' & r' & H1 & H2 & _ & H3 & H4); [here..|lia|lia|].
  exists w', r'. do 3 (split; [assumption|]). destruct (H4 eq_refl) as (ir & w'' & _ & H5 & H6 & _). eauto.
Defined.

Lemma list_pending_for_recovery_spec_witness :
  ∃ l, list_pending_for_recovery ["local"] "v1" pending_world = (Ok l, pending_world) ∧
       "wf-1" ∈ rw_id <$> l.
Proof.
  destruct (list_pending_for_recovery_spec ["local"] "v1" pending_world) as (l & H & _ & Hin).
  exists l. split; [done|]. apply Hin. exists pending_row, "local". repeat (split; [reflexivity|]). split; [by left | reflexivity].
Defined.

(** ** Steps *)

Lemma operation_recorded_once_witness :
  ∃ w', record_operation_result "wf-1" 0 "step" (Some "1") None None (Some PORTABLE_NAME) pending_world
        = (Ok tt, w') ∧
    check_operation_execution "wf-1" 0 "step" w' = (Ok (Some (mkRecorded (Some "1") None (Some PORTABLE_NAME))), w') ∧
    check_operation_execution "wf-1" 0 "other" w' = (Err (unexpected_step "wf-1" 0 "other" "step"), w').
Proof.
  destruct (operation_recorded_once pending_world "wf-1" 0 "step" (Some "1") None None (Some PORTABLE_NAME))
    as (w' & H1 & H2 & H3 & _); [by exists pending_row|done|].
  exists w'. split_and!; [done..|]. by apply H3.
Defined.

(** ** Messages *)

Definition mailbox_world : World := initial_world
  (empty_db <| notifications := list_to_map
     [("m1", mkNt "wf-1" "topic" "first" 10 None false); ("m2", mkNt "wf-1" "topic" "second" 20 None false)] |>).

Lemma mailbox_fifo_exactly_once_witness :
  ∃ l w', drain 2 "wf-1" "topic" mailbox_world =
            (Ok ((λ kn : string * nt_row, (nt_message kn.2, nt_serialization kn.2)) <$> l), w') ∧
          StronglySorted (key_le [λ kn : string * nt_row, nt_created_at_epoch_ms kn.2]) l ∧
          consume_oldest_notification "wf-1" "topic" w' = (Ok None, w').
Proof.
  destruct (mailbox_fifo_exactly_once "wf-1" "topic" mailbox_world) as (l & w' & H1 & _ & H2 & H3 & _).
  exists l, w'. by split_and!.
Defined.

(** ** Streams *)

Definition seven : string := write_value (VNumber (NInt 7)).
Definition entry7 : st_row := mkSt seven 0 (Some PORTABLE_NAME).

Lemma is_log_nil id key d : (∀ o, streams d !! (id, key, o) = None) → is_log id key d [].
Proof. intros Hn. split; [|simpl; lia]. intros o r. rewrite Hn. by split; [|intros [_ ?]]. Qed.

Definition stream_db (status : string) : Db :=
  (db_with [("wf-1", sample_row status None)]) <| streams := {[("wf-1", "k", 0) := entry7]} |>.

Lemma stream_db_log status : is_log "wf-1" "k" (stream_db status) [entry7].
Proof.
  split; [|simpl; lia]. intros o r. simpl. rewrite lookup_singleton_Some. split.
  - intros [[= <-] <-]. by split.
  - intros [Ho Hr]. apply list_lookup_singleton_Some in Hr as [Ho' <-].
    replace o with 0 by lia. by split.
Qed.

Lemma write_stream_refines_witness :
  ∃ w', write_stream_entry "wf-1" 0 "k" seven (Some PORTABLE_NAME) pending_world = (Ok tt, w') ∧
        is_log "wf-1" "k" (w_db w') [entry7].
Proof.
  pose proof (write_stream_refines pending_world "wf-1" 0 "k" seven (Some PORTABLE_NAME) []) as H.
  rewrite bool_decide_eq_false_2 in H by (by inversion 1).
  destruct H as (w' & Hrun & Hlog & _); [|simpl; lia|by exists pending_row|by exists w'].
  apply is_log_nil. intros o. apply lookup_empty.
Defined.

Lemma live_reader_follows_log_witness :
  ∃ w', read_stream_blocking Z 1 "wf-1" "k" 0 false (initial_world (stream_db "SUCCESS"))
        = (Ok (Some ([7], true)), w') ∧
    reader_result Z "wf-1" "k" 0 false [entry7] [7] true (w_db w').
Proof.
  pose proof (live_reader_follows_log Z "wf-1" "k" 0 false 1 (initial_world (stream_db "SUCCESS")) [entry7]) as H.
  eexists. split; [vm_compute; reflexivity|]. apply H.
  - intros n d log Hlog. exists []. by rewrite app_nil_r.
  - apply stream_db_log.
Defined.

(** The other process publishes 7 and finishes while the reader waits. *)
Definition racing_env : Env := {|
  clock := clock; instant := instant; new_v4 := new_v4; others _ _ := stream_db "SUCCESS" |}.

Lemma reader_misses_final_entries_witness :
  ∃ w', read_stream_blocking (H := racing_env) Z 1 "wf-1" "k" 0 false pending_world
        = (Ok (Some ([], true)), w') ∧ is_log "wf-1" "k" (w_db w') [entry7].
Proof.
  apply (reader_misses_final_entries (HE := racing_env) Z "wf-1" "k" 0 0 pending_world [] [entry7] [] "SUCCESS").
  - apply is_log_nil. intros o. apply lookup_empty.
  - reflexivity.
  - reflexivity.
  - apply stream_db_log.
  - vm_compute. reflexivity.
  - by split.
Defined.

(** ** Queues *)

Definition queue_input : DequeueInput := {|
  dq_queue_name := "q"; dq_executor_id := "local"; dq_application_version := "v1";
  dq_partition_key := None; dq_local_running_count := 0; dq_worker_concurrency := Some 1;
  dq_global_concurrency := None; dq_max_tasks_per_iteration := 100; dq_rate_limit := None |}.

Definition queue_world : World := world_with
  [("wf-1", queued_row); ("wf-2", sample_row "ENQUEUED" (Some "q"))].

Definition first_claim : DequeuedWorkflow :=
  mkDequeued "wf-1" "greet" (Some "input") (Some PORTABLE_NAME) None.

Definition after_claim : World := snd (dequeue_workflows queue_input queue_world).

Lemma first_dequeue : dequeue_workflows queue_input queue_world = (Ok [first_claim], after_claim).
Proof. vm_compute. reflexivity. Qed.

Lemma dequeue_claims_witness :
  dequeue_workflows queue_input queue_world = (Ok [first_claim], after_claim) ∧
  NoDup (dw_id <$> [first_claim]) ∧
  (w_db after_claim) <| workflow_status := ∅ |> = (w_db queue_world) <| workflow_status := ∅ |> ∧
  wf_status <$> workflow_status (w_db after_claim) !! "wf-1" = Some "PENDING".
Proof.
  split; [apply first_dequeue|].
  destruct (dequeue_claims queue_input queue_world [first_claim] after_claim first_dequeue)
    as (Hnd & Hrest & _ & Hrows & _).
  split; [exact Hnd|]. split; [exact Hrest|].
  apply Forall_cons in Hrows as [(r & dl & _ & _ & _ & _ & _ & Hr & _) _].
  cbn [dw_id first_claim] in Hr. rewrite Hr. reflexivity.
Defined.

Lemma dequeue_limits_witness :
  dequeue_workflows queue_input queue_world = (Ok [first_claim], after_claim) ∧
  Z.of_nat (length [first_claim]) ≤ (1 - 0) `max` 0.
Proof.
  split; [apply first_dequeue|].
  exact (proj1 (dequeue_limits queue_input queue_world [first_claim] after_claim first_dequeue)).
Defined.

Lemma dequeue_order_witness :
  dequeue_workflows queue_input queue_world = (Ok [first_claim], after_claim) ∧
  (wf_priority queued_row < wf_priority queued_row ∨
   wf_priority queued_row = wf_priority queued_row ∧ wf_created_at queued_row ≤ wf_created_at queued_row).
Proof.
  split; [apply first_dequeue|].
  apply (dequeue_order queue_input queue_world [first_claim] after_claim first_dequeue "wf-1" queued_row
    "wf-2" queued_row).
  - by left.
  - reflexivity.
  - reflexivity.
  - reflexivity.
  - intros j. apply not_elem_of_empty.
  - intros [E|E]%elem_of_cons; [by vm_compute in E | by apply not_elem_of_nil in E].
Defined.

(** ** Management *)

Definition any_filter : ListWorkflowsFilter :=
  mkFilter None (Some [Pending]) None (Some "other-queue") true None None None None (Some 10) None false.

Lemma list_workflows_spec_witness :
  ∃ all, list_workflows any_filter pending_world =
         (Ok (workflow_status_of <$> take 10 (drop 0 all)), pending_world) ∧ NoDup all.*1.
Proof.
  destruct (list_workflows_spec any_filter pending_world) as (all & H & Hnd & _); [simpl; lia..|].
  exists all. split; [exact H | exact Hnd].
Defined.

Lemma queues_only_ignores_queue_name_witness :
  filter_matches any_filter "wf-1" (sample_row "PENDING" (Some "q")) = true.
Proof.
  exact (queues_only_ignores_queue_name
    (mkFilter None (Some [Pending]) None (Some "q") true None None None None (Some 10) None false)
    "other-queue" "wf-1" (sample_row "PENDING" (Some "q")) eq_refl).
Defined.

Lemma cancel_outcome_exclusive_witness :
  ∃ found w', cancel_workflows ["wf-1"] pending_world = (Ok found, w') ∧
    ∃ r', workflow_status (w_db w') !! "wf-1" = Some r' ∧ wf_status r' = status_str Cancelled ∧
      workflow_status (w_db (snd (update_workflow_outcome "wf-1" Success (Some "1") None w'))) !! "wf-1"
      = Some r'.
Proof.
  destruct (cancel_outcome_exclusive ["wf-1"] "wf-1" pending_row pending_world) as (found & w' & H & _ & Hr);
    [by left|reflexivity|].
  exists found, w'. split; [exact H|]. destruct Hr as (r' & Hr' & Hs & _ & Ho).
  exists r'. split; [exact Hr'|]. split; [exact Hs|]. apply Ho. by left.
Defined.

Lemma refs_ok_rows rows : refs_ok (db_with rows).
Proof. split; intros * H; simpl in H; by rewrite lookup_empty in H. Qed.

Definition finished_world : World := world_with [("wf-1", sample_row "SUCCESS" None)].

Lemma garbage_collect_safe_witness :
  ∃ w', garbage_collect (Some 900) None finished_world = (Ok tt, w') ∧ refs_ok (w_db w').
Proof.
  destruct (garbage_collect_safe (Some 900) None finished_world) as (w' & H & Hr & _);
    [apply refs_ok_rows|]. by exists w'.
Defined.

Definition fork_input : ForkWorkflowInput := {|
  fk_original_workflow_id := "wf-1";
  fk_forked_workflow_id := Some "wf-fork";
  fk_start_step := 1;
  fk_application_version := None;
  fk_queue_name := None;
  fk_queue_partition_key := None;
|}.

(** One step is before the fork, one is not. *)
Definition stepped_db : Db := (db_with [("wf-1", pending_row)]) <| operation_outputs := list_to_map
  [(("wf-1", 0), mkOp "a" (Some "1") None None None None None);
   (("wf-1", 1), mkOp "b" (Some "2") None None None None None)] |>.

Lemma stepped_db_refs : refs_ok stepped_db.
Proof.
  split; intros * H; simpl in H; [|by rewrite lookup_empty in H..].
  exists pending_row.
  apply lookup_insert_Some in H as [[[= <- <-] _]|[_ H]]; [reflexivity|].
  apply lookup_insert_Some in H as [[[= <- <-] _]|[_ H]]; [reflexivity|].
  by rewrite lookup_empty in H.
Qed.

Lemma fork_copies_prefix_witness :
  ∃ w', fork_workflow fork_input (initial_world stepped_db) = (Ok "wf-fork", w') ∧
    operation_outputs (w_db w') !! ("wf-fork", 0) = Some (mkOp "a" (Some "1") None None None None None) ∧
    operation_outputs (w_db w') !! ("wf-fork", 1) = None.
Proof.
  destruct (fork_copies_prefix fork_input "wf-fork" pending_row (initial_world stepped_db))
    as (w' & H & _ & _ & Hops & _);
    [apply stepped_db_refs | reflexivity | reflexivity | reflexivity | reflexivity |].
  exists w'. split; [exact H|]. rewrite !Hops. by split.
Defined.

(** ** Steps with retries *)

(** A body that fails until the clock has been read twice. *)
Definition flaky : M Z :=
  now ← now_epoch_ms; if decide (now < 2) then raise (other "not yet") else mret 9.

Lemma retry_until_success_witness :
  (∀ i, (i < 2)%nat → failed (nth_attempt flaky pending_world i).1) ∧
  fst (execute_step_with_retry (mkStepOptions 3 None None None) "step" "wf-1" flaky pending_world) = Ok (Some 9).
Proof.
  assert (∀ i, (i < 2)%nat → failed (nth_attempt flaky pending_world i).1) as Hf.
  { intros [|[|i]] Hi; [vm_compute; exact I | vm_compute; exact I | lia]. }
  split; [exact Hf|].
  destruct (nth_attempt flaky pending_world 2) as [r w'] eqn:E.
  assert (r = Ok 9) as -> by (vm_compute in E; congruence).
  destruct (retry_until_success flaky pending_world (mkStepOptions 3 None None None) "step" "wf-1")
    as (H & _ & _ & Hp); [simpl; lia|].
  rewrite (H 2%nat 9 w'); [reflexivity | simpl; lia | exact Hf | | exact E].
  apply Hp; [done|reflexivity|by eexists].
Defined.

(** A second retry waits three times the base, within the limit of a second. *)
Lemma retry_delay_bounds_witness :
  let opts := mkStepOptions 3 None (Some (Duration.from_secs 1)) (Some (Float64.f64_of_Z 3)) in
  retry_delay opts 2 = Some (Duration.from_millis 300) ∧
  Duration.from_millis 300 ≤ Duration.from_secs 1.
Proof.
  intros opts. assert (retry_delay opts 2 = Some (Duration.from_millis 300)) as Hd
    by (vm_compute; reflexivity). split; [exact Hd|].
  destruct (retry_delay_bounds opts 2 _ Hd) as (_ & H).
  destruct (H ltac:(done)) as (_ & _ & Hs). apply (Hs 1); [lia|reflexivity].
Defined.

(** ** The context *)

Definition ctx0 : WorkflowContext := mkContext (mkState "wf-1" 0 AuthIdentity_default) false.
Definition running_world : World := pending_world <| w_counters := {[0%nat := -1]} |>.

Lemma running_live : live "wf-1" (w_db running_world).
Proof. exists pending_row. split; [reflexivity|]. by vm_compute. Qed.

Definition after_send : Result unit * World := send ctx0 "wf-1" (7 : Z) (Some "topic") running_world.

Lemma send_atomic_witness :
  send ctx0 "wf-1" (7 : Z) (Some "topic") running_world = (fst after_send, snd after_send) ∧
  fst after_send = Ok tt ∧
  ∃ u, notifications (w_db running_world) !! u = None ∧
       is_Some (notifications (w_db (snd after_send)) !! u).
Proof.
  assert (send ctx0 "wf-1" (7 : Z) (Some "topic") running_world = (fst after_send, snd after_send)) as Hrun
    by apply surjective_pairing.
  split; [exact Hrun|]. split; [vm_compute; reflexivity|].
  pose proof (send_atomic ctx0 "wf-1" (7 : Z) (Some "topic") running_world _ _ Hrun) as Hs. cbv zeta in Hs.
  change (ctx_within_step ctx0) with false in Hs. cbn iota in Hs.
  destruct Hs as [(e & [He _] & _)|[_ [(o & Ho & _)|[_ [(e & [He _] & _)|(enc & out & _ & _ & Hs)]]]]].
  1, 3: vm_compute in He; discriminate He.
  - vm_compute in Ho. discriminate Ho.
  - exists (new_v4 (w_uuids running_world)). split; [reflexivity|].
    change (notifications (w_db running_world) !! _) with (@None nt_row) in Hs.
    change (workflow_status (w_db running_world) !! "wf-1") with (Some pending_row) in Hs. cbn iota in Hs.
    destruct Hs as [_ ->]. simpl. rewrite lookup_insert_eq. eauto.
Defined.

Lemma sleep_keeps_deadline_witness :
  ∃ w1, sleep_deadline (H := steady_env) ctx0 0 (Duration.from_secs 5) running_world = (Ok 6000, w1).
Proof.
  destruct (sleep_keeps_deadline (HE := steady_env) ctx0 0 (Duration.from_secs 5) running_world) as (w1 & o & H & _);
    [exact running_live | reflexivity | vm_compute; split; congruence |]. by exists w1.
Defined.

Lemma sleep_max_returns_at_once_witness :
  fst (record_sleep (H := steady_env) ctx0 0 Duration.MAX false running_world) = Ok 0.
Proof. apply (sleep_max_returns_at_once (HE := steady_env)); [exact running_live | reflexivity]. Defined.

(** ** Replay *)

(** Charge once, then wait: the step's result is the workflow's.  The second
    execution would charge another amount and wait longer. *)
Definition charge_body (amount : Z) (d : Duration.t) : prog Z :=
  Do (OStep "charge" (λ _, mret amount)) (λ r, Do (OSleep d) (λ _, Return r)).

Definition first_body : prog Z := charge_body 7 (Duration.from_secs 5).
Definition second_body : prog Z := charge_body 8 (Duration.from_secs 60).

Lemma alone : single_writer "wf-1".
Proof. intros n d. by split. Qed.

Lemma charge_ok id I (amount : Z) :
  serde_faithful 127 amount → steps_ok id I (λ _ : WorkflowContext, mret amount).
Proof.
  intros Ha k ctx _. split; [apply frame_ret|]. by intros w v w1 [= <- _].
Qed.

Lemma same_charges id I I' a a' d d' :
  serde_faithful 127 a → serde_faithful 127 a' → same_prog id I I' (charge_body a d) (charge_body a' d').
Proof.
  intros Ha Ha'. apply same_Do; [apply same_Step; by apply charge_ok|].
  intros r r' Hr. apply same_Do; [apply same_Sleep|]. intros _ _ _. by apply same_Return.
Qed.

(** Any executions. *)
Definition any_executions : executions := λ _ _, True.

Lemma same_bodies : same_prog "wf-1" any_executions any_executions first_body second_body.
Proof. apply same_charges; apply i64_faithful; vm_compute; split; congruence. Qed.

(** The process crashes after the first operation, or does not. *)
Definition crashed_world : World := snd (run_prog 9 1 first_body ctx0 running_world).
Definition completed_world : World := snd (run_prog 9 2 first_body ctx0 running_world).

(** A new process over the database the crash left. *)
Definition ctx1 : WorkflowContext := mkContext (mkState "wf-1" 5 AuthIdentity_default) false.
Definition restarted (w : World) : World := (initial_world (w_db w)) <| w_counters := {[5%nat := -1]} |>.

Lemma fresh_steps : clear_after "wf-1" (-1) first_body running_world.
Proof. intros fid _ [o Ho]. by vm_compute in Ho. Qed.

Lemma crash_recovery_resumes_witness :
  ∃ j q' w'', restart "wf-1" 5 0 w'' ∧ idle (w_db (restarted crashed_world)) (w_db w'') ∧
    catches_up ctx1 9 j 1 second_body q' (restarted crashed_world) w''.
Proof.
  destruct (crash_recovery_resumes "wf-1" 0 5 alone ctx0 ctx1 eq_refl eq_refl eq_refl eq_refl eq_refl eq_refl
    any_executions any_executions Logic.I 9 9 1 first_body second_body running_world
    (inl (Do (OSleep (Duration.from_secs 5)) (λ _, Return (Ok 7)))) crashed_world (-1)
    (restarted crashed_world)) as (j & q' & w'' & _ & H1 & H2 & H3).
  - exact same_bodies.
  - reflexivity.
  - lia.
  - exact fresh_steps.
  - reflexivity.
  - reflexivity.
  - intros fid Hfid. assert (fid = 0) as -> by (change (ids_taken _ _ _ _ _) with 1 in Hfid; lia).
    eexists. vm_compute. reflexivity.
  - split; [reflexivity|]. exists pending_row. split; [vm_compute; reflexivity | by vm_compute].
  - intros fid _. reflexivity.
  - exists j, q', w''. split_and!; [exact H1 | exact H2 | exact H3].
Defined.

Lemma replay_deterministic_witness :
  ∃ budget' w'', ∀ m, run_prog 9 (budget' + m) second_body ctx1 (restarted completed_world)
                      = (Ok (inr (Ok 7)), w'').
Proof.
  destruct (replay_deterministic "wf-1" 0 5 alone ctx0 ctx1 eq_refl eq_refl eq_refl eq_refl eq_refl eq_refl
    any_executions any_executions Logic.I 9 9 2 first_body second_body running_world (Ok 7) completed_world
    (-1) (restarted completed_world)) as (b & r' & w'' & Hr & _ & H).
  - exact same_bodies.
  - reflexivity.
  - lia.
  - exact fresh_steps.
  - vm_compute. reflexivity.
  - reflexivity.
  - intros fid Hfid. change (ids_taken _ _ _ _ _) with 2 in Hfid.
    assert (fid = 0 ∨ fid = 1) as [-> | ->] by lia; eexists; vm_compute; reflexivity.
  - split; [reflexivity|]. exists pending_row. split; [vm_compute; reflexivity | by vm_compute].
  - intros fid _. reflexivity.
  - exists b, w''. destruct r' as [z|e]; [|destruct Hr]. change (7 = z) in Hr. subst z. exact H.
Defined.

(** ** Workflows *)

Definition next_number : WorkflowContext → Z → M Z := λ _ n, mret (n + 1).

Definition greet_entry : RegistryEntry := mkEntry (erase next_number) 100 "greet" None None.

Definition sample_inner : DbosInner := mkInner "local" "v1" None {["greet" := greet_entry]}.

Definition with_id (id : string) : WorkflowOptions := mkOptions (Some id) None None None None.
Definition queue_as (id d : string) : EnqueueOptions := mkEnqueue (Some id) (Some d) None None None None.

Definition empty_world : World := initial_world empty_db.

Lemma greet_registered : registry sample_inner !! "greet" = Some greet_entry.
Proof. apply lookup_singleton_eq. Qed.

Lemma start_is_idempotent_witness :
  ∃ w', start_workflow sample_inner "greet" (Some "other input") (with_id "wf-1") None Portable false pending_world
        = (Ok (mkHandle "wf-1" Polling), w') ∧ w_tasks w' = [].
Proof.
  destruct (start_is_idempotent sample_inner "greet" (Some "other input") (with_id "wf-1") Portable pending_world
    greet_entry "wf-1" pending_row) as (w' & r' & H & Ht & _);
    [exact greet_registered | here | here | here | by vm_compute | here |]. by exists w'.
Defined.

Lemma start_fresh_spawns_once_witness :
  ∃ w' ch, start_workflow sample_inner "greet" (Some "input") (with_id "wf-9") None Portable false pending_world
           = (Ok (mkHandle "wf-9" (Owned ch)), w') ∧ length (w_tasks w') = 1%nat.
Proof.
  destruct (start_fresh_spawns_once sample_inner "greet" (Some "input") (with_id "wf-9") Portable pending_world
    greet_entry "wf-9") as (w' & ch & H & _ & Ht & _);
    [exact greet_registered | here | here | vm_compute; reflexivity |].
  exists w', ch. split; [exact H | by rewrite Ht].
Defined.

Lemma enqueue_deduplicates_witness :
  ∃ w', enqueue_workflow sample_inner "q" "greet" (Some "input") (queue_as "wf-9" "once") empty_world
        = (Ok (mkHandle "wf-9" Polling), w') ∧
    ∃ w3, enqueue_workflow sample_inner "q" "greet" (Some "more") (queue_as "wf-10" "once") w'
          = (Err (queue_deduplicated "wf-10" "q" "once"), w3) ∧ w_db w3 = w_db w'.
Proof.
  destruct (enqueue_deduplicates sample_inner "q" "greet" (Some "input") (queue_as "wf-9" "once") empty_world
    greet_entry "wf-9" "once") as (w' & r & H & Hd & _ & _ & _ & _ & _ & Hdup);
    [exact greet_registered | here | here | vm_compute; reflexivity | here | here |].
  exists w'. split; [exact H|]. apply (Hdup w' r (Some "more") (queue_as "wf-10" "once") "wf-10").
  - rewrite Hd. apply lookup_insert_eq.
  - reflexivity.
  - reflexivity.
  - reflexivity.
  - reflexivity.
  - rewrite Hd. simpl. rewrite lookup_insert_ne by (by vm_compute). apply lookup_empty.
Defined.

Definition child_run : Result WorkflowHandle * World :=
  run_child_workflow sample_inner ctx0 "greet" (1 : Z) WorkflowOptions_default running_world.

Lemma child_run_ok : child_run = (Ok (mkHandle "wf-1-0" (Owned 0)), snd child_run).
Proof. vm_compute. reflexivity. Qed.

Lemma child_started_once_witness :
  ∃ w3, run_child_workflow sample_inner ctx0 "greet" (2 : Z) WorkflowOptions_default
          ((snd child_run) <| w_counters := {[0%nat := -1]} |>)
        = (Ok (mkHandle "wf-1-0" Polling), w3) ∧ w_db w3 = w_db (snd child_run).
Proof.
  destruct (child_started_once sample_inner ctx0 "greet" (1 : Z) WorkflowOptions_default running_world
    (mkHandle "wf-1-0" (Owned 0)) (snd child_run) child_run_ok) as (o & _ & _ & H).
  destruct (H ctx0 "greet" (2 : Z) WorkflowOptions_default ((snd child_run) <| w_counters := {[0%nat := -1]} |>))
    as (w3 & Hrun & Hd & _); [reflexivity..|reflexivity|]. exists w3. split; [exact Hrun | exact Hd].
Defined.

Definition greet_task : task :=
  mkTask "wf-1" "greet" (result_ok (encode_input (1 : Z) Portable)) Portable 0 AuthIdentity_default (Started 0).

Lemma greet_body :
  re_handler greet_entry ctx0 (t_input greet_task) (t_format greet_task) running_world
  = (encode_value (2 : Z) Portable, running_world).
Proof. vm_compute. reflexivity. Qed.

Lemma handles_agree_witness :
  ∃ w2, run_task sample_inner greet_task running_world = (Ok tt, w2) ∧
    fst (get_result 1 Z (mkHandle "wf-1" (Owned 0)) w2) = fst (get_result 1 Z (mkHandle "wf-1" Polling) w2).
Proof.
  destruct (handles_agree sample_inner 0 Z greet_task 0 greet_entry (encode_value (2 : Z) Portable)
    running_world running_world pending_row) as (w2 & Hrun & H);
    [exact greet_registered | here | here | exact greet_body | here | here | apply not_elem_of_empty |].
  exists w2. split; [exact Hrun|]. cbv zeta in H. rewrite decide_False in H by (by vm_compute).
  apply (proj1 H).
Defined.

(** ** Recovery *)

Lemma recovery_spec_witness :
  ∃ recovered new w', recover_pending_workflows sample_inner ["local"] pending_world = (Ok recovered, w') ∧
    ∃ r', workflow_status (w_db w') !! "wf-1" = Some r' ∧
          recovers sample_inner "wf-1" pending_row r' (tasks_of "wf-1" new) (bool_decide ("wf-1" ∈ recovered)).
Proof.
  destruct (recovery_spec sample_inner ["local"] pending_world) as (rec & new & w' & H & _ & _ & Hall).
  exists rec, new, w'. split; [exact H|]. specialize (Hall "wf-1").
  change (workflow_status (w_db pending_world) !! "wf-1") with (Some pending_row) in Hall.
  destruct Hall as (r' & Hr' & Hp & _). exists r'. split; [exact Hr'|]. apply Hp.
  split; [reflexivity|]. split; [exists "local"; split; [reflexivity|by left]|reflexivity].
Defined.

(** ** Queue runners *)

Definition greet_queue : WorkflowQueue := mkQueue "q" (Some 1) None false None 100 false
  DEFAULT_BASE_POLLING DEFAULT_MAX_POLLING.

Lemma turn_dispatches_claims_witness :
  ∃ b w' claimed new, run_partition sample_inner greet_queue None queue_world = (Ok b, w') ∧
    w_tasks w' = new ∧
    Forall2 (dispatched ("q", "")) (filter (known sample_inner) claimed) new.
Proof.
  destruct (turn_dispatches_claims sample_inner greet_queue None queue_world)
    as (b & w' & claimed & new & now & H & _ & _ & _ & Ht & Hf & _).
  exists b, w', claimed, new. split_and!; [exact H | exact Ht | exact Hf].
Defined.

Lemma greet_behaves : well_behaved sample_inner.
Proof.
  intros name entry ctx input fmt w Hreg. simpl in Hreg. apply lookup_singleton_Some in Hreg as [_ <-].
  assert (snd (re_handler greet_entry ctx input fmt w) = w) as ->.
  { simpl. unfold erase, mbind, M_bind, lift. by destruct (decode_input Z input _). }
  split; [done|]. exists []. by rewrite app_nil_r.
Qed.

Definition after_turn : World := snd (run_partition sample_inner greet_queue None queue_world).

(** The body of that turn panics. *)
Definition panicked : Process :=
  mkProcess (snd (panic_task 0 after_turn)) (w_tasks after_turn).

Lemma panicked_reached : rtc (event sample_inner [greet_queue]) (mkProcess queue_world []) panicked.
Proof.
  apply (rtc_l _ _ (mkProcess after_turn [])).
  { eapply (turn _ _ greet_queue None); [by left | apply surjective_pairing]. }
  eapply rtc_once, (panic _ _ 0); [by vm_compute | apply surjective_pairing].
Qed.

Lemma worker_limits_hold_witness :
  slots_ok panicked ∧ within_limits [greet_queue] panicked ∧ held ("q", "") panicked = 1%nat ∧
  w_tasks (p_world panicked) = [].
Proof.
  destruct (worker_limits_hold sample_inner [greet_queue] (w_db queue_world) panicked) as [Hok Hlim];
    [exact greet_behaves | apply NoDup_singleton | exact panicked_reached |].
  split_and!; [exact Hok | exact Hlim | vm_compute; reflexivity | vm_compute; reflexivity].
Defined.

(** One panic, and a queue with one slot is served no more. *)
Lemma panics_starve_queue_witness :
  ∃ b w', run_partition sample_inner greet_queue None (p_world panicked) = (Ok b, w') ∧
    w_db w' = w_db (p_world panicked) ∧ w_tasks w' = w_tasks (p_world panicked).
Proof.
  apply (panics_starve_queue sample_inner [greet_queue] (w_db queue_world) panicked panicked greet_queue 1 None);
    [exact greet_behaves | apply NoDup_singleton | exact panicked_reached | reflexivity | vm_compute; congruence
     | apply rtc_refl].
Defined.

(** ** Shutting down *)

Lemma greet_starts_nothing : starts_nothing sample_inner.
Proof.
  intros name entry ctx input fmt w Hreg. simpl in Hreg. apply lookup_singleton_Some in Hreg as [_ <-].
  simpl. unfold erase, mbind, M_bind, lift. by destruct (decode_input Z input _).
Qed.

(** A body, the listener, a runner and a live reader are in flight. *)
Definition busy : Running :=
  mkRunning after_turn [Run_listener; Run_queue greet_queue] [("wf-1", "key")] [] false false false.

Lemma shutdown_drains_witness :
  ∃ evs, length evs = 4%nat ∧ tracker_done (shutdown sample_inner evs busy) = true.
Proof.
  apply (shutdown_drains sample_inner busy); [exact greet_starts_nothing|].
  apply (bool_decide_unpack (Forall _ _)). vm_compute. exact I.
Defined.

(** With time for two of them only, the pool is closed all the same. *)
Lemma shutdown_times_out :
  let s := shutdown sample_inner [Loop_ends 0; Body_ends 0] busy in
  rn_pool_closed s = true ∧ w_tasks (rn_world s) = [] ∧ rn_loops s = [Run_queue greet_queue] ∧ tracker_done s = false.
Proof. vm_compute. by split_and!. Qed.

(** ** The runtime *)

Lemma run_workflow_returns_witness :
  ∃ ch t w1, run_workflow sample_inner "greet" (41 : Z) (with_id "wf-9") empty_world
             = (Ok (mkHandle "wf-9" (Owned ch)), w1) ∧
    ∃ w4, run_task sample_inner t (world_with [("wf-9", pending_row)]) = (Ok tt, w4) ∧
      fst (get_result 1 Z (mkHandle "wf-9" (Owned ch)) w4) = Ok (Some 42) ∧
      fst (get_result 1 Z (mkHandle "wf-9" Polling) w4) = Ok (Some 42).
Proof.
  destruct (run_workflow_returns sample_inner "greet" 100 next_number (41 : Z) (with_id "wf-9") empty_world "wf-9")
    as (ch & t & w1 & H & _ & Hrun);
    [exact greet_registered | here | here | vm_compute; reflexivity
     | apply i64_faithful; vm_compute; split; congruence |].
  exists ch, t, w1. split; [exact H|].
  destruct (Hrun (world_with [("wf-9", pending_row)]) (Ok 42) (world_with [("wf-9", pending_row)]) pending_row)
    as (w4 & Ht & Ho & Hp).
  - reflexivity.
  - vm_compute. reflexivity.
  - reflexivity.
  - by vm_compute.
  - apply not_elem_of_empty.
  - intros y [= <-]. apply i64_faithful. vm_compute. split; congruence.
  - exists w4. split_and!; [exact Ht | exact Ho | exact Hp].
Defined.

(** ** Durability *)

(** The same body as a function: charge, wait, return the charge. *)
Definition charge (ctx : WorkflowContext) (amount : Z) : M Z :=
  r ← attempt (run_step ctx "charge" (λ _, mret amount));
  _ ← attempt (sleep ctx (Duration.from_secs 5));
  lift r.

Definition charging (amount : Z) : prog Z := charge_body amount (Duration.from_secs 5).

Lemma charge_performs : performs charge charging 7.
Proof.
  intros fuel [|[|budget]] ctx w r w'; cbn [run_prog charging charge_body exec_op]; unfold charge;
    unfold mbind, M_bind, fmap, M_fmap, attempt, mret, M_ret, lift.
  - done.
  - unfold mbind, M_bind. by destruct (run_step ctx "charge" _ w) as [[v|e] w1].
  - unfold mbind, M_bind. destruct (run_step ctx "charge" _ w) as [[v|e] w1];
      destruct (sleep ctx _ w1) as [[d|e'] w2]; destruct budget; by intros [= <- <-].
Qed.

Definition charging_inner : DbosInner :=
  mkInner "local" "v1" None {["charge" := mkEntry (erase charge) 3 "charge" None None]}.

(** Its first operation, and another task that enqueues a workflow after it. *)
Definition charge_op : op Z := OStep "charge" (λ _, mret 7).
Definition charge_rest : prog Z := Do (OSleep (Duration.from_secs 5)) (λ _, Return (Ok 7)).
Definition charged (w : World) : World := snd (exec_op 0 ctx0 charge_op w).
Definition enqueued_aside (w : World) : World :=
  snd (enqueue charging_inner "q" "charge" (1 : Z) (mkEnqueue (Some "wf-2") None None None None None) w).

Lemma enqueued_is_aside w :
  w_counters (enqueued_aside w) = w_counters w →
  workflow_status (w_db (enqueued_aside w)) !! "wf-1" = workflow_status (w_db w) !! "wf-1" →
  operation_outputs (w_db (enqueued_aside w)) = operation_outputs (w_db w) →
  aside "wf-1" 0 w (enqueued_aside w).
Proof.
  intros Hc Hr Ho. split; [by rewrite Hc|unfold live; by rewrite Hr|]. intros fid. unfold ops. by rewrite Ho.
Qed.

Lemma charge_trace w :
  fst (exec_op 0 ctx0 charge_op w) = Ok (Some 7) → aside "wf-1" 0 (charged w) (enqueued_aside (charged w)) →
  trace "wf-1" 0 ctx0 (charging 7) w charge_rest (enqueued_aside (charged w)) 1.
Proof.
  intros Hop Has. change 1 with (op_ids charge_op + 0). unfold charging, charge_body. fold charge_op.
  eapply (trace_op "wf-1" 0 ctx0 0 charge_op _ (Ok 7) w (charged w)); [|exact Has|apply trace_stop].
  unfold charged. change (completed (Ok 7)) with (Ok (Some 7)). rewrite <- Hop. apply surjective_pairing.
Qed.

(** Started, run up to its first operation, and then the process is gone. *)
Definition charge_begun : World := snd (run_workflow charging_inner "charge" (7 : Z) (with_id "wf-1") empty_world).
Definition charge_stopped : World := enqueued_aside (charged charge_begun).
Definition charge_gone : World := initial_world (w_db charge_stopped).

Lemma charge_history : history charging_inner "charge" 3 charging (7 : Z) "wf-1" (with_id "wf-1") 1 charge_gone.
Proof.
  apply (elsewhere _ _ _ _ _ _ _ 1 charge_stopped); [|apply same_workflow_crash].
  eapply (ran _ _ _ _ _ _ _ 1 charge_begun 0 AuthIdentity_default charge_rest charge_stopped 1).
  - eapply (began _ _ _ _ _ _ _ empty_world charge_begun (mkHandle "wf-1" (Owned 0))); [done|done|].
    vm_compute. reflexivity.
  - reflexivity.
  - apply charge_trace; [vm_compute; reflexivity|]. apply enqueued_is_aside; vm_compute; reflexivity.
  - intros fid Hfid. assert (fid = 0) as -> by lia. eexists. vm_compute. reflexivity.
  - reflexivity.
  - vm_compute. reflexivity.
Qed.

Lemma workflow_survives_crashes_witness :
  ∃ ids w1 new t n, recover_pending_workflows charging_inner ["local"] charge_gone = (Ok ids, w1) ∧
    w_tasks w1 = new ∧ tasks_of "wf-1" new = [t] ∧ recorded "wf-1" (-1) n charge_gone ∧
    ∃ j q w3, idle (w_db w1) (w_db w3) ∧
      catches_up (context_of t) 0 j n (charging 7) q w1 w3.
Proof.
  destruct (workflow_survives_crashes charging_inner "charge" 3 charge charging (7 : Z) eq_refl "wf-1"
    (with_id "wf-1") alone 1 charge_gone) as (ids & new & t & w1 & n & q & Hrun & Ht & Hnew & _ & Hc & Hrec & _ & H).
  - exact charge_performs.
  - apply same_charges; apply i64_faithful; vm_compute; split; congruence.
  - reflexivity.
  - reflexivity.
  - reflexivity.
  - apply i64_faithful; vm_compute; split; congruence.
  - exact charge_history.
  - vm_compute. reflexivity.
  - destruct (H w1) as [Hres _]; [by split | exact Hc |].
    destruct (Hres 0%nat) as (j & q' & w3 & _ & _ & Hidle & Hcatch).
    exists ids, w1, new, t, n. split_and!; [exact Hrun | exact Ht | exact Hnew | exact Hrec|].
    exists j, q', w3. split; [exact Hidle | exact Hcatch].
Defined.

(** Enqueued, claimed, run up to its first operation, lost, put back. *)
Definition charge_queue : WorkflowQueue := greet_queue.
Definition charge_queued : World :=
  snd (enqueue charging_inner "q" "charge" (7 : Z) (mkEnqueue (Some "wf-1") None None None None None) empty_world).
Definition charge_claimed : World := snd (run_partition charging_inner charge_queue None charge_queued).
Definition charge_half : World := enqueued_aside (charged charge_claimed).
Definition charge_lost : World := initial_world (w_db charge_half).
Definition charge_back : World := snd (recover_pending_workflows charging_inner ["local"] charge_lost).

Lemma charge_queue_history :
  queue_history charging_inner "charge" charging (7 : Z) "wf-1" charge_queue
    (mkEnqueue (Some "wf-1") None None None None None) charge_back.
Proof.
  apply (put_back _ _ _ _ _ _ _ charge_lost ["wf-1"]); [|vm_compute; reflexivity].
  apply (meanwhile _ _ _ _ _ _ _ charge_half); [|apply same_workflow_crash].
  eapply (run_on _ _ _ _ _ _ _ charge_claimed 0 AuthIdentity_default charge_rest charge_half 1).
  - eapply (turned _ _ _ _ _ _ _ charge_queued None); [|apply surjective_pairing].
    eapply (put _ _ _ _ _ _ _ empty_world charge_queued (mkHandle "wf-1" Polling)); [done|done|].
    vm_compute. reflexivity.
  - vm_compute. reflexivity.
  - apply charge_trace; [vm_compute; reflexivity|]. apply enqueued_is_aside; vm_compute; reflexivity.
  - intros fid Hfid. assert (fid = 0) as -> by lia. eexists. vm_compute. reflexivity.
  - reflexivity.
  - vm_compute. reflexivity.
Qed.

Lemma queued_workflow_survives_crashes_witness :
  ∃ b new w1, run_partition charging_inner charge_queue None charge_back = (Ok b, w1) ∧ w_tasks w1 = new ∧
    (tasks_of "wf-1" new = [] ∨
     ∃ t n q, tasks_of "wf-1" new = [t] ∧ recorded "wf-1" (-1) n charge_back ∧
              picks_up charging_inner charging (7 : Z) "wf-1" t n q w1).
Proof.
  destruct (queued_workflow_survives_crashes charging_inner "charge" 3 charge charging (7 : Z) eq_refl "wf-1"
    charge_queue (mkEnqueue (Some "wf-1") None None None None None) alone charge_back) as [_ H].
  - exact charge_performs.
  - apply same_charges; apply i64_faithful; vm_compute; split; congruence.
  - reflexivity.
  - reflexivity.
  - reflexivity.
  - reflexivity.
  - apply i64_faithful; vm_compute; split; congruence.
  - exact charge_queue_history.
  - destruct (H None) as (b & new & w1 & Hrun & Ht & Hcase). exists b, new, w1.
    split; [exact Hrun|]. split; [exact Ht|].
    destruct Hcase as [[_ Hn]|(t & n & q & Htasks & _ & _ & _ & Hrec & _ & Hup)]; [left; exact Hn | right].
    exists t, n, q. split_and!; [exact Htasks | exact Hrec | exact Hup].
Defined.
