(* ===== verification/SystemWitnesses.v ===== *)
(** * The theorems at concrete inputs, continued

    Migrations, configuration, the listener, the client, the scheduler and the
    system as a whole, in the sample surroundings of Witnesses.v. *)
From Stdlib Require Import Ascii QArith_base.
From S2P Require Import Prelude Errors Migrate Json Config Listener ListenLoop JsonText Serialize Codec Database World.
From S2P Require Import Status Lifecycle Steps QueueDb Management Evolution Wire Step Context.
From S2P Require Import Program Workflow Recovery QueueRunner Conductor ConductorLoop Admin Runtime Launch.
From S2P Require Import Client Scheduler System.
From S2P Require Import Witnesses.

Local Open Scope string_scope.
Local Open Scope Z_scope.
Local Open Scope list_scope.
Local Open Scope dbos_scope.

(** ** Migrations *)

(** Servers whose catalog is the list of scripts run: one that answers every
    round trip, and one that loses the sixth. *)
Definition logging_server (fates : nat → fate) : Server (list string) := {|
  run_script script c := (Ok tt, c ++ [script]);
  torn _ script c := c ++ [script];
  invalid_indexes _ _ := [];
  trip_fate := fates;
  connection_error := other "connection reset";
|}.

Definition steady_server : Server (list string) := logging_server (λ _, Delivered).
Definition lossy_server : Server (list string) :=
  logging_server (λ n, if decide (n = 12%nat) then Unacknowledged else Delivered).

Definition sql_file (path : string) : string := "-- " +:+ path.
Definition fresh_server : Pg (list string) := mkPg ∅ [] 0.

Lemma fresh_records : records "dbos" (pg_schemas fresh_server) 0.
Proof. vm_compute. reflexivity. Qed.

(** The first run is cut by the lost answer, the second one finishes. *)
Lemma migrations_survive_crashes_witness :
  let s' := attempts (H := lossy_server) sql_file "dbos" 2 fresh_server in
  (∃ e, fst (run_migrations (H := lossy_server) sql_file "dbos" fresh_server) = Err e) ∧
  ∃ t v' b, upgrades (H := lossy_server) sql_file "dbos" t (mkUpgrade 0 [] false)
              (mkUpgrade v' (pg_catalog s') b) ∧
    progress t = seqZ 1 v' ∧ v' = 40.
Proof.
  cbv zeta. split; [eexists; vm_compute; reflexivity|].
  destruct (migrations_survive_crashes (H := lossy_server) sql_file "dbos" 2 fresh_server 0 fresh_records)
    as (t & v' & b & Hu & Hp & Hle & Hr & _).
  exists t, v', b. split; [exact Hu|]. rewrite Z.sub_0_r in Hp. split; [exact Hp|].
  revert Hr. vm_compute. by intros [-> _].
Defined.

(** The scripts of all forty migrations. *)
Definition all_scripts : list string :=
  match upgrade_catalog (H := steady_server) "dbos" (build_migrations sql_file "dbos") 0 false [] with
  | Ok scripts => scripts
  | Err _ => []
  end.

Lemma run_migrations_completes_witness :
  ∃ s' c', run_migrations (H := steady_server) sql_file "dbos" fresh_server = (Ok tt, s') ∧
    pg_catalog s' = c' ∧ length c' = 40%nat ∧
    pg_schemas s' = {["dbos" := Some [SCHEMA_VERSION]]}.
Proof.
  destruct (run_migrations_completes (H := steady_server) sql_file "dbos" (λ _, eq_refl) fresh_server 0
    all_scripts
    fresh_records) as (s' & Hrun & Hc & Hs & _); [vm_compute; reflexivity|].
  exists s', (pg_catalog s'). split_and!; [exact Hrun|done| |by rewrite Hs].
  rewrite Hc. vm_compute. reflexivity.
Defined.

(** ** Configuration *)

Definition sample_config : Config unit := Config_new "app" "postgres://u:p@h/d".
Definition sample_vars : MapEnv := mkMapEnv {["DBOS__VMID" := "vm-7"]}.

(** A readable executable, lowercase hex, and a digest of the right size. *)
#[export] Instance sample_files : HostFiles := {|
  current_exe := inr "/proc/self/exe"; canonicalize _ := inr "/app/server";
  metadata_is_file _ := inr true; file_bytes _ := inr [Byte.x7f] |}.

Definition hex_digit (n : nat) : ascii :=
  ascii_of_nat (if decide (n < 10)%nat then 48 + n else 87 + n).

Definition high_digit (b : Byte.byte) : ascii := hex_digit (Byte.to_nat b / 16).
Definition low_digit (b : Byte.byte) : ascii := hex_digit (Byte.to_nat b mod 16).

Fixpoint hex_text (bytes : list Byte.byte) : string :=
  match bytes with
  | [] => ""
  | b :: bytes => String (high_digit b) (String (low_digit b) (hex_text bytes))
  end.

Definition unhex (c : ascii) : nat :=
  let n := nat_of_ascii c in if decide (n < 58)%nat then n - 48 else n - 87.

Lemma unhex_byte b : Byte.of_nat (unhex (high_digit b) * 16 + unhex (low_digit b)) = Some b.
Proof. by destruct b. Qed.

Lemma hex_text_inj bytes bytes' : hex_text bytes = hex_text bytes' → bytes = bytes'.
Proof.
  revert bytes'. induction bytes as [|b bytes IH]; intros [|b' bytes']; [done..|].
  cbn [hex_text]. intros [= H1 H2 H3]. f_equal; [|by apply IH].
  apply (inj Some). by rewrite <- (unhex_byte b), <- (unhex_byte b'), H1, H2.
Qed.

#[export] Instance sample_sha : Sha256 := {|
  sha256_digest bytes := take 32 (bytes ++ replicate 32 Byte.x00); hex_encode := hex_text |}.

#[export] Instance sample_sha_laws : Sha256Laws sample_sha.
Proof.
  split; unfold sha256_digest, hex_encode, sample_sha.
  - intros bytes. rewrite length_take, length_app, length_replicate. lia.
  - intros bytes. induction bytes as [|b bytes IH]; [done|]. cbn [hex_text String.length length]. lia.
  - apply hex_text_inj.
Qed.

Definition sample_hash : string := compute_application_version.

Lemma process_config_spec_witness :
  ∃ pc, process_config_with_env sample_config sample_vars = Ok pc ∧
    pc_executor_id pc = "vm-7" ∧ pc_application_version pc = sample_hash ∧ inl (pc_dialect pc) = inl (B := string) Postgres.
Proof.
  destruct (process_config_spec sample_config sample_vars) as [_ Hok].
  destruct (process_config_with_env sample_config sample_vars) as [pc|e] eqn:E;
    [|by vm_compute in E].
  destruct (Hok pc eq_refl) as (Hd & _ & _ & He & Hv & _). exists pc. split; [done|].
  split_and!; [rewrite He | rewrite Hv | rewrite Hd]; vm_compute; reflexivity.
Defined.

Lemma mask_password_hides_witness :
  mask_password "postgres://app:hunter2@db/main" = "postgres://app:***@db/main" ∧
  mask_password "host=db Password = hunter2 user=app" = "host=db password=*** user=app".
Proof.
  split.
  - apply (proj1 (mask_password_hides "postgres" "db/main") "app" "hunter2"); by vm_compute.
  - apply (proj2 (mask_password_hides "host=db " " user=app") "Password" " " " " "hunter2"); by vm_compute.
Defined.

(** ** The listener *)

Definition one_receiver : Listener :=
  match enter_vacant 0 notifications_waiters "wf-1::topic" no_listener with
  | Some s => notified 0 s
  | None => no_listener
  end.

(** The loop has subscribed before the receiver comes. *)
Definition one_listening : Loop := mkLoop Listening [] false one_receiver.

Lemma one_listening_reachable : rtc any_step started one_listening.
Proof.
  eapply rtc_l; [exists None; by eapply (Turn Subscribed)|]. vm_compute wake_all.
  eapply rtc_l; [exists (Some 0%nat); eapply Operates, (op_recv 0 "wf-1::topic"); by vm_compute|].
  eapply rtc_l; [exists (Some 0%nat); eapply Operates, op_turn|]. reflexivity.
Qed.

(** The notification, and another one after it, are received. *)
Definition drained : Loop := mkLoop Listening [] false (on_notification "other" "x"
  (on_notification NOTIFICATIONS_CHANNEL "wf-1::topic" one_receiver)).

Lemma listener_wakes_receiver_witness : receiver 0 "wf-1::topic" awake (lp_waiters drained).
Proof.
  apply (listener_wakes_receiver one_listening drained 0 "wf-1::topic" one_listening_reachable);
    [|eapply rtc_l; [exists None; split; [done|by apply (Notifies "other" "x")]|]|reflexivity..].
  - eexists. split_and!; [vm_compute; reflexivity|reflexivity|reflexivity|done].
  - eapply rtc_l; [exists None; split; [done|by apply (Turn Received)]|].
    eapply rtc_l; [exists None; split; [done|by apply (Turn Received)]|]. reflexivity.
Defined.

(** Two readers of one event; the first one ends. *)
Definition two_readers : Listener :=
  notified 0 (enter_shared 1 events_waiters "wf-1::key" (enter_shared 0 events_waiters "wf-1::key" no_listener)).

Lemma readers_reachable : rtc step no_listener two_readers.
Proof.
  eapply rtc_l; [by apply (reader_enters 0 events_waiters "wf-1::key")|].
  eapply rtc_l; [by apply (reader_enters 1 events_waiters "wf-1::key")|].
  eapply rtc_l; [apply (waiter_turns 0)|]. reflexivity.
Qed.

Definition starved : Listener :=
  wake_all (on_notification WORKFLOW_EVENTS_CHANNEL "wf-1::key" (drop_guard 1 two_readers)).

Lemma shared_waiter_starves_witness :
  ls_waiters starved !! 0%nat = Some (mkWaiter events_waiters "wf-1::key" 0 (Some false)) ∧
  wt_future (mkWaiter events_waiters "wf-1::key" 0 (Some false)) ≠ Some true.
Proof.
  assert (ls_waiters starved !! 0%nat = Some (mkWaiter events_waiters "wf-1::key" 0 (Some false))) as H
    by (vm_compute; reflexivity).
  split; [exact H|].
  apply (shared_waiter_starves two_readers starved 0 1 (mkWaiter events_waiters "wf-1::key" 0 (Some false))
    (mkWaiter events_waiters "wf-1::key" 0 None));
    [exact readers_reachable | vm_compute; reflexivity | vm_compute; reflexivity | done | done
    | reflexivity | done | | exact H | reflexivity].
  eapply rtc_l; [apply (notification WORKFLOW_EVENTS_CHANNEL "wf-1::key")|].
  eapply rtc_l; [apply poll_tick|]. reflexivity.
Defined.

(** ** The client *)

Lemma client_enqueue_agrees_witness :
  ∃ w1, client_enqueue "q" "greet" (1 : Z) (queue_as "wf-9" "once") empty_world
        = (Ok (mkHandle "wf-9" Polling), w1) ∧
    wf_application_version <$> workflow_status (w_db w1) !! "wf-9" = Some None.
Proof.
  pose proof (client_enqueue_agrees sample_inner "q" "greet" (1 : Z) (queue_as "wf-9" "once") empty_world
    "wf-9" greet_entry greet_registered) as H.
  destruct (enqueue sample_inner "q" "greet" (1 : Z) (queue_as "wf-9" "once") empty_world) as [res w1] eqn:E1.
  destruct (client_enqueue "q" "greet" (1 : Z) (queue_as "wf-9" "once") empty_world) as [res' w1'] eqn:E2.
  destruct H as (Hres & _ & Hrow); [vm_compute; reflexivity | reflexivity | vm_compute; reflexivity |].
  assert (res = Ok (mkHandle "wf-9" Polling)) as -> by (apply (f_equal fst) in E1; revert E1; vm_compute; by intros <-).
  exists w1'. rewrite Hres. split; [done|]. destruct Hrow as (_ & r & Hr & -> & _).
  simpl. by rewrite lookup_insert_eq.
Defined.

(** ** The scheduler *)

(** A schedule that fires every minute. *)
#[export] Instance minute_crate : CronCrate := {|
  Schedule := unit;
  schedule_from_str _ := Some tt;
  schedule_after _ t :=
    let t' := (t / 60000 + 1) * 60000 in if decide (0 ≤ t' < 253402300800000) then Some t' else None;
|}.

#[export] Instance minute_laws : CronLaws minute_crate.
Proof.
  split; cbn [schedule_after minute_crate]; intros _ t t'; cbv zeta; (case_decide; [|done]); intros [= <-].
  - pose proof (Z.mul_div_le t 60000 ltac:(lia)). pose proof (Z.mul_succ_div_gt t 60000 ltac:(lia)). lia.
  - split; [|done]. replace ((t / 60000 + 1) * 60000) with ((t / 60000 + 1) * 60 * 1000) by lia.
    apply Z.mod_mul. lia.
Qed.

(** Twenty characters for a time, the lowest digit in base 256 first. *)
Fixpoint digits (k : nat) (n : Z) : string :=
  match k with
  | O => ""
  | S k => String (ascii_of_N (Z.to_N (n mod 256))) (digits k (n / 256))
  end.

Lemma digits_length k n : String.length (digits k n) = k.
Proof. revert n. induction k as [|k IH]; intros n; simpl; [done|]. by rewrite IH. Qed.

Lemma digits_inj k n n' :
  0 ≤ n < 256 ^ Z.of_nat k → 0 ≤ n' < 256 ^ Z.of_nat k → digits k n = digits k n' → n = n'.
Proof.
  revert n n'. induction k as [|k IH]; intros n n' Hn Hn'; [simpl in *; lia|].
  rewrite Nat2Z.inj_succ, Z.pow_succ_r in Hn, Hn' by lia. cbn [digits]. intros [= Hd Hr].
  apply (f_equal N_of_ascii) in Hd.
  pose proof (Z.mod_pos_bound n 256 ltac:(lia)). pose proof (Z.mod_pos_bound n' 256 ltac:(lia)).
  rewrite !N_ascii_embedding in Hd by lia. apply Z2N.inj in Hd; [|lia..].
  apply IH in Hr; [|split; [apply Z.div_pos; lia | apply Z.div_lt_upper_bound; lia]..].
  rewrite (Z.div_mod n 256), (Z.div_mod n' 256) by lia. lia.
Qed.

#[export] Instance digit_chrono : Chrono := {|
  to_rfc3339_secs := digits 20;
  datetime_value t := VNumber (NInt t);
|}.

#[export] Instance digit_laws : ChronoLaws digit_chrono.
Proof.
  assert (∀ t, whole_second t → 0 ≤ t < 256 ^ Z.of_nat 20) as Hb.
  { intros t [_ Ht]. split; [lia|]. etrans; [apply Ht|]. by vm_compute. }
  split; cbn [to_rfc3339_secs digit_chrono].
  - intros t _. apply digits_length.
  - intros t t' Ht Ht'. apply digits_inj; auto.
Qed.

(** Three minutes of a loop that is cancelled at its third wait. *)
Definition minutes : Result (option unit) * World :=
  run_scheduler sample_inner (λ n, bool_decide (n = 2%nat)) 5 "greet" "* * * * *" empty_world.

Lemma scheduler_once_per_tick_witness :
  length (w_tasks (snd minutes)) = 2%nat ∧ NoDup (t_workflow_id <$> w_tasks (snd minutes)) ∧
  fst minutes = Ok (Some tt).
Proof.
  destruct (scheduler_once_per_tick (HC := minute_crate) sample_inner (λ n, bool_decide (n = 2%nat)) 5 "greet" "* * * * *" tt
    empty_world (fst minutes) (snd minutes) eq_refl (surjective_pairing _)) as [(ts & fired & new & _ & _ & Ht & _ & Hnd & _) _].
  split; [vm_compute; reflexivity|]. split; [|vm_compute; reflexivity].
  rewrite Ht. exact Hnd.
Defined.

(** ** Polling intervals *)

(** The product rounded to the nearest nanosecond. *)
#[export] Instance rounded_mul : MulF64 := {|
  mul_f64 d x := (2 * d * Qnum x + Zpos (Qden x)) / (2 * Zpos (Qden x))
|}.

#[export] Instance rounded_mul_laws : MulF64Laws rounded_mul.
Proof.
  split; intros d [num den]; unfold mul_f64, rounded_mul, Qle; simpl.
  - intros Hd Hx. apply Z.div_le_lower_bound; nia.
  - intros Hd H0 H1. split; [apply Z.div_pos; nia|].
    enough ((2 * d * num + Zpos den) / (2 * Zpos den) < d + 1) by lia.
    apply Z.div_lt_upper_bound; nia.
Qed.

(** ** The system *)

#[export] Instance nobody_deletes : Deletable := λ _, False.

#[export] Instance sample_others : OthersEvolve nobody_deletes sample_env.
Proof. intros n d _. reflexivity. Qed.

Lemma sample_bodies : BodiesEvolve sample_inner.
Proof.
  intros name entry He ctx input fmt. simpl in He. apply lookup_singleton_Some in He as [_ <-].
  apply erase_evolves. intros c x. apply _.
Qed.

#[export] Instance no_dates : Rfc3339 := λ _, None.

Definition performs_here : relation World :=
  performs (λ d, VNumber (NInt d)) None None sample_inner [greet_queue].

(** A workflow is started, its body runs, and the process restarts. *)
Definition begun : World := snd (run_workflow sample_inner "greet" (41 : Z) (with_id "wf-9") empty_world).
Definition done_world : World := crashed (snd (finish_task sample_inner 0 begun)).

Lemma begun_reachable : rtc performs_here empty_world begun.
Proof. apply rtc_once, Performs, Run_workflow. Qed.

Lemma done_reachable : rtc performs_here begun done_world.
Proof.
  unfold done_world. eapply rtc_l; [apply Performs, (Run_task _ _ _ _ _ 0)|]. apply rtc_once, Restarts.
Qed.

Lemma reachable_tables_ok_witness :
  db_ok (w_db done_world) ∧ wf_status <$> workflow_status (w_db done_world) !! "wf-9" = Some "SUCCESS".
Proof.
  split; [|vm_compute; reflexivity].
  apply (reachable_tables_ok (λ d, VNumber (NInt d)) None None sample_inner [greet_queue] done_world sample_bodies).
  change (rtc performs_here empty_world done_world). etrans; [exact begun_reachable | exact done_reachable].
Defined.

Lemma system_refines_lifecycle_witness :
  ∃ r r' l', workflow_status (w_db begun) !! "wf-9" = Some r ∧ workflow_status (w_db done_world) !! "wf-9" = Some r' ∧
    origin r' = origin r ∧ life_of r' = Some l' ∧ decided l' ∧
    rtc life_step (mkLife Pending None None false false false None None) l'.
Proof.
  assert (∃ r, workflow_status (w_db begun) !! "wf-9" = Some r ∧
    life_of r = Some (mkLife Pending None None false false false None None)) as (r & Hr & Hlife)
    by (eexists; split; vm_compute; reflexivity).
  destruct (system_refines_lifecycle (λ d, VNumber (NInt d)) None None sample_inner [greet_queue]
    begun done_world "wf-9" r sample_bodies) as (r' & Hr' & Ho & (l & l' & Hl & Hl' & _ & Hs & _) & _);
    [by intros [] | | exact done_reachable | exact Hr |].
  - eapply evolves_ok; [|apply empty_db_ok]. apply (entry_point_evolves (λ d, VNumber (NInt d)) None None sample_inner
      [greet_queue] (run_workflow sample_inner "greet" (41 : Z) (with_id "wf-9")) sample_bodies
      (Run_workflow _ _ _ _ _ _ _ _) empty_world), empty_db_ok.
  - rewrite Hlife in Hl. injection Hl as <-. exists r, r', l'. split_and!; [done..| |done].
    revert Hr'. vm_compute. intros [= <-]. revert Hl'. vm_compute. intros [= <-]. by left.
Defined.

(** ** Launching and the conductor's connection *)

Definition launch_config : Config unit := {|
  c_app_name := "app"; c_database_url := Some "postgres://u:p@h/d"; c_system_db_pool := None;
  c_database_schema := None; c_admin_server := true; c_admin_server_port := None;
  c_application_version := Some "v1"; c_executor_id := None; c_enable_patching := false;
  c_scheduler_polling_interval := None; c_conductor_url := None; c_conductor_api_key := Some "key";
  c_conductor_executor_metadata := None |}.

Definition launch_builder : DbosBuilder :=
  mkBuilder ∅ {["reports" := WorkflowQueue_new "reports"]} [("tick", "0 * * * *")] None.

Definition bare_os : SystemEnv := mkSystemEnv (λ _, None).
Definition bare_host : Host (list string) := mkHost fresh_server (initial_world empty_db) [].

Definition any_pool (_ : Z) (_ : string) : sqlx_error + () := inr ().

Definition launch_processed : ProcessedConfig unit := {|
  pc_app_name := "app"; pc_database_url := Some "postgres://u:p@h/d"; pc_system_db_pool := None;
  pc_database_schema := "dbos"; pc_admin_server := true; pc_admin_server_port := 3001;
  pc_application_version := "v1"; pc_executor_id := "local"; pc_application_id := "";
  pc_enable_patching := false; pc_scheduler_polling_interval := DEFAULT_SCHEDULER_POLLING_INTERVAL;
  pc_dialect := Postgres; pc_conductor_url := None; pc_conductor_api_key := Some "key";
  pc_conductor_executor_metadata := None |}.

Lemma launch_settles :
  settled bare_os any_pool launch_builder launch_config = Ok launch_processed.
Proof. vm_compute. reflexivity. Qed.

(** A first launch on an empty server. *)
Definition first_launch :=
  launch (H1 := steady_server) bare_os sql_file any_pool launch_builder launch_config bare_host.

Lemma first_launch_ok : match first_launch.1 with Ok _ => true | Err _ => false end = true.
Proof. vm_compute. reflexivity. Qed.

Lemma launch_all_or_nothing_witness :
  ∃ inner queues h', first_launch = (Ok (inner, queues), h') ∧ executor_id inner = "local" ∧
    is_Some (queues !! INTERNAL_QUEUE_NAME) ∧ is_Some (queues !! "reports") ∧
    omap schedule_of (h_spawned h') = [("tick", "0 * * * *")] ∧
    omap port_of (h_spawned h') = [3001] ∧ length (omap conductor_of (h_spawned h')) = 1%nat.
Proof.
  pose proof (launch_all_or_nothing (H1 := steady_server) bare_os sql_file any_pool
    launch_builder launch_config bare_host) as Hl.
  rewrite launch_settles in Hl. specialize (Hl 0 fresh_records). fold first_launch in Hl.
  pose proof first_launch_ok as Hok. destruct first_launch as [[[inner queues]|e] h']; [|done].
  destruct Hl as (_ & Hi & _ & _ & Hsub & Hint & new & Hnew & _ & _ & Hsch & Hcc & Hport).
  exists inner, queues, h'. split; [done|]. simpl in Hnew. rewrite Hnew, Hsch, Hcc, Hport, Hi.
  split_and!; [done|done| |done|done|done].
  exists (WorkflowQueue_new "reports"). by eapply lookup_weaken; [|exact Hsub].
Defined.

(** A peer that is silent for a day. *)
Lemma read_timeout_never_fires_witness :
  0 ≤ Duration.from_millis 50 < Duration.from_secs 10 ∧
  ∃ t, timed (Duration.from_millis 50) (timer_start 0) (replicate 4321 Ping_tick) t ∧
    tm_turn t = Duration.from_secs 86400.
Proof.
  split; [done|].
  destruct (read_timeout_never_fires sample_inner None None (Duration.from_millis 50) 0
    (initial_world empty_db)) as [_ Hn]; [done|].
  destruct (Hn 4320%nat) as (t & w & Ht & Hturn & _). exists t. split; [exact Ht|]. by rewrite Hturn.
Defined.
