(* ===== verification/ScenarioTests.v ===== *)
(** * The acceptance tests of the crate, on the model

    Tests of tests/workflows.rs, management.rs, notifications.rs, queues.rs,
    recovery.rs, streams.rs, cross_sdk_interop.rs and
    cross_sdk_serialization.rs as runs of the model on an empty database: the
    workflows are registered, started, enqueued, interrupted and recovered
    through the definitions the theorems are about, with the assertions of
    the tests.  A body runs as a whole when the test waits for it, so a
    workflow that another one waits for is run first. *)
From S2P Require Import Prelude Errors Json JsonText Serialize Codec Database World Status Steps.
From S2P Require Import Notifications Streams QueueDb Management Step Context Workflow Recovery.
From S2P Require Import QueueRunner Runtime Client UnitTests Witnesses.

Local Open Scope string_scope.
Local Open Scope Z_scope.
Local Open Scope list_scope.
Local Open Scope dbos_scope.

(** ** The harness *)

(** Every reading of a clock takes ten milliseconds, UUIDs come in order, and
    there is no other process. *)
#[local] Instance test_env : Env := {|
  clock n := 10 * Z.of_nat n;
  instant n := 10 * Z.of_nat n;
  new_v4 n := "uuid-" +:+ pretty n;
  others _ d := d;
|}.

(** A test on a fresh process and an empty schema. *)
Definition scenario (test : M bool) : bool := on_ok (fst (test empty_world)) id.

(** The process of a builder. *)
Definition process (b : DbosBuilder) : DbosInner := mkInner "local" "v1" None (b_registry b).

(** Every spawned body runs to its end. *)
Fixpoint settle (fuel : nat) (inner : DbosInner) : M unit :=
  match fuel with
  | O => raise (other "bodies are still running")
  | S fuel =>
      tasks ← gets w_tasks;
      match tasks with [] => mret tt | _ => finish_task inner 0;; settle fuel inner end
  end.

(** [get_result] on a handle whose body can run. *)
Definition result_of (inner : DbosInner) (R : Type) `{Deserialize R} (h : WorkflowHandle) : M R :=
  settle 20 inner;;
  r ← get_result 1 R h;
  match r with Some r => mret r | None => raise (other "still waiting") end.

(** A turn of a queue's runner, then the bodies it has started; [n] times. *)
Fixpoint run_queue_turns (n : nat) (inner : DbosInner) (queue : WorkflowQueue) : M unit :=
  match n with
  | O => mret tt
  | S n => ignore (run_queue_turn inner queue);; settle 20 inner;; run_queue_turns n inner queue
  end.

(** An atomic counter of the test, among those of the process. *)
Definition fetch_add (k : nat) : M Z := λ w,
  let n := default 0 (w_counters w !! k) in (Ok n, w <| w_counters ::= <[k := n + 1]> |>).
Definition load (k : nat) : M Z := gets (λ w, default 0 (w_counters w !! k)).

(** The process ends without finishing anything; the counters [keep] are the
    test's own, and time goes on. *)
Definition crash (keep : nat) : M unit :=
  n ← load keep;
  modify (λ w, (initial_world (w_db w)) <| w_counters := {[keep := n]} |>
                 <| w_reads := w_reads w |> <| w_uuids := w_uuids w |>).

Definition assert_err {A} (m : M A) (p : DbosError → bool) : M bool :=
  r ← attempt m; mret (on_err r p).

Definition any_id : WorkflowOptions := WorkflowOptions_default.
Definition no_options : EnqueueOptions := mkEnqueue None None None None None None.

Definition recorded_steps (id : string) : M (list (Z * string)) :=
  steps ← get_workflow_steps id; mret ((λ s, (si_step_id s, si_step_name s)) <$> steps).

Definition row_of (id : string) : M (option wf_row) := gets (λ w, workflow_status (w_db w) !! id).

(** A row forged by the test. *)
Definition forge (id : string) (r : wf_row) : M unit :=
  modify (λ w, w <| w_db := (w_db w) <| workflow_status ::= <[id := r]> |> |>).

(** ** tests/workflows.rs *)

Module WorkflowScenarios.
Definition basic_workflow_with_steps : bool :=
  let greet (ctx : WorkflowContext) (name : string) : M string :=
    a ← run_step ctx "first" (λ _, mret "a");
    b ← run_step ctx "second" (λ _, mret "b");
    mret (name +:+ "-" +:+ a +:+ b) in
  let dbos := process (register_workflow DbosBuilder_new "greet" greet) in
  scenario (
    handle ← run_workflow dbos "greet" "x" any_id;
    r ← result_of dbos string handle;
    steps ← recorded_steps (handle_workflow_id handle);
    mret (passes [eq_test r "x-ab"; eq_test steps [(0, "first"); (1, "second")]])).

Definition same_workflow_id_runs_body_once : bool :=
  let counter := 1000%nat in
  let count (ctx : WorkflowContext) (_ : unit) : M string :=
    _ ← fetch_add counter; run_step ctx "noop" (λ _, mret tt);; mret "done" in
  let dbos := process (register_workflow DbosBuilder_new "count" count) in
  scenario (
    h1 ← run_workflow dbos "count" tt (with_id "fixed-id");
    r1 ← result_of dbos string h1;
    h2 ← run_workflow dbos "count" tt (with_id "fixed-id");
    r2 ← result_of dbos string h2;
    runs ← load counter;
    mret (passes [eq_test r1 "done"; eq_test r2 "done"; eq_test runs 1])).

(** These steps do not panic. *)
Definition unpanicked {A} (m : M (option A)) : M A :=
  r ← m; match r with Some a => mret a | None => raise (other "panicked") end.

Definition step_retries_then_succeeds : bool :=
  let counter := 1000%nat in
  let flaky (ctx : WorkflowContext) (_ : unit) : M Z :=
    unpanicked (run_step_with ctx "flaky_step" (mkStepOptions 3 (Some (Duration.from_millis 1)) None None) (λ _,
      n ← fetch_add counter;
      if decide (n < 2) then raise (other "transient") else mret n)) in
  let dbos := process (register_workflow DbosBuilder_new "flaky" flaky) in
  scenario (
    handle ← run_workflow dbos "flaky" tt any_id;
    r ← result_of dbos Z handle;
    attempts ← load counter;
    mret (passes [eq_test r 2; eq_test attempts 3])).

Definition step_exhausts_retries : bool :=
  let always_fails (ctx : WorkflowContext) (_ : unit) : M unit :=
    unpanicked (run_step_with ctx "doomed" (mkStepOptions 2 (Some (Duration.from_millis 1)) None None)
      (λ _, raise (other "always"))) in
  let dbos := process (register_workflow DbosBuilder_new "always_fails" always_fails) in
  scenario (
    handle ← run_workflow dbos "always_fails" tt any_id;
    assert_err (result_of dbos unit handle) (λ err,
      str_contains "exceeded its maximum of 2 retries" (error_to_string err))).

(** The parent waits for its child, whose body runs meanwhile: first in the
    list of tasks is the parent, which is running. *)
Definition child_workflow : bool :=
  let double (_ : WorkflowContext) (n : Z) : M Z := mret (n * 2) in
  let children := register_workflow DbosBuilder_new "double" double in
  let parent (ctx : WorkflowContext) (n : Z) : M Z :=
    child ← run_child_workflow (process children) ctx "double" n any_id;
    finish_task (process children) 1;;
    doubled ← get_result 1 Z child;
    if decide (handle_workflow_id child = workflow_id ctx +:+ "-0") then mret (default 0 doubled + 1)
    else raise (other "assertion failed") in
  let dbos := process (register_workflow children "parent" parent) in
  scenario (
    handle ← run_workflow dbos "parent" 21 any_id;
    r ← result_of dbos Z handle;
    mret (eq_test r 43)).

Definition workflow_error_propagates : bool :=
  let boom (_ : WorkflowContext) (_ : unit) : M unit := raise (other "kaboom") in
  let dbos := process (register_workflow DbosBuilder_new "boom" boom) in
  let says err := str_contains "kaboom" (error_to_string err) in
  scenario (
    handle ← run_workflow dbos "boom" tt any_id;
    ok ← assert_err (result_of dbos unit handle) says;
    ok' ← assert_err (result_of dbos unit (retrieve_workflow (handle_workflow_id handle))) says;
    mret (passes [ok; ok'])).

Definition conflicting_registration_is_rejected : bool :=
  let w (_ : WorkflowContext) (_ : unit) : M unit := mret tt in
  let b := register_workflow (register_workflow DbosBuilder_new "w" w) "w" w in
  match b_registration_error b with
  | Some err => eq_test (code_i32 err) (as_i32 ConflictingRegistration)
  | None => false
  end.

Lemma workflow_scenarios_pass :
  passes [basic_workflow_with_steps; same_workflow_id_runs_body_once; step_retries_then_succeeds;
          step_exhausts_retries; child_workflow; workflow_error_propagates;
          conflicting_registration_is_rejected] = true.
Proof. vm_compute. reflexivity. Qed.
End WorkflowScenarios.

(** ** tests/management.rs *)

Module ManagementScenarios.
Definition ids (l : list string) : ListWorkflowsFilter :=
  mkFilter (Some l) None None None false None None None None None None false.

Definition list_workflows_and_steps : bool :=
  let stepper (ctx : WorkflowContext) (_ : unit) : M Z :=
    _ ← run_step ctx "s1" (λ _, mret 1); _ ← run_step ctx "s2" (λ _, mret 2); mret 3 in
  let dbos := process (register_workflow DbosBuilder_new "stepper" stepper) in
  scenario (
    h ← run_workflow dbos "stepper" tt (with_id "list-target");
    r ← result_of dbos Z h;
    listed ← dbos_list_workflows (ids ["list-target"]);
    names ← recorded_steps "list-target";
    mret (passes [
      eq_test r 3;
      eq_test ((λ s, (ws_id s, ws_name s, ws_status s, ws_output s)) <$> listed)
        [("list-target", "stepper", Success, Some (VNumber (NInt 3)))];
      eq_test names [(0, "s1"); (1, "s2")]])).

Definition q : WorkflowQueue := WorkflowQueue_new "q".
Definition internal_queue : WorkflowQueue := WorkflowQueue_new INTERNAL_QUEUE_NAME.

Definition cancel_then_resume : bool :=
  let task (_ : WorkflowContext) (_ : unit) : M string := mret "done" in
  let dbos := process (register_workflow DbosBuilder_new "task" task) in
  scenario (
    h ← enqueue dbos "q" "task" tt (mkEnqueue (Some "cr-1") None None None None None);
    cancel_workflow "cr-1";;
    status ← handle_get_status h;
    resumed ← resume_workflow "cr-1";
    run_queue_turns 1 dbos internal_queue;;
    r ← result_of dbos string resumed;
    missing ← assert_err (cancel_workflow "nope") (λ err,
      eq_test (code_i32 err) (as_i32 NonExistentWorkflow));
    mret (passes [eq_test status (Some Cancelled); eq_test r "done"; missing])).

Definition fork_replays_copied_steps : bool :=
  let a := 1000%nat in let b := 1001%nat in
  let forkable (ctx : WorkflowContext) (_ : unit) : M Z :=
    av ← run_step ctx "a" (λ _, n ← fetch_add a; mret (n + 1));
    bv ← run_step ctx "b" (λ _, n ← fetch_add b; mret (n + 1));
    mret (av * 10 + bv) in
  let dbos := process (register_workflow DbosBuilder_new "forkable" forkable) in
  scenario (
    h ← run_workflow dbos "forkable" tt (with_id "fork-src");
    r ← result_of dbos Z h;
    a1 ← load a; b1 ← load b;
    forked ← dbos_fork_workflow (mkFork "fork-src" None 1 None None None);
    run_queue_turns 1 dbos internal_queue;;
    r' ← result_of dbos Z forked;
    a2 ← load a; b2 ← load b;
    mret (passes [eq_test r 11; eq_test a1 1; eq_test b1 1;
                  eq_test r' 12; eq_test a2 1; eq_test b2 2])).

Definition external_client_enqueue_and_manage : bool :=
  let double (_ : WorkflowContext) (n : Z) : M Z := mret (n * 2) in
  let dbos := process (register_workflow DbosBuilder_new "double" double) in
  scenario (
    handle ← client_enqueue "q" "double" 21 (mkEnqueue (Some "client-wf") None None None None None);
    run_queue_turns 1 dbos q;;
    r ← result_of dbos Value handle;
    listed ← client_list_workflows (ids ["client-wf"]);
    mret (passes [eq_test r (VNumber (NInt 42)); eq_test (ws_status <$> listed) [Success]])).

Lemma management_scenarios_pass :
  passes [list_workflows_and_steps; cancel_then_resume; fork_replays_copied_steps;
          external_client_enqueue_and_manage] = true.
Proof. vm_compute. reflexivity. Qed.
End ManagementScenarios.

(** ** tests/notifications.rs *)

Module NotificationScenarios.
Definition seconds (n : Z) : Duration.t := Duration.from_secs n.

(** Out of fuel, a body is still waiting. *)
Definition waited {A} (m : M (option A)) : M A :=
  r ← m; match r with Some a => mret a | None => raise (other "still waiting") end.

Definition send_and_recv : bool :=
  let receiver (ctx : WorkflowContext) (_ : unit) : M (option string) :=
    waited (recv 5 string ctx None (seconds 5)) in
  let sender (ctx : WorkflowContext) (dest : string) : M unit := send ctx dest "hello" None in
  let dbos := process (register_workflow (register_workflow DbosBuilder_new "receiver" receiver)
                         "sender" sender) in
  scenario (
    h ← run_workflow dbos "receiver" tt (with_id "recv-1");
    s ← run_workflow dbos "sender" "recv-1" any_id;
    finish_task dbos 1;;
    _ ← get_result 1 unit s;
    r ← result_of dbos (option string) h;
    mret (eq_test r (Some "hello"))).

Definition set_and_get_event : bool :=
  let publisher (ctx : WorkflowContext) (_ : unit) : M unit := set_event ctx "status" "ready" in
  let reader (ctx : WorkflowContext) (target : string) : M (option string) :=
    waited (get_event 5 string ctx target "status" (seconds 5)) in
  let dbos := process (register_workflow (register_workflow DbosBuilder_new "publisher" publisher)
                         "reader" reader) in
  scenario (
    p ← run_workflow dbos "publisher" tt (with_id "pub-1");
    _ ← result_of dbos unit p;
    h ← run_workflow dbos "reader" "pub-1" any_id;
    r ← result_of dbos (option string) h;
    mret (eq_test r (Some "ready"))).

Definition recv_times_out : bool :=
  let waiter (ctx : WorkflowContext) (_ : unit) : M (option string) :=
    waited (recv 40 string ctx None (Duration.from_millis 200)) in
  let dbos := process (register_workflow DbosBuilder_new "waiter" waiter) in
  scenario (
    h ← run_workflow dbos "waiter" tt any_id;
    r ← result_of dbos (option string) h;
    mret (eq_test r None)).

Definition get_event_times_out : bool :=
  let reader (ctx : WorkflowContext) (_ : unit) : M (option string) :=
    waited (get_event 40 string ctx "nobody" "missing" (Duration.from_millis 200)) in
  let dbos := process (register_workflow DbosBuilder_new "reader" reader) in
  scenario (
    h ← run_workflow dbos "reader" tt any_id;
    r ← result_of dbos (option string) h;
    mret (eq_test r None)).

Definition send_to_nonexistent_workflow_errors : bool :=
  let bad_sender (ctx : WorkflowContext) (_ : unit) : M unit := send ctx "does-not-exist" "x" None in
  let dbos := process (register_workflow DbosBuilder_new "bad_sender" bad_sender) in
  scenario (
    h ← run_workflow dbos "bad_sender" tt any_id;
    assert_err (result_of dbos unit h) (λ err, eq_test (code_i32 err) (as_i32 NonExistentWorkflow))).

Lemma notification_scenarios_pass :
  passes [send_and_recv; set_and_get_event; recv_times_out; get_event_times_out;
          send_to_nonexistent_workflow_errors] = true.
Proof. vm_compute. reflexivity. Qed.
End NotificationScenarios.

(** ** tests/queues.rs *)

Module QueueScenarios.
Import Queue_builder.
Definition q : WorkflowQueue := base_polling_interval (Duration.from_millis 10) (WorkflowQueue_new "q").

(** [enqueue] of each input. *)
Definition enqueue_all {P} `{Serialize P} (dbos : DbosInner) (name : string) (l : list (P * option Z))
    : M (list WorkflowHandle) :=
  foldr (λ ip rest, h ← enqueue dbos "q" name ip.1 (mkEnqueue None None ip.2 None None None);
                    hs ← rest; mret (h :: hs)) (mret []) l.

Fixpoint results_of (inner : DbosInner) (R : Type) `{Deserialize R} (hs : list WorkflowHandle) : M (list R) :=
  match hs with
  | [] => mret []
  | h :: hs => r ← result_of inner R h; rs ← results_of inner R hs; mret (r :: rs)
  end.

Definition enqueue_runs_and_returns_results : bool :=
  let double (_ : WorkflowContext) (n : Z) : M Z := mret (n * 2) in
  let dbos := process (register_workflow DbosBuilder_new "double" double) in
  scenario (
    handles ← enqueue_all dbos "double" [(0, None); (1, None); (2, None); (3, None); (4, None)];
    run_queue_turns 1 dbos q;;
    rs ← results_of dbos Z handles;
    mret (eq_test rs [0; 2; 4; 6; 8])).

(** Turns in which the bodies stay in flight: the most that are at once, over
    [n] turns with the first of them ending after each. *)
Fixpoint most_in_flight (n : nat) (dbos : DbosInner) (queue : WorkflowQueue) : M nat :=
  match n with
  | O => mret 0%nat
  | S n =>
      _ ← run_queue_turn dbos queue;
      running ← gets (length ∘ w_tasks);
      finish_task dbos 0;;
      later ← most_in_flight n dbos queue;
      mret (running `max` later)%nat
  end.

Definition limits_parallelism (queue : WorkflowQueue) (limit : nat) : bool :=
  let slow (_ : WorkflowContext) (_ : unit) : M unit := mret tt in
  let dbos := process (register_workflow DbosBuilder_new "slow" slow) in
  scenario (
    handles ← enqueue_all dbos "slow" (replicate 6 (tt, None));
    max_seen ← most_in_flight 8 dbos queue;
    rs ← results_of dbos unit handles;
    mret (passes [eq_test max_seen limit; eq_test (length rs) 6%nat])).

Definition global_concurrency_limits_parallelism : bool := limits_parallelism (global_concurrency 1 q) 1.
Definition worker_concurrency_limits_parallelism : bool := limits_parallelism (worker_concurrency 2 q) 2.

(** [order.push(id)]: the counter [2000 + id] becomes the position. *)
Definition priority_ordering : bool :=
  let record (_ : WorkflowContext) (id : Z) : M unit :=
    n ← fetch_add 1000; modify (λ w, w <| w_counters ::= <[(2000 + Z.to_nat id)%nat := n]> |>) in
  let dbos := process (register_workflow DbosBuilder_new "record" record) in
  let queue := priority_enabled (global_concurrency 1 q) in
  scenario (
    handles ← enqueue_all dbos "record"
      [(0, None); (1, Some 1); (2, Some 2); (3, Some 3); (4, Some 4); (5, Some 5); (6, None); (7, None)];
    run_queue_turns 8 dbos queue;;
    _ ← results_of dbos unit handles;
    order ← gets (λ w, (λ id, default (-1) (w_counters w !! (2000 + id)%nat)) <$> [0; 6; 7; 1; 2; 3; 4; 5]%nat);
    mret (eq_test order [0; 1; 2; 3; 4; 5; 6; 7])).

Definition deduplication_rejects_duplicate : bool :=
  let noop (_ : WorkflowContext) (_ : unit) : M unit := mret tt in
  let dbos := process (register_workflow DbosBuilder_new "noop" noop) in
  let opts := mkEnqueue None (Some "dup") None None None None in
  scenario (
    h1 ← enqueue dbos "q" "noop" tt opts;
    dup ← assert_err (enqueue dbos "q" "noop" tt opts) (λ err,
      eq_test (code_i32 err) (as_i32 QueueDeduplicated));
    run_queue_turns 1 dbos q;;
    _ ← result_of dbos unit h1;
    mret dup).

(** The clock is before the end of the delay after one turn of the runner,
    and past it after forty. *)
Definition delayed_execution : bool :=
  let echo (_ : WorkflowContext) (n : Z) : M Z := mret n in
  let dbos := process (register_workflow DbosBuilder_new "echo" echo) in
  scenario (
    h ← enqueue dbos "q" "echo" 7 (mkEnqueue None None None None (Some (Duration.from_millis 300)) None);
    status ← handle_get_status h;
    run_queue_turns 1 dbos q;;
    early ← handle_get_status h;
    run_queue_turns 40 dbos q;;
    r ← result_of dbos Z h;
    mret (passes [eq_test status (Some Delayed); eq_test early (Some Delayed); eq_test r 7])).

Definition rate_limiter_throttles_into_waves : bool :=
  let tick (_ : WorkflowContext) (_ : unit) : M unit := _ ← fetch_add 1000; mret tt in
  let dbos := process (register_workflow DbosBuilder_new "tick" tick) in
  let queue := rate_limit 2 (Duration.from_millis 400) q in
  scenario (
    handles ← enqueue_all dbos "tick" (replicate 4 (tt, None));
    run_queue_turns 3 dbos queue;;
    first_wave ← load 1000;
    run_queue_turns 40 dbos queue;;
    all ← load 1000;
    _ ← results_of dbos unit handles;
    mret (passes [eq_test first_wave 2; eq_test all 4])).

Definition unit_envelope : string := quoted "{'positionalArgs':[null],'namedArgs':{}}".

(** A row that was interrupted. *)
Definition interrupted (name executor version : string) (queue : option string) (attempts : Z)
    (inputs : string) : wf_row :=
  let r := inserted_row (sample_input "forged" name "PENDING" queue) in
  mkWf (wf_status r) (wf_name r) None None None None None (Some executor) (wf_created_at r)
    (wf_updated_at r) (Some version) None None None attempts queue None None (Some inputs) None None
    0 None None None None (Some PORTABLE_NAME) None false false None.

Definition queue_recovery_reenqueues_claimed_workflow : bool :=
  let qtask (_ : WorkflowContext) (_ : unit) : M string := _ ← fetch_add 1000; mret "done" in
  let dbos := process (register_workflow DbosBuilder_new "qtask" qtask) in
  scenario (
    done ← enqueue dbos "q" "qtask" tt no_options;
    run_queue_turns 1 dbos q;;
    r ← result_of dbos string done;
    forge "stuck-task" ((interrupted "qtask" "local" "v1" (Some "q") 1 unit_envelope)
                          <| wf_started_at_epoch_ms := Some 1 |>);;
    _ ← recover_own_workflows dbos;
    run_queue_turns 1 dbos q;;
    r' ← result_of dbos string (retrieve_workflow "stuck-task");
    ran ← load 1000;
    mret (passes [eq_test r "done"; eq_test r' "done"; eq_test ran 2])).

Lemma queue_scenarios_pass :
  passes [enqueue_runs_and_returns_results; global_concurrency_limits_parallelism;
          worker_concurrency_limits_parallelism; priority_ordering; deduplication_rejects_duplicate;
          delayed_execution; rate_limiter_throttles_into_waves;
          queue_recovery_reenqueues_claimed_workflow] = true.
Proof. vm_compute. reflexivity. Qed.
End QueueScenarios.

(** ** tests/concurrency.rs *)

(** The runners of two executors on one schema; slots and bodies are those of
    each process, the rows are shared. *)
Definition two_executors_run_one_queued_workflow_exactly_once : bool :=
  let task (_ : WorkflowContext) (n : Z) : M Z := _ ← fetch_add 1000; mret (n * 2) in
  let built := b_registry (register_workflow DbosBuilder_new "task" task) in
  let a := mkInner "exec-a" "v1" None built in
  let b := mkInner "exec-b" "v1" None built in
  scenario (
    h ← enqueue a "q" "task" 21 (mkEnqueue (Some "queued-1") None None None None None);
    _ ← run_queue_turn b QueueScenarios.q;
    _ ← run_queue_turn a QueueScenarios.q;
    r ← result_of b Z h;
    run_queue_turns 3 a QueueScenarios.q;;
    run_queue_turns 3 b QueueScenarios.q;;
    runs ← load 1000;
    mret (passes [eq_test r 42; eq_test runs 1])).

(** ** tests/recovery.rs and tests/cross_sdk_interop.rs *)

Module RecoveryScenarios.
Import QueueScenarios.

(** The first process runs the body up to the point where it hangs. *)
Definition crash_recovery_replays_steps : bool :=
  let side_effects := 1000%nat in
  let side_effect (ctx : WorkflowContext) : M unit :=
    run_step ctx "side_effect" (λ _, _ ← fetch_add side_effects; mret tt) in
  let recoverable (ctx : WorkflowContext) (_ : unit) : M string := side_effect ctx;; mret "done" in
  let dbos := process (register_workflow DbosBuilder_new "recoverable" recoverable) in
  scenario (
    _ ← run_workflow dbos "recoverable" tt (with_id "recover-target");
    tasks ← gets w_tasks;
    match tasks with
    | [t] => side_effect (mkContext (mkState (t_workflow_id t) (t_state t) (t_auth t)) false)
    | _ => raise (other "one body expected")
    end;;
    crash side_effects;;
    _ ← recover_own_workflows dbos;
    r ← result_of dbos string (retrieve_workflow "recover-target");
    runs ← load side_effects;
    row ← row_of "recover-target";
    mret (passes [eq_test r "done"; eq_test runs 1;
                  eq_test (wf_recovery_attempts <$> row) (Some 2)])).

Definition dead_letter_queue_after_max_retries : bool :=
  let dlq_wf (_ : WorkflowContext) (_ : unit) : M string := mret "ok" in
  let dbos := process (register_workflow_with_options DbosBuilder_new "dlq_wf" (mkRegistration 2) dlq_wf) in
  scenario (
    done ← run_workflow dbos "dlq_wf" tt any_id;
    r ← result_of dbos string done;
    forge "dlq-target" ((interrupted "dlq_wf" "local" "v1" None 3 "null")
       <| wf_deduplication_id := Some "dedup-x" |> <| wf_started_at_epoch_ms := Some 999 |>);;
    _ ← recover_own_workflows dbos;
    row ← row_of "dlq-target";
    dead ← assert_err (result_of dbos string (retrieve_workflow "dlq-target")) (λ err,
      eq_test (code_i32 err) (as_i32 DeadLetterQueue));
    mret (passes [
      eq_test r "ok";
      eq_test ((λ r, (wf_status r, wf_deduplication_id r, wf_started_at_epoch_ms r, wf_queue_name r)) <$> row)
        (Some ("MAX_RECOVERY_ATTEMPTS_EXCEEDED", None, None, None));
      dead])).

Definition recovery_runs_workflow_with_no_recorded_steps : bool :=
  let w (ctx : WorkflowContext) (_ : unit) : M Z :=
    run_step ctx "s" (λ _, _ ← fetch_add 1000; mret 7) in
  let dbos := process (register_workflow DbosBuilder_new "w" w) in
  scenario (
    warm ← run_workflow dbos "w" tt any_id;
    r ← result_of dbos Z warm;
    runs1 ← load 1000;
    forge "crashed-pre-step" (interrupted "w" "local" "v1" None 1 unit_envelope);;
    _ ← recover_own_workflows dbos;
    r' ← result_of dbos Z (retrieve_workflow "crashed-pre-step");
    runs2 ← load 1000;
    row ← row_of "crashed-pre-step";
    steps ← recorded_steps "crashed-pre-step";
    mret (passes [eq_test r 7; eq_test runs1 1; eq_test r' 7; eq_test runs2 2;
                  eq_test (wf_recovery_attempts <$> row) (Some 2); eq_test (length steps) 1%nat])).

Definition recovery_gated_by_executor_id_and_application_version : bool :=
  let noop (_ : WorkflowContext) (_ : unit) : M string := mret "done" in
  let dbos := process (register_workflow DbosBuilder_new "noop" noop) in
  scenario (
    forge "same" (interrupted "noop" "local" "v1" None 1 unit_envelope);;
    forge "diff_ver" (interrupted "noop" "local" "OTHER_APP_VERSION" None 1 unit_envelope);;
    forge "diff_exec" (interrupted "noop" "ts-executor-1" "v1" None 1 unit_envelope);;
    recovered ← recover_own_workflows dbos;
    adopted ← recover_workflows dbos ["ts-executor-1"];
    r ← result_of dbos string (retrieve_workflow "diff_exec");
    mret (passes [eq_test recovered ["same"]; eq_test adopted ["diff_exec"]; eq_test r "done"])).

Lemma recovery_scenarios_pass :
  passes [two_executors_run_one_queued_workflow_exactly_once; crash_recovery_replays_steps;
          dead_letter_queue_after_max_retries; recovery_runs_workflow_with_no_recorded_steps;
          recovery_gated_by_executor_id_and_application_version] = true.
Proof. vm_compute. reflexivity. Qed.
End RecoveryScenarios.

(** ** tests/streams.rs *)

Module StreamScenarios.
Fixpoint write_all (ctx : WorkflowContext) (l : list Z) : M unit :=
  match l with [] => mret tt | i :: l => write_stream ctx "feed" i;; write_all ctx l end.

(** The values 0, 1 and 2 are read back, with the closing flag. *)
Definition produces {R} `{Serialize R, Deserialize R} (workflow : string) (body : WorkflowContext → M R) : bool :=
  let producer (ctx : WorkflowContext) (_ : unit) : M R := body ctx in
  let dbos := process (register_workflow DbosBuilder_new "producer" producer) in
  scenario (
    h ← run_workflow dbos "producer" tt (with_id workflow);
    _ ← result_of dbos R h;
    read ← read_stream 5 Z workflow "feed";
    mret (eq_test read (Some ([0; 1; 2], true)))).

Definition produce_and_consume_with_close : bool :=
  produces "prod-1" (λ ctx, write_all ctx [0; 1; 2];; close_stream ctx "feed").
Definition stream_closes_when_producer_finishes : bool :=
  produces "prod-2" (λ ctx, write_all ctx [0; 1; 2];; mret "done").

Definition writing_to_closed_stream_errors : bool :=
  let bad (ctx : WorkflowContext) (_ : unit) : M unit :=
    write_stream ctx "s" 1;; close_stream ctx "s";; write_stream ctx "s" 2 in
  let dbos := process (register_workflow DbosBuilder_new "bad" bad) in
  scenario (
    h ← run_workflow dbos "bad" tt any_id;
    assert_err (result_of dbos unit h) (λ err, str_contains "already closed" (error_to_string err))).

Lemma stream_scenarios_pass :
  passes [produce_and_consume_with_close; stream_closes_when_producer_finishes;
          writing_to_closed_stream_errors] = true.
Proof. vm_compute. reflexivity. Qed.
End StreamScenarios.

(** ** tests/cross_sdk_serialization.rs *)

(** The bytes are those the TypeScript SDK writes (fixtures/ts_serialization.json). *)
Module TypeScriptFixtures.
Import SerializeTests.

Record WhenN := mkWhenN { wn_when : string; wn_n : Z }.
#[export] Instance WhenN_eq_dec : EqDecision WhenN.
Proof. solve_decision. Defined.
#[export] Instance WhenN_Deserialize : Deserialize WhenN := from_object (λ field,
  w ← required "when" (field "when"); n ← required "n" (field "n"); inr (mkWhenN w n)).
Record AB := mkAB { ab_a : Z; ab_b : option Z }.
#[export] Instance AB_eq_dec : EqDecision AB.
Proof. solve_decision. Defined.
#[export] Instance AB_Deserialize : Deserialize AB := from_object (λ field,
  a ← required "a" (field "a"); b ← defaulted None (field "b"); inr (mkAB a b)).
(** A struct of a single field. *)
Definition only_field {T} `{Deserialize T} (k s : string) : Result T :=
  v ← decode_value Value (Some (quoted s)) None;
  lift_serde (from_object (λ field, required k (field k)) v).

Definition decodes (T : Type) `{Deserialize T, EqDecision T} (s : string) (x : T) : bool :=
  on_ok (sj T s) (λ y, eq_test y x).

Definition decodes_real_ts_superjson_bytes : bool :=
  passes [
    decodes Z "{'json':42,'__dbos_serializer':'superjson'}" 42;
    decodes string "{'json':'hello','__dbos_serializer':'superjson'}" "hello";
    decodes bool "{'json':true,'__dbos_serializer':'superjson'}" true;
    decodes (option Z) "{'json':null,'__dbos_serializer':'superjson'}" None;
    decodes (list Z) "{'json':[1,2,3],'__dbos_serializer':'superjson'}" [1; 2; 3];
    decodes Value "{'json':{'a':1,'b':{'c':'x'},'d':[true,null]},'__dbos_serializer':'superjson'}"
      (VObject [("a", VNumber (NInt 1)); ("b", VObject [("c", VString "x")]);
                ("d", VArray [VBool true; VNull])]);
    decodes string
      "{'json':'2024-01-02T03:04:05.000Z','meta':{'values':['Date'],'v':1},'__dbos_serializer':'superjson'}"
      "2024-01-02T03:04:05.000Z";
    decodes Z
      "{'json':'9007199254740993','meta':{'values':['bigint'],'v':1},'__dbos_serializer':'superjson'}"
      9007199254740993;
    decodes (BTreeMap Z)
      "{'json':[['a',1],['b',2]],'meta':{'values':['map'],'v':1},'__dbos_serializer':'superjson'}"
      (mkBTreeMap [("a", 1); ("b", 2)]);
    decodes (list Z)
      "{'json':[1,2,3],'meta':{'values':['set'],'v':1},'__dbos_serializer':'superjson'}" [1; 2; 3];
    decodes WhenN
      "{'json':{'when':'2024-01-02T03:04:05.000Z','n':5},'meta':{'values':{'when':['Date']},'v':1},'__dbos_serializer':'superjson'}"
      (mkWhenN "2024-01-02T03:04:05.000Z" 5);
    decodes AB
      "{'json':{'a':1,'b':null},'meta':{'values':{'b':['undefined']},'v':1},'__dbos_serializer':'superjson'}"
      (mkAB 1 None)].

Definition decodes_legacy_dbosjson_rows_with_null_serialization : bool :=
  passes [
    on_ok (decode_value Z (Some "42") None) (λ n, eq_test n 42);
    on_ok (only_field "when" "{'when':{'dbos_type':'dbos_Date','dbos_data':'2024-01-02T03:04:05.000Z'}}")
      (λ s, eq_test s "2024-01-02T03:04:05.000Z");
    on_ok (only_field "big" "{'big':{'dbos_type':'dbos_BigInt','dbos_data':'123456789012345'}}")
      (λ n, eq_test n 123456789012345)].

Lemma fixtures_decode :
  passes [decodes_real_ts_superjson_bytes; decodes_legacy_dbosjson_rows_with_null_serialization] = true.
Proof. vm_compute. reflexivity. Qed.
End TypeScriptFixtures.
